(* ===== verification/_CoqProject ===== *)
-Q . S2P
Prelude.v
SocketBitmap.v
Commpage.v
MldrSpace.v
MachLoader.v
MldrStart.v
LaunchData.v
LaunchTypes.v
LaunchMsg.v
Machine.v
Threads.v
ThreadSafety.v
ThreadLife.v
LaunchChannel.v
LaunchClient.v
FutexLock.v
FutexOnce.v
FutexRwlock.v
DtapeMutex.v
LockRefinement.v
DtapeHooks.v
DtapeMemory.v
DtapeShared.v
TaskRegistry.v
SearchPaths.v
StartupItems.v
SystemStarter.v
Calendar.v
CalendarJobs.v
JobPolicy.v
JobProcess.v
JobAccounts.v
JobEnds.v
CalendarRun.v
Shellspawn.v
OsxieClient.v
OsxieSession.v
OsxieMain.v
