(* ===== verification/Prelude.v ===== *)
(** * Osxie: a verification development for the runtime of the Osxie
    (macOS-on-Linux) compatibility layer

    Osxie runs macOS binaries on Linux.  The [osxie] command finds or starts the container and
    asks the [shellspawn] daemon in it to run a program or a shell.  [mldr] is the ELF program that loads a Mach-O
    executable and its dynamic linker into memory, prepares the commpage, the server sockets
    and the initial stack, and jumps to the linker.  Inside the container [launchd] starts and
    supervises services: its clients send it property lists through [liblaunch], its calendar
    jobs wait in a timer queue, and [SystemStarter] runs the legacy startup items in the order
    of their dependencies.  Every Mach call of a process goes to [osxieserver], whose C layer
    ([duct-tape]) implements the primitives XNU expects: mutexes of microthreads, the memory
    of tasks, memory shared between tasks.  The older kernel module keeps a registry of tasks
    and threads.  [libsimple] gives the host-side code locks on futexes, and
    [libsystem_coreservices] enumerates the standard directories.

    ** Files

    - [Prelude] (this file): machine integers with their wrap-around, the result type [res] of
      C functions (value, error, undefined behaviour, fuel), little-endian memory blocks, bits,
      C strings, and the shared lemmas and automation.

    mldr, [src/src/startup/mldr]:
    - [SocketBitmap]: [socket_bitmap_get/put] and the functions that open and close the server
      sockets and the lifetime pipe ([mldr.c]).  The state is the bitmap record with its
      heap buffer.
    - [Commpage]: [commpage_setup] and [get_cpu_caps] ([commpage.c]) on the bytes of the page.
    - [MldrSpace]: the kernel version test, [compatible_mmap], [setup_space] ([mldr.c]); the
      state carries the history of mapping requests, from which the memory map is read.
    - [MachLoader]: [load], [load_fat], [load64] with every load command ([mldr.c], [loader.c]),
      from the bytes of the file.
    - [MldrStart]: [main], the special environment, the moves of [argv] and [envp] on their byte
      blocks, path conversion, [setup_stack64] ([mldr.c], [stack.c]).
    - [Threads]: creating, entering and ending threads ([elfcalls/threads.c], [dthreads.h]); the
      state holds pages, thread structures, the frames of the creators and the sockets, on
      [SocketBitmap].  [ThreadSafety]: the invariant of its interleavings.  [ThreadLife]: its
      theorems.

    launchd, [src/src/launchd]:
    - [LaunchData]: the property-list values and the dictionary and array functions of
      [liblaunch.c]; [dict_map] is the finite map a dictionary stands for.
    - [LaunchTypes]: the values that belong to each type of launch data, and the calls that fit
      a type.
    - [LaunchMsg]: [launch_data_pack/unpack], [launchd_fdopen], [launchd_msg_send/recv]; the
      socket is the list of its answers.
    - [LaunchChannel]: two connections and the stream socket between them; sends, retries and
      receives are the steps.
    - [LaunchClient]: the client side of [liblaunch.c]: opening the connection, [launch_msg] with
      its transaction, the queue of asynchronous messages, security sessions, check-in.
    - [Calendar]: [cronemu] and its helpers, [cronemu_wday] ([core.c]).
    - [CalendarJobs]: reading [StartCalendarInterval], the sorted queue of intervals ([core.c]);
      it uses [LaunchData] and [Calendar].
    - [JobPolicy]: the decisions of [job_dispatch] and [job_start], the resource limits
      ([core.c]); a history of dispatches is a step relation.
    - [JobProcess]: what the decisions lead to ([core.c]): forking, stopping, reaping and removing
      jobs, the events of processes and timers, anonymous jobs, session switches and suspended
      per-user launchds, over the hash lists and counters of launchd.
    - [JobAccounts]: the invariant that lists and counters agree with the jobs, for every event.
    - [JobEnds]: every event ends, what an exit leads to, and states that go wrong.
    - [CalendarRun]: [calendarinterval_callback] ([core.c]), on [CalendarJobs] and [JobProcess].
    - [StartupItems]: loading, matching, dependents, the choice of the next item, running and
      statuses ([StartupItems.c]) on a heap of shared items.
    - [SystemStarter]: the run loop and the handlers of terminated items ([SystemStarter.c],
      [IPC.c]) as a machine that takes one event per turn; it uses [StartupItems].

    libsimple, [src/src/libsimple/src/lock.c], as threads that take one atomic step at a time
    over shared words and futex queues:
    - [Machine]: thread tables, the rule for invariants of reachable states, and the
      specification of a lock with the class [RefinesLock].
    - [FutexLock]: [libsimple_lock] and [libsimple_condvar].
    - [FutexOnce]: [libsimple_once].
    - [FutexRwlock]: [libsimple_rwlock].

    osxieserver, [src/src/external/osxieserver/duct-tape], and the kernel module:
    - [DtapeMutex]: [dtape_mutex] ([locks.c]) and [dtape_condvar] ([condvar.c]) as microthreads
      and native threads over the queue lock and the wait queues.
    - [LockRefinement]: the instances of [RefinesLock] for [libsimple_lock] and [dtape_mutex].
    - [DtapeHooks]: the interface to the server (class [Hooks], with the laws [HooksLaws] about
      the memory of tasks it shows, up to the equivalence of views: calls may fail and
      transfers may be partial) and a concrete instance.
    - [DtapeMemory]: copying, allocating, deallocating and describing the memory of tasks
      ([memory.c]), in a state and fault monad, for any instance of the hooks.
    - [DtapeShared]: maps, shared descriptors and entries, [mach_vm_remap_external]
      ([memory.c]).
    - [TaskRegistry]: [src/src/external/lkm/osxie/task_registry.c], its hash tables with their
      heap of entries.

    The command and its daemon, [src/src/startup/osxie.c] and [src/src/shellspawn]:
    - [Shellspawn]: a connection of [shellspawn.c], from the bytes of the client, the events and
      the answers of the system to the calls it makes; [duct_signals.c].
    - [OsxieClient]: what [osxie.c] sends (commands, environment, quoted command line, signals)
      and the exit code it takes from the reply, in a state and exit monad.
    - [OsxieSession]: the composition of the two.
    - [OsxieMain]: the prefix, the init process and [main].

    libsystem_coreservices:
    - [SearchPaths]: [NSSystemDirectories.c], the table and the packed enumeration state.

    ** What the theorems show

    - Loading: the memory a segment of whole pages occupies holds the bytes of its slice of the
      file and zeroes, and nothing else changes; the slice of a fat file that is chosen;
      loading recurses at most once and the frame of a nested load; the stack the program
      starts on, word by word; what happens to arguments, environment and paths, at the exact
      lengths where buffers overflow.
    - Descriptors: [socket_bitmap_get/put] maintain the bitmap and hand out free descriptors, on
      errors too; the shrinking loop drops descriptors in use.
    - Threads: in every interleaving without a failed [mmap] and without emptying the last byte
      of the bitmap no step is undefined, threads share neither sockets nor stacks, and a creator
      returns once its thread is registered; what happens when [mmap] or [pthread_create]
      fails, when the main thread ends, and with many threads.
    - Messages: unpacking inverts packing, never reads outside the buffer and always ends;
      when the first [sendmsg] of each message takes its header, what is sent is received, in
      order and whole, in every interleaving and in pieces of any size, and otherwise the
      header is lost; the dictionary functions refine finite maps with case-folded keys; calls
      that fit the type of a node are defined and keep it, for array indices that have an
      address; malformed messages are shown as errors of the code.  A transaction of a client
      sends the request once and returns the one reply, whatever the pieces; submitted jobs
      get their session; opening the connection leaks nothing.
    - Locks: mutual exclusion, no lost wake-ups, exactly-once execution, under every
      interleaving with spurious wake-ups; the lock of libsimple, and the mutex of the server
      without [dtape_mutex_try_lock] by microthreads, refine one specification.
    - Memory of tasks: a copy of readable memory, as much as one system call moves, transfers
      the bytes the source had, and its buffer is released on every path; a partial transfer
      counts as a success; memory sent in a message arrives unchanged; deallocation removes
      exactly the pages of the range; remapping shares memory where no old entry is in the
      way, loses no readable byte, and keeps counts and files consistent; destroying a map
      releases the entries of its tree.
    - Registry: the hash tables refine two finite maps, and where they differ from the header.
    - The command: what is asked for is executed, with the caller's arguments, environment,
      directory and identity, and the exit code comes back; quoting is exact; signals arrive;
      every connection ends with one reply and no process left; what [main] runs and when.
    - Calendar: the time that is computed is in the future, and the first that matches for days
      that every month has (except in minute 59 when any minute will do); the queue stays
      sorted; when the timer fires, what is due is dispatched and rescheduled and nothing stays
      overdue, unless a dispatch removes a job with intervals.
    - Jobs: respawns are at least the minimum run time apart unless one of four things excuses
      them, and the timer ends the wait on time; the limits of a job are those of its
      dictionaries.  After every event the counters and hash lists of launchd agree with its
      jobs; every event ends, but for a cycle of traced processes without memory; a job that is
      kept alive is started again when it exits.
    - Startup items: the chosen item is ready and best, items run once and after what they
      require, the loop ends; dependents are the reachable items.
    - Directories: the enumeration is the list of the table for every directory and mask.

    Theorems that show an error of the code say so in their comment.

    ** Parameters, fuel and bounds

    The kernel, libc, the socket, CoreFoundation and osxieserver are arguments of the
    definitions (records of functions or lists of answers); what is assumed of them is stated
    where it is used.  Where a loop is not structural it takes fuel: [load] recurses at most
    twice; [launch_data_unpack] needs no more levels than the buffer has bytes;
    [appendDependents] no more than there are items; [JobProcess.dispatch] one level more than
    there are jobs, since each level marks one as being removed; [job_new_anonymous] one more
    than there are processes; the calendar loops 25, 32, 13 and 2 turns
    (hours, days, months, years) and 8 for weekdays.  Theorems state that this is enough.
    Integers keep their width where the code can leave it.

    ** Not modelled

    - The rest of launchd's [core.c] (reading the keys of a job's dictionary, the child side of
      fork, Mach services, external events, job managers, jobs with several instances), its run
      loop, launchctl and the mig-generated stubs: mostly calls into Mach and kqueue.
    - The C library's time functions are those of the Gregorian calendar with a fixed offset;
      daylight saving is left out.
    - Weak memory: the lock operations are sequentially consistent steps.
    - The 32-bit loader and threads, and the dlopen wrappers of [mldr/elfcalls]: assembly and
      host libraries.  Of [osxie.c]: spawning osxieserver and terminal modes; of [shellspawn.c]: the accept loop.
    - Vendored code under [src/src/external], the generated framework stubs, the C++ part of
      osxieserver, the files of its C layer that only call into XNU, and the XNU part of the
      kernel module.
    - Of [memory.c]: the zone and page stubs, [mach_vm_remap_new_external], memory entries.

    ** Plan

    What could follow: jobs with several instances, local time with daylight saving, the timers and kqueue
    channels of [duct-tape]. *)

From stdpp Require Export base tactics list gmap strings.
From Stdlib Require Export ZArith Lia.

#[export] Set Default Goal Selector "!".

Declare Scope osxie_scope.
Delimit Scope osxie_scope with osxie.
Open Scope Z_scope.

(** ** Machine integers

    C integers are [Z] values; a conversion to a [w]-bit type is written out
    where the source performs one. *)

Definition u8 (x : Z) : Z := x mod 2 ^ 8.
Definition u16 (x : Z) : Z := x mod 2 ^ 16.
Definition u32 (x : Z) : Z := x mod 2 ^ 32.
Definition u64 (x : Z) : Z := x mod 2 ^ 64.

Definition sext (w x : Z) : Z :=
  let y := x mod 2 ^ w in if y <? 2 ^ (w - 1) then y else y - 2 ^ w.
Definition i32 (x : Z) : Z := sext 32 x.
Definition i64 (x : Z) : Z := sext 64 x.

(** ** Results

    [res E A] is the result of a C function: a value, an orderly failure (an
    [exit(1)] or an error return, with the reason), undefined behaviour (an
    access outside an object, a use after free, a read of an uninitialised
    variable), or exhaustion of the fuel of a loop. *)

Inductive res (E A : Type) : Type :=
  | Ok (a : A)
  | Err (e : E)
  | UB
  | NoFuel.
Arguments Ok {E A} a.
Arguments Err {E A} e.
Arguments UB {E A}.
Arguments NoFuel {E A}.

#[export] Instance res_ret (E : Type) : MRet (res E) := fun A a => Ok a.
#[export] Instance res_bind (E : Type) : MBind (res E) := fun A B f m =>
  match m with
  | Ok a => f a
  | Err e => Err e
  | UB => UB
  | NoFuel => NoFuel
  end.

Definition is_ok {E A : Type} (m : res E A) : bool :=
  match m with Ok _ => true | _ => false end.

(** A callee that has no orderly failure, in a caller that has some. *)
Definition lift_ub {E A : Type} (m : res Empty_set A) : res E A :=
  match m with Ok a => Ok a | Err e => match e with end | UB => UB | NoFuel => NoFuel end.

(** A memory access: outside the object the behaviour is undefined. *)
Definition access {E A : Type} (o : option A) : res E A :=
  match o with Some a => Ok a | None => UB end.

Lemma bind_Ok {E A B} (a : A) (f : A → res E B) : mbind f (Ok a) = f a.
Proof. reflexivity. Qed.

Lemma bind_inv {E A B} (m : res E A) (f : A → res E B) (b : B) :
  mbind f m = Ok b → ∃ a, m = Ok a ∧ f a = Ok b.
Proof. destruct m; simpl; intros H; try discriminate. eauto. Qed.

Lemma bind_ext {E A B} (m m' : res E A) (f g : A → res E B) :
  m = m' → (∀ a, m = Ok a → f a = g a) → mbind f m = mbind g m'.
Proof. intros <- Hfg. destruct m; cbn; [by apply Hfg|done|done|done]. Qed.

(** A computation that does not run out of fuel. *)
Definition terminates {E A : Type} (m : res E A) : Prop := m ≠ NoFuel.

Lemma bind_terminates {E A B} (m : res E A) (f : A → res E B) :
  terminates m → (∀ a, m = Ok a → terminates (f a)) → terminates (mbind f m).
Proof. unfold terminates. destruct m; cbn; intros Hm Hf; [by apply Hf|done|done|done]. Qed.

(** [ensures m P]: [m] is defined (no undefined behaviour, no lack of fuel) and a
    value it returns satisfies [P]. *)
Definition ensures {E A : Type} (m : res E A) (P : A → Prop) : Prop :=
  match m with Ok a => P a | Err _ => True | UB | NoFuel => False end.

Lemma ensures_bind {E A B} (m : res E A) (f : A → res E B) P Q :
  ensures m P → (∀ a, P a → ensures (f a) Q) → ensures (mbind f m) Q.
Proof. destruct m; cbn; auto. Qed.

Lemma ensures_inv {E A} (m : res E A) P a : ensures m P → m = Ok a → P a.
Proof. by intros H ->. Qed.

Lemma access_terminates {E A} (o : option A) : terminates (E := E) (access o).
Proof. by destruct o. Qed.

(** ** Automation *)

Create HintDb osxie.

(** [lia] knows quotients and remainders by constants. *)
Ltac Zify.zify_post_hook ::= Z.to_euclidean_division_equations.

(** Case analysis on the scrutinee of the first [match] of the goal, with the
    equation kept. *)
Ltac case_goal :=
  match goal with
  | |- context [match ?x with _ => _ end] => destruct x eqn:?
  end.

(** Inversion of a chain of binds that ended in a value. *)
Ltac inv_bind H :=
  repeat (apply bind_inv in H; let a := fresh "v" in let E := fresh "Hv" in
          destruct H as (a & E & H)).

(** Boolean comparisons of [Z] turned into propositions. *)
Ltac zbool :=
  repeat match goal with
  | H : context [Z.eqb ?a ?b] |- _ => destruct (Z.eqb_spec a b)
  | H : context [Z.ltb ?a ?b] |- _ => destruct (Z.ltb_spec a b)
  | H : context [Z.leb ?a ?b] |- _ => destruct (Z.leb_spec a b)
  | |- context [Z.eqb ?a ?b] => destruct (Z.eqb_spec a b)
  | |- context [Z.ltb ?a ?b] => destruct (Z.ltb_spec a b)
  | |- context [Z.leb ?a ?b] => destruct (Z.leb_spec a b)
  end.

(** ** Integer lemmas *)

Lemma u64_small x : 0 ≤ x < 2 ^ 64 → u64 x = x.
Proof. intros. apply Z.mod_small. lia. Qed.

Lemma u8_small x : 0 ≤ x < 2 ^ 8 → u8 x = x.
Proof. intros. apply Z.mod_small. lia. Qed.

Lemma u64_range x : 0 ≤ u64 x < 2 ^ 64.
Proof. apply Z.mod_pos_bound. lia. Qed.

Lemma i32_small x : - 2 ^ 31 ≤ x < 2 ^ 31 → i32 x = x.
Proof.
  intros H. unfold i32, sext.
  destruct (Z.ltb_spec (x mod 2 ^ 32) (2 ^ (32 - 1))).
  - destruct (Z.le_gt_cases 0 x).
    + apply Z.mod_small. lia.
    + rewrite <- (Z_mod_plus_full x 1), Z.mod_small in * by lia. lia.
  - destruct (Z.le_gt_cases 0 x).
    + rewrite Z.mod_small in * by lia. lia.
    + rewrite <- (Z_mod_plus_full x 1), Z.mod_small in * by lia. lia.
Qed.

Create Rewrite HintDb osxie_rw.
#[export] Hint Rewrite @bind_Ok : osxie_rw.
#[export] Hint Resolve u64_range : osxie.

Lemma land_lnot_7 x : Z.land x (Z.lnot 7) = x / 8 * 8.
Proof.
  rewrite <- Z.ldiff_land. change 7 with (Z.ones 3).
  by rewrite Z.ldiff_ones_r, Z.shiftl_mul_pow2, Z.shiftr_div_pow2 by lia.
Qed.

(** ** Lists *)

Lemma lookup_map {A B} (f : A → B) (l : list A) i x :
  l !! i = Some x → map f l !! i = Some (f x).
Proof. revert i. induction l as [|y l IH]; intros [|i] H; cbn in *; naive_solver. Qed.

(** ** Byte-wise bit operations *)

Lemma testbit_set b k i :
  0 ≤ k → 0 ≤ i →
  Z.testbit (Z.lor b (Z.shiftl 1 k)) i = (Z.testbit b i || (k =? i)).
Proof.
  intros Hk Hi. rewrite Z.lor_spec, Z.shiftl_1_l, Z.pow2_bits_eqb by lia.
  reflexivity.
Qed.

Lemma testbit_clear b k i :
  0 ≤ k → 0 ≤ i →
  Z.testbit (Z.land b (Z.lnot (Z.shiftl 1 k))) i = (Z.testbit b i && negb (k =? i)).
Proof.
  intros Hk Hi.
  rewrite Z.land_spec, Z.lnot_spec, Z.shiftl_1_l, Z.pow2_bits_eqb by lia.
  reflexivity.
Qed.

Lemma land_bit_zero b k :
  0 ≤ k → (Z.land b (Z.shiftl 1 k) =? 0) = negb (Z.testbit b k).
Proof.
  intros Hk. rewrite Z.shiftl_1_l.
  destruct (Z.testbit b k) eqn:Hb; cbn [negb].
  - apply Z.eqb_neq. intros H.
    assert (Z.testbit (Z.land b (2 ^ k)) k = true) as Ht
      by (rewrite Z.land_spec, Hb, Z.pow2_bits_true by lia; reflexivity).
    rewrite H, Z.bits_0 in Ht. discriminate.
  - apply Z.eqb_eq, Z.bits_inj'. intros i Hi.
    rewrite Z.land_spec, Z.bits_0, Z.pow2_bits_eqb by lia.
    destruct (Z.eqb_spec k i); subst; [rewrite Hb; reflexivity|apply andb_false_r].
Qed.

Lemma byte_bits_above b i : 0 ≤ b < 2 ^ 8 → 8 ≤ i → Z.testbit b i = false.
Proof.
  intros Hb Hi. destruct (Z.eq_dec b 0) as [->|]; [apply Z.bits_0|].
  apply Z.bits_above_log2; [lia|].
  apply Z.log2_lt_pow2; [lia|]. apply Z.lt_le_trans with (2 ^ 8); [lia|].
  apply Z.pow_le_mono_r; lia.
Qed.

Lemma byte_range_set b k : 0 ≤ b < 2 ^ 8 → 0 ≤ k < 8 →
  0 ≤ Z.lor b (Z.shiftl 1 k) < 2 ^ 8.
Proof.
  intros Hb Hk. rewrite Z.shiftl_1_l. split.
  - apply Z.lor_nonneg. split; [lia|]. apply Z.pow_nonneg. lia.
  - assert (0 < 2 ^ k) by (apply Z.pow_pos_nonneg; lia).
    destruct (Z.eq_dec (Z.lor b (2 ^ k)) 0) as [->|]; [lia|].
    assert (0 ≤ Z.lor b (2 ^ k)) by (apply Z.lor_nonneg; lia).
    apply Z.log2_lt_cancel. rewrite Z.log2_lor by lia.
    apply Z.max_lub_lt.
    + destruct (Z.eq_dec b 0) as [->|]; [reflexivity|].
      change (Z.log2 (2 ^ 8)) with 8. apply Z.log2_lt_pow2; lia.
    + rewrite Z.log2_pow2 by lia. change (Z.log2 (2 ^ 8)) with 8. lia.
Qed.

Lemma byte_range_clear b m : 0 ≤ b < 2 ^ 8 → 0 ≤ Z.land b m < 2 ^ 8.
Proof.
  intros Hb. split; [apply Z.land_nonneg; lia|].
  rewrite <- (Z.mod_small b (2 ^ 8)) by lia. rewrite <- Z.land_ones by lia.
  rewrite <- Z.land_assoc, (Z.land_comm _ m), Z.land_assoc, Z.land_ones by lia.
  apply Z.mod_pos_bound. lia.
Qed.

#[export] Hint Resolve byte_range_set byte_range_clear : osxie.

(** ** Little-endian bytes and raw memory

    A memory object is the list of its bytes.  [peek] and [poke] are the
    accesses of a C program through a pointer: outside the object they are
    undefined. *)

Fixpoint le_bytes (n : nat) (v : Z) : list Z :=
  match n with
  | O => []
  | S n => v mod 256 :: le_bytes n (v / 256)
  end.

Fixpoint le_val (l : list Z) : Z :=
  match l with
  | [] => 0
  | y :: l => y + 256 * le_val l
  end.

Definition peek {E : Type} (m : list Z) (off : Z) (n : nat) : res E (list Z) :=
  if (0 <=? off) && (off + Z.of_nat n <=? Z.of_nat (length m))
  then Ok (take n (drop (Z.to_nat off) m)) else UB.

Definition poke {E : Type} (m : list Z) (off : Z) (bs : list Z) : res E (list Z) :=
  if (0 <=? off) && (off + Z.of_nat (length bs) <=? Z.of_nat (length m))
  then Ok (take (Z.to_nat off) m ++ bs ++ drop (Z.to_nat off + length bs) m) else UB.

Definition peek_le {E : Type} (m : list Z) (off : Z) (n : nat) : res E Z :=
  bs ← peek m off n; Ok (le_val bs).

Lemma peek_terminates {E} m off n : terminates (E := E) (peek m off n).
Proof. unfold peek. by destruct (_ && _). Qed.

Lemma poke_terminates {E} m off bs : terminates (E := E) (poke m off bs).
Proof. unfold poke. by destruct (_ && _). Qed.

Lemma peek_le_terminates {E} m off n : terminates (E := E) (peek_le m off n).
Proof. apply bind_terminates; [apply peek_terminates|done]. Qed.

#[export] Hint Resolve access_terminates peek_terminates poke_terminates
  peek_le_terminates : osxie.

(** Walks through binds and branches of a computation that contains no loop. *)
Ltac solve_terminates :=
  repeat first
    [ assumption
    | done
    | solve [eauto with osxie]
    | match goal with
      | |- terminates (mbind _ _) => apply bind_terminates; [|intros ? _]
      | |- terminates (match ?x with _ => _ end) => destruct x
      | |- terminates (let '(_, _) := ?x in _) => destruct x
      end ].

Definition poke_le {E : Type} (m : list Z) (off : Z) (n : nat) (v : Z) : res E (list Z) :=
  poke m off (le_bytes n v).

Lemma length_le_bytes n v : length (le_bytes n v) = n.
Proof. revert v. induction n as [|n IH]; intros v; simpl; [done|]. by rewrite IH. Qed.

Lemma le_val_bytes n v : le_val (le_bytes n v) = v mod 256 ^ Z.of_nat n.
Proof.
  revert v. induction n as [|n IH]; intros v; cbn [le_bytes le_val].
  - by rewrite Z.mod_1_r.
  - rewrite IH. rewrite Nat2Z.inj_succ, Z.pow_succ_r by lia.
    rewrite Z.rem_mul_r by lia. lia.
Qed.

Lemma le_val_range l :
  Forall (fun b => 0 ≤ b < 256) l → 0 ≤ le_val l < 256 ^ Z.of_nat (length l).
Proof.
  induction 1 as [|b l Hb _ IH]; [cbn; lia|]. cbn [le_val length].
  rewrite Nat2Z.inj_succ, Z.pow_succ_r by lia. lia.
Qed.

Lemma peek_le_range {E} m off n v :
  peek_le (E := E) m off n = Ok v → Forall (fun b => 0 ≤ b < 256) m →
  0 ≤ v < 256 ^ Z.of_nat n.
Proof.
  unfold peek_le. intros H Hm. apply bind_inv in H as (bs & Hp & H). injection H as <-.
  unfold peek in Hp. destruct (_ && _) eqn:Hb; [|done]. injection Hp as <-.
  apply andb_true_iff in Hb as [?%Z.leb_le ?%Z.leb_le].
  replace n with (length (take n (drop (Z.to_nat off) m))) at 3
    by (rewrite length_take, length_drop; lia).
  by apply le_val_range, Forall_take, Forall_drop.
Qed.

(** Loads inside the object. *)
Lemma ensures_peek {E} m off n :
  0 ≤ off → off + Z.of_nat n ≤ Z.of_nat (length m) →
  ensures (E := E) (peek m off n) (fun bs => length bs = n).
Proof.
  intros H1 H2. unfold peek. rewrite (proj2 (Z.leb_le _ _)), (proj2 (Z.leb_le _ _)) by lia.
  cbn. rewrite length_take, length_drop. lia.
Qed.

Lemma ensures_peek_le {E} m off n :
  0 ≤ off → off + Z.of_nat n ≤ Z.of_nat (length m) → Forall (fun b => 0 ≤ b < 256) m →
  ensures (E := E) (peek_le m off n) (fun v => 0 ≤ v < 256 ^ Z.of_nat n).
Proof.
  intros H1 H2 Hm. destruct (peek_le m off n) eqn:Hp.
  - by eapply peek_le_range.
  - done.
  - unfold peek_le, peek in Hp. by rewrite (proj2 (Z.leb_le _ _)), (proj2 (Z.leb_le _ _)) in Hp by lia.
  - unfold peek_le, peek in Hp. by rewrite (proj2 (Z.leb_le _ _)), (proj2 (Z.leb_le _ _)) in Hp by lia.
Qed.

Lemma le_val_bytes_small n v :
  0 ≤ v < 256 ^ Z.of_nat n → le_val (le_bytes n v) = v.
Proof. intros H. rewrite le_val_bytes. by apply Z.mod_small. Qed.

Lemma poke_inv {E} m off bs (m' : list Z) :
  poke (E := E) m off bs = Ok m' →
  0 ≤ off ∧ off + Z.of_nat (length bs) ≤ Z.of_nat (length m) ∧ length m' = length m ∧
  m' = take (Z.to_nat off) m ++ bs ++ drop (Z.to_nat off + length bs) m.
Proof.
  unfold poke. destruct ((0 <=? off) && _) eqn:H; [|done]. intros [= <-].
  apply andb_true_iff in H as [?%Z.leb_le ?%Z.leb_le]. split_and!; try done.
  rewrite !length_app, length_take, length_drop. lia.
Qed.

(** A store of [bs] after a prefix of known bytes. *)
Lemma poke_app {E} a b bs :
  (length bs ≤ length b)%nat →
  poke (E := E) (a ++ b) (Z.of_nat (length a)) bs = Ok (a ++ bs ++ drop (length bs) b).
Proof.
  intros H. unfold poke. rewrite length_app.
  rewrite (proj2 (Z.leb_le _ _)), (proj2 (Z.leb_le _ _)) by lia. cbn [andb].
  by rewrite Nat2Z.id, take_app_length, drop_app_add.
Qed.

Lemma poke_UB {E} m off bs :
  Z.of_nat (length m) < off + Z.of_nat (length bs) → poke (E := E) m off bs = UB.
Proof.
  intros H. unfold poke. rewrite (proj2 (Z.leb_gt _ (Z.of_nat (length m)))) by lia.
  by rewrite andb_false_r.
Qed.

Lemma poke_Ok {E} m off bs :
  0 ≤ off → off + Z.of_nat (length bs) ≤ Z.of_nat (length m) →
  ∃ m', poke (E := E) m off bs = Ok m' ∧ length m' = length m.
Proof.
  intros H1 H2. destruct (poke (E := E) m off bs) as [m'| | |] eqn:Hp.
  - exists m'. split; [done|]. apply poke_inv in Hp. naive_solver.
  - unfold poke in Hp. destruct (_ && _) in Hp; done.
  - unfold poke in Hp. rewrite (proj2 (Z.leb_le 0 off)), (proj2 (Z.leb_le _ _)) in Hp by lia. done.
  - unfold poke in Hp. destruct (_ && _) in Hp; done.
Qed.

Lemma lookup_poke {E} m off bs m' k :
  poke (E := E) m off bs = Ok m' →
  m' !! k = if decide (Z.to_nat off ≤ k < Z.to_nat off + length bs)%nat
            then bs !! (k - Z.to_nat off)%nat else m !! k.
Proof.
  intros (H1 & H2 & H3 & ->)%poke_inv.
  destruct (decide _) as [[Ha Hb]|Hn].
  - rewrite lookup_app_r by (rewrite length_take; lia).
    rewrite length_take, lookup_app_l by lia. f_equal. lia.
  - destruct (decide (k < Z.to_nat off)%nat).
    + rewrite lookup_app_l by (rewrite length_take; lia). by rewrite lookup_take_lt by lia.
    + rewrite lookup_app_r by (rewrite length_take; lia).
      rewrite lookup_app_r by (rewrite length_take; lia).
      rewrite length_take, lookup_drop. f_equal. lia.
Qed.

(** Reading what was written, and reading somewhere else. *)
Lemma peek_poke_eq {E} m off bs m' :
  poke (E := E) m off bs = Ok m' → peek (E := E) m' off (length bs) = Ok bs.
Proof.
  intros Hp. pose proof Hp as (H1 & H2 & H3 & _)%poke_inv. unfold peek. rewrite H3.
  rewrite (proj2 (Z.leb_le 0 off)), (proj2 (Z.leb_le _ _)) by lia. cbn [andb]. f_equal.
  apply list_eq. intros k. destruct (decide (k < length bs)%nat).
  - rewrite lookup_take_lt, lookup_drop, (lookup_poke _ _ _ _ _ Hp) by lia.
    rewrite decide_True by lia. f_equal. lia.
  - rewrite lookup_take_ge by lia. symmetry. apply lookup_ge_None. lia.
Qed.

Lemma peek_poke_ne {E} m off bs m' o n :
  poke (E := E) m off bs = Ok m' → 0 ≤ o →
  o + Z.of_nat n ≤ off ∨ off + Z.of_nat (length bs) ≤ o →
  peek (E := E) m' o n = peek m o n.
Proof.
  intros Hp Ho Hd. pose proof Hp as (H1 & H2 & H3 & _)%poke_inv. unfold peek. rewrite H3.
  destruct (_ && _); [|done]. f_equal.
  apply list_eq. intros k. destruct (decide (k < n)%nat).
  - rewrite !lookup_take_lt, !lookup_drop, (lookup_poke _ _ _ _ _ Hp) by lia.
    by rewrite decide_False by lia.
  - by rewrite !lookup_take_ge by lia.
Qed.

Lemma peek_le_poke_eq {E} m off n v m' :
  poke_le (E := E) m off n v = Ok m' →
  peek_le (E := E) m' off n = Ok (v mod 256 ^ Z.of_nat n).
Proof.
  unfold poke_le, peek_le. intros Hp. apply peek_poke_eq in Hp.
  rewrite length_le_bytes in Hp. rewrite Hp, bind_Ok. by rewrite le_val_bytes.
Qed.

(** ** C strings

    A C string is the list of its bytes before the terminating NUL. *)

Definition cstr (s : string) : list Z :=
  map (fun c => Z.of_N (Ascii.N_of_ascii c)) (String.list_ascii_of_string s).

(** The string stored in a character array: the bytes up to the first NUL. *)
Fixpoint until_nul (l : list Z) : list Z :=
  match l with
  | [] => []
  | y :: l => if y =? 0 then [] else y :: until_nul l
  end.

Fixpoint bytes_eqb (a b : list Z) : bool :=
  match a, b with
  | [], [] => true
  | x :: a, y :: b => (x =? y) && bytes_eqb a b
  | _, _ => false
  end.

(** [strncmp(s, p, strlen(p)) == 0] *)
Definition has_prefix (p s : list Z) : bool := bytes_eqb p (take (length p) s).

Lemma bytes_eqb_spec a b : bytes_eqb a b = true ↔ a = b.
Proof.
  revert b. induction a as [|x a IH]; intros [|y b]; cbn; split; try done.
  - intros [->%Z.eqb_eq ->%IH]%andb_true_iff. done.
  - intros [= -> ->]. rewrite Z.eqb_refl. by apply IH.
Qed.

Lemma has_prefix_app p s : has_prefix p (p ++ s) = true.
Proof. unfold has_prefix. rewrite take_app_length. by apply bytes_eqb_spec. Qed.

Lemma has_prefix_spec p s : has_prefix p s = true ↔ ∃ t, s = p ++ t.
Proof.
  split; [|intros [t ->]; apply has_prefix_app].
  unfold has_prefix. intros E%bytes_eqb_spec. exists (drop (length p) s).
  rewrite E at 1. by rewrite take_drop.
Qed.
