(* ===== verification/SocketBitmap.v ===== *)
(** * The RPC socket bitmap of mldr ([src/src/startup/mldr/mldr.c])

    mldr hands out the descriptors of its osxieserver sockets from the top of
    the descriptor table downwards; [socket_bitmap] remembers which ones are
    taken.  This file models [socket_bitmap_get], [socket_bitmap_put], the two
    functions that create and close RPC sockets and the two that create and
    close the process-lifetime pipe, with the heap buffer of the bitmap as an
    object that can be resized, freed and accessed out of bounds. *)

From S2P Require Import Prelude.

(** ** Data *)

(** The pointer [bits]: [NULL], a live heap block, or a pointer to a block
    that has been freed. *)
Inductive buffer :=
  | NullBuf
  | Buf (bytes : list Z)
  | FreedBuf.

Record socket_bitmap := mkBitmap {
  next_index : Z;
  bits : buffer;
  bit_length : Z;
  highest : Z;
}.

Definition socket_bitmap_init : socket_bitmap := mkBitmap 0 NullBuf 0 (-1).

Definition RLIM_INFINITY : Z := 2 ^ 64 - 1.

(** What the C library and the kernel answer during one call: the
    [RLIMIT_NOFILE] soft limit ([None]: [getrlimit] fails), whether [realloc]
    finds memory, and the indeterminate value of a fresh byte. *)
Record libc_env := mkLibc {
  rlim_cur : option Z;
  alloc_ok : bool;
  junk : Z;
}.

(** [realloc(3)] as glibc documents it: the new block (or [NULL]) and what the
    old pointer designates afterwards.  A size of zero frees a live block and
    returns [NULL]; a freed pointer must not be passed. *)
Definition realloc_bytes (p : buffer) (n : Z) (ok : bool) (jnk : Z) :
    res Empty_set (option (list Z) * buffer) :=
  match p with
  | FreedBuf => UB
  | NullBuf =>
      if ok then Ok (Some (replicate (Z.to_nat n) jnk), NullBuf) else Ok (None, NullBuf)
  | Buf l =>
      if n =? 0 then Ok (None, FreedBuf)
      else if ok then
        Ok (Some (take (Z.to_nat n) l ++ replicate (Z.to_nat n - length l) jnk), FreedBuf)
      else Ok (None, Buf l)
  end.

Definition deref (p : buffer) : res Empty_set (list Z) :=
  match p with Buf l => Ok l | _ => UB end.

(** [bits[i]] read and written. *)
Definition load_byte (p : buffer) (i : Z) : res Empty_set Z :=
  l ← deref p; access (l !! Z.to_nat i).

Definition store_byte (p : buffer) (i v : Z) : res Empty_set buffer :=
  l ← deref p;
  if (0 <=? i) && (i <? Z.of_nat (length l)) then Ok (Buf (<[Z.to_nat i := u8 v]> l))
  else UB.

(** ** [socket_bitmap_get] *)

(** The first [if]: the table size is read once.  [false] is [goto out]. *)
Definition get_init_highest (e : libc_env) (b : socket_bitmap) : bool * socket_bitmap :=
  if highest b =? -1 then
    match rlim_cur e with
    | None => (false, b)
    | Some cur =>
        let cur := if cur =? RLIM_INFINITY then 1024 else cur in
        (true, mkBitmap (next_index b) (bits b) (bit_length b) (i32 (u64 (cur - 1))))
    end
  else (true, b).

(** The second [if]: one more bit, and one more byte when the last is full. *)
Definition get_grow (e : libc_env) (b : socket_bitmap) :
    res Empty_set (bool * socket_bitmap) :=
  if bit_length b <=? next_index b then
    if bit_length b mod 8 =? 0 then
      '(p, old) ← realloc_bytes (bits b) (bit_length b / 8 + 1) (alloc_ok e) (junk e);
      match p with
      | None => Ok (false, mkBitmap (next_index b) old (bit_length b) (highest b))
      | Some l =>
          bf ← store_byte (Buf l) (bit_length b / 8) 0;
          Ok (true, mkBitmap (next_index b) bf (bit_length b + 1) (highest b))
      end
    else Ok (true, mkBitmap (next_index b) (bits b) (bit_length b + 1) (highest b))
  else Ok (true, b).

(** The [for] loop that looks for the next clear bit, skipping full bytes. *)
Fixpoint scan_free (fuel : nat) (p : buffer) (len i : Z) : res Empty_set (option Z) :=
  match fuel with
  | O => NoFuel
  | S fuel =>
      if i <? len then
        byte ← load_byte p (i / 8);
        if (i mod 8 =? 0) && (byte =? 255) then scan_free fuel p len (i + 8)
        else if Z.land byte (Z.shiftl 1 (i mod 8)) =? 0 then Ok (Some i)
        else scan_free fuel p len (i + 1)
      else Ok None
  end.

Definition socket_bitmap_get (e : libc_env) (b : socket_bitmap) :
    res Empty_set (Z * socket_bitmap) :=
  let '(go, b) := get_init_highest e b in
  if negb go then Ok (-1, b) else
  '(go, b) ← get_grow e b;
  if negb go then Ok (-1, b) else
  let fd := i32 (u64 (u64 (highest b) - next_index b)) in
  byte ← load_byte (bits b) (next_index b / 8);
  p ← store_byte (bits b) (next_index b / 8)
        (Z.lor byte (Z.shiftl 1 (next_index b mod 8)));
  found ← scan_free (S (Z.to_nat (bit_length b))) p (bit_length b) (next_index b + 1);
  match found with
  | Some i => Ok (fd, mkBitmap i p (bit_length b) (highest b))
  | None => Ok (fd, mkBitmap (bit_length b) p (bit_length b) (highest b))
  end.

(** ** [socket_bitmap_put] *)

(** The [while] loop that shrinks [bit_length]. *)
Fixpoint shrink_bits (fuel : nat) (p : buffer) (len : Z) : res Empty_set Z :=
  match fuel with
  | O => NoFuel
  | S fuel =>
      if 0 <? len then
        last ← (if len mod 8 =? 0 then load_byte p (len / 8 - 1) else Ok 1);
        if last =? 0 then shrink_bits fuel p (len - 8)
        else
          byte ← load_byte p ((len - 1) / 8);
          if Z.land byte (Z.shiftl 1 ((len - 1) mod 8)) =? 0 then Ok len
          else shrink_bits fuel p (len - 1)
      else Ok len
  end.

Definition socket_bitmap_put (e : libc_env) (b : socket_bitmap) (socket : Z) :
    res Empty_set socket_bitmap :=
  let index := u64 (highest b - socket) in
  byte ← load_byte (bits b) (index / 8);
  p ← store_byte (bits b) (index / 8)
        (Z.land byte (Z.lnot (Z.shiftl 1 (index mod 8))));
  let next := if index <? next_index b then index else next_index b in
  if index =? u64 (bit_length b - 1) then
    let old_byte_size := (bit_length b + 7) / 8 in
    len ← shrink_bits (S (Z.to_nat (bit_length b))) p (bit_length b);
    let new_byte_size := (len + 7) / 8 in
    if old_byte_size =? new_byte_size then Ok (mkBitmap next p len (highest b))
    else
      '(q, old) ← realloc_bytes p new_byte_size (alloc_ok e) (junk e);
      match q with
      | None => Ok (mkBitmap next old len (highest b))
      | Some l => Ok (mkBitmap next (Buf l) len (highest b))
      end
  else Ok (mkBitmap next p (bit_length b) (highest b)).

(** ** RPC sockets and the lifetime pipe *)

(** What the system calls of one [__mldr_create_rpc_socket] answer. *)
Record rpc_env := mkRpc {
  rpc_get : libc_env;
  rpc_put : libc_env;
  rpc_socket : Z;
  rpc_dup2 : bool;
  rpc_getfd : Z;
  rpc_setfd : bool;
  rpc_bind : bool;
}.

(** The label [err_out]; the last component is the log of [close] calls. *)
Definition rpc_err_out (e : rpc_env) (b : socket_bitmap) (fd pre_fd : Z)
    (closed : list Z) : res Empty_set (Z * socket_bitmap * list Z) :=
  '(b, closed) ← (if 0 <=? fd then
                    b ← socket_bitmap_put (rpc_put e) b fd; Ok (b, closed ++ [fd])
                  else Ok (b, closed));
  let closed := if 0 <=? pre_fd then closed ++ [pre_fd] else closed in
  Ok (-1, b, closed).

Definition mldr_create_rpc_socket (e : rpc_env) (b : socket_bitmap) :
    res Empty_set (Z * socket_bitmap * list Z) :=
  let pre_fd := rpc_socket e in
  if pre_fd <? 0 then rpc_err_out e b (-1) pre_fd [] else
  '(fd, b) ← socket_bitmap_get (rpc_get e) b;
  if fd <? 0 then rpc_err_out e b fd pre_fd [] else
  if negb (rpc_dup2 e) then
    b ← socket_bitmap_put (rpc_put e) b fd;
    rpc_err_out e b (-1) pre_fd []
  else
  let closed := [pre_fd] in
  if rpc_getfd e <? 0 then rpc_err_out e b fd (-1) closed else
  if negb (rpc_setfd e) then rpc_err_out e b fd (-1) closed else
  if negb (rpc_bind e) then rpc_err_out e b fd (-1) closed else
  Ok (fd, b, closed).

Definition mldr_close_rpc_socket (e : libc_env) (b : socket_bitmap) (socket : Z) :
    res Empty_set (socket_bitmap * list Z) :=
  b ← socket_bitmap_put e b socket; Ok (b, [socket]).

Record pipe_env := mkPipe {
  pipe_kernel_5_3 : bool;
  pipe_fds : option (Z * Z);
  pipe_get : nat → libc_env;
  pipe_put : nat → libc_env;
  pipe_dup2 : nat → bool;
}.

(** The locals of [__mldr_create_process_lifetime_pipe]: [None] is an array
    element that has not been written. *)
Record pipe_state := mkPipeState {
  ps_bitmap : socket_bitmap;
  ps_fds : list (option Z);
  ps_pre : list (option Z);
  ps_closed : list Z;
}.

Definition read_local (l : list (option Z)) (i : nat) : res Empty_set Z :=
  access (mjoin (l !! i)).

(** One iteration of the loop over the two ends; [false] is [goto err_out]. *)
Definition pipe_end (e : pipe_env) (s : pipe_state) (i : nat) :
    res Empty_set (bool * pipe_state) :=
  '(fd, b) ← socket_bitmap_get (pipe_get e i) (ps_bitmap s);
  let s := mkPipeState b (<[i := Some fd]> (ps_fds s)) (ps_pre s) (ps_closed s) in
  if fd <? 0 then Ok (false, s) else
  if negb (pipe_dup2 e i) then
    b ← socket_bitmap_put (pipe_put e i) b fd;
    Ok (false, mkPipeState b (<[i := Some (-1)]> (ps_fds s)) (ps_pre s) (ps_closed s))
  else
    pre ← read_local (ps_pre s) i;
    Ok (true, mkPipeState b (ps_fds s) (<[i := Some (-1)]> (ps_pre s))
                          (ps_closed s ++ [pre])).

(** The loop at [err_out]. *)
Definition pipe_err_end (e : pipe_env) (s : pipe_state) (i : nat) :
    res Empty_set pipe_state :=
  fd ← read_local (ps_fds s) i;
  s ← (if 0 <=? fd then
         b ← socket_bitmap_put (pipe_put e i) (ps_bitmap s) fd;
         Ok (mkPipeState b (ps_fds s) (ps_pre s) (ps_closed s ++ [fd]))
       else Ok s);
  pre ← read_local (ps_pre s) i;
  Ok (if 0 <=? pre then
        mkPipeState (ps_bitmap s) (ps_fds s) (ps_pre s) (ps_closed s ++ [pre])
      else s).

Definition pipe_err_out (e : pipe_env) (s : pipe_state) :
    res Empty_set (Z * pipe_state) :=
  s ← pipe_err_end e s 0; s ← pipe_err_end e s 1; Ok (-1, s).

Definition mldr_create_process_lifetime_pipe (e : pipe_env) (b : socket_bitmap)
    (fds : list (option Z)) : res Empty_set (Z * pipe_state) :=
  if pipe_kernel_5_3 e then Ok (0, mkPipeState b [Some (-1); Some (-1)] [] [])
  else
    match pipe_fds e with
    | None => pipe_err_out e (mkPipeState b fds [None; None] [])
    | Some (r, w) =>
        let s := mkPipeState b fds [Some r; Some w] [] in
        '(go, s) ← pipe_end e s 0;
        if negb go then pipe_err_out e s else
        '(go, s) ← pipe_end e s 1;
        if negb go then pipe_err_out e s else Ok (0, s)
    end.

Definition mldr_close_process_lifetime_pipe (e : libc_env) (b : socket_bitmap) (fd : Z) :
    res Empty_set (socket_bitmap * list Z) :=
  if negb (fd =? -1) then b ← socket_bitmap_put e b fd; Ok (b, [fd]) else Ok (b, []).

(** ** The abstract view: which indices are taken *)

Definition used (l : list Z) (i : Z) : bool :=
  match l !! Z.to_nat (i / 8) with
  | Some y => Z.testbit y (i mod 8)
  | None => false
  end.

Definition bytes_of (p : buffer) : list Z :=
  match p with Buf l => l | _ => [] end.

Definition taken (b : socket_bitmap) (i : Z) : bool := used (bytes_of (bits b)) i.

Definition bytes_ok (l : list Z) : Prop := Forall (fun y => 0 ≤ y < 2 ^ 8) l.

(** The representation invariant: the buffer is live and exactly as long as
    [bit_length] needs, [next_index] is the lowest clear index ([bit_length]
    when there is none), and nothing is set beyond [bit_length]. *)
Record bitmap_wf (b : socket_bitmap) : Prop := {
  wf_live : bits b ≠ FreedBuf;
  wf_null : bits b = NullBuf → bit_length b = 0;
  wf_size : Z.of_nat (length (bytes_of (bits b))) = (bit_length b + 7) / 8;
  wf_bytes : bytes_ok (bytes_of (bits b));
  wf_fits : 0 ≤ bit_length b ≤ highest b + 1;
  wf_next : 0 ≤ next_index b ≤ bit_length b;
  wf_below : ∀ i, 0 ≤ i < next_index b → taken b i = true;
  wf_free : taken b (next_index b) = false;
  wf_above : ∀ i, bit_length b ≤ i → taken b i = false;
  wf_high : -1 ≤ highest b < 2 ^ 31;
}.

Lemma bytes_ok_lookup l k y : bytes_ok l → l !! k = Some y → 0 ≤ y < 2 ^ 8.
Proof. intros H Hk. eapply (Forall_lookup_1 _ _ _ _ H Hk). Qed.

Lemma div8_lookup (l : list Z) i :
  0 ≤ i < 8 * Z.of_nat (length l) → ∃ y, l !! Z.to_nat (i / 8) = Some y.
Proof. intros H. apply lookup_lt_is_Some_2. lia. Qed.

Lemma load_byte_Buf l i y :
  l !! Z.to_nat i = Some y → load_byte (Buf l) i = Ok y.
Proof. intros H. unfold load_byte. simpl. rewrite H. reflexivity. Qed.

Lemma store_byte_Buf l i v :
  0 ≤ i < Z.of_nat (length l) →
  store_byte (Buf l) i v = Ok (Buf (<[Z.to_nat i := u8 v]> l)).
Proof.
  intros H. unfold store_byte. simpl.
  rewrite (proj2 (Z.leb_le 0 i)), (proj2 (Z.ltb_lt i _)) by lia. reflexivity.
Qed.

Lemma bytes_ok_insert l k v : bytes_ok l → bytes_ok (<[k := u8 v]> l).
Proof.
  intros H. apply Forall_insert; [exact H|]. apply Z.mod_pos_bound. lia.
Qed.

(** Setting and clearing one bit of one byte changes one index. *)
Lemma used_insert l i j y v g :
  l !! Z.to_nat (i / 8) = Some y → 0 ≤ i → 0 ≤ j → 0 ≤ v < 2 ^ 8 →
  (∀ k, 0 ≤ k → Z.testbit v k = g (Z.testbit y k) (i mod 8 =? k)) →
  (∀ c, g c false = c) →
  used (<[Z.to_nat (i / 8) := u8 v]> l) j =
    if i =? j then g (used l j) true else used l j.
Proof.
  intros Hy Hi Hj Hv Hg Hid. unfold used. rewrite u8_small by exact Hv.
  destruct (decide (i / 8 = j / 8)) as [E|E].
  - rewrite <- E, list_lookup_insert_eq by (eapply lookup_lt_Some; eauto).
    rewrite Hy, Hg by (apply Z.mod_pos_bound; lia).
    destruct (Z.eqb_spec (i mod 8) (j mod 8)) as [F|F].
    + rewrite (proj2 (Z.eqb_eq i j)) by lia. reflexivity.
    + rewrite (proj2 (Z.eqb_neq i j)) by (intros ->; lia). apply Hid.
  - rewrite list_lookup_insert_ne by lia.
    rewrite (proj2 (Z.eqb_neq i j)) by (intros ->; lia). reflexivity.
Qed.

Lemma used_set l i j y :
  bytes_ok l → l !! Z.to_nat (i / 8) = Some y → 0 ≤ i → 0 ≤ j →
  used (<[Z.to_nat (i / 8) := u8 (Z.lor y (Z.shiftl 1 (i mod 8)))]> l) j =
    (used l j || (i =? j)).
Proof.
  intros Hl Hy Hi Hj. pose proof (bytes_ok_lookup _ _ _ Hl Hy).
  pose proof (Z.mod_pos_bound i 8).
  rewrite (used_insert l i j y _ orb); auto with osxie lia.
  - destruct (i =? j); destruct (used l j); reflexivity.
  - intros k Hk. apply testbit_set; lia.
  - intros []; reflexivity.
Qed.

Lemma used_clear l i j y :
  bytes_ok l → l !! Z.to_nat (i / 8) = Some y → 0 ≤ i → 0 ≤ j →
  used (<[Z.to_nat (i / 8) := u8 (Z.land y (Z.lnot (Z.shiftl 1 (i mod 8))))]> l) j =
    (used l j && negb (i =? j)).
Proof.
  intros Hl Hy Hi Hj. pose proof (bytes_ok_lookup _ _ _ Hl Hy).
  pose proof (Z.mod_pos_bound i 8).
  rewrite (used_insert l i j y _ (fun c d => c && negb d)); auto with osxie lia.
  - destruct (i =? j); destruct (used l j); reflexivity.
  - intros k Hk. apply testbit_clear; lia.
  - intros []; reflexivity.
Qed.

Lemma full_byte_used l i j :
  0 ≤ i → i mod 8 = 0 → l !! Z.to_nat (i / 8) = Some 255 → i ≤ j < i + 8 →
  used l j = true.
Proof.
  intros Hi Hm Hl Hj. unfold used. replace (j / 8) with (i / 8) by lia.
  rewrite Hl. change 255 with (Z.ones 8). apply Z.ones_spec_low. lia.
Qed.

(** [scan_free] finds the lowest clear index of the range and always stops. *)
Lemma scan_free_spec l len fuel i :
  bytes_ok l → len ≤ 8 * Z.of_nat (length l) → 0 ≤ i →
  len - i < Z.of_nat fuel → (0 < fuel)%nat →
  ∃ r, scan_free fuel (Buf l) len i = Ok r ∧
    match r with
    | Some k => i ≤ k < len ∧ used l k = false ∧ ∀ j, i ≤ j < k → used l j = true
    | None => ∀ j, i ≤ j < len → used l j = true
    end.
Proof.
  intros Hok Hlen. revert i. induction fuel as [|fuel IH]; intros i Hi Hf Hpos; [lia|].
  cbn [scan_free]. destruct (Z.ltb_spec i len) as [Hlt|Hge].
  2: { exists None. split; [reflexivity|]. intros; lia. }
  destruct (div8_lookup l i) as [y Hy]; [lia|].
  rewrite (load_byte_Buf _ _ _ Hy), bind_Ok.
  destruct ((i mod 8 =? 0) && (y =? 255)) eqn:Hskip.
  - apply andb_true_iff in Hskip as [Hm ->%Z.eqb_eq].
    apply Z.eqb_eq in Hm. destruct fuel as [|fuel']; [lia|].
    destruct (IH (i + 8)) as (r & -> & Hr); [lia..|].
    exists r. split; [reflexivity|].
    assert (∀ j, i ≤ j < i + 8 → used l j = true) as Hfull
      by (intros; eapply full_byte_used; eauto).
    destruct r as [k|]; [destruct Hr as (? & ? & Hr); repeat split; try lia; try done|];
      intros j Hj; (destruct (Z.lt_ge_cases j (i + 8)); [apply Hfull; lia|apply Hr; lia]).
  - rewrite land_bit_zero by lia.
    assert (used l i = Z.testbit y (i mod 8)) as Hu by (unfold used; rewrite Hy; done).
    destruct (Z.testbit y (i mod 8)) eqn:Hb; cbn [negb].
    + destruct fuel as [|fuel']; [lia|].
      destruct (IH (i + 1)) as (r & -> & Hr); [lia..|].
      exists r. split; [reflexivity|].
      destruct r as [k|]; [destruct Hr as (? & ? & Hr); repeat split; try lia; try done|];
        intros j Hj; (destruct (Z.eq_dec j i) as [->|]; [exact Hu|apply Hr; lia]).
    + exists (Some i). split; [reflexivity|]. repeat split; try lia; try done.
Qed.

(** ** [socket_bitmap_get] against the invariant *)

(** The descriptor limit is one an [int] descriptor can reach. *)
Definition libc_ok (e : libc_env) : Prop :=
  ∀ c, rlim_cur e = Some c → 1 ≤ c ≤ 2 ^ 31 ∨ c = RLIM_INFINITY.

(** The descriptor table still has a number for the next index. *)
Definition room (e : libc_env) (b : socket_bitmap) : Prop :=
  next_index b ≤ highest (snd (get_init_highest e b)).

Lemma get_init_highest_wf e b go b' :
  bitmap_wf b → libc_ok e → get_init_highest e b = (go, b') →
  bitmap_wf b' ∧ next_index b' = next_index b ∧ bit_length b' = bit_length b ∧
  bits b' = bits b ∧ (go = false → b' = b) ∧
  (go = false ↔ highest b = -1 ∧ rlim_cur e = None).
Proof.
  intros Hwf He. unfold get_init_highest.
  destruct (Z.eqb_spec (highest b) (-1)) as [Hh|Hh].
  2: { intros [= <- <-]. repeat split; try done; apply Hwf || naive_solver. }
  destruct (rlim_cur e) as [c|] eqn:Hc; intros [= <- <-].
  2: { repeat split; try done; apply Hwf. }
  split_and!; try done; [|naive_solver].
  set (c' := if c =? RLIM_INFINITY then 1024 else c).
  assert (1 ≤ c' ≤ 2 ^ 31) as Hc'.
  { specialize (He c Hc). subst c'. destruct (Z.eqb_spec c RLIM_INFINITY); lia. }
  assert (i32 (u64 (c' - 1)) = c' - 1) as Hi
    by (rewrite u64_small, i32_small; lia).
  destruct Hwf; split; cbn; unfold taken in *; cbn in *; try done; rewrite Hi; lia.
Qed.

Lemma used_snoc_zero l i : 0 ≤ i → used (l ++ [0]) i = used l i.
Proof.
  intros Hi. unfold used. rewrite lookup_app.
  destruct (l !! Z.to_nat (i / 8)) eqn:E; [reflexivity|].
  destruct (Z.to_nat (i / 8) - length l)%nat as [|n]; cbn; [apply Z.bits_0|reflexivity].
Qed.

(** What [realloc] and the zeroing of the new byte leave in the buffer. *)
Lemma grow_buffer e b :
  bitmap_wf b → bit_length b mod 8 = 0 → alloc_ok e = true →
  ∃ l old, realloc_bytes (bits b) (bit_length b / 8 + 1) (alloc_ok e) (junk e) =
             Ok (Some l, old) ∧
    store_byte (Buf l) (bit_length b / 8) 0 = Ok (Buf (bytes_of (bits b) ++ [0])).
Proof.
  intros [? Hnull Hsize Hbytes Hlen _ _ _ _ _] Hm ->. unfold realloc_bytes.
  destruct (bits b) as [|l|] eqn:Hb; [| |done].
  - exists [junk e], NullBuf. rewrite (Hnull eq_refl). split; reflexivity.
  - cbn [bytes_of] in *.
    rewrite (proj2 (Z.eqb_neq (bit_length b / 8 + 1) 0)) by lia.
    replace (Z.to_nat (bit_length b / 8 + 1)) with (length l + 1)%nat by lia.
    rewrite take_ge by lia.
    replace (length l + 1 - length l)%nat with 1%nat by lia.
    exists (l ++ [junk e]), FreedBuf. split; [reflexivity|].
    rewrite store_byte_Buf by (rewrite length_app; cbn [length]; lia).
    replace (Z.to_nat (bit_length b / 8)) with (length l + 0)%nat by lia.
    rewrite insert_app_r. reflexivity.
Qed.

(** After a successful [get_grow] there is a byte for [next_index] and no
    index has changed. *)
Lemma get_grow_spec e b :
  bitmap_wf b → alloc_ok e = true →
  ∃ l len, get_grow e b = Ok (true, mkBitmap (next_index b) (Buf l) len (highest b)) ∧
    bytes_ok l ∧ Z.of_nat (length l) = (len + 7) / 8 ∧
    next_index b < len ∧ (next_index b ≤ highest b → len ≤ highest b + 1) ∧
    bit_length b ≤ len ≤ bit_length b + 1 ∧
    (∀ i, 0 ≤ i → used l i = taken b i).
Proof.
  intros Hwf Halloc. pose proof Hwf as [Hlive Hnull Hsize Hbytes Hlen Hnext _ _ _ Hh].
  unfold get_grow. destruct (Z.leb_spec (bit_length b) (next_index b)) as [Hle|Hlt].
  - destruct (Z.eqb_spec (bit_length b mod 8) 0) as [Hm|Hm].
    + destruct (grow_buffer e b Hwf Hm Halloc) as (l & old & -> & Hst).
      rewrite bind_Ok, Hst, bind_Ok.
      exists (bytes_of (bits b) ++ [0]), (bit_length b + 1).
      split_and!; try done; try lia.
      * apply Forall_app. split; [exact Hbytes|]. apply Forall_singleton. lia.
      * rewrite length_app. cbn [length]. lia.
      * intros i Hi. apply used_snoc_zero, Hi.
    + destruct (bits b) as [|l|] eqn:Hb; [|clear Hnull|done].
      { rewrite (Hnull eq_refl) in Hm. done. }
      exists l, (bit_length b + 1). cbn [bytes_of] in *. unfold taken. rewrite Hb.
      split_and!; try done; lia.
  - destruct b as [ni [|l|] bl hi]; cbn in *; [|clear Hnull|done].
    { rewrite (Hnull eq_refl) in Hlt. lia. }
    exists l, bl. unfold taken. cbn. split_and!; try done; lia.
Qed.

(** Setting the bit of [n] and scanning for the next clear one. *)
Lemma mark_and_scan l len n :
  bytes_ok l → Z.of_nat (length l) = (len + 7) / 8 → 0 ≤ n < len →
  (∀ i, len ≤ i → used l i = false) →
  ∃ y l' r, load_byte (Buf l) (n / 8) = Ok y ∧
    store_byte (Buf l) (n / 8) (Z.lor y (Z.shiftl 1 (n mod 8))) = Ok (Buf l') ∧
    scan_free (S (Z.to_nat len)) (Buf l') len (n + 1) = Ok r ∧
    bytes_ok l' ∧ length l' = length l ∧
    (∀ i, 0 ≤ i → used l' i = (used l i || (i =? n))) ∧
    let nx := default len r in
    n < nx ≤ len ∧ (∀ j, n < j < nx → used l' j = true) ∧ used l' nx = false.
Proof.
  intros Hok Hsz Hn Habove.
  destruct (div8_lookup l n) as [y Hy]; [lia|].
  set (l' := <[Z.to_nat (n / 8) := u8 (Z.lor y (Z.shiftl 1 (n mod 8)))]> l).
  assert (length l' = length l) as Hlen' by apply length_insert.
  assert (bytes_ok l') as Hok' by by apply bytes_ok_insert.
  assert (∀ i, 0 ≤ i → used l' i = (used l i || (i =? n))) as Hl'.
  { intros i Hi. rewrite (Z.eqb_sym i n). apply used_set; done || lia. }
  destruct (scan_free_spec l' len (S (Z.to_nat len)) (n + 1)) as (r & Hs & Hr);
    [done|lia..|].
  exists y, l', r.
  refine (conj _ (conj _ (conj Hs (conj Hok' (conj Hlen' (conj Hl' _)))))).
  - by apply load_byte_Buf.
  - apply store_byte_Buf. lia.
  - destruct r as [k|]; cbn [from_option id]; unfold id.
    + destruct Hr as (Hk & Hkf & Hkb). split_and!; try lia; try done.
      intros j Hj. apply Hkb. lia.
    + split_and!; try lia; [intros j Hj; apply Hr; lia|].
      rewrite Hl', Habove, orb_false_l by lia. apply Z.eqb_neq. lia.
Qed.

Lemma bitmap_get_ok e b :
  bitmap_wf b → libc_ok e → room e b → alloc_ok e = true →
  ∃ fd b', socket_bitmap_get e b = Ok (fd, b') ∧ bitmap_wf b' ∧
    0 ≤ fd ≤ highest b' ∧ taken b (highest b' - fd) = false ∧
    (∀ fd', fd < fd' ≤ highest b' → taken b (highest b' - fd') = true) ∧
    (∀ i, 0 ≤ i → taken b' i = (taken b i || (i =? highest b' - fd))).
Proof.
  intros Hwf He Hroom Halloc. unfold room in Hroom. unfold socket_bitmap_get.
  destruct (get_init_highest e b) as [go b1] eqn:Hinit.
  destruct (get_init_highest_wf _ _ _ _ Hwf He Hinit)
    as (Hwf1 & Hn & Hbl & Hbits & Hfail & Hgo).
  cbn [snd] in Hroom. destruct go; cbn [negb].
  2: { destruct Hgo as [[Hh _] _]; [done|]. rewrite Hfail in Hroom by done.
       pose proof (wf_next b Hwf). lia. }
  rewrite <- Hn in Hroom.
  destruct (get_grow_spec e b1 Hwf1 Halloc)
    as (l & len & -> & Hok & Hsz & Hlen & Hlen0 & Hlen1 & Hused). specialize (Hlen0 Hroom).
  rewrite bind_Ok. cbn [negb next_index bits bit_length highest].
  pose proof Hwf1 as [_ _ _ _ Hfit Hnext Hbelow Hfree Habove Hhigh].
  assert (∀ i, taken b1 i = taken b i) as Htk by (intros; unfold taken; by rewrite Hbits).
  set (n := next_index b1) in *. set (h := highest b1) in *.
  rewrite (u64_small h), (u64_small (h - n)), (i32_small (h - n)) by lia.
  destruct (mark_and_scan l len n) as
    (y & l' & r & -> & Hst & Hsc & Hok' & Hlen' & Hl' & Hnx & Hbw & Hfr); [done|lia..| |].
  { intros i Hi. rewrite Hused by lia. apply Habove. lia. }
  rewrite bind_Ok, Hst, bind_Ok, Hsc, bind_Ok.
  set (nx := default len r) in *.
  exists (h - n), (mkBitmap nx (Buf l') len h).
  split; [by destruct r|].
  cbn [highest]. replace (h - (h - n)) with n by lia.
  assert (∀ i, 0 ≤ i → used l' i = (taken b i || (i =? n))) as Htaken
    by (intros i Hi; by rewrite Hl', Hused, Htk).
  split_and!; cbn; try lia; try (by rewrite <- Htk); try done.
  - split; cbn; unfold taken; cbn; try done; try lia.
    + intros i Hi. destruct (Z.lt_trichotomy i n) as [?|[->|?]].
      * rewrite Htaken, <- Htk, Hbelow by lia. reflexivity.
      * rewrite Htaken, Z.eqb_refl by lia. apply orb_true_r.
      * apply Hbw. lia.
    + intros i Hi. rewrite Htaken, <- Htk, Habove, orb_false_l by lia. apply Z.eqb_neq. lia.
  - intros fd' Hfd. rewrite <- Htk. apply Hbelow. lia.
Qed.

Lemma get_grow_failure e b :
  bitmap_wf b → alloc_ok e = false → next_index b = bit_length b →
  bit_length b mod 8 = 0 → get_grow e b = Ok (false, b).
Proof.
  intros Hwf Ha Hnb Hm. pose proof (wf_fits b Hwf). pose proof (wf_live b Hwf).
  unfold get_grow. rewrite Hnb, Z.leb_refl, Hm, Z.eqb_refl, Ha.
  destruct b as [ni bf bl hi]. cbn in *. subst ni.
  destruct bf as [|l|]; cbn; [done| |done].
  rewrite (proj2 (Z.eqb_neq (bl / 8 + 1) 0)) by lia. done.
Qed.

(** Once the limit is known, [socket_bitmap_get] depends on the memory allocator only, and on it
    only when a byte has to be added. *)
Definition needs_byte (b : socket_bitmap) : bool :=
  (next_index b =? bit_length b) && (bit_length b mod 8 =? 0).

Lemma get_known_limit e b :
  bitmap_wf b → highest b ≠ -1 → alloc_ok e = true ∨ needs_byte b = false →
  socket_bitmap_get e b = socket_bitmap_get (mkLibc None true (junk e)) b.
Proof.
  intros Hwf Hh Ha. unfold socket_bitmap_get, get_init_highest. rewrite (proj2 (Z.eqb_neq _ _) Hh). cbn [negb].
  assert (get_grow e b = get_grow (mkLibc None true (junk e)) b) as ->; [|done].
  unfold get_grow. destruct (Z.leb_spec (bit_length b) (next_index b)); [|done].
  destruct (Z.eqb_spec (bit_length b mod 8) 0) as [Hm|]; [|done].
  destruct Ha as [-> |Hn]; [done|]. exfalso. unfold needs_byte in Hn. pose proof (wf_next b Hwf).
  rewrite Hm, (proj2 (Z.eqb_eq (next_index b) (bit_length b))) in Hn by lia. done.
Qed.

(** With every number of the table taken the result is -1. *)
Lemma get_full e b :
  bitmap_wf b → 0 ≤ highest b → next_index b = highest b + 1 → alloc_ok e = true →
  ∃ b', socket_bitmap_get e b = Ok (-1, b').
Proof.
  intros Hwf Hh Hn Ha. unfold socket_bitmap_get, get_init_highest.
  rewrite (proj2 (Z.eqb_neq (highest b) (-1))) by lia. cbn [negb].
  destruct (get_grow_spec e b Hwf Ha) as (l & len & -> & Hok & Hsz & Hlen & _ & Hlen1 & Hused).
  rewrite bind_Ok. cbn [negb next_index bits bit_length highest].
  pose proof Hwf as [_ _ _ _ Hfit Hnext _ _ Habove Hhigh].
  destruct (mark_and_scan l len (next_index b)) as (y & l' & r & -> & Hst & Hsc & _); [done|lia..| |].
  { intros i Hi. rewrite Hused by lia. apply Habove. lia. }
  rewrite bind_Ok, Hst, bind_Ok, Hsc, bind_Ok.
  replace (i32 (u64 (u64 (highest b) - next_index b))) with (-1).
  - destruct r; by eexists.
  - rewrite Hn, (u64_small (highest b)) by lia. replace (highest b - (highest b + 1)) with (-1) by lia. reflexivity.
Qed.

(** C19: on a well-formed bitmap with a descriptor left and memory available,
    [socket_bitmap_get] returns (it neither runs off the buffer nor loops), the
    descriptor is the highest one not in use, exactly that descriptor becomes
    taken, and the bitmap is well-formed again. *)
Theorem socket_bitmap_get_spec e b :
  bitmap_wf b → libc_ok e → room e b → alloc_ok e = true →
  ∃ fd b', socket_bitmap_get e b = Ok (fd, b') ∧ bitmap_wf b' ∧
    0 ≤ fd ≤ highest b' ∧ taken b (highest b' - fd) = false ∧
    (∀ fd', fd < fd' ≤ highest b' → taken b (highest b' - fd') = true) ∧
    (∀ i, 0 ≤ i → taken b' i = (taken b i || (i =? highest b' - fd))).
Proof. apply bitmap_get_ok. Qed.

(** When the limit cannot be read the first time, or no byte can be
    allocated, [socket_bitmap_get] returns -1 and no index changes. *)
Theorem socket_bitmap_get_failure e b :
  bitmap_wf b → libc_ok e →
  (highest b = -1 ∧ rlim_cur e = None) ∨
  (alloc_ok e = false ∧ next_index b = bit_length b ∧ bit_length b mod 8 = 0) →
  ∃ b', socket_bitmap_get e b = Ok (-1, b') ∧ bitmap_wf b' ∧
        ∀ i, taken b' i = taken b i.
Proof.
  intros Hwf He Hfailure. unfold socket_bitmap_get.
  destruct (get_init_highest e b) as [go b1] eqn:Hinit.
  destruct (get_init_highest_wf _ _ _ _ Hwf He Hinit)
    as (Hwf1 & Hn & Hbl & Hbits & Hfail & Hgo).
  destruct go; cbn [negb].
  2: { rewrite Hfail by done. eauto. }
  destruct Hfailure as [Hf|(Ha & Hnb & Hm)]; [by apply Hgo in Hf|].
  rewrite get_grow_failure by (done || congruence). exists b1.
  split_and!; [done..|]. intros i. unfold taken. by rewrite Hbits.
Qed.

(** ** [socket_bitmap_put] against the invariant *)

(** The situation in which the shrinking loop goes wrong: the released index
    is the last one, [bit_length] fills whole bytes and the last byte has
    become empty. *)
Definition empties_last_byte (b : socket_bitmap) (index : Z) : bool :=
  (index =? bit_length b - 1) && (bit_length b mod 8 =? 0) &&
  negb (existsb (fun k => taken b (bit_length b - 8 + k)) [0; 1; 2; 3; 4; 5; 6]).

Lemma byte_zero_bits y : 0 ≤ y < 2 ^ 8 → (∀ k, 0 ≤ k < 8 → Z.testbit y k = false) → y = 0.
Proof.
  intros Hy H. apply Z.bits_inj'. intros k Hk. rewrite Z.bits_0.
  destruct (Z.lt_ge_cases k 8); [apply H; lia|]. apply byte_bits_above; lia.
Qed.

(** Outside that situation the loop stops at once: the bit it tests first is
    the one that has just been cleared. *)
Lemma shrink_bits_stop l len fuel :
  0 < len → Z.of_nat (length l) = (len + 7) / 8 → used l (len - 1) = false →
  (len mod 8 = 0 → ∃ k, 0 ≤ k < 8 ∧ used l (len - 8 + k) = true) →
  shrink_bits (S fuel) (Buf l) len = Ok len.
Proof.
  intros Hpos Hsz Hlast Hne. cbn [shrink_bits].
  rewrite (proj2 (Z.ltb_lt 0 len)) by lia.
  destruct (div8_lookup l (len - 1)) as [y Hy]; [lia|].
  assert (∃ v, (if len mod 8 =? 0 then load_byte (Buf l) (len / 8 - 1) else Ok 1) = Ok v
               ∧ v ≠ 0) as (v & -> & Hv).
  { destruct (Z.eqb_spec (len mod 8) 0) as [Hm|]; [|by exists 1].
    destruct (Hne Hm) as (k & Hk & Hu). unfold used in Hu.
    replace ((len - 8 + k) / 8) with (len / 8 - 1) in Hu by lia.
    destruct (l !! Z.to_nat (len / 8 - 1)) as [v|] eqn:E; [|done].
    exists v. split; [by apply load_byte_Buf|]. intros ->. by rewrite Z.bits_0 in Hu. }
  rewrite bind_Ok, (proj2 (Z.eqb_neq v 0)), (load_byte_Buf _ _ _ Hy), bind_Ok by done.
  rewrite land_bit_zero by lia. unfold used in Hlast. rewrite Hy in Hlast.
  by rewrite Hlast.
Qed.

Lemma last_byte_nonempty l l' bl x ni hi :
  empties_last_byte (mkBitmap ni (Buf l) bl hi) x = false → x = bl - 1 → 8 ≤ bl →
  bl mod 8 = 0 → (∀ i, 0 ≤ i → used l' i = (used l i && negb (i =? x))) →
  ∃ k, 0 ≤ k < 8 ∧ used l' (bl - 8 + k) = true.
Proof.
  unfold empties_last_byte. cbn [bit_length]. intros He -> H8 Hm Hl'.
  rewrite Z.eqb_refl, Hm in He. cbn [Z.eqb andb] in He.
  apply negb_false_iff, existsb_exists in He as (k & Hk & Hu).
  assert (0 ≤ k < 7) by (repeat destruct Hk as [<-|Hk]; [lia..|destruct Hk]).
  exists k. split; [lia|]. rewrite Hl' by lia. unfold taken in Hu. cbn in Hu.
  rewrite Hu. apply andb_true_iff. split; [done|].
  apply negb_true_iff, Z.eqb_neq. lia.
Qed.

Lemma bitmap_put_ok e b fd :
  bitmap_wf b → 0 ≤ highest b - fd → taken b (highest b - fd) = true →
  empties_last_byte b (highest b - fd) = false →
  ∃ b', socket_bitmap_put e b fd = Ok b' ∧ bitmap_wf b' ∧ highest b' = highest b ∧
    (∀ i, 0 ≤ i → taken b' i = (taken b i && negb (i =? highest b - fd))).
Proof.
  intros Hwf Hpos Htk Hlast.
  pose proof Hwf as [Hlive Hnull Hsize Hbytes Hfit Hnext Hbelow Hfree Habove Hhigh].
  set (x := highest b - fd) in *.
  assert (x < bit_length b) as Hx
    by (destruct (Z.lt_ge_cases x (bit_length b)); [done|by rewrite Habove in Htk]).
  unfold socket_bitmap_put. fold x.
  rewrite (u64_small x), (u64_small (bit_length b - 1)) by lia.
  destruct b as [ni bf bl hi]. cbn [bits bit_length next_index highest] in *.
  destruct bf as [|l|]; [by rewrite (Hnull eq_refl) in *; lia|clear Hnull|done].
  unfold taken in *. cbn [bits bytes_of] in *.
  destruct (div8_lookup l x) as [y Hy]; [lia|].
  rewrite (load_byte_Buf _ _ _ Hy), bind_Ok, store_byte_Buf, bind_Ok by lia.
  set (l' := <[Z.to_nat (x / 8) := _]> l).
  assert (∀ i, 0 ≤ i → used l' i = (used l i && negb (i =? x))) as Hl'.
  { intros i Hi. rewrite (Z.eqb_sym i x). apply used_clear; done || lia. }
  assert (length l' = length l) as Hlen' by apply length_insert.
  set (nx := if x <? ni then x else ni).
  assert (0 ≤ nx ≤ ni ∧ nx ≤ x ∧ (nx = x ∨ nx = ni)) as (Hnx & Hnxx & Hcase)
    by (subst nx; destruct (Z.ltb_spec x ni); lia).
  exists (mkBitmap nx (Buf l') bl hi).
  split_and!; try done.
  - destruct (Z.eqb_spec x (bl - 1)) as [Hxl|]; [|done].
    rewrite shrink_bits_stop; [by rewrite bind_Ok, Z.eqb_refl|lia..| |].
    + rewrite Hl' by lia. by rewrite (proj2 (Z.eqb_eq (bl - 1) x)), andb_false_r.
    + intros Hm. eapply (last_byte_nonempty l l' bl x); eauto; lia.
  - split; cbn; unfold taken; cbn [bits bytes_of]; try done; try lia.
    + by apply bytes_ok_insert.
    + intros i Hi. rewrite Hl', Hbelow by lia. apply negb_true_iff, Z.eqb_neq. lia.
    + rewrite Hl' by lia. destruct Hcase as [-> | ->].
      * by rewrite Z.eqb_refl, andb_false_r.
      * by rewrite Hfree.
    + intros i Hi. by rewrite Hl', Habove by lia.
Qed.

(** Releasing a taken descriptor makes exactly that descriptor available
    and keeps the bitmap well-formed, except when it empties the last byte. *)
Theorem socket_bitmap_put_spec e b fd :
  bitmap_wf b → 0 ≤ highest b - fd → taken b (highest b - fd) = true →
  empties_last_byte b (highest b - fd) = false →
  ∃ b', socket_bitmap_put e b fd = Ok b' ∧ bitmap_wf b' ∧ highest b' = highest b ∧
    (∀ i, 0 ≤ i → taken b' i = (taken b i && negb (i =? highest b - fd))).
Proof. apply bitmap_put_ok. Qed.

(** ** The defect of the shrinking loop *)

Inductive bitmap_op := Get | Put (fd : Z).

Fixpoint run_ops (e : libc_env) (b : socket_bitmap) (ops : list bitmap_op) :
    res Empty_set socket_bitmap :=
  match ops with
  | [] => Ok b
  | Get :: ops => '(_, b) ← socket_bitmap_get e b; run_ops e b ops
  | Put fd :: ops => b ← socket_bitmap_put e b fd; run_ops e b ops
  end.

(** Sixteen sockets are opened, then the last eight are closed in such an order
    that the highest index goes last. *)
Definition shrink_scenario : list bitmap_op :=
  replicate 16 Get ++ map Put [1015; 1014; 1013; 1012; 1011; 1010; 1009].

(** The loop of [socket_bitmap_put] takes a clear bit for one in use and a
    set bit for a free one.  Closing the last of the upper eight sockets drops
    the eight open sockets of the first byte as well and frees the buffer; the
    next [socket_bitmap_get] then passes the freed block to [realloc]. *)
Theorem socket_bitmap_shrink_loses_open_sockets :
  let e := mkLibc (Some 1024) true 0 in
  ∃ b b', run_ops e socket_bitmap_init shrink_scenario = Ok b ∧
    forallb (taken b) [0; 1; 2; 3; 4; 5; 6; 7; 15] = true ∧
    socket_bitmap_put e b 1008 = Ok b' ∧
    bit_length b' = 0 ∧ bits b' = FreedBuf ∧
    socket_bitmap_get e b' = UB.
Proof.
  cbn zeta. eexists _, _.
  split; [vm_compute; reflexivity|]. split; [reflexivity|].
  split; [vm_compute; reflexivity|]. repeat split.
Qed.

(** ** The RPC socket constructor *)

(** A descriptor that was obtained last never empties the last byte, because
    every lower index is taken. *)
Lemma fresh_not_last_byte b b' n :
  0 ≤ n → (∀ i, 0 ≤ i < n → taken b i = true) →
  (∀ i, 0 ≤ i → taken b' i = (taken b i || (i =? n))) →
  bitmap_wf b' → empties_last_byte b' n = false.
Proof.
  intros Hn Hbelow Htk Hwf. unfold empties_last_byte.
  destruct (Z.eqb_spec n (bit_length b' - 1)) as [En|]; [|done].
  destruct (Z.eqb_spec (bit_length b' mod 8) 0); [|done].
  apply negb_false_iff, existsb_exists. exists 0. split; [by left|].
  rewrite Htk, Hbelow by lia. done.
Qed.

Lemma put_after_get e b b1 fd :
  bitmap_wf b1 → 0 ≤ fd ≤ highest b1 → taken b (highest b1 - fd) = false →
  (∀ fd', fd < fd' ≤ highest b1 → taken b (highest b1 - fd') = true) →
  (∀ i, 0 ≤ i → taken b1 i = (taken b i || (i =? highest b1 - fd))) →
  ∃ b2, socket_bitmap_put e b1 fd = Ok b2 ∧ bitmap_wf b2 ∧ highest b2 = highest b1 ∧
        ∀ i, 0 ≤ i → taken b2 i = taken b i.
Proof.
  intros Hwf Hfd Hfree Hhigh Htk. set (n := highest b1 - fd) in *.
  destruct (bitmap_put_ok e b1 fd) as (b2 & Hput & Hwf2 & Hh2 & Htk2).
  - done.
  - lia.
  - fold n. rewrite Htk, Z.eqb_refl by lia. apply orb_true_r.
  - apply (fresh_not_last_byte b); try done; [lia|]. intros i Hi.
    replace i with (highest b1 - (highest b1 - i)) by lia. apply Hhigh. lia.
  - exists b2. split_and!; try done. intros i Hi. fold n in Htk2. rewrite Htk2, Htk by done.
    destruct (Z.eqb_spec i n) as [->|]; [rewrite Hfree; done|].
    by rewrite orb_false_r, andb_true_r.
Qed.

Lemma fd_of_next b : bitmap_wf b → ∃ fd, taken b (highest b - fd) = false.
Proof.
  intros Hwf. exists (highest b - next_index b).
  replace (highest b - _) with (next_index b) by lia. apply (wf_free b Hwf).
Qed.

(** Every system call of the constructor succeeds. *)
Definition rpc_ok (e : rpc_env) : bool :=
  (0 <=? rpc_socket e) && rpc_dup2 e && (0 <=? rpc_getfd e) && rpc_setfd e && rpc_bind e.

(** [__mldr_create_rpc_socket] returns on every path.  When every system
    call succeeds the result is a descriptor that was free and is now taken;
    when any of them fails the result is -1, no descriptor is leaked in the
    bitmap, and the temporary socket and the duplicated one are closed. *)
Theorem mldr_create_rpc_socket_spec e b :
  bitmap_wf b → libc_ok (rpc_get e) → room (rpc_get e) b → alloc_ok (rpc_get e) = true →
  ∃ r fd b' closed, mldr_create_rpc_socket e b = Ok (r, b', closed) ∧
    bitmap_wf b' ∧ taken b (highest b' - fd) = false ∧
    if rpc_ok e
    then r = fd ∧ 0 ≤ r ∧ closed = [rpc_socket e] ∧
         ∀ i, 0 ≤ i → taken b' i = (taken b i || (i =? highest b' - fd))
    else r = -1 ∧ (∀ i, 0 ≤ i → taken b' i = taken b i) ∧
         closed = (if rpc_socket e <? 0 then [] else
                   if negb (rpc_dup2 e) then [rpc_socket e] else [rpc_socket e; fd]).
Proof.
  intros Hwf He Hroom Halloc.
  destruct (bitmap_get_ok _ _ Hwf He Hroom Halloc)
    as (fd & b1 & Hget & Hwf1 & Hfd & Hfree & Hhigh & Htk).
  destruct (put_after_get (rpc_put e) b b1 fd) as (b2 & Hput & Hwf2 & Hh2 & Htk2); [done..|].
  unfold mldr_create_rpc_socket, rpc_ok.
  destruct (Z.ltb_spec (rpc_socket e) 0) as [Hs|Hs].
  { rewrite (proj2 (Z.leb_gt 0 (rpc_socket e))) by lia. cbn [andb].
    destruct (fd_of_next b Hwf) as (fd0 & Hfd0).
    exists (-1), fd0, b, []. unfold rpc_err_out. cbn.
    rewrite (proj2 (Z.leb_gt 0 (rpc_socket e))) by lia. done. }
  rewrite (proj2 (Z.leb_le 0 (rpc_socket e))) by lia. cbn [andb].
  rewrite Hget, bind_Ok, (proj2 (Z.ltb_ge fd 0)) by lia.
  destruct (rpc_dup2 e); cbn [negb andb].
  2: { rewrite Hput, bind_Ok. exists (-1), fd, b2, [rpc_socket e].
       rewrite Hh2. unfold rpc_err_out. cbn.
       rewrite (proj2 (Z.leb_le 0 (rpc_socket e))) by lia. done. }
  assert (rpc_err_out e b1 fd (-1) [rpc_socket e] = Ok (-1, b2, [rpc_socket e; fd])) as Herr.
  { unfold rpc_err_out. rewrite (proj2 (Z.leb_le 0 fd)), Hput by lia. done. }
  rewrite Z.leb_antisym. destruct (rpc_getfd e <? 0); cbn [negb andb].
  { rewrite Herr. exists (-1), fd, b2, [rpc_socket e; fd]. by rewrite Hh2. }
  destruct (rpc_setfd e); cbn [negb andb].
  2: { rewrite Herr. exists (-1), fd, b2, [rpc_socket e; fd]. by rewrite Hh2. }
  destruct (rpc_bind e); cbn [negb andb].
  2: { rewrite Herr. exists (-1), fd, b2, [rpc_socket e; fd]. by rewrite Hh2. }
  exists fd, fd, b1, [rpc_socket e]. split_and!; try done. lia.
Qed.

(** The error path of [__mldr_create_process_lifetime_pipe] reads array
    elements nobody wrote.  Called, as [setup_space] does, with an
    uninitialised array on a kernel older than 5.3, a failing [pipe] leads
    straight to undefined behaviour. *)
Theorem lifetime_pipe_error_reads_uninitialised e b :
  pipe_kernel_5_3 e = false → pipe_fds e = None →
  mldr_create_process_lifetime_pipe e b [None; None] = UB.
Proof.
  intros Hk Hp. unfold mldr_create_process_lifetime_pipe. rewrite Hk, Hp. reflexivity.
Qed.

(** ** Concrete instances *)

Lemma bitmap_wf_init : bitmap_wf socket_bitmap_init.
Proof.
  split; cbn; try done; try lia; try (unfold taken, used; cbn; intros; by rewrite lookup_nil).
  constructor.
Qed.

Definition libc_1024 : libc_env := mkLibc (Some 1024) true 7.

Lemma libc_1024_ok : libc_ok libc_1024.
Proof. intros c [= <-]. left. lia. Qed.

Lemma libc_1024_room : room libc_1024 socket_bitmap_init.
Proof. vm_compute. discriminate. Qed.

Definition bitmap_one : socket_bitmap := mkBitmap 1 (Buf [1]) 1 1023.

Lemma bitmap_wf_one : bitmap_wf bitmap_one.
Proof.
  split; cbn; try done; try lia.
  - apply Forall_singleton. lia.
  - intros i Hi. by replace i with 0 by lia.
  - intros i Hi. unfold taken, used. cbn. destruct (Z.to_nat (i / 8)) eqn:E; [|done].
    cbn. apply (Z.bits_above_log2 1); cbn; lia.
Qed.

Lemma socket_bitmap_get_spec_witness :
  ∃ fd b', socket_bitmap_get libc_1024 socket_bitmap_init = Ok (fd, b') ∧ bitmap_wf b' ∧
    0 ≤ fd ≤ highest b' ∧ taken socket_bitmap_init (highest b' - fd) = false ∧
    (∀ fd', fd < fd' ≤ highest b' →
            taken socket_bitmap_init (highest b' - fd') = true) ∧
    (∀ i, 0 ≤ i → taken b' i = (taken socket_bitmap_init i || (i =? highest b' - fd))).
Proof.
  exact (socket_bitmap_get_spec libc_1024 socket_bitmap_init bitmap_wf_init
           libc_1024_ok libc_1024_room eq_refl).
Defined.

Lemma socket_bitmap_get_failure_witness :
  ∃ b', socket_bitmap_get (mkLibc None true 0) socket_bitmap_init = Ok (-1, b') ∧
        bitmap_wf b' ∧ ∀ i, taken b' i = taken socket_bitmap_init i.
Proof.
  apply (socket_bitmap_get_failure (mkLibc None true 0) socket_bitmap_init bitmap_wf_init).
  - intros c [=].
  - left. split; reflexivity.
Defined.

Lemma socket_bitmap_put_spec_witness :
  ∃ b', socket_bitmap_put libc_1024 bitmap_one 1023 = Ok b' ∧ bitmap_wf b' ∧
    highest b' = highest bitmap_one ∧
    (∀ i, 0 ≤ i → taken b' i = (taken bitmap_one i && negb (i =? highest bitmap_one - 1023))).
Proof.
  apply (socket_bitmap_put_spec libc_1024 bitmap_one 1023 bitmap_wf_one).
  - cbn. lia.
  - reflexivity.
  - reflexivity.
Defined.

Definition rpc_env_bind_fails : rpc_env := mkRpc libc_1024 libc_1024 5 true 0 true false.

Lemma mldr_create_rpc_socket_spec_witness :
  ∃ r fd b' closed,
    mldr_create_rpc_socket rpc_env_bind_fails socket_bitmap_init = Ok (r, b', closed) ∧
    bitmap_wf b' ∧ taken socket_bitmap_init (highest b' - fd) = false ∧
    r = -1 ∧ (∀ i, 0 ≤ i → taken b' i = taken socket_bitmap_init i) ∧ closed = [5; fd].
Proof.
  exact (mldr_create_rpc_socket_spec rpc_env_bind_fails socket_bitmap_init bitmap_wf_init
           libc_1024_ok libc_1024_room eq_refl).
Defined.

Lemma lifetime_pipe_error_witness :
  mldr_create_process_lifetime_pipe
    (mkPipe false None (fun _ => libc_1024) (fun _ => libc_1024) (fun _ => true))
    socket_bitmap_init [None; None] = UB.
Proof. apply lifetime_pipe_error_reads_uninitialised; reflexivity. Defined.
