(* ===== verification/Commpage.v ===== *)
(** * The commpage ([src/src/startup/mldr/commpage.c])

    mldr maps a page at the fixed address where macOS user code expects the
    kernel's commpage and fills it from [cpuid], [sysconf] and [sysinfo].  The
    page is modelled as its bytes, so that overlapping fields interact the way
    they do in memory. *)

From S2P Require Import Prelude.

(** ** Layout ([osfmk/i386/cpu_capabilities.h]) *)

Definition COMM_PAGE32_BASE_ADDRESS : Z := 0xffff0000.
Definition COMM_PAGE64_BASE_ADDRESS : Z := 0x00007fffffe00000.
Definition COMM_PAGE_AREA_LENGTH : Z := 4096.

Definition COMM_PAGE_SIGNATURE : Z := 0x000.
Definition COMM_PAGE_CPU_CAPABILITIES64 : Z := 0x010.
Definition COMM_PAGE_VERSION : Z := 0x01e.
Definition COMM_PAGE_THIS_VERSION : Z := 14.
Definition COMM_PAGE_CPU_CAPABILITIES : Z := 0x020.
Definition COMM_PAGE_NCPUS : Z := 0x022.
Definition COMM_PAGE_ACTIVE_CPUS : Z := 0x034.
Definition COMM_PAGE_PHYSICAL_CPUS : Z := 0x035.
Definition COMM_PAGE_LOGICAL_CPUS : Z := 0x036.
Definition COMM_PAGE_MEMORY_SIZE : Z := 0x038.
Definition COMM_PAGE_KERNEL_PAGE_SHIFT : Z := 0x04d.
Definition COMM_PAGE_USER_PAGE_SHIFT_64 : Z := 0x04e.
Definition COMM_PAGE_USER_PAGE_SHIFT_32 : Z := COMM_PAGE_USER_PAGE_SHIFT_64.

(** Capability bits. *)
Definition kHasMMX : Z := 0x1.
Definition kHasSSE : Z := 0x2.
Definition kHasSSE2 : Z := 0x4.
Definition kHasSSE3 : Z := 0x8.
Definition kHasSupplementalSSE3 : Z := 0x100.
Definition k64Bit : Z := 0x200.
Definition kHasSSE4_1 : Z := 0x400.
Definition kHasSSE4_2 : Z := 0x800.
Definition kHasAES : Z := 0x1000.
Definition kUP : Z := 0x8000.
Definition kNumCPUs : Z := 0x00ff0000.
Definition kHasAVX1_0 : Z := 0x01000000.
Definition kHasRDRAND : Z := 0x02000000.
Definition kHasF16C : Z := 0x04000000.
Definition kHasENFSTRG : Z := 0x08000000.
Definition kHasFMA : Z := 0x10000000.
Definition kHasAVX2_0 : Z := 0x20000000.
Definition kHasBMI1 : Z := 0x40000000.
Definition kHasBMI2 : Z := 0x80000000.
Definition kHasRTM : Z := 0x100000000.
Definition kHasHLE : Z := 0x200000000.
Definition kHasADX : Z := 0x400000000.
Definition kHasRDSEED : Z := 0x800000000.
Definition kHasMPX : Z := 0x1000000000.
Definition kHasSGX : Z := 0x2000000000.

(** ** [get_cpu_caps] *)

(** The registers [cpuid] returns. *)
Record cpuid_regs := mkRegs { r_eax : Z; r_ebx : Z; r_ecx : Z; r_edx : Z }.

(** What the hardware and the C library answer: [cpuid] for leaves 1 and 7,
    [sysconf] and [sysinfo] ([None]: it fails). *)
Record host_info := mkHost {
  cpuid_1 : cpuid_regs;
  cpuid_7 : cpuid_regs;
  nprocessors_conf : Z;
  nprocessors_onln : Z;
  pagesize : Z;
  totalram : option (Z * Z);
}.

(** The bit-fields of [union cpu_flags2], [cpu_flags3] and [cpu_flags4]
    ([commpage.h]), by position. *)
Definition flags2_mmx : Z := 23.
Definition flags2_sse : Z := 25.
Definition flags2_sse2 : Z := 26.
Definition flags2_ia64 : Z := 30.
Definition flags3_sse3 : Z := 0.
Definition flags3_ssse3 : Z := 9.
Definition flags3_fma : Z := 12.
Definition flags3_sse41 : Z := 19.
Definition flags3_sse42 : Z := 20.
Definition flags3_aes : Z := 25.
Definition flags3_avx : Z := 28.
Definition flags3_f16c : Z := 29.
Definition flags3_rdrnd : Z := 30.
Definition flags4_sgx : Z := 2.
Definition flags4_bmi1 : Z := 3.
Definition flags4_hle : Z := 4.
Definition flags4_avx2 : Z := 5.
Definition flags4_bmi2 : Z := 8.
Definition flags4_erms : Z := 9.
Definition flags4_rtm : Z := 11.
Definition flags4_mpx : Z := 14.
Definition flags4_rdseed : Z := 18.
Definition flags4_adx : Z := 19.

(** [if (reg.bit) caps |= cap;] *)
Definition caps_if (reg bit cap caps : Z) : Z :=
  if Z.testbit reg bit then Z.lor caps cap else caps.

(** The variables [ecx] and [edx] receive the registers of those names. *)
Definition get_cpu_caps (h : host_info) : Z :=
  let ecx := r_ecx (cpuid_1 h) in
  let edx := r_edx (cpuid_1 h) in
  let caps := 0 in
  let caps := caps_if ecx flags2_mmx kHasMMX caps in
  let caps := caps_if ecx flags2_sse kHasSSE caps in
  let caps := caps_if ecx flags2_sse2 kHasSSE2 caps in
  let caps := caps_if edx flags3_sse3 kHasSSE3 caps in
  let caps := caps_if ecx flags2_ia64 k64Bit caps in
  let caps := caps_if edx flags3_ssse3 kHasSupplementalSSE3 caps in
  let caps := caps_if edx flags3_sse41 kHasSSE4_1 caps in
  let caps := caps_if edx flags3_sse42 kHasSSE4_2 caps in
  let caps := caps_if edx flags3_aes kHasAES caps in
  let caps := caps_if edx flags3_avx kHasAVX1_0 caps in
  let caps := caps_if edx flags3_rdrnd kHasRDRAND caps in
  let caps := caps_if edx flags3_fma kHasFMA caps in
  let caps := caps_if edx flags3_f16c kHasF16C caps in
  let ebx := r_ebx (cpuid_7 h) in
  let caps := caps_if ebx flags4_erms kHasENFSTRG caps in
  let caps := caps_if ebx flags4_avx2 kHasAVX2_0 caps in
  let caps := caps_if ebx flags4_bmi1 kHasBMI1 caps in
  let caps := caps_if ebx flags4_bmi2 kHasBMI2 caps in
  let caps := caps_if ebx flags4_rtm kHasRTM caps in
  let caps := caps_if ebx flags4_hle kHasHLE caps in
  let caps := caps_if ebx flags4_rdseed kHasRDSEED caps in
  let caps := caps_if ebx flags4_adx kHasADX caps in
  let caps := caps_if ebx flags4_mpx kHasMPX caps in
  let caps := caps_if ebx flags4_sgx kHasSGX caps in
  caps.

(** ** [commpage_setup] *)

Definition commpage_address (_64bit : bool) : Z :=
  if _64bit then COMM_PAGE64_BASE_ADDRESS else COMM_PAGE32_BASE_ADDRESS.

(** [__builtin_ctzl] *)
Definition ctzl (x : Z) : Z := Z.log2 (Z.land x (- x)).

(** The signature strings with their terminating NUL. *)
Definition SIGNATURE32 : list Z :=
  [99; 111; 109; 109; 112; 97; 103; 101; 32; 51; 50; 45; 98; 105; 116; 0].
Definition SIGNATURE64 : list Z :=
  [99; 111; 109; 109; 112; 97; 103; 101; 32; 54; 52; 45; 98; 105; 116; 0].

Inductive commpage_error := CannotMmapCommpage.

(** The stores of [commpage_setup], in the order of the source, into the
    zero-filled page the anonymous [mmap] returns ([mmap_ok]: it did not
    fail). *)
Definition commpage_setup (h : host_info) (mmap_ok _64bit : bool) :
    res commpage_error (list Z) :=
  if negb mmap_ok then Err CannotMmapCommpage else
  let m := replicate 4096 0 in
  m ← poke m COMM_PAGE_SIGNATURE (if _64bit then SIGNATURE64 else SIGNATURE32);
  m ← poke_le m COMM_PAGE_VERSION 2 COMM_PAGE_THIS_VERSION;
  m ← poke_le m COMM_PAGE_NCPUS 1 (nprocessors_conf h);
  m ← poke_le m COMM_PAGE_ACTIVE_CPUS 1 (nprocessors_onln h);
  ncpus ← peek_le m COMM_PAGE_NCPUS 1;
  m ← poke_le m COMM_PAGE_LOGICAL_CPUS 1 ncpus;
  m ← poke_le m COMM_PAGE_PHYSICAL_CPUS 1 ncpus;
  let shift := u8 (ctzl (pagesize h)) in
  m ← poke_le m (if _64bit then COMM_PAGE_USER_PAGE_SHIFT_64
                 else COMM_PAGE_USER_PAGE_SHIFT_32) 1 shift;
  m ← poke_le m COMM_PAGE_KERNEL_PAGE_SHIFT 1 shift;
  ncpus ← peek_le m COMM_PAGE_NCPUS 1;
  let my_caps := get_cpu_caps h in
  let my_caps := if ncpus =? 1 then Z.lor my_caps kUP else my_caps in
  m ← poke_le m COMM_PAGE_CPU_CAPABILITIES 4 (u32 my_caps);
  m ← poke_le m COMM_PAGE_CPU_CAPABILITIES64 8 my_caps;
  match totalram h with
  | Some (ram, unit) => poke_le m COMM_PAGE_MEMORY_SIZE 8 (u64 (ram * unit))
  | None => Ok m
  end.

(** ** Theorems *)

(** The capability word [commpage_setup] publishes. *)
Definition published_caps (h : host_info) : Z :=
  if u8 (nprocessors_conf h) =? 1 then Z.lor (get_cpu_caps h) kUP else get_cpu_caps h.

Lemma caps_if_land reg bit cap caps m :
  Z.land cap m = 0 → Z.land caps m = 0 → Z.land (caps_if reg bit cap caps) m = 0.
Proof.
  intros Hc Ha. unfold caps_if. destruct (Z.testbit reg bit); [|done].
  rewrite Z.land_lor_distr_l, Ha, Hc. done.
Qed.

Lemma get_cpu_caps_no_ncpus h : Z.land (get_cpu_caps h) kNumCPUs = 0.
Proof.
  unfold get_cpu_caps. cbv zeta. repeat apply caps_if_land; reflexivity.
Qed.

Lemma published_caps_no_ncpus h : Z.land (published_caps h) kNumCPUs = 0.
Proof.
  unfold published_caps. destruct (_ =? 1); [|apply get_cpu_caps_no_ncpus].
  by rewrite Z.land_lor_distr_l, get_cpu_caps_no_ncpus.
Qed.

Lemma lor_range a b w :
  0 < w → 0 ≤ a < 2 ^ w → 0 ≤ b < 2 ^ w → 0 ≤ Z.lor a b < 2 ^ w.
Proof.
  intros Hw Ha Hb. split; [apply Z.lor_nonneg; lia|].
  destruct (Z.eq_dec (Z.lor a b) 0) as [->|]; [lia|].
  assert (0 ≤ Z.lor a b) by (apply Z.lor_nonneg; lia).
  apply Z.log2_lt_pow2; [lia|]. rewrite Z.log2_lor by lia.
  apply Z.max_lub_lt; [destruct (Z.eq_dec a 0) as [->|]|destruct (Z.eq_dec b 0) as [->|]];
    try done; apply Z.log2_lt_pow2; lia.
Qed.

Lemma caps_if_range reg bit cap caps w :
  0 < w → 0 ≤ cap < 2 ^ w → 0 ≤ caps < 2 ^ w → 0 ≤ caps_if reg bit cap caps < 2 ^ w.
Proof.
  intros Hw Hc Ha. unfold caps_if. destruct (Z.testbit reg bit); [|done].
  by apply lor_range.
Qed.

Lemma published_caps_range h : 0 ≤ published_caps h < 2 ^ 64.
Proof.
  assert (0 ≤ get_cpu_caps h < 2 ^ 64) as Hc.
  { unfold get_cpu_caps. cbv zeta.
    repeat (apply caps_if_range; [lia|cbv -[Z.lt Z.le]; lia|]). lia. }
  unfold published_caps. destruct (_ =? 1); [|done]. by apply lor_range.
Qed.

(** The third byte of a word without [kNumCPUs] bits is zero. *)
Lemma ncpus_byte_zero c : Z.land c kNumCPUs = 0 → (c / 256 / 256) mod 256 = 0.
Proof.
  intros H. rewrite Z.div_div by lia. change (256 * 256) with (2 ^ 16).
  change 256 with (2 ^ 8). rewrite <- Z.shiftr_div_pow2, <- Z.land_ones by lia.
  apply Z.bits_inj'. intros k Hk. rewrite Z.land_spec, Z.shiftr_spec, Z.bits_0 by lia.
  destruct (Z.lt_ge_cases k 8).
  - apply (f_equal (fun x => Z.testbit x (k + 16))) in H.
    rewrite Z.land_spec, Z.bits_0 in H. change kNumCPUs with (Z.shiftl (Z.ones 8) 16) in H.
    rewrite Z.shiftl_spec, Z.add_simpl_r, Z.ones_spec_low, andb_true_r in H by lia.
    by rewrite H.
  - rewrite Z.ones_spec_high by lia. apply andb_false_r.
Qed.

(** ** What the page holds at the end *)

Lemma peek_le_1 {E} m o y :
  m !! Z.to_nat o = Some y → 0 ≤ o → peek_le (E := E) m o 1 = Ok y.
Proof.
  intros Hy Ho. pose proof (lookup_lt_Some _ _ _ Hy). unfold peek_le, peek.
  rewrite (proj2 (Z.leb_le 0 o)), (proj2 (Z.leb_le _ _)) by lia. cbn [andb].
  rewrite bind_Ok, (drop_S _ _ _ Hy). cbn [take le_val]. rewrite take_0. cbn [le_val]. f_equal. lia.
Qed.

Lemma poke_le_Ok {E} m o n v :
  0 ≤ o → o + Z.of_nat n ≤ Z.of_nat (length m) →
  ∃ m', poke_le (E := E) m o n v = Ok m' ∧ length m' = length m.
Proof. intros. apply poke_Ok; rewrite ?length_le_bytes; lia. Qed.

Lemma peek_le_poke_ne {E} m off n v m' o k :
  poke_le (E := E) m off n v = Ok m' → 0 ≤ o →
  o + Z.of_nat k ≤ off ∨ off + Z.of_nat n ≤ o →
  peek_le (E := E) m' o k = peek_le m o k.
Proof.
  unfold poke_le, peek_le. intros Hp Ho Hd.
  rewrite (peek_poke_ne _ _ _ _ _ _ Hp) by (rewrite ?length_le_bytes; lia). done.
Qed.

Ltac layout := cbv [COMM_PAGE_SIGNATURE COMM_PAGE_CPU_CAPABILITIES64 COMM_PAGE_VERSION
  COMM_PAGE_CPU_CAPABILITIES COMM_PAGE_NCPUS COMM_PAGE_ACTIVE_CPUS COMM_PAGE_PHYSICAL_CPUS
  COMM_PAGE_LOGICAL_CPUS COMM_PAGE_MEMORY_SIZE COMM_PAGE_KERNEL_PAGE_SHIFT
  COMM_PAGE_USER_PAGE_SHIFT_64 COMM_PAGE_USER_PAGE_SHIFT_32] in *.

(** One store of [commpage_setup] is executed. *)
Ltac store m H :=
  match goal with
  | |- context [mbind _ (poke_le ?m0 ?o ?n ?v)] =>
      let L := fresh "L" in
      destruct (poke_le_Ok (E := commpage_error) m0 o n v) as (m & H & L);
      [lia|lia|rewrite H, bind_Ok]
  end.

(** A field is read through the stores that came after it. *)
Ltac read_field :=
  repeat match goal with
  | H : poke_le ?m ?o ?n ?v = Ok ?m' |- peek_le ?m' ?p ?k = _ =>
      first [ rewrite (peek_le_poke_ne _ _ _ _ _ p k H) by lia
            | rewrite (peek_le_poke_eq _ _ _ _ _ H) ]
  end.

(** The page just before the memory size is stored. *)
Lemma commpage_stores h (b : bool) :
  ∃ m, commpage_setup h true b =
         (match totalram h with
          | Some (ram, unit) => poke_le m COMM_PAGE_MEMORY_SIZE 8 (u64 (ram * unit))
          | None => Ok m
          end) ∧
    Z.of_nat (length m) = 4096 ∧
    peek (E := commpage_error) m COMM_PAGE_SIGNATURE 16 =
      Ok (if b then SIGNATURE64 else SIGNATURE32) ∧
    peek_le (E := commpage_error) m COMM_PAGE_VERSION 2 = Ok 14 ∧
    peek_le (E := commpage_error) m COMM_PAGE_CPU_CAPABILITIES64 8 = Ok (published_caps h) ∧
    peek_le (E := commpage_error) m COMM_PAGE_CPU_CAPABILITIES 4 = Ok (u32 (published_caps h)) ∧
    peek_le (E := commpage_error) m COMM_PAGE_NCPUS 1 = Ok 0 ∧
    peek_le (E := commpage_error) m COMM_PAGE_ACTIVE_CPUS 1 = Ok (u8 (nprocessors_onln h)) ∧
    peek_le (E := commpage_error) m COMM_PAGE_PHYSICAL_CPUS 1 = Ok (u8 (nprocessors_conf h)) ∧
    peek_le (E := commpage_error) m COMM_PAGE_LOGICAL_CPUS 1 = Ok (u8 (nprocessors_conf h)) ∧
    peek_le (E := commpage_error) m COMM_PAGE_USER_PAGE_SHIFT_64 1 = Ok (u8 (ctzl (pagesize h))) ∧
    peek_le (E := commpage_error) m COMM_PAGE_KERNEL_PAGE_SHIFT 1 = Ok (u8 (ctzl (pagesize h))).
Proof.
  unfold commpage_setup. cbn [negb].
  set (sig := if b then SIGNATURE64 else SIGNATURE32).
  assert (length sig = 16%nat) as Hsig by (subst sig; by destruct b).
  replace (if b then COMM_PAGE_USER_PAGE_SHIFT_64 else COMM_PAGE_USER_PAGE_SHIFT_32)
    with COMM_PAGE_USER_PAGE_SHIFT_64 by by destruct b.
  layout.
  assert (Z.of_nat (length (replicate 4096 0)) = 4096) as Hz by reflexivity.
  generalize dependent (replicate 4096 0). intros z Hz.
  destruct (poke_Ok (E := commpage_error) z 0 sig) as (m0 & H0 & L0); [lia..|].
  rewrite H0, bind_Ok.
  store m1 H1. store m2 H2. store m3 H3.
  assert (peek_le (E := commpage_error) m3 34 1 = Ok (u8 (nprocessors_conf h))) as Hn
    by (by read_field).
  rewrite Hn, bind_Ok. store m4 H4. store m5 H5. store m6 H6. store m7 H7.
  assert (peek_le (E := commpage_error) m7 34 1 = Ok (u8 (nprocessors_conf h))) as Hn'
    by (by read_field).
  rewrite Hn', bind_Ok. fold (published_caps h).
  store m8 H8. store m9 H9. exists m9.
  assert (∀ x, u8 (u8 x) = u8 x) as Hu8 by (intros; apply Z.mod_mod; lia).
  pose proof (published_caps_range h).
  split; [reflexivity|]. split; [lia|].
  split; [|split_and!; read_field; try reflexivity; f_equal; try apply Hu8].
  - erewrite !peek_poke_ne by (eassumption || rewrite ?length_le_bytes; lia).
    rewrite <- Hsig. eapply peek_poke_eq; eassumption.
  - apply Z.mod_small. lia.
  - apply Z.mod_mod. lia.
  - apply peek_le_1; [|lia]. rewrite (lookup_poke _ _ _ _ _ H8), length_le_bytes.
    rewrite decide_True by lia. change (Z.to_nat 34 - Z.to_nat 32)%nat with 2%nat.
    cbn [le_bytes lookup list_lookup]. f_equal.
    apply ncpus_byte_zero. unfold u32. rewrite <- Z.land_ones by lia.
    rewrite <- Z.land_assoc, (Z.land_comm (Z.ones 32)), Z.land_assoc.
    by rewrite published_caps_no_ncpus.
Qed.

Lemma ctzl_pow2 k : 0 ≤ k → ctzl (2 ^ k) = k.
Proof.
  intros Hk. unfold ctzl.
  replace (Z.land (2 ^ k) (- 2 ^ k)) with (2 ^ k); [by apply Z.log2_pow2|].
  apply Z.bits_inj'. intros i Hi.
  rewrite Z.land_spec, Z.bits_opp, Z.pow2_bits_eqb by lia.
  destruct (Z.eqb_spec k i) as [->|]; [|done].
  replace (Z.pred (2 ^ i)) with (Z.ones i) by (rewrite Z.ones_equiv; lia).
  by rewrite Z.ones_spec_high by lia.
Qed.

(** [commpage_setup] never stores outside the page.  The finished page
    carries the signature, version 14, the capability words, the active,
    physical and logical CPU counts, the memory size, and page shifts that give
    back the page size whenever that is a power of two below 2^256. *)
Theorem commpage_setup_contents h b k ram unit :
  pagesize h = 2 ^ k → 0 ≤ k < 256 → totalram h = Some (ram, unit) →
  ∃ m, commpage_setup h true b = Ok m ∧
    peek (E := commpage_error) m COMM_PAGE_SIGNATURE 16 =
      Ok (if b then SIGNATURE64 else SIGNATURE32) ∧
    peek_le (E := commpage_error) m COMM_PAGE_VERSION 2 = Ok 14 ∧
    peek_le (E := commpage_error) m COMM_PAGE_CPU_CAPABILITIES64 8 = Ok (published_caps h) ∧
    peek_le (E := commpage_error) m COMM_PAGE_CPU_CAPABILITIES 4 = Ok (u32 (published_caps h)) ∧
    peek_le (E := commpage_error) m COMM_PAGE_ACTIVE_CPUS 1 = Ok (u8 (nprocessors_onln h)) ∧
    peek_le (E := commpage_error) m COMM_PAGE_PHYSICAL_CPUS 1 = Ok (u8 (nprocessors_conf h)) ∧
    peek_le (E := commpage_error) m COMM_PAGE_LOGICAL_CPUS 1 = Ok (u8 (nprocessors_conf h)) ∧
    peek_le (E := commpage_error) m COMM_PAGE_USER_PAGE_SHIFT_64 1 = Ok k ∧
    peek_le (E := commpage_error) m COMM_PAGE_KERNEL_PAGE_SHIFT 1 = Ok k ∧
    peek_le (E := commpage_error) m COMM_PAGE_MEMORY_SIZE 8 = Ok (u64 (ram * unit)).
Proof.
  intros Hp Hk Hr.
  destruct (commpage_stores h b) as (m & -> & L & H1 & H2 & H3 & H4 & _ & H5 & H6 & H7 & H8 & H9).
  rewrite Hr. rewrite Hp, ctzl_pow2, u8_small in H8, H9 by lia. layout.
  destruct (poke_le_Ok (E := commpage_error) m 56 8 (u64 (ram * unit))) as (m' & Hm & _); [lia..|].
  exists m'. split; [done|].
  erewrite peek_poke_ne by (eassumption || rewrite ?length_le_bytes; lia).
  split; [done|]. split_and!; read_field; try done.
  f_equal. apply Z.mod_mod. lia.
Qed.

(** The 32-bit capability word is stored over the byte that holds the
    number of configured CPUs, and it never has a bit there: the finished
    page always reports zero CPUs at [_COMM_PAGE_NCPUS]. *)
Theorem commpage_ncpus_overwritten h b :
  ∃ m, commpage_setup h true b = Ok m ∧
       peek_le (E := commpage_error) m COMM_PAGE_NCPUS 1 = Ok 0.
Proof.
  destruct (commpage_stores h b) as (m & -> & L & _ & _ & _ & _ & H & _). layout.
  destruct (totalram h) as [[ram unit]|]; [|eauto].
  destruct (poke_le_Ok (E := commpage_error) m 56 8 (u64 (ram * unit))) as (m' & Hm & _); [lia..|].
  exists m'. split; [done|]. read_field. done.
Qed.

Lemma testbit_caps_if reg bit cap caps i :
  Z.testbit (caps_if reg bit cap caps) i =
    (Z.testbit caps i || (Z.testbit reg bit && Z.testbit cap i)).
Proof.
  unfold caps_if. destruct (Z.testbit reg bit); [apply Z.lor_spec|].
  by rewrite orb_false_r.
Qed.

(** The bits of constants, evaluated. *)
Ltac eval_testbits :=
  repeat match goal with
  | |- context [Z.testbit ?k ?i] =>
      let v := eval vm_compute in (Z.testbit k i) in
      match v with
      | true => change (Z.testbit k i) with true
      | false => change (Z.testbit k i) with false
      end
  end.

(** Where each capability bit comes from: (bit of the word, register, bit). *)
Definition caps_sources (h : host_info) : list (Z * Z * Z) :=
  let ecx := r_ecx (cpuid_1 h) in
  let edx := r_edx (cpuid_1 h) in
  let ebx := r_ebx (cpuid_7 h) in
  [(0, ecx, 23); (1, ecx, 25); (2, ecx, 26); (3, edx, 0); (8, edx, 9); (9, ecx, 30);
   (10, edx, 19); (11, edx, 20); (12, edx, 25); (24, edx, 28); (25, edx, 30);
   (26, edx, 29); (27, ebx, 9); (28, edx, 12); (29, ebx, 5); (30, ebx, 3); (31, ebx, 8);
   (32, ebx, 11); (33, ebx, 4); (34, ebx, 19); (35, ebx, 18); (36, ebx, 14); (37, ebx, 2)].

(** Every bit of the capability word is exactly one [cpuid] bit.  The MMX,
    SSE, SSE2 and 64-bit bits are taken from ECX of leaf 1 and the SSE3, SSSE3,
    SSE4, AES, AVX, RDRAND, FMA and F16C bits from EDX, the reverse of the
    layout the field names of [commpage.h] describe. *)
Theorem get_cpu_caps_sources h :
  Forall (fun '(i, reg, bit) => Z.testbit (get_cpu_caps h) i = Z.testbit reg bit)
         (caps_sources h).
Proof.
  unfold caps_sources, get_cpu_caps. cbv zeta.
  repeat (apply Forall_cons_2;
    [rewrite !testbit_caps_if; eval_testbits;
     by rewrite ?andb_false_r, ?andb_true_r, ?orb_false_r, ?orb_false_l|]).
  apply Forall_nil_2.
Qed.

(** ** Concrete instances *)

Definition host_example : host_info :=
  mkHost (mkRegs 0 0 0x02000000 0x00000001) (mkRegs 0 0x20 0 0) 8 8 4096
         (Some (1048576, 4096)).

Lemma commpage_setup_contents_witness :
  ∃ m, commpage_setup host_example true true = Ok m ∧
    peek_le (E := commpage_error) m COMM_PAGE_KERNEL_PAGE_SHIFT 1 = Ok 12 ∧
    peek_le (E := commpage_error) m COMM_PAGE_MEMORY_SIZE 8 = Ok (u64 (1048576 * 4096)).
Proof.
  destruct (commpage_setup_contents host_example true 12 1048576 4096)
    as (m & H & _ & _ & _ & _ & _ & _ & _ & _ & H1 & H2); [reflexivity|lia|reflexivity|].
  exists m. split; [exact H|]. split; [exact H1|exact H2].
Defined.
