(* ===== verification/MldrSpace.v ===== *)
(** * The address space of a Mach-O process ([src/src/startup/mldr/mldr.c])

    The state mldr threads through loading ([struct load_results], the mapping
    requests sent to the kernel, the socket bitmap), the kernel-version test,
    [compatible_mmap] and [setup_space]. *)

From S2P Require Import Prelude SocketBitmap Commpage.

(** ** [struct load_results] ([loader.h]) *)

Record load_results := mkLR {
  lr_mh : Z;
  lr_entry_point : Z;
  lr_stack_size : Z;
  lr_dyld_all_image_location : Z;
  lr_dyld_all_image_size : Z;
  lr_uuid : list Z;
  lr_vm_addr_max : Z;
  lr_32on64 : bool;
  lr_base : Z;
  lr_bprefs : list Z;
  lr_root_path : option (list Z);
  lr_root_path_length : Z;
  lr_stack_top : Z;
  lr_stack_top_aligned : Z;
  lr_kernfd : Z;
  lr_lifetime_pipe : Z;
}.

Definition lr_set_mh v (r : load_results) := let '(mkLR _ b c d e f g h i j k l m n o p) := r in mkLR v b c d e f g h i j k l m n o p.
Definition lr_set_entry_point v (r : load_results) := let '(mkLR a _ c d e f g h i j k l m n o p) := r in mkLR a v c d e f g h i j k l m n o p.
Definition lr_set_stack_size v (r : load_results) := let '(mkLR a b _ d e f g h i j k l m n o p) := r in mkLR a b v d e f g h i j k l m n o p.
Definition lr_set_dyld v w (r : load_results) := let '(mkLR a b c _ _ f g h i j k l m n o p) := r in mkLR a b c v w f g h i j k l m n o p.
Definition lr_set_uuid v (r : load_results) := let '(mkLR a b c d e _ g h i j k l m n o p) := r in mkLR a b c d e v g h i j k l m n o p.
Definition lr_set_vm_addr_max v (r : load_results) := let '(mkLR a b c d e f _ h i j k l m n o p) := r in mkLR a b c d e f v h i j k l m n o p.
Definition lr_set_base v (r : load_results) := let '(mkLR a b c d e f g h _ j k l m n o p) := r in mkLR a b c d e f g h v j k l m n o p.
Definition lr_set_root_path v w (r : load_results) := let '(mkLR a b c d e f g h i j _ _ m n o p) := r in mkLR a b c d e f g h i j v w m n o p.
Definition lr_set_stack_top v (r : load_results) := let '(mkLR a b c d e f g h i j k l _ n o p) := r in mkLR a b c d e f g h i j k l v n o p.
Definition lr_set_stack_top_aligned v (r : load_results) := let '(mkLR a b c d e f g h i j k l m _ o p) := r in mkLR a b c d e f g h i j k l m v o p.
Definition lr_set_kernfd v (r : load_results) := let '(mkLR a b c d e f g h i j k l m n _ p) := r in mkLR a b c d e f g h i j k l m n v p.
Definition lr_set_lifetime_pipe v (r : load_results) := let '(mkLR a b c d e f g h i j k l m n o _) := r in mkLR a b c d e f g h i j k l m n o v.

(** ** Mapping requests *)

Definition PAGE_SIZE : Z := 4096.
Definition MAP_FAILED : Z := 2 ^ 64 - 1.
Definition PROT_NONE : Z := 0.
Definition PROT_READ : Z := 1.
Definition PROT_WRITE : Z := 2.
Definition PROT_EXEC : Z := 4.
Definition MAP_PRIVATE : Z := 0x2.
Definition MAP_FIXED : Z := 0x10.
Definition MAP_ANONYMOUS : Z := 0x20.
Definition MAP_GROWSDOWN : Z := 0x100.
Definition MAP_FIXED_NOREPLACE : Z := 0x100000.
Definition EOPNOTSUPP : Z := 95.
Definition ESRCH : Z := 3.

Record mreq := mkReq {
  rq_addr : Z; rq_len : Z; rq_prot : Z; rq_flags : Z; rq_fd : Z; rq_off : Z;
}.

Inductive mevent :=
  | EvMmap (r : mreq) (result : Z)
  | EvMunmap (addr len : Z).

(** ** The kernel version *)

(** [while (c != '\0' && c != '.') v = v * 10 + c - '0';] from position [pos]
    of the array [release]: the value and the position where it stopped. *)
Fixpoint scan_number (fuel : nat) (release : list Z) (pos v : Z) : res Empty_set (Z * Z) :=
  match fuel with
  | O => NoFuel
  | S fuel =>
      c ← access (release !! Z.to_nat pos);
      if negb (c =? 0) && negb (c =? 46)
      then scan_number fuel release (pos + 1) (v * 10 + c - 48)
      else Ok (v, pos)
  end.

Definition kernel_version (release : list Z) : res Empty_set (Z * Z) :=
  '(kernel_major, pos) ← scan_number (S (length release)) release 0 0;
  '(kernel_minor, _) ← scan_number (S (length release)) release (pos + 1) 0;
  Ok (kernel_major, kernel_minor).

(** [is_kernel_at_least]: the version is parsed on the first call and cached;
    [uname] fails as [None].  The cache is part of the result. *)
Definition is_kernel_at_least (cache : option (Z * Z)) (uname : option (list Z))
    (major minor : Z) : res Empty_set (bool * option (Z * Z)) :=
  let decide_version v :=
    let '(kernel_major, kernel_minor) := v in
    if negb (major =? kernel_major) then major <? kernel_major else minor <=? kernel_minor in
  match cache with
  | Some v => Ok (decide_version v, cache)
  | None =>
      match uname with
      | None => Ok (false, None)
      | Some release => v ← kernel_version release; Ok (decide_version v, Some v)
      end
  end.

(** ** [compatible_mmap] *)

Definition has_flag (flags f : Z) : bool := negb (Z.land flags f =? 0).

Section CompatibleMmap.
(** The kernel: what [mmap] answers to a request after a history of requests
    (the address or [MAP_FAILED], and [errno]). *)
Context (mmap_sys : list mevent → mreq → Z * Z).

Definition sys_mmap (log : list mevent) (r : mreq) : Z * Z * list mevent :=
  let '(result, errno) := mmap_sys log r in (result, errno, log ++ [EvMmap r result]).

(** The result, [errno] and the new history; [at_least_4_17] is the answer of
    [is_kernel_at_least(4, 17)]. *)
Definition compatible_mmap (at_least_4_17 : bool) (log : list mevent) (r : mreq) :
    Z * Z * list mevent :=
  let fixed_noreplace_hack :=
    has_flag (rq_flags r) MAP_FIXED_NOREPLACE && negb at_least_4_17 in
  let flags := if fixed_noreplace_hack
               then Z.land (rq_flags r) (Z.lnot MAP_FIXED_NOREPLACE) else rq_flags r in
  let req fl := mkReq (rq_addr r) (rq_len r) (rq_prot r) fl (rq_fd r) (rq_off r) in
  let '(result, errno, log) := sys_mmap log (req flags) in
  let '(result, errno, log) :=
    if (result =? MAP_FAILED) && has_flag flags MAP_GROWSDOWN && (errno =? EOPNOTSUPP)
    then sys_mmap log (req (Z.land flags (Z.lnot MAP_GROWSDOWN)))
    else (result, errno, log) in
  if fixed_noreplace_hack && negb (result =? rq_addr r) && negb (result =? MAP_FAILED)
  then (MAP_FAILED, ESRCH, log ++ [EvMunmap (rq_addr r) (rq_len r)])
  else (result, errno, log).
End CompatibleMmap.

(** ** [setup_space] *)

Inductive mldr_error :=
  | ErrCommpage            (* cannot mmap commpage *)
  | ErrStack               (* failed to allocate stack *)
  | ErrSocket              (* failed to create socket *)
  | ErrDupPipe             (* failed to dup process lifetime pipe *)
  | ErrPipe                (* failed to create process lifetime pipe *)
  | ErrCheckin             (* failed to checkin with osxieserver *)
  | ErrVchroot             (* failed to retrieve vchroot path *)
  | ErrVchrootTooLarge     (* vchroot path is too large for buffer *)
  | ErrOpen | ErrReadMagic | ErrFormat | ErrReexec32
  | ErrReadFat | ErrReadFatArch | ErrNoArch | ErrSeek
  | ErrReadHeader | ErrFileType | ErrMapHeader | ErrMapRange | ErrMapSegment
  | ErrNestedDylinker | ErrDylinkerPath.

(** Everything mldr changes while loading. *)
Record mldr_state := mkState {
  st_lr : load_results;
  st_log : list mevent;
  st_bitmap : socket_bitmap;
  st_main_socket : Z;
  st_pipe_fd : Z;
  st_closed : list Z;
  st_commpage : list Z;
  st_environ : list (list Z);
}.

Definition with_lr (f : load_results → load_results) (s : mldr_state) : mldr_state :=
  mkState (f (st_lr s)) (st_log s) (st_bitmap s) (st_main_socket s) (st_pipe_fd s)
          (st_closed s) (st_commpage s) (st_environ s).
Definition with_log (l : list mevent) (s : mldr_state) : mldr_state :=
  mkState (st_lr s) l (st_bitmap s) (st_main_socket s) (st_pipe_fd s)
          (st_closed s) (st_commpage s) (st_environ s).
Definition with_bitmap (b : socket_bitmap) (closed : list Z) (s : mldr_state) : mldr_state :=
  mkState (st_lr s) (st_log s) b (st_main_socket s) (st_pipe_fd s)
          (st_closed s ++ closed) (st_commpage s) (st_environ s).

(** [unsetenv(name)]: every [name=value] entry of the environment goes. *)
Definition unsetenv (name : list Z) (environ : list (list Z)) : list (list Z) :=
  filter (fun v => has_prefix (name ++ [61]) v = false) environ.

Definition unset_special_env (environ : list (list Z)) : list (list Z) :=
  unsetenv (cstr "__mldr_lifetime_pipe")
    (unsetenv (cstr "__mldr_sockpath") (unsetenv (cstr "__mldr_bprefs") environ)).

(** What the C library, the kernel and osxieserver answer during one call:
    [vchroot] is the code, the length and the bytes of
    [dserver_rpc_vchroot_path]. *)
Record space_env := mkSpace {
  se_host : host_info;
  se_commpage_mmap : bool;
  se_stack_limit : Z;
  se_4_17 : bool;
  se_rpc : rpc_env;
  se_pipe_get : libc_env;
  se_pipe_dup2 : bool;
  se_pipe : pipe_env;
  se_close : libc_env;
  se_checkin : Z;
  se_vchroot : Z * Z * list Z;
}.

Section SetupSpace.
Context (mmap_sys : list mevent → mreq → Z * Z).

(** The stack: the soft limit, 16 pages when there is none. *)
Definition stack_request (stack_top limit : Z) : mreq :=
  let size := if limit =? RLIM_INFINITY then PAGE_SIZE * 16 else limit in
  mkReq (u64 (stack_top - size)) size (Z.lor PROT_READ PROT_WRITE)
        (Z.lor (Z.lor (Z.lor MAP_PRIVATE MAP_ANONYMOUS) MAP_FIXED_NOREPLACE) MAP_GROWSDOWN)
        (-1) 0.

(** The lifetime pipe: an inherited one is moved to a descriptor of the
    bitmap, otherwise a pair is created.  The result is [lifetime_pipe[0..1]]. *)
Definition setup_lifetime_pipe (e : space_env) (s : mldr_state) :
    res mldr_error (Z * Z * mldr_state) :=
  let inherited := lr_lifetime_pipe (st_lr s) in
  if negb (inherited =? -1) then
    '(fd, b) ← lift_ub (socket_bitmap_get (se_pipe_get e) (st_bitmap s));
    if negb (inherited =? fd) then
      if negb (se_pipe_dup2 e) then Err ErrDupPipe
      else Ok (-1, fd, with_bitmap b [inherited] s)
    else Ok (-1, fd, with_bitmap b [] s)
  else
    '(code, ps) ← lift_ub (mldr_create_process_lifetime_pipe (se_pipe e) (st_bitmap s)
                                                              [None; None]);
    if code =? -1 then Err ErrPipe else
    r ← lift_ub (read_local (ps_fds ps) 0);
    w ← lift_ub (read_local (ps_fds ps) 1);
    Ok (r, w, with_bitmap (ps_bitmap ps) (ps_closed ps) s).

(** The vchroot path is asked for only when none is known yet. *)
Definition setup_root_path (e : space_env) (s : mldr_state) : res mldr_error mldr_state :=
  match lr_root_path (st_lr s) with
  | Some _ => Ok s
  | None =>
      let '(code, len, path) := se_vchroot e in
      if code <? 0 then Err ErrVchroot
      else if 4096 <=? len then Err ErrVchrootTooLarge
      else if 0 <? len then Ok (with_lr (lr_set_root_path (Some path) len) s)
      else Ok s
  end.

Definition setup_space (e : space_env) (is_64_bit : bool) (s : mldr_state) :
    res mldr_error mldr_state :=
  match commpage_setup (se_host e) (se_commpage_mmap e) is_64_bit with
  | Err _ => Err ErrCommpage
  | UB => UB
  | NoFuel => NoFuel
  | Ok page =>
      let s := mkState (st_lr s) (st_log s) (st_bitmap s) (st_main_socket s)
                       (st_pipe_fd s) (st_closed s) page (st_environ s) in
      let top := commpage_address true in
      let s := with_lr (fun r => lr_set_stack_top_aligned top (lr_set_stack_top top r)) s in
      let '(result, _, log) :=
        compatible_mmap mmap_sys (se_4_17 e) (st_log s)
                        (stack_request top (se_stack_limit e)) in
      let s := with_log log s in
      if result =? MAP_FAILED then Err ErrStack else
      let s := mkState (st_lr s) (st_log s) (st_bitmap s) (st_main_socket s) (st_pipe_fd s)
                       (st_closed s) (st_commpage s) (unset_special_env (st_environ s)) in
      '(kernfd, b, closed) ← lift_ub (mldr_create_rpc_socket (se_rpc e) (st_bitmap s));
      let s := with_lr (lr_set_kernfd kernfd) (with_bitmap b closed s) in
      if kernfd <? 0 then Err ErrSocket else
      let s := mkState (st_lr s) (st_log s) (st_bitmap s) kernfd (st_pipe_fd s)
                       (st_closed s) (st_commpage s) (st_environ s) in
      '(r, w, s) ← setup_lifetime_pipe e s;
      let s := with_lr (lr_set_lifetime_pipe w) s in
      let s := mkState (st_lr s) (st_log s) (st_bitmap s) (st_main_socket s) w
                       (st_closed s) (st_commpage s) (st_environ s) in
      if se_checkin e <? 0 then Err ErrCheckin else
      '(b, closed) ← lift_ub (mldr_close_process_lifetime_pipe (se_close e) (st_bitmap s) r);
      setup_root_path e (with_bitmap b closed s)
  end.
End SetupSpace.

(** ** Theorems *)

(** The number written by a list of decimal digits. *)
Fixpoint digits_val (acc : Z) (ds : list Z) : Z :=
  match ds with [] => acc | d :: ds => digits_val (acc * 10 + d) ds end.

Definition digit_ok (d : Z) : Prop := 0 ≤ d ≤ 9.

(** Decimal digits as characters. *)
Definition digits_str (ds : list Z) : list Z := map (fun d => d + 48) ds.

Lemma scan_number_digits fuel pre ds t rest v :
  Forall digit_ok ds → t = 0 ∨ t = 46 → (length ds < fuel)%nat →
  scan_number fuel (pre ++ digits_str ds ++ t :: rest) (Z.of_nat (length pre)) v =
    Ok (digits_val v ds, Z.of_nat (length pre + length ds)).
Proof.
  intros Hd Ht. revert fuel pre v.
  induction Hd as [|d ds Hd _ IH]; intros fuel pre v Hf;
    (destruct fuel as [|fuel]; [cbn in Hf; lia|]); cbn [scan_number]; rewrite Nat2Z.id.
  - cbn [digits_str map app]. rewrite list_lookup_middle by done. cbn [access]. rewrite bind_Ok.
    replace (negb (t =? 0) && negb (t =? 46)) with false by (destruct Ht; subst; done).
    cbn. by rewrite Nat.add_0_r.
  - cbn [digits_str map app]. rewrite list_lookup_middle by done.
    cbn [access]. rewrite bind_Ok.
    unfold digit_ok in Hd.
    rewrite (proj2 (Z.eqb_neq (d + 48) 0)), (proj2 (Z.eqb_neq (d + 48) 46)) by lia.
    cbn [negb andb]. replace (v * 10 + (d + 48) - 48) with (v * 10 + d) by lia.
    replace (Z.of_nat (length pre) + 1) with (Z.of_nat (length (pre ++ [d + 48])))
      by (rewrite length_app; cbn; lia).
    specialize (IH fuel (pre ++ [d + 48]) (v * 10 + d)).
    rewrite <- app_assoc in IH. cbn [app] in IH. fold (digits_str ds).
    rewrite IH by (cbn in Hf; lia). f_equal. f_equal. rewrite length_app. cbn. lia.
Qed.

(** For a release string [<major>.<minor>] followed by a dot or the end
    of the string, [is_kernel_at_least] compares the parsed version with the
    requested one in lexicographic order and caches it. *)
Theorem is_kernel_at_least_spec ds1 ds2 t rest major minor :
  Forall digit_ok ds1 → Forall digit_ok ds2 → t = 0 ∨ t = 46 →
  let release := digits_str ds1 ++ 46 :: digits_str ds2 ++ t :: rest in
  let M := digits_val 0 ds1 in let m := digits_val 0 ds2 in
  ∃ r, is_kernel_at_least None (Some release) major minor = Ok (r, Some (M, m)) ∧
       (r = true ↔ major < M ∨ (major = M ∧ minor ≤ m)).
Proof.
  intros H1 H2 Ht release M m. unfold is_kernel_at_least, kernel_version, release.
  set (n := S (length _)).
  assert (length ds1 < n ∧ length ds2 < n)%nat as [Hn1 Hn2].
  { subst n. unfold digits_str. rewrite !length_app, !length_cons, !length_app, !length_map. lia. }
  pose proof (scan_number_digits n [] ds1 46 (digits_str ds2 ++ t :: rest) 0
                H1 (or_intror eq_refl) Hn1) as E1.
  cbn [app length] in E1. change (Z.of_nat 0) with 0 in E1. rewrite E1, bind_Ok.
  pose proof (scan_number_digits n (digits_str ds1 ++ [46]) ds2 t rest 0 H2 Ht Hn2) as E2.
  rewrite <- app_assoc in E2. cbn [app] in E2.
  replace (Z.of_nat (0 + length ds1) + 1) with (Z.of_nat (length (digits_str ds1 ++ [46])))
    by (rewrite length_app; unfold digits_str; rewrite length_map; cbn; lia).
  rewrite E2, bind_Ok, bind_Ok. eexists. split; [reflexivity|].
  fold M m. destruct (Z.eqb_spec major M); cbn [negb].
  - rewrite Z.leb_le. lia.
  - rewrite Z.ltb_lt. lia.
Qed.

(** On an old kernel a [MAP_FIXED_NOREPLACE] request is sent as a plain
    hint.  When the kernel places it elsewhere, the range that was asked for is
    unmapped, not the one that was obtained: whatever lived at the requested
    address is gone, and the new mapping stays. *)
Theorem compatible_mmap_unmaps_requested_range mmap_sys log r result errno :
  has_flag (rq_flags r) MAP_FIXED_NOREPLACE = true →
  (∀ fl, mmap_sys log (mkReq (rq_addr r) (rq_len r) (rq_prot r) fl (rq_fd r) (rq_off r)) =
         (result, errno)) →
  result ≠ rq_addr r → result ≠ MAP_FAILED →
  compatible_mmap mmap_sys false log r =
    (MAP_FAILED, ESRCH,
     log ++ [EvMmap (mkReq (rq_addr r) (rq_len r) (rq_prot r)
                           (Z.land (rq_flags r) (Z.lnot MAP_FIXED_NOREPLACE))
                           (rq_fd r) (rq_off r)) result;
             EvMunmap (rq_addr r) (rq_len r)]).
Proof.
  intros Hf Hs Hr Hm.
  apply Z.eqb_neq in Hr, Hm. unfold compatible_mmap, sys_mmap. rewrite Hf. cbn [negb andb].
  rewrite Hs, Hm. cbn [andb]. rewrite Hr, Hm. cbn [negb andb].
  by rewrite <- app_assoc.
Qed.

(** With a kernel that honours [MAP_FIXED_NOREPLACE], a request is forwarded. *)
Lemma compatible_mmap_forward mmap_sys log r result errno :
  mmap_sys log r = (result, errno) →
  result ≠ MAP_FAILED ∨ has_flag (rq_flags r) MAP_GROWSDOWN = false ∨ errno ≠ EOPNOTSUPP →
  compatible_mmap mmap_sys true log r = (result, errno, log ++ [EvMmap r result]).
Proof.
  intros Hs Hno. unfold compatible_mmap, sys_mmap. rewrite andb_false_r.
  replace (mkReq _ _ _ _ _ _) with r by by destruct r. rewrite Hs.
  replace ((result =? MAP_FAILED) && has_flag (rq_flags r) MAP_GROWSDOWN &&
           (errno =? EOPNOTSUPP)) with false; [done|].
  symmetry. destruct Hno as [H|[H|H]].
  - by rewrite (proj2 (Z.eqb_neq _ _) H).
  - by rewrite H, andb_false_r.
  - by rewrite (proj2 (Z.eqb_neq _ _) H), andb_false_r.
Qed.

(** With a kernel that honours [MAP_FIXED_NOREPLACE] the request is
    forwarded unchanged, and it is repeated, without [MAP_GROWSDOWN], exactly when
    that flag was refused with EOPNOTSUPP: the answer is the second one. *)
Theorem compatible_mmap_modern mmap_sys log r result errno result2 errno2 :
  mmap_sys log r = (result, errno) →
  let retry := mkReq (rq_addr r) (rq_len r) (rq_prot r)
                     (Z.land (rq_flags r) (Z.lnot MAP_GROWSDOWN)) (rq_fd r) (rq_off r) in
  mmap_sys (log ++ [EvMmap r result]) retry = (result2, errno2) →
  compatible_mmap mmap_sys true log r =
    if bool_decide (result = MAP_FAILED ∧ has_flag (rq_flags r) MAP_GROWSDOWN = true ∧
                    errno = EOPNOTSUPP)
    then (result2, errno2, log ++ [EvMmap r result; EvMmap retry result2])
    else (result, errno, log ++ [EvMmap r result]).
Proof.
  intros Hs retry Hs2. case_bool_decide as Hd.
  - destruct Hd as (-> & Hg & ->). unfold compatible_mmap, sys_mmap. rewrite andb_false_r.
    replace (mkReq _ _ _ (rq_flags r) _ _) with r by by destruct r. rewrite Hs, Hg.
    cbn [Z.eqb Pos.eqb andb MAP_FAILED EOPNOTSUPP]. rewrite Z.eqb_refl. cbn [andb].
    fold retry. rewrite Hs2. by rewrite <- app_assoc.
  - apply compatible_mmap_forward; [done|].
    destruct (Z.eq_dec result MAP_FAILED); [|by left].
    destruct (has_flag (rq_flags r) MAP_GROWSDOWN); [|by right; left].
    right; right. naive_solver.
Qed.

(** *** [setup_space] *)

Lemma unsetenv_no_entry name environ v :
  v ∈ unsetenv name environ → has_prefix (name ++ [61]) v = false ∧ v ∈ environ.
Proof. unfold unsetenv. intros H%list_elem_of_filter. done. Qed.

(** What the tail of [setup_space] leaves alone. *)
Lemma setup_root_path_frame e s s' :
  setup_root_path e s = Ok s' →
  st_log s' = st_log s ∧ st_environ s' = st_environ s ∧
  st_main_socket s' = st_main_socket s ∧ st_pipe_fd s' = st_pipe_fd s ∧
  lr_stack_top (st_lr s') = lr_stack_top (st_lr s) ∧
  lr_stack_top_aligned (st_lr s') = lr_stack_top_aligned (st_lr s) ∧
  lr_kernfd (st_lr s') = lr_kernfd (st_lr s) ∧
  lr_lifetime_pipe (st_lr s') = lr_lifetime_pipe (st_lr s) ∧
  match lr_root_path (st_lr s) with
  | Some p => lr_root_path (st_lr s') = Some p
  | None => lr_root_path (st_lr s') = None ∨
            (lr_root_path (st_lr s') = Some (snd (se_vchroot e)) ∧
             0 < lr_root_path_length (st_lr s') < 4096)
  end.
Proof.
  unfold setup_root_path. destruct s as [lr log b ms pf cl cp env]; cbn.
  destruct (lr_root_path lr) as [p|] eqn:Hp.
  - intros [= <-]. cbn. by rewrite Hp.
  - destruct (se_vchroot e) as [[code len] path].
    destruct (code <? 0); [done|]. destruct (Z.leb_spec 4096 len); [done|].
    destruct (Z.ltb_spec 0 len); intros [= <-]; destruct lr; cbn in *; naive_solver.
Qed.

Lemma setup_lifetime_pipe_frame e s r w s' :
  setup_lifetime_pipe e s = Ok (r, w, s') →
  ∃ b cl, s' = with_bitmap b cl s.
Proof.
  unfold setup_lifetime_pipe. destruct (negb _).
  - intros H. apply bind_inv in H as ([fd b] & _ & H).
    destruct (negb _); [destruct (negb _); [done|]|]; injection H as <- <- <-; eauto.
  - intros H. apply bind_inv in H as ([code ps] & _ & H).
    destruct (code =? -1); [done|]. inv_bind H. injection H as <- <- <-. eauto.
Qed.

(** The state after the stack is mapped and the RPC socket is created. *)
Lemma setup_space_inv mmap_sys e is_64 s s' :
  setup_space mmap_sys e is_64 s = Ok s' →
  ∃ page result errno log b cl kernfd b2 cl2 r w b3 cl3,
    let top := commpage_address true in
    compatible_mmap mmap_sys (se_4_17 e) (st_log s) (stack_request top (se_stack_limit e)) =
      (result, errno, log) ∧ result ≠ MAP_FAILED ∧ 0 ≤ kernfd ∧
    mldr_create_rpc_socket (se_rpc e) (st_bitmap s) = Ok (kernfd, b, cl) ∧
    setup_root_path e
      (mkState
        (lr_set_lifetime_pipe w (lr_set_kernfd kernfd
          (lr_set_stack_top_aligned top (lr_set_stack_top top (st_lr s)))))
        log b3 kernfd w (((st_closed s ++ cl) ++ cl2) ++ cl3) page
        (unset_special_env (st_environ s))) = Ok s' ∧
    mldr_close_process_lifetime_pipe (se_close e) b2 r = Ok (b3, cl3).
Proof.
  unfold setup_space. destruct (commpage_setup _ _ _) as [page| | |]; try done.
  destruct s as [lr log0 b0 ms pf cl0 cp env]; cbn [with_lr with_log with_bitmap st_lr st_log
    st_bitmap st_main_socket st_pipe_fd st_closed st_commpage st_environ].
  destruct (compatible_mmap _ _ _ _) as [[result errno] log] eqn:Hm.
  destruct (Z.eqb_spec result MAP_FAILED); [done|]. intros H.
  apply bind_inv in H as ([[kernfd b] cl] & Hs & H). destruct (Z.ltb_spec kernfd 0); [done|].
  apply bind_inv in H as ([[r w] s2] & Hl & H).
  apply setup_lifetime_pipe_frame in Hl as (b2 & cl2 & ->). cbn in H.
  destruct (se_checkin e <? 0); [done|].
  apply bind_inv in H as ([b3 cl3] & Hc & H).
  assert (mldr_create_rpc_socket (se_rpc e) b0 = Ok (kernfd, b, cl)) as Hs'.
  { destruct (mldr_create_rpc_socket (se_rpc e) b0) as [|[]| |]; cbn in Hs; congruence. }
  assert (mldr_close_process_lifetime_pipe (se_close e) b2 r = Ok (b3, cl3)) as Hc'.
  { destruct (mldr_close_process_lifetime_pipe (se_close e) b2 r) as [|[]| |];
      cbn in Hc; congruence. }
  exists page, result, errno, log, b, cl, kernfd, b2, cl2, r, w, b3, cl3.
  cbn. split_and!; try done.
Qed.

(** A [setup_space] that returns has mapped a stack whose top is the
    commpage (the request ends exactly there), has recorded that top twice, has
    removed the three special variables from the environment, holds a valid RPC
    socket that is also the main thread's, remembers the write end of the
    lifetime pipe in both places, and has kept the root path it was given or
    taken one shorter than the 4096-byte buffer. *)
Theorem setup_space_establishes mmap_sys e is_64 s s' :
  setup_space mmap_sys e is_64 s = Ok s' →
  0 ≤ se_stack_limit e ≤ commpage_address true ∨ se_stack_limit e = RLIM_INFINITY →
  let rq := stack_request (commpage_address true) (se_stack_limit e) in
  rq_addr rq + rq_len rq = commpage_address true ∧
  (∃ result errno, compatible_mmap mmap_sys (se_4_17 e) (st_log s) rq =
     (result, errno, st_log s') ∧ result ≠ MAP_FAILED) ∧
  lr_stack_top (st_lr s') = commpage_address true ∧
  lr_stack_top_aligned (st_lr s') = commpage_address true ∧
  Forall (fun v => has_prefix (cstr "__mldr_bprefs=") v = false ∧
                   has_prefix (cstr "__mldr_sockpath=") v = false ∧
                   has_prefix (cstr "__mldr_lifetime_pipe=") v = false) (st_environ s') ∧
  0 ≤ lr_kernfd (st_lr s') ∧ st_main_socket s' = lr_kernfd (st_lr s') ∧
  st_pipe_fd s' = lr_lifetime_pipe (st_lr s') ∧
  match lr_root_path (st_lr s) with
  | Some p => lr_root_path (st_lr s') = Some p
  | None => lr_root_path (st_lr s') = None ∨ 0 < lr_root_path_length (st_lr s') < 4096
  end.
Proof.
  intros H Hl rq.
  apply setup_space_inv in H as
    (page & result & errno & log & b & cl & kernfd & b2 & cl2 & r & w & b3 & cl3 & Hm & Hr & Hk & _ & Hp & _).
  apply setup_root_path_frame in Hp as (E1 & E2 & E3 & E4 & E5 & E6 & E7 & E8 & E9).
  rewrite E1, E2, E3, E4, E5, E6, E7, E8. clear E1 E2 E3 E4 E5 E6 E7 E8.
  destruct (st_lr s) eqn:Hs; cbn in *.
  refine (conj _ (conj _ (conj eq_refl (conj eq_refl (conj _ (conj Hk (conj eq_refl (conj eq_refl _)))))))).
  - subst rq. unfold stack_request, commpage_address, COMM_PAGE64_BASE_ADDRESS, RLIM_INFINITY in *.
    cbn [rq_addr rq_len]. case_match; zbool; try done; unfold PAGE_SIZE;
      rewrite u64_small by (unfold PAGE_SIZE; lia); lia.
  - by exists result, errno.
  - apply Forall_forall. unfold unset_special_env. intros v Hv.
    apply unsetenv_no_entry in Hv as [? [? [? _]%unsetenv_no_entry]%unsetenv_no_entry]. done.
  - destruct lr_root_path0; [done|]. naive_solver.
Qed.

(** ** Witnesses *)

(** "6.1": at least 4.17. *)
Lemma is_kernel_at_least_spec_witness :
  ∃ r, is_kernel_at_least None (Some (cstr "6.1" ++ [0])) 4 17 = Ok (r, Some (6, 1)) ∧
       (r = true ↔ 4 < 6 ∨ (4 = 6 ∧ 17 ≤ 1)).
Proof.
  apply (is_kernel_at_least_spec [6] [1] 0 [] 4 17).
  - repeat constructor; unfold digit_ok; lia.
  - repeat constructor; unfold digit_ok; lia.
  - by left.
Defined.

Definition noreplace_request : mreq :=
  mkReq 0x10000 4096 PROT_READ (Z.lor MAP_PRIVATE MAP_FIXED_NOREPLACE) 3 0.

Lemma compatible_mmap_unmaps_requested_range_witness :
  compatible_mmap (fun _ _ => (0x7f0000000000, 0)) false [] noreplace_request =
    (MAP_FAILED, ESRCH,
     [EvMmap (mkReq 0x10000 4096 PROT_READ MAP_PRIVATE 3 0) 0x7f0000000000;
      EvMunmap 0x10000 4096]).
Proof.
  apply (compatible_mmap_unmaps_requested_range (fun _ _ => (0x7f0000000000, 0)) []
           noreplace_request 0x7f0000000000 0); done.
Defined.

(** A kernel without [MAP_GROWSDOWN]. *)
Definition no_growsdown (_ : list mevent) (r : mreq) : Z * Z :=
  if has_flag (rq_flags r) MAP_GROWSDOWN then (MAP_FAILED, EOPNOTSUPP) else (rq_addr r, 0).

Definition growsdown_request : mreq :=
  mkReq 0x10000 4096 PROT_READ (Z.lor MAP_PRIVATE MAP_GROWSDOWN) (-1) 0.

Lemma compatible_mmap_modern_witness :
  compatible_mmap no_growsdown true [] growsdown_request =
    (0x10000, 0, [EvMmap growsdown_request MAP_FAILED;
                  EvMmap (mkReq 0x10000 4096 PROT_READ MAP_PRIVATE (-1) 0) 0x10000]).
Proof.
  exact (compatible_mmap_modern no_growsdown [] growsdown_request MAP_FAILED EOPNOTSUPP
           0x10000 0 eq_refl eq_refl).
Defined.

(** A host where every call succeeds, with an 8 MB stack limit. *)
Definition space_env_ok : space_env :=
  mkSpace (mkHost (mkRegs 0 0 0 0) (mkRegs 0 0 0 0) 4 4 4096 (Some (1048576, 4096)))
          true 8388608 true
          (mkRpc libc_1024 libc_1024 5 true 0 true true) libc_1024 true
          (mkPipe true (Some (6, 7)) (fun _ => libc_1024) (fun _ => libc_1024) (fun _ => true))
          libc_1024 0 (0, 5, cstr "/root").

Definition load_results_init : load_results :=
  mkLR 0 0 0 0 0 [] 0 false 0 [0; 0; 0; 0] None 0 0 0 (-1) (-1).

Definition mldr_state_init : mldr_state :=
  mkState load_results_init [] socket_bitmap_init (-1) (-1) [] []
          [cstr "__mldr_bprefs=7"; cstr "HOME=/root"].

Definition grant (_ : list mevent) (r : mreq) : Z * Z := (rq_addr r, 0).

Lemma setup_space_establishes_witness :
  ∃ s', setup_space grant space_env_ok true mldr_state_init = Ok s' ∧
        st_environ s' = [cstr "HOME=/root"] ∧
        lr_stack_top (st_lr s') = commpage_address true.
Proof.
  eexists. split; [vm_compute; reflexivity|]. split; [reflexivity|].
  refine (proj1 (proj2 (proj2
    (setup_space_establishes grant space_env_ok true mldr_state_init _ _ _)))).
  - vm_compute. reflexivity.
  - left. split; discriminate.
Defined.
