(* ===== verification/MachLoader.v ===== *)
(** * Loading a Mach-O image ([mldr.c]: [load], [load_fat], [native_prot];
    [loader.c]: [load64])

    The loader of an x86_64 build.  A file is the list of its bytes; headers and
    load commands are parsed from the bytes at the offsets of [<mach-o/loader.h>]
    and [<mach-o/fat.h>], and an access outside the mapped header is undefined.
    The mapping requests go through [compatible_mmap] and are kept in order in
    the state. *)

From S2P Require Import Prelude SocketBitmap Commpage MldrSpace.

(** ** Constants *)

Definition MH_MAGIC : Z := 0xfeedface.
Definition MH_CIGAM : Z := 0xcefaedfe.
Definition MH_MAGIC_64 : Z := 0xfeedfacf.
Definition MH_CIGAM_64 : Z := 0xcffaedfe.
Definition FAT_MAGIC : Z := 0xcafebabe.
Definition FAT_CIGAM : Z := 0xbebafeca.
Definition MH_EXECUTE : Z := 2.
Definition MH_DYLINKER : Z := 7.
Definition MH_PIE : Z := 0x200000.
Definition LC_SEGMENT_64 : Z := 0x19.
Definition LC_UNIXTHREAD : Z := 0x5.
Definition LC_LOAD_DYLINKER : Z := 0xe.
Definition LC_UUID : Z := 0x1b.
Definition LC_MAIN : Z := 0x80000028.
Definition VM_PROT_READ : Z := 1.
Definition VM_PROT_WRITE : Z := 2.
Definition VM_PROT_EXECUTE : Z := 4.
(** [(cpu_type_t) -1]; CPU types are kept as their 32 bits. *)
Definition CPU_TYPE_ANY : Z := 0xffffffff.
Definition CPU_ARCH_ABI64 : Z := 0x01000000.
Definition CPU_TYPE_X86 : Z := 7.
Definition CPU_TYPE_X86_64 : Z := 0x01000007.
Definition sizeof_mach_header_64 : Z := 32.

Definition PAGE_ALIGN (x : Z) : Z := Z.land x (u64 (Z.lnot (PAGE_SIZE - 1))).
Definition PAGE_ROUNDUP (x : Z) : Z := u64 ((u64 (x - 1) / PAGE_SIZE + 1) * PAGE_SIZE).

Definition native_prot (prot : Z) : Z :=
  let protOut := 0 in
  let protOut := if has_flag prot VM_PROT_READ then Z.lor protOut PROT_READ else protOut in
  let protOut := if has_flag prot VM_PROT_WRITE then Z.lor protOut PROT_WRITE else protOut in
  if has_flag prot VM_PROT_EXECUTE then Z.lor protOut PROT_EXEC else protOut.

(** ** Files *)

(** An open file: its descriptor and contents. *)
Record file := mkFile { f_fd : Z; f_bytes : list Z }.

(** What the kernel and [setup_space]'s environment answer. *)
Record load_env := mkLoad {
  ld_open : list Z → option file;
  ld_seek_ok : bool;
  ld_space : space_env;
}.

(** [read(fd, p, n) == n] at offset [pos]; a short read is the error [e]. *)
Definition read_exact (e : mldr_error) (bs : list Z) (pos : Z) (n : nat) :
    res mldr_error (list Z) :=
  if pos + Z.of_nat n <=? Z.of_nat (length bs)
  then Ok (take n (drop (Z.to_nat pos) bs)) else Err e.

(** A private mapping of [len] bytes of the file from [off]: the bytes up to the
    end of the file, zeros to the end of its last page, and nothing after. *)
Definition mapped_bytes (bs : list Z) (off len : Z) : list Z :=
  let data := drop (Z.to_nat off) bs in
  let pages := (Z.of_nat (length data) + PAGE_SIZE - 1) / PAGE_SIZE * PAGE_SIZE in
  take (Z.to_nat (Z.min len pages)) (data ++ replicate (Z.to_nat PAGE_SIZE) 0).

(** [strcmp(p, s) == 0] is [eq_at m p (s ++ [0])]; [strncmp(p, s, strlen(s)) == 0]
    is [eq_at m p s].  Bytes are read up to the first difference. *)
Fixpoint eq_at (m : list Z) (off : Z) (s : list Z) : res mldr_error bool :=
  match s with
  | [] => Ok true
  | c :: s =>
      d ← peek_le m off 1;
      if d =? c then eq_at m (off + 1) s else Ok false
  end.

(** ** Fat files *)

Record fat_arch := mkArch {
  fa_cputype : Z; fa_cpusubtype : Z; fa_offset : Z; fa_size : Z; fa_align : Z;
}.

Definition bswap_32 (x : Z) : Z := le_val (reverse (le_bytes 4 x)).

(** The 20 bytes of a [struct fat_arch], byte-swapped when the file is. *)
Definition decode_arch (swap : bool) (bs : list Z) : fat_arch :=
  let field k := let v := le_val (take 4 (drop (4 * k) bs)) in if swap then bswap_32 v else v in
  mkArch (field 0%nat) (field 1%nat) (field 2%nat) (field 3%nat) (field 4%nat).

(** The inner loop over the four binary preferences. *)
Fixpoint match_bprefs (arch : fat_arch) (bprefs : list Z) (j : Z) (best : fat_arch)
    (bpref_index : Z) : fat_arch * Z :=
  match bprefs with
  | [] => (best, bpref_index)
  | b :: bprefs =>
      if negb (b =? 0) && (fa_cputype arch =? b) &&
         ((bpref_index =? -1) || (j <? bpref_index))
      then (arch, j)
      else match_bprefs arch bprefs (j + 1) best bpref_index
  end.

(** One iteration of the loop over the architectures. *)
Definition fat_step (forced_arch : Z) (bprefs : list Z) (best : fat_arch) (bpref_index : Z)
    (arch : fat_arch) : fat_arch * Z :=
  if forced_arch =? 0 then
    let '(best, bpref_index) := match_bprefs arch bprefs 0 best bpref_index in
    if bpref_index =? -1 then
      if fa_cputype arch =? CPU_TYPE_X86_64 then (arch, bpref_index)
      else if (fa_cputype best =? CPU_TYPE_ANY) && (fa_cputype arch =? CPU_TYPE_X86)
      then (arch, bpref_index)
      else (best, bpref_index)
    else (best, bpref_index)
  else if fa_cputype arch =? forced_arch then (arch, bpref_index)
  else (best, bpref_index).

Fixpoint fat_loop (n : nat) (bs : list Z) (pos : Z) (swap : bool) (forced_arch : Z)
    (bprefs : list Z) (best : fat_arch) (bpref_index : Z) : res mldr_error fat_arch :=
  match n with
  | O => Ok best
  | S n =>
      raw ← read_exact ErrReadFatArch bs pos 20;
      let '(best, bpref_index) :=
        fat_step forced_arch bprefs best bpref_index (decode_arch swap raw) in
      fat_loop n bs (pos + 20) swap forced_arch bprefs best bpref_index
  end.

Definition no_arch : fat_arch := mkArch CPU_TYPE_ANY 0 0 0 0.

(** The selected slice of a fat file. *)
Definition select_arch (bs : list Z) (forced_arch : Z) (bprefs : list Z) :
    res mldr_error fat_arch :=
  hdr ← read_exact ErrReadFat bs 0 8;
  let magic := le_val (take 4 hdr) in
  let nfat_arch := le_val (drop 4 hdr) in
  let swap := magic =? FAT_CIGAM in
  let nfat_arch := if swap then bswap_32 nfat_arch else nfat_arch in
  best ← fat_loop (Z.to_nat nfat_arch) bs 8 swap forced_arch bprefs no_arch (-1);
  if fa_cputype best =? CPU_TYPE_ANY then Err ErrNoArch else Ok best.

(** ** Load commands *)

(** The fields of [struct mach_header_64] that are used. *)
Record mach_header := mkHeader {
  mh_cputype : Z; mh_filetype : Z; mh_ncmds : Z; mh_sizeofcmds : Z; mh_flags : Z;
}.

Definition decode_header (bs : list Z) : mach_header :=
  let field k := le_val (take 4 (drop k bs)) in
  mkHeader (field 4%nat) (field 12%nat) (field 16%nat) (field 20%nat) (field 24%nat).

(** The fields of [struct segment_command_64] that are used. *)
Record segment := mkSeg {
  seg_vmaddr : Z; seg_vmsize : Z; seg_fileoff : Z; seg_filesize : Z;
  seg_maxprot : Z; seg_initprot : Z;
}.

Definition peek_segment (cmds : list Z) (p : Z) : res mldr_error segment :=
  vmaddr ← peek_le cmds (p + 24) 8;
  vmsize ← peek_le cmds (p + 32) 8;
  fileoff ← peek_le cmds (p + 40) 8;
  filesize ← peek_le cmds (p + 48) 8;
  maxprot ← peek_le cmds (p + 56) 4;
  initprot ← peek_le cmds (p + 60) 4;
  Ok (mkSeg vmaddr vmsize fileoff filesize maxprot initprot).

(** The first pass of a position-independent image: [base] is the address of
    the first segment other than [__PAGEZERO] ([-1] before), [mmapSize] reaches
    from there to the end of the last one. *)
Fixpoint scan_range (n : nat) (cmds : list Z) (p base mmapSize : Z) : res mldr_error (Z * Z) :=
  match n with
  | O => Ok (base, mmapSize)
  | S n =>
      cmd ← peek_le cmds p 4;
      '(base, mmapSize) ←
        ((if cmd =? LC_SEGMENT_64 then
           pagezero ← eq_at cmds (p + 8) (cstr "__PAGEZERO" ++ [0]);
           if (pagezero : bool) then Ok (base, mmapSize) else
           vmaddr ← peek_le cmds (p + 24) 8;
           vmsize ← peek_le cmds (p + 32) 8;
           let base := if base =? 2 ^ 64 - 1 then vmaddr else base in
           Ok (base, u64 (vmaddr + vmsize - base))
         else Ok (base, mmapSize)) : res mldr_error (Z * Z));
      cmdsize ← peek_le cmds (p + 4) 4;
      scan_range n cmds (u32 (p + cmdsize)) base mmapSize
  end.

(** The search for [__all_image_info] among the [n] sections from [sect]. *)
Fixpoint find_all_image_info (n : nat) (cmds : list Z) (sect : Z) :
    res mldr_error (option (Z * Z)) :=
  match n with
  | O => Ok None
  | S n =>
      found ← eq_at cmds sect (cstr "__all_image_info");
      if (found : bool) then
        addr ← peek_le cmds (sect + 32) 8;
        size ← peek_le cmds (sect + 40) 8;
        Ok (Some (addr, size))
      else find_all_image_info n cmds (sect + 80)
  end.

(** The locals of [load64] that the second pass updates, with the state. *)
Record load_locals := mkLocals {
  ll_entryPoint : Z;
  ll_mappedHeader : Z;
  ll_state : mldr_state;
}.

Definition ll_with (f : mldr_state → mldr_state) (l : load_locals) : load_locals :=
  mkLocals (ll_entryPoint l) (ll_mappedHeader l) (f (ll_state l)).

(** ** The second pass *)

Section Load64.
Context (mmap_sys : list mevent → mreq → Z * Z).
Context (env : load_env).

(** A mapping of a segment: a failure is tolerated for [__PAGEZERO] (address 0,
    no protection), otherwise the process exits. *)
Definition map_or_exit (seg : segment) (useprot : Z) (rq : mreq) (s : mldr_state) :
    res mldr_error mldr_state :=
  let '(rv, _, log) := compatible_mmap mmap_sys (se_4_17 (ld_space env)) (st_log s) rq in
  let s := with_log log s in
  if rv =? MAP_FAILED then
    if (seg_vmaddr seg =? 0) && (useprot =? 0) then Ok s else Err ErrMapSegment
  else Ok s.

Definition useprot_of (seg : segment) : Z :=
  let maxprot := native_prot (seg_maxprot seg) in
  let initprot := native_prot (seg_initprot seg) in
  if has_flag initprot PROT_EXEC then maxprot else initprot.

(** The anonymous part of a segment whose memory is larger than its file part. *)
Definition bss_request (seg : segment) (slide : Z) : mreq :=
  let flags := Z.lor (Z.lor MAP_ANONYMOUS MAP_PRIVATE) MAP_FIXED_NOREPLACE in
  if negb (slide =? 0) then
    let addr := seg_vmaddr seg in
    let addr := if negb (addr =? 0) then u64 (addr + slide) else addr in
    mkReq addr (seg_vmsize seg) (useprot_of seg) flags (-1) 0
  else
    let size := u64 (seg_vmsize seg - seg_filesize seg) in
    mkReq (PAGE_ALIGN (u64 (seg_vmaddr seg + seg_vmsize seg - size))) (PAGE_ROUNDUP size)
          (useprot_of seg) flags (-1) 0.

(** The file part of a segment. *)
Definition file_request (f : file) (fat_offset : Z) (seg : segment) (slide : Z) : mreq :=
  let flag := if seg_filesize seg <? seg_vmsize seg then MAP_FIXED else MAP_FIXED_NOREPLACE in
  mkReq (u64 (seg_vmaddr seg + slide)) (seg_filesize seg) (useprot_of seg)
        (Z.lor flag MAP_PRIVATE) (f_fd f) (u64 (seg_fileoff seg + fat_offset)).

(** [case LC_SEGMENT_64], up to the search for sections. *)
Definition map_segment (f : file) (fat_offset slide : Z) (seg : segment) (l : load_locals) :
    res mldr_error load_locals :=
  s ← (if seg_filesize seg <? seg_vmsize seg
       then map_or_exit seg (useprot_of seg) (bss_request seg slide) (ll_state l)
       else Ok (ll_state l));
  '(s, mapped) ←
    ((if 0 <? seg_filesize seg then
       s ← map_or_exit seg (useprot_of seg) (file_request f fat_offset seg slide) s;
       Ok (s, if seg_fileoff seg =? 0 then u64 (seg_vmaddr seg + slide) else ll_mappedHeader l)
     else Ok (s, ll_mappedHeader l)) : res mldr_error (mldr_state * Z));
  let vm_end := u64 (seg_vmaddr seg + slide + seg_vmsize seg) in
  let s := if lr_vm_addr_max (st_lr s) <? vm_end
           then with_lr (lr_set_vm_addr_max vm_end) s else s in
  Ok (mkLocals (ll_entryPoint l) mapped s).

(** The sections of [__DATA]: the pointers are compared as addresses, the end
    is [&cmds[p + cmdsize]] with a 32-bit sum. *)
Definition scan_data_sections (cmds : list Z) (p slide : Z) (l : load_locals) :
    res mldr_error load_locals :=
  is_data ← eq_at cmds (p + 8) (cstr "__DATA" ++ [0]);
  if (is_data : bool) then
    cmdsize ← peek_le cmds (p + 4) 4;
    let sect := p + 72 in
    let stop := u32 (p + cmdsize) in
    info ← find_all_image_info (Z.to_nat ((stop - sect + 79) / 80)) cmds sect;
    match info with
    | Some (addr, size) => Ok (ll_with (with_lr (lr_set_dyld (u64 (slide + addr)) size)) l)
    | None => Ok l
    end
  else Ok l.

(** [case LC_LOAD_DYLINKER]: the path built in [path_buffer].  Without a root
    path [path] is read before it was ever written. *)
Definition dylinker_path (root_path : option (list Z)) (cmds : list Z) (p : Z) :
    res mldr_error (list Z) :=
  match root_path with
  | None => UB
  | Some root =>
      cmdsize ← peek_le cmds (p + 4) 4;
      name_offset ← peek_le cmds (p + 8) 4;
      let linker_len := u32 (cmdsize - name_offset) in
      let length := linker_len + Z.of_nat (length root) in
      if 4096 - 1 <? length then Err ErrDylinkerPath else
      name ← peek cmds (p + name_offset) (Z.to_nat linker_len);
      path_buffer ← poke (replicate 4096 0) 0 root;
      path_buffer ← poke path_buffer (Z.of_nat (List.length root)) name;
      path_buffer ← poke path_buffer length [0];
      Ok (until_nul path_buffer)
  end.

(** One load command at [p]; [load_rec] is the recursive call of [load] for the
    dynamic linker. *)
Definition load_command (load_rec : list Z → Z → mldr_state → res mldr_error mldr_state)
    (f : file) (fat_offset slide : Z) (header : mach_header) (cmds : list Z) (p : Z)
    (l : load_locals) : res mldr_error load_locals :=
  cmd ← peek_le cmds p 4;
  if cmd =? LC_SEGMENT_64 then
    seg ← peek_segment cmds p;
    l ← map_segment f fat_offset slide seg l;
    scan_data_sections cmds p slide l
  else if cmd =? LC_UNIXTHREAD then
    entry ← peek_le cmds (p + 8 * 18) 8;
    Ok (mkLocals (u64 (entry + slide)) (ll_mappedHeader l) (ll_state l))
  else if cmd =? LC_LOAD_DYLINKER then
    if negb (mh_filetype header =? MH_EXECUTE) then Err ErrNestedDylinker else
    path ← dylinker_path (lr_root_path (st_lr (ll_state l))) cmds p;
    s ← load_rec path (mh_cputype header) (ll_state l);
    Ok (ll_with (fun _ => s) l)
  else if cmd =? LC_MAIN then
    stacksize ← peek_le cmds (p + 16) 8;
    Ok (if lr_stack_size (st_lr (ll_state l)) <? stacksize
        then ll_with (with_lr (lr_set_stack_size stacksize)) l else l)
  else if cmd =? LC_UUID then
    if mh_filetype header =? MH_EXECUTE then
      uuid ← peek cmds (p + 8) 16;
      Ok (ll_with (with_lr (lr_set_uuid uuid)) l)
    else Ok l
  else Ok l.

(** [for (i = 0, p = 0; i < ncmds && p < sizeofcmds; i++)] *)
Fixpoint load_commands (load_rec : list Z → Z → mldr_state → res mldr_error mldr_state)
    (n : nat) (f : file) (fat_offset slide : Z) (header : mach_header) (cmds : list Z) (p : Z)
    (l : load_locals) : res mldr_error load_locals :=
  match n with
  | O => Ok l
  | S n =>
      if p <? mh_sizeofcmds header then
        l ← load_command load_rec f fat_offset slide header cmds p l;
        cmdsize ← peek_le cmds (p + 4) 4;
        load_commands load_rec n f fat_offset slide header cmds (u32 (p + cmdsize)) l
      else Ok l
  end.

(** The range of a position-independent image is reserved to find a free
    address, and released.  The result is the slide. *)
Definition reserve_range (cmds : list Z) (header : mach_header) (s : mldr_state) :
    res mldr_error (Z * mldr_state) :=
  '(base, mmapSize) ← scan_range (Z.to_nat (mh_ncmds header)) cmds 0 (2 ^ 64 - 1) 0;
  let '(slide, _, log) :=
    sys_mmap mmap_sys (st_log s)
             (mkReq base mmapSize PROT_NONE (Z.lor MAP_ANONYMOUS MAP_PRIVATE) (-1) 0) in
  if slide =? MAP_FAILED then Err ErrMapRange else
  let s := with_log (log ++ [EvMunmap slide mmapSize]) s in
  let vm_end := u64 (slide + mmapSize) in
  let s := if lr_vm_addr_max (st_lr s) <? vm_end
           then with_lr (fun r => lr_set_vm_addr_max vm_end (lr_set_base vm_end r)) s else s in
  Ok (u64 (slide - base), s).

Definition is_pie (header : mach_header) : bool :=
  ((mh_filetype header =? MH_EXECUTE) && has_flag (mh_flags header) MH_PIE) ||
  (mh_filetype header =? MH_DYLINKER).

(** After the second pass: [lr->mh], [lr->entry_point]. *)
Definition finish_load (header : mach_header) (l : load_locals) : mldr_state :=
  let s := ll_state l in
  let s := if mh_filetype header =? MH_EXECUTE
           then with_lr (lr_set_mh (ll_mappedHeader l)) s else s in
  if negb (ll_entryPoint l =? 0) && (lr_entry_point (st_lr s) =? 0)
  then with_lr (lr_set_entry_point (ll_entryPoint l)) s else s.

(** [load64] with the file at offset [pos]. *)
Definition load64 (load_rec : list Z → Z → mldr_state → res mldr_error mldr_state)
    (f : file) (pos : Z) (expect_dylinker : bool) (s : mldr_state) :
    res mldr_error mldr_state :=
  s ← (if negb expect_dylinker then setup_space mmap_sys (ld_space env) true s else Ok s);
  let fat_offset := u32 pos in
  raw ← read_exact ErrReadHeader (f_bytes f) pos 32;
  let header := decode_header raw in
  if negb (mh_filetype header =? (if expect_dylinker then MH_DYLINKER else MH_EXECUTE))
  then Err ErrFileType else
  let tmp_size := PAGE_ROUNDUP (sizeof_mach_header_64 + mh_sizeofcmds header) in
  let '(tmp_map_base, _, log) :=
    sys_mmap mmap_sys (st_log s) (mkReq 0 tmp_size PROT_READ MAP_PRIVATE (f_fd f) fat_offset) in
  if tmp_map_base =? MAP_FAILED then Err ErrMapHeader else
  let s := with_log log s in
  let cmds := drop (Z.to_nat sizeof_mach_header_64)
                   (mapped_bytes (f_bytes f) fat_offset tmp_size) in
  '(slide, s) ← (if is_pie header then reserve_range cmds header s else Ok (0, s));
  l ← load_commands load_rec (Z.to_nat (mh_ncmds header)) f fat_offset slide header cmds 0
                    (mkLocals 0 0 s);
  let s := finish_load header l in
  if negb (tmp_map_base =? 0)
  then Ok (with_log (st_log s ++ [EvMunmap tmp_map_base tmp_size]) s)
  else Ok s.

(** [load_fat] and [load]: the 32-bit cases of an x86_64 build re-execute mldr32
    and do not come back. *)
Definition load_fat (load_rec : list Z → Z → mldr_state → res mldr_error mldr_state)
    (f : file) (forced_arch : Z) (expect_dylinker : bool) (s : mldr_state) :
    res mldr_error mldr_state :=
  best ← select_arch (f_bytes f) forced_arch (lr_bprefs (st_lr s));
  if negb (ld_seek_ok env) then Err ErrSeek else
  if has_flag (fa_cputype best) CPU_ARCH_ABI64
  then load64 load_rec f (fa_offset best) expect_dylinker s
  else Err ErrReexec32.

Definition load_body (load_rec : list Z → Z → mldr_state → res mldr_error mldr_state)
    (path : list Z) (forced_arch : Z) (expect_dylinker : bool) (s : mldr_state) :
    res mldr_error mldr_state :=
  match ld_open env path with
  | None => Err ErrOpen
  | Some f =>
      magic ← read_exact ErrReadMagic (f_bytes f) 0 4;
      let magic := le_val magic in
      s ← (if (magic =? MH_MAGIC_64) || (magic =? MH_CIGAM_64)
           then load64 load_rec f 0 expect_dylinker s
           else if (magic =? MH_MAGIC) || (magic =? MH_CIGAM) then Err ErrReexec32
           else if (magic =? FAT_MAGIC) || (magic =? FAT_CIGAM)
           then load_fat load_rec f forced_arch expect_dylinker s
           else Err ErrFormat);
      Ok (mkState (st_lr s) (st_log s) (st_bitmap s) (st_main_socket s) (st_pipe_fd s)
                  (st_closed s ++ [f_fd f]) (st_commpage s) (st_environ s))
  end.

(** The recursion is unrolled: [load] is called for the dynamic linker from the
    [load64] of an executable.  [depth] bounds the nesting. *)
Fixpoint load (depth : nat) (path : list Z) (forced_arch : Z) (expect_dylinker : bool)
    (s : mldr_state) : res mldr_error mldr_state :=
  match depth with
  | O => NoFuel
  | S depth =>
      load_body (fun path cpu s => load depth path cpu true s) path forced_arch
                expect_dylinker s
  end.
End Load64.

(** ** Selection of a slice of a fat file *)

(** The position of the first preference that names the CPU type. *)
Fixpoint pref_rank (bprefs : list Z) (cputype : Z) (j : Z) : option Z :=
  match bprefs with
  | [] => None
  | b :: bprefs =>
      if negb (b =? 0) && (cputype =? b) then Some j else pref_rank bprefs cputype (j + 1)
  end.

Definition rank_of (bprefs : list Z) (a : fat_arch) : option Z :=
  pref_rank bprefs (fa_cputype a) 0.

Definition has_cputype (c : Z) (a : fat_arch) : Prop := fa_cputype a = c.
#[export] Instance has_cputype_dec c a : Decision (has_cputype c a).
Proof. unfold has_cputype. apply _. Defined.

(** The choice the loader means to make.  A forced CPU type takes the last slice
    of that type.  Otherwise the best-ranked preference wins, and its first
    slice.  Without a match, the last x86_64 slice, then the first i386 one. *)
Inductive chosen (forced_arch : Z) (bprefs : list Z) (archs : list fat_arch) : fat_arch → Prop :=
  | chosen_forced best :
      forced_arch ≠ 0 →
      best = default no_arch (last (filter (has_cputype forced_arch) archs)) →
      chosen forced_arch bprefs archs best
  | chosen_pref pre best post j :
      forced_arch = 0 → archs = pre ++ best :: post → rank_of bprefs best = Some j →
      Forall (fun a => ∀ k, rank_of bprefs a = Some k → j < k) pre →
      Forall (fun a => ∀ k, rank_of bprefs a = Some k → j ≤ k) post →
      chosen forced_arch bprefs archs best
  | chosen_default best :
      forced_arch = 0 → Forall (fun a => rank_of bprefs a = None) archs →
      best = default (default no_arch (head (filter (has_cputype CPU_TYPE_X86) archs)))
                     (last (filter (has_cputype CPU_TYPE_X86_64) archs)) →
      chosen forced_arch bprefs archs best.

Definition fat_fold (forced_arch : Z) (bprefs : list Z) (archs : list fat_arch) : fat_arch * Z :=
  fold_left (fun '(best, idx) a => fat_step forced_arch bprefs best idx a) archs (no_arch, -1).

Lemma pref_rank_ge bprefs c j k : pref_rank bprefs c j = Some k → j ≤ k.
Proof.
  revert j. induction bprefs as [|b bprefs IH]; intros j; cbn; [done|].
  destruct (_ && _); [intros [= ->]; lia|]. intros ?%IH. lia.
Qed.

(** The inner loop takes the slice when its rank beats the current one. *)
Lemma match_bprefs_rank arch bprefs best idx j :
  match_bprefs arch bprefs j best idx =
    match pref_rank bprefs (fa_cputype arch) j with
    | Some k => if (idx =? -1) || (k <? idx) then (arch, k) else (best, idx)
    | None => (best, idx)
    end.
Proof.
  revert j. induction bprefs as [|b bprefs IH]; intros j; cbn; [done|].
  destruct (negb (b =? 0) && (fa_cputype arch =? b)) eqn:Hm; cbn [andb]; [|apply IH].
  destruct (idx =? -1) eqn:Hi; cbn [orb]; [done|].
  destruct (Z.ltb_spec j idx); [done|]. rewrite IH.
  destruct (pref_rank _ _ _) as [k|] eqn:Hk; [|done].
  apply pref_rank_ge in Hk. cbn [orb].
  by rewrite (proj2 (Z.ltb_ge k idx)) by lia.
Qed.

Lemma fat_fold_snoc forced bprefs archs a :
  fat_fold forced bprefs (archs ++ [a]) =
    let '(best, idx) := fat_fold forced bprefs archs in fat_step forced bprefs best idx a.
Proof. unfold fat_fold. rewrite fold_left_app. cbn. by destruct (fold_left _ _ _). Qed.

Lemma cputype_filter_snoc c archs a :
  filter (has_cputype c) (archs ++ [a]) =
    if decide (has_cputype c a) then filter (has_cputype c) archs ++ [a]
    else filter (has_cputype c) archs.
Proof. rewrite filter_app. cbn. by case_decide; rewrite ?app_nil_r. Qed.

Lemma fat_fold_forced forced bprefs archs :
  forced ≠ 0 →
  fat_fold forced bprefs archs =
    (default no_arch (last (filter (has_cputype forced) archs)), -1).
Proof.
  intros Hf. induction archs as [|a archs IH] using rev_ind; [done|].
  rewrite fat_fold_snoc, IH, cputype_filter_snoc. unfold fat_step.
  rewrite (proj2 (Z.eqb_neq _ _) Hf).
  destruct (Z.eqb_spec (fa_cputype a) forced).
  - rewrite decide_True by done. by rewrite last_snoc.
  - by rewrite decide_False by done.
Qed.

(** What the loop knows when no CPU type is forced. *)
Definition fold_inv (bprefs : list Z) (archs : list fat_arch) (best : fat_arch) (idx : Z) : Prop :=
  if idx =? -1 then
    Forall (fun a => rank_of bprefs a = None) archs ∧
    best = default (default no_arch (head (filter (has_cputype CPU_TYPE_X86) archs)))
                   (last (filter (has_cputype CPU_TYPE_X86_64) archs))
  else
    0 ≤ idx ∧
    ∃ pre post, archs = pre ++ best :: post ∧ rank_of bprefs best = Some idx ∧
      Forall (fun a => ∀ k, rank_of bprefs a = Some k → idx < k) pre ∧
      Forall (fun a => ∀ k, rank_of bprefs a = Some k → idx ≤ k) post.

(** The default rule, when no preference has matched so far. *)
Lemma default_step archs a best :
  best = default (default no_arch (head (filter (has_cputype CPU_TYPE_X86) archs)))
                 (last (filter (has_cputype CPU_TYPE_X86_64) archs)) →
  (if fa_cputype a =? CPU_TYPE_X86_64 then a
   else if (fa_cputype best =? CPU_TYPE_ANY) && (fa_cputype a =? CPU_TYPE_X86) then a
   else best) =
  default (default no_arch (head (filter (has_cputype CPU_TYPE_X86) (archs ++ [a]))))
          (last (filter (has_cputype CPU_TYPE_X86_64) (archs ++ [a]))).
Proof.
  intros ->. rewrite !cputype_filter_snoc.
  destruct (Z.eqb_spec (fa_cputype a) CPU_TYPE_X86_64) as [E64|N64].
  { rewrite (decide_True (P := has_cputype CPU_TYPE_X86_64 a)) by done. by rewrite last_snoc. }
  rewrite (decide_False (P := has_cputype CPU_TYPE_X86_64 a)) by done.
  destruct (last (filter (has_cputype CPU_TYPE_X86_64) archs)) as [b|] eqn:Hl; cbn.
  { assert (fa_cputype b = CPU_TYPE_X86_64) as ->; [|done].
    apply last_Some_elem_of, list_elem_of_filter in Hl. by destruct Hl. }
  destruct (filter (has_cputype CPU_TYPE_X86) archs) as [|b l] eqn:Hh; cbn.
  - destruct (Z.eqb_spec (fa_cputype a) CPU_TYPE_X86).
    + by rewrite decide_True by done.
    + by rewrite decide_False by done.
  - assert (fa_cputype b = CPU_TYPE_X86) as ->; [|by case_decide].
    assert (b ∈ filter (has_cputype CPU_TYPE_X86) archs) as Hb by (rewrite Hh; left).
    apply list_elem_of_filter in Hb. by destruct Hb.
Qed.

Lemma fold_inv_step bprefs archs a best idx best' idx' :
  fold_inv bprefs archs best idx → fat_step 0 bprefs best idx a = (best', idx') →
  fold_inv bprefs (archs ++ [a]) best' idx'.
Proof.
  unfold fat_step. cbn [Z.eqb]. rewrite match_bprefs_rank. fold (rank_of bprefs a).
  intros Hinv. destruct (rank_of bprefs a) as [k|] eqn:Hk.
  - pose proof (pref_rank_ge _ _ _ _ Hk) as Hk0. unfold fold_inv in *.
    destruct (Z.eqb_spec idx (-1)) as [->|Hi]; cbn [orb] in *.
    + rewrite (proj2 (Z.eqb_neq k (-1))) by lia. intros [= <- <-].
      rewrite (proj2 (Z.eqb_neq k (-1))) by lia. split; [done|]. exists archs, [].
      destruct Hinv as [Hn _]. split_and!; try done.
      eapply Forall_impl; [exact Hn|]. intros x Hx k'. congruence.
    + destruct Hinv as (Hi0 & pre & post & -> & Hr & Hpre & Hpost).
      destruct (Z.ltb_spec k idx).
      * rewrite (proj2 (Z.eqb_neq k (-1))) by lia. intros [= <- <-].
        rewrite (proj2 (Z.eqb_neq k (-1))) by lia. split; [done|].
        exists (pre ++ best :: post), []. split_and!; try done.
        rewrite Forall_app, Forall_cons. split_and!.
        -- eapply Forall_impl; [exact Hpre|]. intros x Hx k' ?%Hx. lia.
        -- intros k' Hk'. rewrite Hr in Hk'. injection Hk' as <-. lia.
        -- eapply Forall_impl; [exact Hpost|]. intros x Hx k' ?%Hx. lia.
      * rewrite (proj2 (Z.eqb_neq idx (-1))) by lia. intros [= <- <-].
        rewrite (proj2 (Z.eqb_neq idx (-1))) by lia. split; [done|].
        exists pre, (post ++ [a]). rewrite <- app_assoc. split_and!; try done.
        rewrite Forall_app. split; [done|]. constructor; [|done]. intros k' Hk'.
        rewrite Hk in Hk'. injection Hk' as <-. lia.
  - unfold fold_inv in *. destruct (Z.eqb_spec idx (-1)) as [->|Hi].
    + destruct Hinv as [Hn Hb]. apply (default_step _ a) in Hb.
      intros Hs. assert (best' = if fa_cputype a =? CPU_TYPE_X86_64 then a
        else if (fa_cputype best =? CPU_TYPE_ANY) && (fa_cputype a =? CPU_TYPE_X86) then a
        else best) as -> by (repeat case_match; congruence).
      assert (idx' = -1) as -> by (repeat case_match; congruence).
      cbn [Z.eqb Pos.eqb]. split; [|done]. rewrite Forall_app. repeat constructor; done.
    + intros [= <- <-]. rewrite (proj2 (Z.eqb_neq idx (-1))) by lia.
      destruct Hinv as (Hi0 & pre & post & -> & Hr & Hpre & Hpost). split; [done|].
      exists pre, (post ++ [a]). rewrite <- app_assoc. split_and!; try done.
      rewrite Forall_app. split; [done|]. constructor; [|done]. intros k'. congruence.
Qed.

Lemma fat_fold_chosen forced bprefs archs :
  chosen forced bprefs archs (fat_fold forced bprefs archs).1.
Proof.
  destruct (Z.eq_dec forced 0) as [->|Hf].
  - assert (fold_inv bprefs archs (fat_fold 0 bprefs archs).1 (fat_fold 0 bprefs archs).2) as H.
    { induction archs as [|a archs IH] using rev_ind; [done|].
      rewrite fat_fold_snoc. destruct (fat_fold 0 bprefs archs) as [best idx]; cbn in IH.
      destruct (fat_step 0 bprefs best idx a) as [best' idx'] eqn:Hs.
      eapply fold_inv_step; eauto. }
    destruct (fat_fold 0 bprefs archs) as [best idx]; cbn in *. unfold fold_inv in H.
    destruct (idx =? -1).
    + destruct H. by apply chosen_default.
    + destruct H as (_ & pre & post & ? & ? & ? & ?). by eapply chosen_pref.
  - rewrite fat_fold_forced by done. by apply chosen_forced.
Qed.

(** The architectures the header announces, decoded in order. *)
Fixpoint archs_at (n : nat) (bs : list Z) (pos : Z) (swap : bool) : list fat_arch :=
  match n with
  | O => []
  | S n => decode_arch swap (take 20 (drop (Z.to_nat pos) bs)) :: archs_at n bs (pos + 20) swap
  end.

Lemma fat_loop_fold n bs pos swap forced bprefs best idx :
  fat_loop n bs pos swap forced bprefs best idx =
    if bool_decide (n = O) || (pos + 20 * Z.of_nat n <=? Z.of_nat (length bs))
    then Ok (fold_left (fun '(best, idx) a => fat_step forced bprefs best idx a)
                       (archs_at n bs pos swap) (best, idx)).1
    else Err ErrReadFatArch.
Proof.
  revert pos best idx. induction n as [|n IH]; intros pos best idx; [done|].
  cbn [fat_loop archs_at fold_left]. rewrite bool_decide_false by done. cbn [orb].
  unfold read_exact. destruct (Z.leb_spec (pos + Z.of_nat 20) (Z.of_nat (length bs))).
  - rewrite bind_Ok. destruct (fat_step _ _ _ _ _) as [best' idx'] eqn:Hs. rewrite IH.
    destruct n as [|n].
    + cbn [bool_decide archs_at]. rewrite bool_decide_true by done. cbn [orb].
      by rewrite (proj2 (Z.leb_le _ _)) by lia.
    + rewrite bool_decide_false by done. cbn [orb].
      replace (pos + 20 + 20 * Z.of_nat (S n)) with (pos + 20 * Z.of_nat (S (S n))) by lia.
      done.
  - rewrite (proj2 (Z.leb_gt _ _)) by lia. done.
Qed.

(** C2: the slice [load_fat] loads is the one its rules name among the
    architectures of the header: a forced CPU type takes the last slice of that
    type; otherwise the best-ranked [posix_spawn] preference present in the file
    wins and its first slice is taken; otherwise the last x86_64 slice, otherwise
    the first i386 one.  With none the process exits, and so it does when the
    header announces more architectures than the file holds. *)
Theorem select_arch_spec bs forced bprefs :
  (8 ≤ length bs)%nat →
  let swap := le_val (take 4 bs) =? FAT_CIGAM in
  let raw := le_val (take 4 (drop 4 bs)) in
  let n := Z.to_nat (if swap then bswap_32 raw else raw) in
  ((8 + 20 * n ≤ length bs)%nat →
     ∃ best, chosen forced bprefs (archs_at n bs 8 swap) best ∧
             select_arch bs forced bprefs =
               if fa_cputype best =? CPU_TYPE_ANY then Err ErrNoArch else Ok best) ∧
  ((length bs < 8 + 20 * n)%nat → select_arch bs forced bprefs = Err ErrReadFatArch).
Proof.
  intros Hl swap raw n. unfold select_arch, read_exact.
  rewrite (proj2 (Z.leb_le _ _)) by lia. rewrite bind_Ok. change (drop (Z.to_nat 0) bs) with bs.
  rewrite take_take, Nat.min_l by lia. fold swap.
  assert (drop 4 (take 8 bs) = take 4 (drop 4 bs)) as -> by (by rewrite skipn_firstn_comm).
  fold raw. fold n. rewrite fat_loop_fold. split; intros Hn.
  - exists (fat_fold forced bprefs (archs_at n bs 8 swap)).1. split; [apply fat_fold_chosen|].
    rewrite (proj2 (Z.leb_le _ _)) by lia. rewrite orb_true_r. done.
  - rewrite bool_decide_false by lia. rewrite (proj2 (Z.leb_gt _ _)) by lia. done.
Qed.

(** ** The recursion through the dynamic linker *)

Section Recursion.
Context (mmap_sys : list mevent → mreq → Z * Z) (env : load_env).
Implicit Types rec : list Z → Z → mldr_state → res mldr_error mldr_state.

(** A dynamic linker never makes the recursive call. *)
Lemma load_command_dylinker rec1 rec2 f off slide header cmds p l :
  mh_filetype header = MH_DYLINKER →
  load_command mmap_sys env rec1 f off slide header cmds p l =
  load_command mmap_sys env rec2 f off slide header cmds p l.
Proof. intros Hh. unfold load_command. apply bind_ext; [done|]. intros cmd _. by rewrite Hh. Qed.

Lemma load_commands_dylinker rec1 rec2 n f off slide header cmds p l :
  mh_filetype header = MH_DYLINKER →
  load_commands mmap_sys env rec1 n f off slide header cmds p l =
  load_commands mmap_sys env rec2 n f off slide header cmds p l.
Proof.
  intros Hh. revert p l. induction n as [|n IH]; intros p l; [done|]. cbn [load_commands].
  destruct (p <? _); [|done]. apply bind_ext; [by apply load_command_dylinker|]. intros l' _.
  apply bind_ext; [done|]. intros sz _. apply IH.
Qed.

Lemma load64_dylinker rec1 rec2 f pos s :
  load64 mmap_sys env rec1 f pos true s = load64 mmap_sys env rec2 f pos true s.
Proof.
  unfold load64. apply bind_ext; [done|]. intros s1 _. apply bind_ext; [done|]. intros raw _.
  destruct (Z.eqb_spec (mh_filetype (decode_header raw)) MH_DYLINKER) as [Hh|]; [|done].
  cbn [negb]. destruct (sys_mmap _ _ _) as [[base errno] log].
  destruct (base =? MAP_FAILED); [done|].
  apply bind_ext; [done|]. intros [slide s2] _.
  apply bind_ext; [by apply load_commands_dylinker|done].
Qed.

Lemma load_body_load64 rec1 rec2 path cpu ed s :
  (∀ f pos s, load64 mmap_sys env rec1 f pos ed s = load64 mmap_sys env rec2 f pos ed s) →
  load_body mmap_sys env rec1 path cpu ed s = load_body mmap_sys env rec2 path cpu ed s.
Proof.
  intros H64. unfold load_body, load_fat. destruct (ld_open env path) as [f|]; [|done].
  apply bind_ext; [done|]. intros raw _. apply bind_ext; [|done]. rewrite H64.
  destruct (_ || _); [done|]. destruct (_ || _); [done|]. destruct (_ || _); [|done].
  apply bind_ext; [done|]. intros best _. by rewrite H64.
Qed.

Lemma load_body_dylinker rec1 rec2 path cpu s :
  load_body mmap_sys env rec1 path cpu true s = load_body mmap_sys env rec2 path cpu true s.
Proof. apply load_body_load64. intros. apply load64_dylinker. Qed.

(** The recursive call is used pointwise. *)
Lemma load_body_ext rec1 rec2 path cpu ed s :
  (∀ path cpu s, rec1 path cpu s = rec2 path cpu s) →
  load_body mmap_sys env rec1 path cpu ed s = load_body mmap_sys env rec2 path cpu ed s.
Proof.
  intros Hrec.
  assert (∀ n f off slide header cmds p l,
    load_commands mmap_sys env rec1 n f off slide header cmds p l =
    load_commands mmap_sys env rec2 n f off slide header cmds p l) as Hc.
  { induction n as [|n IH]; intros; cbn [load_commands]; [done|]. destruct (p <? _); [|done].
    apply bind_ext.
    - unfold load_command. apply bind_ext; [done|]. intros cmd _. repeat case_match; try done.
      apply bind_ext; [done|]. intros path' _. by rewrite Hrec.
    - intros l' _. apply bind_ext; [done|]. intros sz _. apply IH. }
  apply load_body_load64. intros. unfold load64. do 2 (apply bind_ext; [done|]; intros ? _).
  destruct (negb _); [done|]. destruct (sys_mmap _ _ _) as [[]].
  destruct (_ =? MAP_FAILED); [done|]. apply bind_ext; [done|]. intros [slide s2] _.
  by rewrite Hc.
Qed.

(** *** Termination *)

Lemma eq_at_terminates m off s : terminates (eq_at m off s).
Proof.
  revert off. induction s as [|c s IH]; intros off; cbn [eq_at]; [done|].
  solve_terminates.
Qed.
#[local] Hint Resolve eq_at_terminates : osxie.

Lemma scan_range_terminates n cmds p base size : terminates (scan_range n cmds p base size).
Proof.
  revert p base size. induction n as [|n IH]; intros; cbn [scan_range]; [done|].
  solve_terminates.
Qed.

Lemma find_all_image_info_terminates n cmds sect : terminates (find_all_image_info n cmds sect).
Proof.
  revert sect. induction n as [|n IH]; intros; cbn [find_all_image_info]; [done|].
  solve_terminates.
Qed.
#[local] Hint Resolve scan_range_terminates find_all_image_info_terminates : osxie.

Lemma map_or_exit_terminates seg prot rq s :
  terminates (map_or_exit mmap_sys env seg prot rq s).
Proof. unfold map_or_exit. destruct (compatible_mmap _ _ _ _) as [[]]. solve_terminates. Qed.
#[local] Hint Resolve map_or_exit_terminates : osxie.

Lemma map_segment_terminates f off slide seg l :
  terminates (map_segment mmap_sys env f off slide seg l).
Proof. unfold map_segment. solve_terminates. Qed.

Lemma scan_data_sections_terminates cmds p slide l :
  terminates (scan_data_sections cmds p slide l).
Proof. unfold scan_data_sections. solve_terminates. Qed.

Lemma dylinker_path_terminates root cmds p : terminates (dylinker_path root cmds p).
Proof. unfold dylinker_path. solve_terminates. Qed.
#[local] Hint Resolve map_segment_terminates scan_data_sections_terminates
  dylinker_path_terminates : osxie.

Lemma load_command_terminates rec f off slide header cmds p l :
  (∀ path cpu s, terminates (rec path cpu s)) →
  terminates (load_command mmap_sys env rec f off slide header cmds p l).
Proof. intros Hrec. unfold load_command, peek_segment. solve_terminates. Qed.

Lemma load_commands_terminates rec n f off slide header cmds p l :
  (∀ path cpu s, terminates (rec path cpu s)) →
  terminates (load_commands mmap_sys env rec n f off slide header cmds p l).
Proof.
  intros Hrec. revert p l. induction n as [|n IH]; intros; cbn [load_commands]; [done|].
  pose proof load_command_terminates. solve_terminates.
Qed.

Lemma read_exact_terminates e bs pos n : terminates (read_exact e bs pos n).
Proof. unfold read_exact. solve_terminates. Qed.

Lemma select_arch_terminates bs forced bprefs : terminates (select_arch bs forced bprefs).
Proof.
  unfold select_arch. apply bind_terminates; [apply read_exact_terminates|]. intros hdr _.
  rewrite fat_loop_fold. case_match; [|done]. rewrite bind_Ok. solve_terminates.
Qed.

Lemma reserve_range_terminates cmds header s :
  terminates (reserve_range mmap_sys cmds header s).
Proof.
  unfold reserve_range. apply bind_terminates; [apply scan_range_terminates|].
  intros [base size] _. destruct (sys_mmap _ _ _) as [[]]. solve_terminates.
Qed.

Lemma load64_terminates rec f pos ed s :
  (∀ path cpu s, terminates (rec path cpu s)) →
  (ed = false → terminates (setup_space mmap_sys (ld_space env) true s)) →
  terminates (load64 mmap_sys env rec f pos ed s).
Proof.
  intros Hrec Hs. unfold load64. apply bind_terminates.
  { destruct ed; [done|]. by apply Hs. }
  intros s1 _. apply bind_terminates; [apply read_exact_terminates|]. intros raw _.
  destruct (negb _); [done|]. destruct (sys_mmap _ _ _) as [[]].
  destruct (_ =? MAP_FAILED); [done|]. apply bind_terminates.
  { destruct (is_pie _); [apply reserve_range_terminates|done]. }
  intros [slide s2] _. apply bind_terminates; [by apply load_commands_terminates|].
  intros l2 _. solve_terminates.
Qed.

Lemma load_body_terminates rec path cpu ed s :
  (∀ path cpu s, terminates (rec path cpu s)) →
  (ed = false → terminates (setup_space mmap_sys (ld_space env) true s)) →
  terminates (load_body mmap_sys env rec path cpu ed s).
Proof.
  intros Hrec Hs. unfold load_body, load_fat. case_match; [|done].
  apply bind_terminates; [apply read_exact_terminates|]. intros raw _.
  apply bind_terminates; [|intros ? _; done].
  pose proof load64_terminates as H64. pose proof select_arch_terminates.
  repeat case_match; try done; solve_terminates.
Qed.

(** A dynamic linker cannot name another one, so loading never nests
    deeper than two: more depth changes nothing, a load of a dynamic linker always
    returns or exits, and so does the load of an executable as soon as
    [setup_space] does. *)
Theorem load_depth_two path cpu ed s depth :
  load mmap_sys env (S (S depth)) path cpu ed s = load mmap_sys env 2 path cpu ed s ∧
  terminates (load mmap_sys env 1 path cpu true s) ∧
  (terminates (setup_space mmap_sys (ld_space env) true s) →
   terminates (load mmap_sys env 2 path cpu ed s)).
Proof.
  assert (∀ d path cpu s, load mmap_sys env (S d) path cpu true s =
            load_body mmap_sys env (fun _ _ _ => Err ErrNestedDylinker) path cpu true s) as Hd.
  { intros. apply load_body_dylinker. }
  assert (∀ d path cpu s, terminates (load mmap_sys env (S d) path cpu true s)) as Ht.
  { intros. rewrite Hd. by apply load_body_terminates. }
  split_and!.
  - destruct ed; [by rewrite (Hd (S depth)), (Hd 1%nat)|]. cbn [load]. change (load_body mmap_sys env
      (fun path cpu s => load mmap_sys env (S depth) path cpu true s) path cpu false s =
      load_body mmap_sys env (fun path cpu s => load mmap_sys env 1 path cpu true s)
        path cpu false s).
    apply load_body_ext. intros. by rewrite (Hd depth), (Hd 0%nat).
  - exact (Ht 0%nat _ _ _).
  - intros Hs. apply load_body_terminates; [|done]. intros. exact (Ht 0%nat _ _ _).
Qed.
End Recursion.

(** ** The memory image *)

(** What is mapped at address [x] after a history: the last request whose
    pages contain it. *)
Definition mapped_step (x : Z) (acc : option mreq) (ev : mevent) : option mreq :=
  match ev with
  | EvMmap r result =>
      if negb (result =? MAP_FAILED) && (result <=? x) && (x <? result + PAGE_ROUNDUP (rq_len r))
      then Some r else acc
  | EvMunmap addr len => if (addr <=? x) && (x <? addr + PAGE_ROUNDUP len) then None else acc
  end.

Definition mapped_at (log : list mevent) (x : Z) : option mreq :=
  fold_left (mapped_step x) log None.

(** What an address shows: a byte of a file or a zero, in a private mapping with a protection.
    Fixed mappings start at the address of their request. *)
Inductive cell :=
  | FileByte (fd off prot : Z)
  | ZeroByte (prot : Z)
  | SharedByte.

Definition cell_of (x : Z) (r : mreq) : cell :=
  if negb (has_flag (rq_flags r) MAP_PRIVATE) then SharedByte
  else if has_flag (rq_flags r) MAP_ANONYMOUS then ZeroByte (rq_prot r)
  else FileByte (rq_fd r) (rq_off r + (x - rq_addr r)) (rq_prot r).

Definition cell_at (log : list mevent) (x : Z) : option cell := cell_of x <$> mapped_at log x.

Lemma mapped_at_snoc log ev x : mapped_at (log ++ [ev]) x = mapped_step x (mapped_at log x) ev.
Proof. unfold mapped_at. by rewrite fold_left_app. Qed.

Lemma PAGE_ROUNDUP_bounds x :
  0 < x → x ≤ 2 ^ 64 - PAGE_SIZE → x ≤ PAGE_ROUNDUP x < x + PAGE_SIZE.
Proof. unfold PAGE_ROUNDUP, PAGE_SIZE, u64. intros. lia. Qed.

Lemma PAGE_ROUNDUP_aligned x :
  0 ≤ x ≤ 2 ^ 64 - PAGE_SIZE → x mod PAGE_SIZE = 0 → PAGE_ROUNDUP x = x.
Proof.
  intros H1 H2. unfold PAGE_ROUNDUP, PAGE_SIZE, u64 in *.
  destruct (Z.eq_dec x 0) as [->|]; [reflexivity|]. lia.
Qed.

Lemma PAGE_ALIGN_aligned x : 0 ≤ x < 2 ^ 64 → x mod PAGE_SIZE = 0 → PAGE_ALIGN x = x.
Proof.
  intros H1 H2. unfold PAGE_ALIGN, PAGE_SIZE, u64 in *.
  change (Z.lnot (4096 - 1) mod 2 ^ 64) with (Z.shiftl (Z.ones 52) 12).
  assert (x = Z.shiftl (Z.shiftr x 12) 12) as Hx.
  { rewrite Z.shiftl_mul_pow2, Z.shiftr_div_pow2 by lia. change (2 ^ 12) with 4096. lia. }
  rewrite Hx at 1. rewrite <- Z.shiftl_land, Z.land_ones by lia.
  rewrite Z.mod_small; [done|]. rewrite Z.shiftr_div_pow2 by lia. change (2 ^ 12) with 4096. lia.
Qed.

(** A 64-bit segment whose file part is made of whole pages. *)
Definition seg_ok (seg : segment) : Prop :=
  0 ≤ seg_vmaddr seg < 2 ^ 64 ∧ seg_vmaddr seg mod PAGE_SIZE = 0 ∧
  0 ≤ seg_filesize seg ≤ seg_vmsize seg ∧ seg_filesize seg mod PAGE_SIZE = 0.

Section Image.
Context (mmap_sys : list mevent → mreq → Z * Z) (env : load_env).
(** [mmap(2)]: with [MAP_FIXED] or [MAP_FIXED_NOREPLACE] a mapping is placed at
    the requested address or not at all; the kernel knows both (4.17). *)
Context (Hfixed : ∀ log r,
  has_flag (rq_flags r) MAP_FIXED = true ∨ has_flag (rq_flags r) MAP_FIXED_NOREPLACE = true →
  (mmap_sys log r).1 = MAP_FAILED ∨ (mmap_sys log r).1 = rq_addr r).
Context (Hmodern : se_4_17 (ld_space env) = true).

(** A mapping that must not fail is placed where it was asked. *)
Lemma map_or_exit_inv seg prot rq s s' :
  map_or_exit mmap_sys env seg prot rq s = Ok s' →
  seg_vmaddr seg ≠ 0 ∨ prot ≠ 0 →
  has_flag (rq_flags rq) MAP_FIXED = true ∨ has_flag (rq_flags rq) MAP_FIXED_NOREPLACE = true →
  has_flag (rq_flags rq) MAP_GROWSDOWN = false →
  s' = with_log (st_log s ++ [EvMmap rq (rq_addr rq)]) s ∧ rq_addr rq ≠ MAP_FAILED.
Proof.
  unfold map_or_exit. rewrite Hmodern. intros H Hz Hf Hg.
  specialize (Hfixed (st_log s) rq Hf).
  destruct (mmap_sys (st_log s) rq) as [result errno] eqn:Hm. cbn in Hfixed.
  rewrite (compatible_mmap_forward _ _ _ _ _ Hm) in H by auto.
  destruct (Z.eqb_spec result MAP_FAILED).
  - destruct (_ && _) eqn:Hb in H; [|done].
    apply andb_true_iff in Hb as [?%Z.eqb_eq ?%Z.eqb_eq]. lia.
  - injection H as <-. destruct Hfixed as [|<-]; [done|]. done.
Qed.

Lemma bss_request_flags seg slide :
  has_flag (rq_flags (bss_request seg slide)) MAP_FIXED_NOREPLACE = true ∧
  has_flag (rq_flags (bss_request seg slide)) MAP_GROWSDOWN = false.
Proof. unfold bss_request. by destruct (negb _). Qed.

Lemma file_request_flags f off seg slide :
  (has_flag (rq_flags (file_request f off seg slide)) MAP_FIXED = true ∨
   has_flag (rq_flags (file_request f off seg slide)) MAP_FIXED_NOREPLACE = true) ∧
  has_flag (rq_flags (file_request f off seg slide)) MAP_GROWSDOWN = false.
Proof. unfold file_request. destruct (_ <? _); cbn; auto. Qed.

(** The requests of one segment, in order. *)
Definition segment_requests (f : file) (fat_offset slide : Z) (seg : segment) : list mreq :=
  (if seg_filesize seg <? seg_vmsize seg then [bss_request seg slide] else []) ++
  (if 0 <? seg_filesize seg then [file_request f fat_offset seg slide] else []).

Lemma map_segment_inv f off slide seg l l' :
  map_segment mmap_sys env f off slide seg l = Ok l' →
  seg_vmaddr seg ≠ 0 ∨ useprot_of seg ≠ 0 →
  st_log (ll_state l') =
    st_log (ll_state l) ++
      map (fun r => EvMmap r (rq_addr r)) (segment_requests f off slide seg) ∧
  Forall (fun r => rq_addr r ≠ MAP_FAILED) (segment_requests f off slide seg) ∧
  lr_vm_addr_max (st_lr (ll_state l')) =
    Z.max (lr_vm_addr_max (st_lr (ll_state l))) (u64 (seg_vmaddr seg + slide + seg_vmsize seg)) ∧
  ll_mappedHeader l' =
    (if (0 <? seg_filesize seg) && (seg_fileoff seg =? 0)
     then u64 (seg_vmaddr seg + slide) else ll_mappedHeader l) ∧
  ll_entryPoint l' = ll_entryPoint l.
Proof.
  intros H Hz. unfold map_segment, segment_requests in *.
  destruct (bss_request_flags seg slide) as [Hb1 Hb2].
  destruct (file_request_flags f off seg slide) as [Hf1 Hf2].
  apply bind_inv in H as (s1 & H1 & H). apply bind_inv in H as ([s2 mh] & H2 & H).
  assert (st_log s1 = st_log (ll_state l) ++ map (fun r => EvMmap r (rq_addr r))
            (if seg_filesize seg <? seg_vmsize seg then [bss_request seg slide] else []) ∧
          Forall (fun r => rq_addr r ≠ MAP_FAILED)
            (if seg_filesize seg <? seg_vmsize seg then [bss_request seg slide] else []) ∧
          st_lr s1 = st_lr (ll_state l)) as (E1 & F1 & L1).
  { destruct (seg_filesize seg <? seg_vmsize seg).
    - apply map_or_exit_inv in H1 as [-> ?]; auto.
    - injection H1 as <-. by rewrite app_nil_r. }
  assert (st_log s2 = st_log s1 ++ map (fun r => EvMmap r (rq_addr r))
            (if 0 <? seg_filesize seg then [file_request f off seg slide] else []) ∧
          Forall (fun r => rq_addr r ≠ MAP_FAILED)
            (if 0 <? seg_filesize seg then [file_request f off seg slide] else []) ∧
          st_lr s2 = st_lr s1 ∧
          mh = if (0 <? seg_filesize seg) && (seg_fileoff seg =? 0)
               then u64 (seg_vmaddr seg + slide) else ll_mappedHeader l) as (E2 & F2 & L2 & M2).
  { destruct (0 <? seg_filesize seg); cbn [andb].
    - apply bind_inv in H2 as (s3 & H3 & H2). injection H2 as <- <-.
      apply map_or_exit_inv in H3 as [-> ?]; auto.
    - injection H2 as <- <-. by rewrite app_nil_r. }
  injection H as <-. cbn [ll_state ll_mappedHeader ll_entryPoint].
  rewrite map_app, Forall_app, app_assoc, <- E1, <- E2, <- L1, <- L2.
  destruct (Z.ltb_spec (lr_vm_addr_max (st_lr s2)) (u64 (seg_vmaddr seg + slide + seg_vmsize seg))).
  - destruct s2 as [lr2 ? ? ? ? ? ? ?]; destruct lr2; cbn in *. rewrite Z.max_r by lia. auto.
  - rewrite Z.max_l by lia. auto.
Qed.

(** Where the anonymous part of a segment lies. *)
Lemma bss_request_range seg slide :
  seg_ok seg → slide = 0 ∨ seg_vmaddr seg ≠ 0 →
  let a := u64 (seg_vmaddr seg + slide) in
  a + seg_vmsize seg ≤ 2 ^ 64 - PAGE_SIZE → seg_filesize seg < seg_vmsize seg →
  a ≤ rq_addr (bss_request seg slide) ≤ a + seg_filesize seg ∧
  a + seg_vmsize seg ≤
    rq_addr (bss_request seg slide) + PAGE_ROUNDUP (rq_len (bss_request seg slide)) ≤
    a + PAGE_ROUNDUP (seg_vmsize seg).
Proof.
  intros (Hv & Hva & Hfs & Hfa) Hs a Ha Hlt.
  assert (0 ≤ a < 2 ^ 64) as Ha0 by apply u64_range.
  pose proof (PAGE_ROUNDUP_bounds (seg_vmsize seg)) as Hr. unfold PAGE_SIZE in *.
  unfold bss_request. destruct (Z.eqb_spec slide 0) as [->|Hn]; cbn [negb].
  - assert (a = seg_vmaddr seg) as Hav by (subst a; rewrite Z.add_0_r; apply u64_small; lia).
    cbn [rq_addr rq_len]. rewrite (u64_small (seg_vmsize seg - _)) by lia.
    rewrite u64_small by lia. rewrite PAGE_ALIGN_aligned by (unfold PAGE_SIZE; lia).
    pose proof (PAGE_ROUNDUP_bounds (seg_vmsize seg - seg_filesize seg)) as Hr2.
    assert (PAGE_ROUNDUP (seg_vmsize seg - seg_filesize seg) =
            PAGE_ROUNDUP (seg_vmsize seg) - seg_filesize seg) as He.
    { unfold PAGE_ROUNDUP, PAGE_SIZE, u64 in *. lia. }
    unfold PAGE_SIZE in Hr2.
    rewrite (PAGE_ROUNDUP_aligned (PAGE_ROUNDUP _)).
    + lia.
    + unfold PAGE_ROUNDUP, PAGE_SIZE, u64 in *. lia.
    + unfold PAGE_ROUNDUP, PAGE_SIZE, u64 in *. lia.
  - destruct Hs as [|Hs]; [done|]. rewrite (proj2 (Z.eqb_neq _ _) Hs). cbn [negb rq_addr rq_len].
    fold a. lia.
Qed.

Lemma app_cons_comm {A} (l : list A) x y : l ++ [x; y] = (l ++ [x]) ++ [y].
Proof. by rewrite <- app_assoc. Qed.

Lemma mapped_step_hit x acc r :
  rq_addr r ≠ MAP_FAILED → rq_addr r ≤ x < rq_addr r + PAGE_ROUNDUP (rq_len r) →
  mapped_step x acc (EvMmap r (rq_addr r)) = Some r.
Proof.
  intros Hm Hx. cbn. rewrite (proj2 (Z.eqb_neq _ _) Hm), (proj2 (Z.leb_le _ _)) by lia.
  by rewrite (proj2 (Z.ltb_lt _ _)) by lia.
Qed.

Lemma mapped_step_miss x acc r :
  x < rq_addr r ∨ rq_addr r + PAGE_ROUNDUP (rq_len r) ≤ x →
  mapped_step x acc (EvMmap r (rq_addr r)) = acc.
Proof.
  intros Hx. cbn. destruct (Z.leb_spec (rq_addr r) x); [|by rewrite andb_false_r].
  rewrite (proj2 (Z.ltb_ge _ _)) by lia. by rewrite andb_false_r.
Qed.

(** The mapping requests behind the addresses of a segment. *)
Lemma map_segment_requests f off slide seg l l' :
  map_segment mmap_sys env f off slide seg l = Ok l' →
  seg_ok seg → seg_vmaddr seg ≠ 0 ∨ useprot_of seg ≠ 0 → slide = 0 ∨ seg_vmaddr seg ≠ 0 →
  let a := u64 (seg_vmaddr seg + slide) in
  a + seg_vmsize seg ≤ 2 ^ 64 - PAGE_SIZE →
  let before := mapped_at (st_log (ll_state l)) in
  let after := mapped_at (st_log (ll_state l')) in
  (∀ x, a ≤ x < a + seg_filesize seg → after x = Some (file_request f off seg slide)) ∧
  (∀ x, a + seg_filesize seg ≤ x < a + seg_vmsize seg → after x = Some (bss_request seg slide)) ∧
  (∀ x, x < a ∨ a + PAGE_ROUNDUP (seg_vmsize seg) ≤ x → after x = before x) ∧
  lr_vm_addr_max (st_lr (ll_state l')) =
    Z.max (lr_vm_addr_max (st_lr (ll_state l))) (a + seg_vmsize seg).
Proof.
  intros H (Hv & Hva & Hfs & Hfa) Hz Hs a Ha before after.
  apply map_segment_inv in H as (E & F & M & _); [|done].
  assert (0 ≤ a < 2 ^ 64) as Ha0 by apply u64_range.
  assert (rq_addr (file_request f off seg slide) = a ∧
          PAGE_ROUNDUP (rq_len (file_request f off seg slide)) = seg_filesize seg) as [Hfr Hfl].
  { split; [done|]. apply PAGE_ROUNDUP_aligned; [|done]. cbn. unfold PAGE_SIZE in *. lia. }
  pose proof (bss_request_range seg slide (conj Hv (conj Hva (conj Hfs Hfa))) Hs Ha) as Hb.
  fold a in Hb. pose proof (PAGE_ROUNDUP_bounds (seg_vmsize seg)) as Hr. unfold PAGE_SIZE in *.
  assert (u64 (seg_vmaddr seg + slide + seg_vmsize seg) = a + seg_vmsize seg) as Hend.
  { subst a. unfold u64 in *. lia. }
  rewrite Hend in M. split_and!; [..|exact M]; intros x Hx; subst after before; cbn; rewrite E;
    unfold segment_requests in *; clear E M Hend;
    (destruct (Z.ltb_spec (seg_filesize seg) (seg_vmsize seg)) as [Hlt|Hge];
      [specialize (Hb Hlt)|]);
    (destruct (Z.ltb_spec 0 (seg_filesize seg)); try lia); cbn [app map] in *;
    repeat match goal with
    | H : Forall _ (_ :: _) |- _ => apply Forall_cons in H as [? ?]
    end;
    rewrite ?app_nil_r; rewrite ?(app_cons_comm _ (EvMmap (bss_request seg slide) _));
    rewrite ?mapped_at_snoc;
    first [ by rewrite mapped_step_hit by lia
          | rewrite mapped_step_miss by lia; by rewrite ?mapped_step_hit by lia
          | by rewrite !mapped_step_miss by lia
          | done ].
Qed.

(** The protection of a segment: its initial protection, or the maximal one when it is initially
    executable; the bits are read, write, execute in both systems. *)
Definition prot_grants (seg : segment) (p : Z) : Prop :=
  let v := if Z.testbit (seg_initprot seg) 2 then seg_maxprot seg else seg_initprot seg in
  ∀ k, 0 ≤ k < 3 → Z.testbit p k = Z.testbit v k.

Lemma has_flag_bit x k : 0 ≤ k → has_flag x (2 ^ k) = Z.testbit x k.
Proof.
  intros Hk. unfold has_flag. rewrite <- (Z.shiftl_1_l k), land_bit_zero by done. by destruct (Z.testbit x k).
Qed.

Lemma native_prot_bits prot k : 0 ≤ k < 3 → Z.testbit (native_prot prot) k = Z.testbit prot k.
Proof.
  intros Hk. unfold native_prot. change VM_PROT_READ with (2 ^ 0). change VM_PROT_WRITE with (2 ^ 1).
  change VM_PROT_EXECUTE with (2 ^ 2). rewrite !has_flag_bit by lia.
  assert (k = 0 ∨ k = 1 ∨ k = 2) as [-> | [-> | ->]] by lia;
    destruct (Z.testbit prot 0), (Z.testbit prot 1), (Z.testbit prot 2); reflexivity.
Qed.

Lemma useprot_grants seg : prot_grants seg (useprot_of seg).
Proof.
  intros k Hk. unfold useprot_of. change PROT_EXEC with (2 ^ 2). rewrite has_flag_bit, native_prot_bits by lia.
  by destruct (Z.testbit (seg_initprot seg) 2); rewrite native_prot_bits.
Qed.

End Image.

(** ** What loading the dynamic linker leaves alone *)

(** The fields of the executable survive, the history only grows, the maxima
    only rise, and an entry point that is set stays. *)
Record dylinker_frame (s s' : mldr_state) : Prop := mkFrame {
  fr_mh : lr_mh (st_lr s') = lr_mh (st_lr s);
  fr_uuid : lr_uuid (st_lr s') = lr_uuid (st_lr s);
  fr_root : lr_root_path (st_lr s') = lr_root_path (st_lr s);
  fr_bprefs : lr_bprefs (st_lr s') = lr_bprefs (st_lr s);
  fr_stack : lr_stack_top (st_lr s') = lr_stack_top (st_lr s);
  fr_aligned : lr_stack_top_aligned (st_lr s') = lr_stack_top_aligned (st_lr s);
  fr_kernfd : lr_kernfd (st_lr s') = lr_kernfd (st_lr s);
  fr_pipe : lr_lifetime_pipe (st_lr s') = lr_lifetime_pipe (st_lr s);
  fr_bitmap : st_bitmap s' = st_bitmap s;
  fr_environ : st_environ s' = st_environ s;
  fr_log : st_log s `prefix_of` st_log s';
  fr_vm_max : lr_vm_addr_max (st_lr s) ≤ lr_vm_addr_max (st_lr s');
  fr_stack_size : lr_stack_size (st_lr s) ≤ lr_stack_size (st_lr s');
  fr_entry : lr_entry_point (st_lr s) ≠ 0 → lr_entry_point (st_lr s') = lr_entry_point (st_lr s);
}.

#[export] Instance dylinker_frame_preorder : PreOrder dylinker_frame.
Proof.
  split.
  - intros s. constructor; try done; lia.
  - intros s1 s2 s3 [] []. constructor; try congruence; try lia.
    by etrans.
Qed.

Lemma frame_log s log : st_log s `prefix_of` log → dylinker_frame s (with_log log s).
Proof. intros. constructor; try done; cbn; lia. Qed.

(** An update of [load_results] that touches only the loader's own fields. *)
Definition lr_update_ok (r r' : load_results) : Prop :=
  dylinker_frame (mkState r [] socket_bitmap_init 0 0 [] [] [])
                 (mkState r' [] socket_bitmap_init 0 0 [] [] []).

Lemma frame_lr s f : lr_update_ok (st_lr s) (f (st_lr s)) → dylinker_frame s (with_lr f s).
Proof. intros []. constructor; try done. Qed.

Section DylinkerFrame.
Context (mmap_sys : list mevent → mreq → Z * Z) (env : load_env).
Implicit Types rec : list Z → Z → mldr_state → res mldr_error mldr_state.

Lemma compatible_mmap_log b log r result errno log' :
  compatible_mmap mmap_sys b log r = (result, errno, log') → log `prefix_of` log'.
Proof.
  unfold compatible_mmap, sys_mmap. intros H.
  repeat (case_match; simplify_eq/=); rewrite <- ?app_assoc; by eexists.
Qed.

Lemma map_or_exit_frame seg prot rq s s' :
  map_or_exit mmap_sys env seg prot rq s = Ok s' → dylinker_frame s s'.
Proof.
  unfold map_or_exit. destruct (compatible_mmap _ _ _ _) as [[rv errno] log] eqn:Hc.
  apply compatible_mmap_log in Hc. repeat case_match; intros; simplify_eq; by apply frame_log.
Qed.

Lemma frame_vm_max s v : lr_vm_addr_max (st_lr s) < v →
  dylinker_frame s (with_lr (lr_set_vm_addr_max v) s).
Proof. intros H. apply frame_lr. destruct (st_lr s); constructor; cbn in *; try done; lia. Qed.

Lemma map_segment_frame f off slide seg l l' :
  map_segment mmap_sys env f off slide seg l = Ok l' →
  dylinker_frame (ll_state l) (ll_state l').
Proof.
  unfold map_segment. intros H.
  apply bind_inv in H as (s1 & H1 & H). apply bind_inv in H as ([s2 mh] & H2 & H).
  assert (dylinker_frame (ll_state l) s1) as F1.
  { destruct (seg_filesize seg <? seg_vmsize seg);
      [by eapply map_or_exit_frame|by injection H1 as <-]. }
  assert (dylinker_frame s1 s2) as F2.
  { destruct (0 <? seg_filesize seg); [apply bind_inv in H2 as (s3 & H3 & H2); injection H2 as <- _;
      by eapply map_or_exit_frame|by injection H2 as <- _]. }
  injection H as <-. cbn [ll_state]. etrans; [exact F1|]. etrans; [exact F2|].
  destruct (Z.ltb_spec (lr_vm_addr_max (st_lr s2)) (u64 (seg_vmaddr seg + slide + seg_vmsize seg)));
    [by apply frame_vm_max|done].
Qed.

Lemma scan_data_sections_frame cmds p slide l l' :
  scan_data_sections cmds p slide l = Ok l' → dylinker_frame (ll_state l) (ll_state l').
Proof.
  unfold scan_data_sections. intros H. apply bind_inv in H as (is_data & _ & H).
  destruct is_data; [|by injection H as <-].
  apply bind_inv in H as (sz & _ & H). apply bind_inv in H as (info & _ & H).
  destruct info as [[addr size]|]; injection H as <-; [|done]. cbn [ll_state ll_with].
  apply frame_lr. destruct (st_lr (ll_state l)); constructor; cbn; try done; lia.
Qed.

Lemma load_command_frame rec f off slide header cmds p l l' :
  mh_filetype header = MH_DYLINKER →
  load_command mmap_sys env rec f off slide header cmds p l = Ok l' →
  dylinker_frame (ll_state l) (ll_state l').
Proof.
  intros Hh. unfold load_command. rewrite Hh. intros H.
  apply bind_inv in H as (cmd & _ & H). repeat case_match; try done.
  - apply bind_inv in H as (seg & _ & H). apply bind_inv in H as (l2 & H2 & H).
    etrans; [by eapply map_segment_frame|by eapply scan_data_sections_frame].
  - apply bind_inv in H as (entry & _ & H). by injection H as <-.
  - apply bind_inv in H as (sz & _ & H). injection H as <-.
    destruct (Z.ltb_spec (lr_stack_size (st_lr (ll_state l))) sz); [|done].
    apply frame_lr. destruct (st_lr (ll_state l)); constructor; cbn in *; try done; lia.
  - by injection H as <-.
  - by injection H as <-.
Qed.

Lemma load_commands_frame rec n f off slide header cmds p l l' :
  mh_filetype header = MH_DYLINKER →
  load_commands mmap_sys env rec n f off slide header cmds p l = Ok l' →
  dylinker_frame (ll_state l) (ll_state l').
Proof.
  intros Hh. revert p l. induction n as [|n IH]; intros p l H; cbn [load_commands] in H.
  - by injection H as <-.
  - destruct (p <? _); [|by injection H as <-].
    apply bind_inv in H as (l2 & H2 & H). apply bind_inv in H as (sz & _ & H).
    etrans; [by eapply load_command_frame|by eapply IH].
Qed.

Lemma reserve_range_frame cmds header s slide s' :
  reserve_range mmap_sys cmds header s = Ok (slide, s') → dylinker_frame s s'.
Proof.
  unfold reserve_range. intros H. apply bind_inv in H as ([base size] & _ & H).
  unfold sys_mmap in H. destruct (mmap_sys _ _) as [r e].
  destruct (r =? MAP_FAILED); [done|]. injection H as _ <-.
  set (s1 := with_log _ s).
  assert (dylinker_frame s s1) as F by (apply frame_log; rewrite <- app_assoc; by eexists).
  etrans; [exact F|]. change (st_lr s) with (st_lr s1). clearbody s1.
  destruct (Z.ltb_spec (lr_vm_addr_max (st_lr s1)) (u64 (r + size))) as [Hlt|]; [|done].
  apply frame_lr. destruct (st_lr s1); constructor; cbn in *; try done; lia.
Qed.

Lemma finish_load_frame header l :
  mh_filetype header = MH_DYLINKER → dylinker_frame (ll_state l) (finish_load header l).
Proof.
  intros Hh. unfold finish_load. rewrite Hh. cbn [Z.eqb MH_DYLINKER MH_EXECUTE Pos.eqb].
  destruct (_ && _) eqn:Hb; [|done]. apply andb_true_iff in Hb as [_ He%Z.eqb_eq].
  apply frame_lr. destruct (st_lr (ll_state l)); constructor; cbn in *; done || lia.
Qed.

Lemma load64_frame rec f pos s s' :
  load64 mmap_sys env rec f pos true s = Ok s' → dylinker_frame s s'.
Proof.
  unfold load64. intros H. cbn [negb] in H. rewrite bind_Ok in H.
  apply bind_inv in H as (raw & _ & H).
  destruct (Z.eqb_spec (mh_filetype (decode_header raw)) MH_DYLINKER) as [Hh|]; [|done].
  cbn [negb] in H. unfold sys_mmap in H. destruct (mmap_sys _ _) as [base errno].
  destruct (base =? MAP_FAILED); [done|].
  apply bind_inv in H as ([slide s2] & H2 & H). apply bind_inv in H as (l & H3 & H).
  set (s1 := with_log _ s) in H2.
  assert (dylinker_frame s s1) as F1 by (apply frame_log; by eexists).
  assert (dylinker_frame s1 s2) as F2.
  { destruct (is_pie _); [by eapply reserve_range_frame|by injection H2 as _ <-]. }
  apply load_commands_frame in H3; [|done]. cbn [ll_state] in H3.
  pose proof (finish_load_frame (decode_header raw) l Hh) as F4.
  etrans; [exact F1|]. etrans; [exact F2|]. etrans; [exact H3|]. etrans; [exact F4|].
  destruct (negb _); injection H as <-; [|done]. apply frame_log. by eexists.
Qed.

(** Loading the dynamic linker leaves the executable's results alone: its
    header address, UUID, the stack, the server socket, the lifetime pipe, the
    descriptor bitmap, the environment and the root path stay; mappings are only
    added; [vm_addr_max] and the stack size only rise; and an entry point already
    recorded is not replaced. *)
Theorem load_dylinker_frame depth path cpu s s' :
  load mmap_sys env depth path cpu true s = Ok s' → dylinker_frame s s'.
Proof.
  destruct depth as [|depth]; [done|]. cbn [load]. set (rec := fun _ _ _ => load _ _ _ _ _ _ _).
  unfold load_body, load_fat. destruct (ld_open env path) as [f|]; [|done]. intros H.
  apply bind_inv in H as (raw & _ & H). apply bind_inv in H as (s1 & H1 & H).
  assert (dylinker_frame s s1) as F1.
  { destruct (_ || _) in H1; [by eapply load64_frame|].
    destruct (_ || _) in H1; [done|]. destruct (_ || _) in H1; [|done].
    apply bind_inv in H1 as (best & _ & H1).
    destruct (negb _); [done|]. destruct (has_flag _ _); [|done]. by eapply load64_frame. }
  injection H as <-. etrans; [exact F1|]. constructor; try done; cbn; lia.
Qed.
End DylinkerFrame.

(** ** The path of the dynamic linker *)

Lemma until_nul_app_nul a b : Forall (fun c => c ≠ 0) a → until_nul (a ++ 0 :: b) = a.
Proof.
  induction 1 as [|c a Hc _ IH]; cbn; [done|].
  rewrite (proj2 (Z.eqb_neq _ _) Hc). by rewrite IH.
Qed.

(** The three stores into [path_buffer]. *)
Lemma path_buffer_pokes root name (k : list Z → res mldr_error (list Z)) :
  (length root + length name + 1 < 4096)%nat →
  (b ← poke (replicate 4096 0) 0 root;
   b ← poke b (Z.of_nat (length root)) (name ++ [0]);
   b ← poke b (Z.of_nat (length name + 1) + Z.of_nat (length root)) [0];
   k b) = k (root ++ name ++ 0 :: replicate (4095 - (length root + length name)) 0).
Proof.
  intros Hd.
  pose proof (poke_app (E := mldr_error) [] (replicate 4096 0) root) as P1.
  cbn [app length] in P1. change (Z.of_nat 0) with 0 in P1.
  rewrite P1, bind_Ok, drop_replicate by (rewrite length_replicate; lia).
  rewrite poke_app, bind_Ok, drop_replicate
    by (rewrite length_app, length_replicate; cbn [length]; lia).
  pose proof (poke_app (E := mldr_error) (root ++ name ++ [0])
    (replicate (4096 - length root - length (name ++ [0])) 0) [0]) as P3.
  rewrite <- !app_assoc, !length_app, length_replicate in P3. cbn [length] in P3.
  rewrite <- app_assoc, !length_app. cbn [length].
  replace (Z.of_nat (length name + 1) + Z.of_nat (length root))
    with (Z.of_nat (length root + (length name + 1))) by lia.
  rewrite P3, bind_Ok, drop_replicate by lia. cbn [app].
  replace (4095 - (length root + length name))%nat
    with (S (4096 - length root - (length name + 1) - 1)) by lia. done.
Qed.

(** The path of the dynamic linker is the root path followed by the name of
    the load command, and it is refused exactly when it does not fit the 4096-byte
    buffer with its terminator.  Without a root path the code reads the pointer
    [path] before anything was stored in it. *)
Theorem dylinker_path_spec root cmds p cmdsize name_offset name :
  peek_le (E := mldr_error) cmds (p + 4) 4 = Ok cmdsize →
  peek_le (E := mldr_error) cmds (p + 8) 4 = Ok name_offset →
  0 ≤ name_offset ≤ cmdsize → cmdsize < 2 ^ 32 →
  peek (E := mldr_error) cmds (p + name_offset) (Z.to_nat (cmdsize - name_offset)) =
    Ok (name ++ [0]) →
  Forall (fun c => c ≠ 0) root → Forall (fun c => c ≠ 0) name →
  dylinker_path (Some root) cmds p =
    (if bool_decide (length root + length name + 1 < 4096)%nat
     then Ok (root ++ name) else Err ErrDylinkerPath) ∧
  dylinker_path None cmds p = UB.
Proof.
  intros H1 H2 Hc Ho Hn Hroot Hname. split; [|done]. unfold dylinker_path.
  rewrite H1, bind_Ok, H2, bind_Ok. unfold u32. rewrite Z.mod_small by lia.
  assert (cmdsize - name_offset = Z.of_nat (length name + 1)) as Hlen.
  { unfold peek in Hn. destruct (_ && _) eqn:Hb in Hn; [|done]. injection Hn as Hn.
    apply andb_true_iff in Hb as [?%Z.leb_le ?%Z.leb_le].
    apply (f_equal length) in Hn. rewrite length_take, length_drop, length_app in Hn.
    cbn [length] in Hn. lia. }
  rewrite Hlen, Nat2Z.id in *. case_bool_decide as Hd.
  - rewrite (proj2 (Z.ltb_ge _ _)) by lia. rewrite Hn, bind_Ok.
    rewrite (path_buffer_pokes root name) by lia. f_equal.
    rewrite app_assoc. apply until_nul_app_nul. by apply Forall_app.
  - rewrite (proj2 (Z.ltb_lt _ _)) by lia. done.
Qed.

(** ** Witnesses *)

Definition be_bytes (n : nat) (v : Z) : list Z := reverse (le_bytes n v).

Definition fat_entry (cputype offset size : Z) : list Z :=
  be_bytes 4 cputype ++ be_bytes 4 3 ++ be_bytes 4 offset ++ be_bytes 4 size ++ be_bytes 4 12.

(** A universal file with an i386 and an x86_64 slice. *)
Definition fat_example : list Z :=
  be_bytes 4 FAT_MAGIC ++ be_bytes 4 2 ++
  fat_entry CPU_TYPE_X86 4096 100 ++ fat_entry CPU_TYPE_X86_64 8192 200.

Lemma select_arch_spec_witness :
  (∃ best, chosen 0 [7; 0; 0; 0] (archs_at 2 fat_example 8 true) best ∧
           select_arch fat_example 0 [7; 0; 0; 0] =
             if fa_cputype best =? CPU_TYPE_ANY then Err ErrNoArch else Ok best) ∧
  select_arch fat_example 0 [7; 0; 0; 0] = Ok (mkArch CPU_TYPE_X86 3 4096 100 12) ∧
  select_arch fat_example 0 [0; 0; 0; 0] = Ok (mkArch CPU_TYPE_X86_64 3 8192 200 12).
Proof.
  split; [|split; reflexivity].
  refine (proj1 (select_arch_spec fat_example 0 [7; 0; 0; 0] _) _).
  - cbn. lia.
  - vm_compute. lia.
Defined.

Definition pad (n : nat) (bs : list Z) : list Z := take n (bs ++ replicate n 0).

Definition segment_command (name : string) (vmaddr vmsize fileoff filesize prot : Z) : list Z :=
  le_bytes 4 LC_SEGMENT_64 ++ le_bytes 4 72 ++ pad 16 (cstr name) ++ le_bytes 8 vmaddr ++
  le_bytes 8 vmsize ++ le_bytes 8 fileoff ++ le_bytes 8 filesize ++ le_bytes 4 prot ++
  le_bytes 4 prot ++ le_bytes 4 0 ++ le_bytes 4 0.

Definition unixthread_command (entry : Z) : list Z :=
  le_bytes 4 LC_UNIXTHREAD ++ le_bytes 4 184 ++ replicate 136 0 ++ le_bytes 8 entry ++
  replicate 32 0.

Definition dylinker_command (name : string) (size : nat) : list Z :=
  pad size (le_bytes 4 LC_LOAD_DYLINKER ++ le_bytes 4 (Z.of_nat size) ++ le_bytes 4 12 ++
            cstr name).

Definition mach_file (filetype flags ncmds : Z) (cmds : list Z) : list Z :=
  le_bytes 4 MH_MAGIC_64 ++ le_bytes 4 CPU_TYPE_X86_64 ++ le_bytes 4 3 ++ le_bytes 4 filetype ++
  le_bytes 4 ncmds ++ le_bytes 4 (Z.of_nat (length cmds)) ++ le_bytes 4 flags ++ le_bytes 4 0 ++
  cmds.

(** A dynamic linker at 0x200000 with its entry point at 0x201000. *)
Definition dyld_example : list Z :=
  mach_file MH_DYLINKER 0 2
    (segment_command "__TEXT" 0x200000 0x2000 0 0x1000 5 ++ unixthread_command 0x201000).

(** An executable with a zero page and a text segment. *)
Definition exe_example : list Z :=
  mach_file MH_EXECUTE 0 3
    (segment_command "__PAGEZERO" 0 0x100000000 0 0 0 ++
     segment_command "__TEXT" 0x100000000 0x1000 0 0x1000 5 ++
     dylinker_command "/dyld" 24).

Definition env_example : load_env :=
  mkLoad (fun path => if bytes_eqb path (cstr "/bin/exe") then Some (mkFile 3 exe_example)
                      else if bytes_eqb path (cstr "/root/dyld") then Some (mkFile 4 dyld_example)
                      else None)
         true space_env_ok.

(** The executable's header and the linker's entry point come out of the load. *)
Example load_example :
  match load grant env_example 2 (cstr "/bin/exe") 0 false mldr_state_init with
  | Ok s => (lr_mh (st_lr s), lr_entry_point (st_lr s)) = (0x100000000, 0x201000)
  | _ => False
  end.
Proof. vm_compute. reflexivity. Qed.

Definition rooted_state : mldr_state :=
  with_lr (lr_set_root_path (Some (cstr "/root")) 5) mldr_state_init.

Lemma load_dylinker_frame_witness :
  ∃ s', load grant env_example 1 (cstr "/root/dyld") CPU_TYPE_X86_64 true rooted_state = Ok s' ∧
        dylinker_frame rooted_state s'.
Proof.
  eexists. split; [vm_compute; reflexivity|].
  apply (load_dylinker_frame grant env_example 1 (cstr "/root/dyld") CPU_TYPE_X86_64).
  vm_compute. reflexivity.
Defined.

Definition text_segment : segment := mkSeg 0x200000 0x2000 0 0x1000 5 5.


Lemma dylinker_path_spec_witness :
  dylinker_path (Some (cstr "/root")) (dylinker_command "/dyld" 18) 0 =
    Ok (cstr "/root" ++ cstr "/dyld") ∧
  dylinker_path None (dylinker_command "/dyld" 18) 0 = UB.
Proof.
  apply (dylinker_path_spec (cstr "/root") (dylinker_command "/dyld" 18) 0 18 12 (cstr "/dyld"));
    [reflexivity|reflexivity|lia|lia|reflexivity| |]; repeat constructor; discriminate.
Defined.
