(* ===== verification/MldrStart.v ===== *)
(** * Starting a Mach-O process ([mldr.c]: [main], [process_special_env],
    [vchroot_unexpand_interpreter]; [stack.c]: [setup_stack64])

    The arguments and the environment are blocks of bytes with arrays of
    pointers into them (offsets; [None] is [NULL]), because [main] moves the
    strings as well as the pointers.  The new stack is a block of bytes too. *)

From S2P Require Import Prelude SocketBitmap Commpage MldrSpace MachLoader.

(** ** Strings in memory *)

(** [strlen] from offset [p]: the bytes before the first NUL; running off the
    block is undefined. *)
Fixpoint scan_str (bs : list Z) : option (list Z) :=
  match bs with
  | [] => None
  | c :: bs => if c =? 0 then Some [] else (fun r => c :: r) <$> scan_str bs
  end.

Definition str_at (mem : list Z) (p : option Z) : res mldr_error (list Z) :=
  match p with
  | None => UB
  | Some p => if 0 <=? p then access (scan_str (drop (Z.to_nat p) mem)) else UB
  end.

Definition str_len (mem : list Z) (p : option Z) : res mldr_error Z :=
  s ← str_at mem p; Ok (Z.of_nat (length s)).

(** [memmove(dst, src, n)] within one block. *)
Definition memmove_in (mem : list Z) (dst src n : Z) : res mldr_error (list Z) :=
  bs ← peek mem src (Z.to_nat n); poke mem dst bs.

(** [memset(dst, 0, n)]; a null destination is undefined. *)
Definition memzero_in (mem : list Z) (dst : option Z) (n : Z) : res mldr_error (list Z) :=
  match dst with
  | None => UB
  | Some dst => poke mem dst (replicate (Z.to_nat n) 0)
  end.

(** [strncmp(a, b, n) == 0] for the strings [a] and [b]. *)
Definition strncmp_eq (n : Z) (a b : list Z) : bool :=
  bytes_eqb (take (Z.to_nat n) (a ++ [0])) (take (Z.to_nat n) (b ++ [0])).

(** ** [process_special_env] *)

Definition getenv (name : list Z) (environ : list (list Z)) : option (list Z) :=
  match filter (fun v => has_prefix (name ++ [61]) v = true) environ with
  | [] => None
  | v :: _ => Some (drop (length name + 1) v)
  end.

Definition is_space (c : Z) : bool := (c =? 32) || ((9 <=? c) && (c <=? 13)).

Fixpoint skip_space (s : list Z) : list Z :=
  match s with
  | c :: s' => if is_space c then skip_space s' else s
  | [] => []
  end.

Definition digit_in (base c : Z) : option Z :=
  let d := if (48 <=? c) && (c <=? 57) then c - 48
           else if (97 <=? c) && (c <=? 102) then c - 87
           else if (65 <=? c) && (c <=? 70) then c - 55 else 99 in
  if d <? base then Some d else None.

(** The longest run of digits: the value, how many there are, the rest. *)
Fixpoint scan_digits (base : Z) (s : list Z) (acc : Z) (n : nat) : Z * nat * list Z :=
  match s with
  | c :: s' =>
      match digit_in base c with
      | Some d => scan_digits base s' (acc * base + d) (S n)
      | None => (acc, n, s)
      end
  | [] => (acc, n, [])
  end.

Definition scan_sign (s : list Z) : bool * list Z :=
  match s with
  | c :: s' => if c =? 45 then (true, s') else if c =? 43 then (false, s') else (false, s)
  | [] => (false, s)
  end.

Definition has_0x (s : list Z) : bool :=
  match s with
  | a :: b :: _ => (a =? 48) && ((b =? 120) || (b =? 88))
  | _ => false
  end.

(** A [scanf] integer conversion: [%x] is base 16, [%i] base 0 (by prefix). *)
Definition scan_int (base0 : bool) (s : list Z) : option (Z * list Z) :=
  let '(neg, s) := scan_sign (skip_space s) in
  let '(base, s) :=
    if has_0x s then (16, drop 2 s)
    else if base0 then ((match s with 48 :: _ => 8 | _ => 10 end), s)
    else (16, s) in
  let '(v, n, rest) := scan_digits base s 0 0 in
  if (n =? 0)%nat then None else Some (if neg then - v else v, rest).

(** [sscanf(str, "%x,%x,%x,%x", ...)] into the four preferences: conversion stops
    at the first field that does not match. *)
Fixpoint scan_bprefs (s : list Z) (prefs : list Z) : list Z :=
  match prefs with
  | [] => []
  | p :: prefs =>
      match scan_int false s with
      | None => p :: prefs
      | Some (v, rest) =>
          u32 v :: match rest with
                   | 44 :: rest => scan_bprefs rest prefs
                   | _ => prefs
                   end
      end
  end.

Definition sizeof_sun_path : Z := 108.

Inductive start_error :=
  | ErrDirect              (* mldr is not to be executed directly *)
  | ErrSocketPath          (* osxieserver socket path is too long *)
  | ErrLoad (e : mldr_error)
  | ErrFilePath            (* File path was too big *)
  | ErrDyldInfo | ErrExecutablePath.

(** [struct load_results] keeps the server's socket path beside the fields of
    the loader. *)
Definition process_special_env (environ : list (list Z)) (lr : load_results) :
    res start_error (load_results * option (list Z)) :=
  let lr := let '(mkLR a b c d e f g h i _ k l m n o p) := lr in
            mkLR a b c d e f g h i [0; 0; 0; 0] k l m n o p in
  let lr := match getenv (cstr "__mldr_bprefs") environ with
            | Some str => let '(mkLR a b c d e f g h i bp k l m n o p) := lr in
                          mkLR a b c d e f g h i (scan_bprefs str bp) k l m n o p
            | None => lr
            end in
  socket_path ←
    ((match getenv (cstr "__mldr_sockpath") environ with
      | Some str => if sizeof_sun_path - 1 <? Z.of_nat (length str) then Err ErrSocketPath
                    else Ok (Some str)
      | None => Ok None
      end) : res start_error (option (list Z)));
  let lr := lr_set_lifetime_pipe (-1) lr in
  let lr := match getenv (cstr "__mldr_lifetime_pipe") environ with
            | Some str => match scan_int true str with
                          | Some (v, _) => lr_set_lifetime_pipe (i32 v) lr
                          | None => lr
                          end
            | None => lr
            end in
  let lr := match getenv (cstr "__mldr_DYLD_ROOT_PATH") environ, lr_root_path lr with
            | Some str, None =>
                let root := take 4095 str in
                lr_set_root_path (Some root) (Z.of_nat (length root)) lr
            | _, _ => lr
            end in
  Ok (lr, socket_path).

(** ** The arguments *)

(** A block of strings and the array of pointers into it, with its [NULL]. *)
Record strings := mkStrings { sv_mem : list Z; sv_ptrs : list (option Z) }.

Definition ptr_get (v : strings) (i : Z) : res mldr_error (option Z) :=
  access (sv_ptrs v !! Z.to_nat i).

Definition ptr_set (v : strings) (i : Z) (p : option Z) : res mldr_error strings :=
  if (Z.to_nat i <? length (sv_ptrs v))%nat
  then Ok (mkStrings (sv_mem v) (<[Z.to_nat i := p]> (sv_ptrs v))) else UB.

(** [base + total], for a pointer that is not null. *)
Definition ptr_add (p : option Z) (d : Z) : res mldr_error (option Z) :=
  match p with Some p => Ok (Some (p + d)) | None => UB end.

(** [for (j = start; ...; ++j) { ptrs[j] = ptrs[start] + total;
    total += strlen(ptrs[j + 1]) + 1; }], [n] times from [j]. *)
Fixpoint shift_ptrs (n : nat) (start j total : Z) (v : strings) : res mldr_error (strings * Z) :=
  match n with
  | O => Ok (v, total)
  | S n =>
      base ← ptr_get v start;
      p ← ptr_add base total;
      v ← ptr_set v j p;
      next ← ptr_get v (j + 1);
      len ← str_len (sv_mem v) next;
      shift_ptrs n start (j + 1) (total + (len + 1)) v
  end.

(** Removal of mldr's own [argv[0]]: the pointers are moved down and the
    strings with them.  The result is the new argument vector and [argc]. *)
Definition adjust_argv (argc : Z) (v : strings) : res mldr_error (strings * Z) :=
  let argc := argc - 1 in
  first ← ptr_get v 0;
  len0 ← str_len (sv_mem v) first;
  let orig_argv0_len := len0 + 1 in
  orig_argv1 ← ptr_get v 1;
  '(v, total) ← shift_ptrs (Z.to_nat argc) 0 0 0 v;
  v ← ptr_set v argc None;
  dst ← ptr_get v 0;
  mem ← (match dst, orig_argv1 with
         | Some d, Some s => memmove_in (sv_mem v) d s total
         | _, _ => if total =? 0 then Ok (sv_mem v) else UB
         end);
  mem ← memzero_in mem (match dst with Some d => Some (d + total) | None => None end)
                   orig_argv0_len;
  Ok (mkStrings mem (sv_ptrs v), argc).

(** ** The environment *)

Definition env_var_matches (name s : list Z) : bool := has_prefix name s.

(** [unsetenv] on the array of pointers: the entries after a removed one move
    down, and the array ends with as many more [NULL]s. *)
Definition unset_ptrs (v : strings) : res mldr_error strings :=
  let strs := map (fun p => match p with
                            | Some _ => match str_at (sv_mem v) p with Ok s => Some s | _ => None end
                            | None => None
                            end) (sv_ptrs v) in
  let kept := omap (fun '(p, s) =>
    match s with
    | Some s => if bool_decide (s ∈ unset_special_env [s]) then Some (p : option Z) else None
    | None => None
    end) (zip (sv_ptrs v) strs) in
  Ok (mkStrings (sv_mem v) (kept ++ replicate (length (sv_ptrs v) - length kept) None)).

(** Removal of the variable at [i]; [envc] counts it. *)
Definition remove_env (i envc len : Z) (v : strings) : res mldr_error (strings * Z) :=
  orig_next ← ptr_get v (i + 1);
  let envc := envc - 1 in
  '(v, len_after) ← shift_ptrs (Z.to_nat (envc - i)) i i 0 v;
  v ← ptr_set v envc None;
  dst ← ptr_get v i;
  mem ← (match dst, orig_next with
         | Some d, Some s => memmove_in (sv_mem v) d s len_after
         | _, _ => if len_after =? 0 then Ok (sv_mem v) else UB
         end);
  mem ← memzero_in mem (match dst with Some d => Some (d + len_after) | None => None end) len;
  Ok (mkStrings mem (sv_ptrs v), envc).

(** [__mldr_DYLD_ROOT_PATH=...] becomes [DYLD_ROOT_PATH=...] in place. *)
Definition rename_env (i : Z) (v : strings) : res mldr_error strings :=
  p ← ptr_get v i;
  match p with
  | None => UB
  | Some p =>
      let env_p := p + 7 in
      rest ← str_len (sv_mem v) (Some env_p);
      mem ← memmove_in (sv_mem v) p env_p (rest + 1);
      Ok (mkStrings mem (sv_ptrs v))
  end.

(** The loop over the environment. *)
Fixpoint adjust_envp (fuel : nat) (i envc : Z) (v : strings) : res mldr_error (strings * Z) :=
  match fuel with
  | O => NoFuel
  | S fuel =>
      if i <? envc then
        p ← ptr_get v i;
        match p with
        | None => Ok (v, i)
        | Some _ =>
            s ← str_at (sv_mem v) p;
            let len := Z.of_nat (length s) + 1 in
            if env_var_matches (cstr "__mldr_bprefs=") s ||
               env_var_matches (cstr "__mldr_sockpath=") s then
              '(v, envc) ← remove_env i envc len v;
              adjust_envp fuel i envc v
            else if env_var_matches (cstr "__mldr_DYLD_ROOT_PATH=") s then
              v ← rename_env i v;
              adjust_envp fuel (i + 1) envc v
            else adjust_envp fuel (i + 1) envc v
        end
      else Ok (v, envc)
  end.

(** ** Paths as the Mach-O world sees them *)

Definition SYSTEM_ROOT : list Z := cstr "/Volumes/SystemRoot".

(** The common step of [vchroot_unexpand_interpreter] and [setup_stack64]: the
    path [s] inside the root loses the root, a path outside is prefixed with
    [SYSTEM_ROOT]; the result goes to a 4096-byte buffer. *)
Definition unexpand (root : list Z) (root_len : Z) (s : list Z) : res mldr_error (list Z) :=
  let length := Z.of_nat (length s) in
  let buf := replicate 4096 0 in
  if strncmp_eq root_len s root then
    bs ← peek (s ++ [0]) root_len (Z.to_nat (u64 (length - root_len + 1)));
    poke buf 0 bs
  else
    buf ← poke buf (Z.of_nat (List.length SYSTEM_ROOT)) (s ++ [0]);
    poke buf 0 SYSTEM_ROOT.

Definition vchroot_unexpand_interpreter (lr : load_results) (argv0 : list Z) :
    res mldr_error (list Z) :=
  match lr_root_path lr with
  | None => Ok argv0
  | Some root =>
      unexpanded ← unexpand root (lr_root_path_length lr) argv0;
      Ok (until_nul unexpanded)
  end.

(** ** [setup_stack64] *)

Fixpoint print_base (fuel : nat) (base n : Z) (acc : list Z) : list Z :=
  match fuel with
  | O => acc
  | S fuel =>
      let d := n mod base in
      let c := if d <? 10 then d + 48 else d + 87 in
      if n <? base then c :: acc else print_base fuel base (n / base) (c :: acc)
  end.

(** [%d] of an [int] and [%lx] of an [unsigned long]. *)
Definition print_int (n : Z) : list Z :=
  if n <? 0 then 45 :: print_base 10 10 (- n) [] else print_base 10 10 n [].
Definition print_hex (n : Z) : list Z := print_base 16 16 n [].

(** The [size]-byte array [snprintf] leaves: the text cut to fit, a NUL, and
    whatever the array held after that. *)
Definition snprintf (size : nat) (junk : Z) (text : list Z) : list Z :=
  let t := take (size - 1) text in t ++ [0] ++ replicate (size - 1 - length t) junk.

Definition EXECUTABLE_PATH : list Z := cstr "executable_path=".

(** The stack being filled: the address of its lowest byte and its bytes. *)
Record stack_mem := mkStack { sk_lo : Z; sk_bytes : list Z }.

Definition stack_write (m : stack_mem) (addr : Z) (bs : list Z) : res mldr_error stack_mem :=
  bytes ← poke (sk_bytes m) (addr - sk_lo m) bs; Ok (mkStack (sk_lo m) bytes).

Definition put_user (m : stack_mem) (addr v : Z) : res mldr_error stack_mem :=
  stack_write m addr (le_bytes 8 v).

(** The pointers of [argv] or [envp] (0 is [NULL]), at most [n] of them: the
    stack, the next free slot and the count, cut at a [NULL]. *)
Fixpoint put_ptrs (n : nat) (i : Z) (ptrs : list Z) (m : stack_mem) (slot : Z) :
    res mldr_error (stack_mem * Z * Z) :=
  match n with
  | O => Ok (m, slot, i)
  | S n =>
      p ← access (ptrs !! Z.to_nat i);
      if p =? 0 then Ok (m, slot, i)
      else m ← put_user m slot p; put_ptrs n (i + 1) ptrs m (slot + 8)
  end.

Definition user_long_count (v : Z) : Z := (v + 7) / 8.

(** The executable's path for [applep]. *)
Definition executable_path (lr : load_results) (filepath : list Z) : res mldr_error (list Z) :=
  match lr_root_path lr with
  | None => Ok filepath
  | Some root =>
      executable_buf ← unexpand root (lr_root_path_length lr) filepath;
      Ok (until_nul executable_buf)
  end.

Record stack_args := mkArgs {
  sa_argc : Z; sa_argv : list Z; sa_envc : Z; sa_envp : list Z;
  sa_elfcalls : Z; sa_junk : Z;
}.

(** The addresses of the three strings and of the lowest slot. *)
Definition exepath_user (top len : Z) : Z := top - len - (Z.of_nat (length EXECUTABLE_PATH) + 1).
Definition kernfd_user (top len : Z) : Z := exepath_user top len - 12.
Definition elfcalls_user (top len : Z) : Z := kernfd_user top len - 27.
Definition stack_slot (top len argc envc : Z) : Z :=
  Z.land top (Z.lnot 7) -
  8 * (1 + 1 + (argc + 1) + (envc + 1) + 4 +
       user_long_count (len + (Z.of_nat (length EXECUTABLE_PATH) + 1) + 12 + 27)).

Definition setup_stack64 (filepath : list Z) (a : stack_args) (lr : load_results)
    (m : stack_mem) : res mldr_error (res start_error (load_results * Z * Z * stack_mem)) :=
  if 4096 <=? Z.of_nat (length filepath) then Ok (Err ErrFilePath) else
  path ← executable_path lr filepath;
  let len := Z.of_nat (length path) in
  let top := lr_stack_top lr in
  let sp := stack_slot top len (sa_argc a) (sa_envc a) in
  let exe_p := exepath_user top len in
  let kern_p := kernfd_user top len in
  let elf_p := elfcalls_user top len in
  m ← stack_write m exe_p EXECUTABLE_PATH;
  m ← stack_write m (exe_p + Z.of_nat (length EXECUTABLE_PATH)) (path ++ [0]);
  m ← stack_write m kern_p
        (snprintf 12 (sa_junk a) (cstr "kernfd=" ++ print_int (lr_kernfd lr)));
  m ← stack_write m elf_p
        (snprintf 27 (sa_junk a) (cstr "elf_calls=" ++ print_hex (sa_elfcalls a)));
  let lr := lr_set_stack_top sp lr in
  m ← put_user m sp (lr_mh lr);
  m ← put_user m (sp + 8) (sa_argc a);
  '(m, slot, argc) ← put_ptrs (Z.to_nat (sa_argc a)) 0 (sa_argv a) m (sp + 16);
  m ← put_user m slot 0;
  '(m, slot, envc) ← put_ptrs (Z.to_nat (sa_envc a)) 0 (sa_envp a) m (slot + 8);
  m ← put_user m slot 0;
  m ← put_user m (slot + 8) exe_p;
  m ← put_user m (slot + 16) kern_p;
  m ← put_user m (slot + 24) elf_p;
  m ← put_user m (slot + 32) 0;
  Ok (Ok (lr, argc, envc, m)).

(** ** [main] *)

(** The addresses of the argument and environment blocks, of the [unexpanded]
    buffer and of the ELF call table, and the server's answers. *)
Record main_env := mkMain {
  me_load : load_env;
  me_args_base : Z;
  me_env_base : Z;
  me_unexpanded : Z;
  me_elfcalls : Z;
  me_junk : Z;
  me_dyld_info : Z;
  me_exe_path : Z;
}.

Definition abs_ptr (base : Z) (p : option Z) : Z :=
  match p with Some p => base + p | None => 0 end.

(** What [main] hands to [start_thread]. *)
Record start := mkStart {
  sp_entry : Z; sp_stack_top : Z; sp_main_stack_top : Z; sp_stack : stack_mem;
}.

(** The path to load: what follows the first ['!'] of [argv[0]], or [argv[1]]. *)
Fixpoint after_bang (s : list Z) : option (list Z) :=
  match s with
  | [] => None
  | c :: s => if c =? 33 then Some s else after_bang s
  end.

Definition fail {A : Type} (m : res mldr_error A) : res start_error A :=
  match m with Ok a => Ok a | Err e => Err (ErrLoad e) | UB => UB | NoFuel => NoFuel end.

Definition envc_of (v : strings) : Z :=
  Z.of_nat (length (sv_ptrs v)) - 1.

Definition main (mmap_sys : list mevent → mreq → Z * Z) (e : main_env) (argc : Z)
    (argv envp : strings) (stack : stack_mem) (s : mldr_state) : res start_error start :=
  bang ← (if 0 <? argc then
            p ← fail (ptr_get argv 0); s0 ← fail (str_at (sv_mem argv) p); Ok (after_bang s0)
          else Ok None);
  if (argc <=? 1) && bool_decide (bang = None) then Err ErrDirect else
  filename ← (match bang with
              | Some p => Ok p
              | None => p ← fail (ptr_get argv 1); fail (str_at (sv_mem argv) p)
              end);
  '(lr, _) ← process_special_env (st_environ s) (lr_set_kernfd (-1) (st_lr s));
  s ← fail (load mmap_sys (me_load e) 2 filename 0 false (with_lr (fun _ => lr) s));
  envp ← fail (unset_ptrs envp);
  '(argv, argc) ← fail (adjust_argv argc argv);
  let addrs := map (abs_ptr (me_args_base e)) (sv_ptrs argv) in
  addrs ← (match bang with
           | Some _ => Ok addrs
           | None =>
               p ← fail (ptr_get argv 0);
               match lr_root_path (st_lr s) with
               | None => Ok addrs
               | Some _ =>
                   s0 ← fail (str_at (sv_mem argv) p);
                   _ ← fail (vchroot_unexpand_interpreter (st_lr s) s0);
                   Ok (<[0%nat := me_unexpanded e]> addrs)
               end
           end);
  let envc := envc_of envp in
  '(envp, envc) ← fail (adjust_envp (S (2 * Z.to_nat envc)) 0 envc envp);
  r ← fail (setup_stack64 filename
              (mkArgs argc addrs envc (map (abs_ptr (me_env_base e)) (sv_ptrs envp))
                      (me_elfcalls e) (me_junk e)) (st_lr s) stack);
  '(lr, _, _, stack) ← r;
  if me_dyld_info e <? 0 then Err ErrDyldInfo else
  if me_exe_path e <? 0 then Err ErrExecutablePath else
  Ok (mkStart (lr_entry_point lr) (lr_stack_top lr) (lr_stack_top_aligned lr) stack).

(** ** Theorems *)

Definition no_nul (s : list Z) : Prop := Forall (fun c => c ≠ 0) s.

(** Strings stored one after the other, and the pointers to them. *)
Definition pack (ss : list (list Z)) : list Z := concat (map (fun s => s ++ [0]) ss).

Fixpoint offsets (o : Z) (ss : list (list Z)) : list (option Z) :=
  match ss with
  | [] => []
  | s :: ss => Some o :: offsets (o + (Z.of_nat (length s) + 1)) ss
  end.

Lemma length_offsets o ss : length (offsets o ss) = length ss.
Proof. revert o. induction ss as [|s ss IH]; intros o; cbn; [done|]. by rewrite IH. Qed.

Lemma scan_str_spec s rest : no_nul s → scan_str (s ++ 0 :: rest) = Some s.
Proof.
  induction 1 as [|c s Hc _ IH]; cbn; [done|].
  rewrite (proj2 (Z.eqb_neq _ _) Hc). by rewrite IH.
Qed.

Lemma str_at_spec a s b :
  no_nul s → str_at (a ++ s ++ 0 :: b) (Some (Z.of_nat (length a))) = Ok s.
Proof.
  intros Hs. unfold str_at. rewrite (proj2 (Z.leb_le _ _)) by lia.
  by rewrite Nat2Z.id, drop_app_length, scan_str_spec.
Qed.

Lemma pack_cons s ss : pack (s :: ss) = s ++ 0 :: pack ss.
Proof. unfold pack. cbn. by rewrite <- app_assoc. Qed.

Lemma ptr_get_middle mem a x b :
  ptr_get (mkStrings mem (a ++ x :: b)) (Z.of_nat (length a)) = Ok x.
Proof. unfold ptr_get. cbn. by rewrite Nat2Z.id, list_lookup_middle. Qed.

Lemma ptr_get_head mem x l : ptr_get (mkStrings mem (x :: l)) 0 = Ok x.
Proof. reflexivity. Qed.

Lemma ptr_get_second mem x y l : ptr_get (mkStrings mem (x :: y :: l)) 1 = Ok y.
Proof. reflexivity. Qed.

Lemma ptr_set_middle mem a x y b :
  ptr_set (mkStrings mem (a ++ x :: b)) (Z.of_nat (length a)) y =
    Ok (mkStrings mem (a ++ y :: b)).
Proof.
  unfold ptr_set. cbn [sv_mem sv_ptrs]. rewrite Nat2Z.id.
  rewrite (proj2 (Nat.ltb_lt _ _)) by (rewrite length_app; cbn; lia).
  rewrite insert_app_r_alt by lia. by rewrite Nat.sub_diag.
Qed.

(** The pointers to strings that follow each other, after the shift. *)
Lemma shift_ptrs_spec mem ss a0 base start total pre cur tail :
  Forall no_nul ss →
  mem = a0 ++ pack ss →
  ptr_get (mkStrings mem (pre ++ cur :: offsets (Z.of_nat (length a0)) ss ++ tail)) start =
    Ok (Some base) →
  (start < Z.of_nat (length pre) ∨ start = Z.of_nat (length pre) ∧ total = 0) → 0 ≤ start →
  shift_ptrs (length ss) start (Z.of_nat (length pre)) total
    (mkStrings mem (pre ++ cur :: offsets (Z.of_nat (length a0)) ss ++ tail)) =
  Ok (mkStrings mem (pre ++ offsets (base + total) ss ++
        default cur (last (offsets (Z.of_nat (length a0)) ss)) :: tail),
      total + Z.of_nat (length (pack ss))).
Proof.
  intros Hss. revert a0 total pre cur. induction Hss as [|s ss Hs Hss IH];
    intros a0 total pre cur Hmem Hstart Hcase H0.
  { cbn. by rewrite Z.add_0_r. }
  cbn [length shift_ptrs offsets]. cbn [offsets] in Hstart.
  rewrite Hstart, bind_Ok. cbn [ptr_add]. rewrite bind_Ok, ptr_set_middle, bind_Ok.
  set (pre' := pre ++ [Some (base + total)]).
  assert (∀ t, pre ++ Some (base + total) :: t = pre' ++ t) as Hpre
    by (intros; subst pre'; by rewrite <- app_assoc).
  rewrite !Hpre.
  replace (Z.of_nat (length pre) + 1) with (Z.of_nat (length pre'))
    by (subst pre'; rewrite length_app; cbn; lia).
  cbn [app]. rewrite ptr_get_middle, bind_Ok. unfold str_len. cbn [sv_mem].
  rewrite Hmem at 1. rewrite pack_cons, str_at_spec by done. rewrite bind_Ok, bind_Ok.
  specialize (IH (a0 ++ s ++ [0]) (total + (Z.of_nat (length s) + 1)) pre'
                 (Some (Z.of_nat (length a0)))).
  replace (Z.of_nat (length (a0 ++ s ++ [0])))
    with (Z.of_nat (length a0) + (Z.of_nat (length s) + 1)) in IH
    by (rewrite !length_app; cbn; lia).
  rewrite IH.
  - f_equal. f_equal.
    + f_equal. rewrite <- !Hpre, Z.add_assoc. cbn [app].
      do 4 f_equal. rewrite last_cons. by destruct (last _).
    + rewrite length_app. cbn [length]. lia.
  - by rewrite Hmem, pack_cons, <- !app_assoc.
  - unfold ptr_get in *. cbn [sv_ptrs] in *. destruct Hcase as [Hlt|[-> ->]].
    + rewrite lookup_app_l in Hstart by lia. subst pre'.
      rewrite !lookup_app_l by (rewrite ?length_app; lia). done.
    + rewrite Nat2Z.id in *. rewrite list_lookup_middle in Hstart by done.
      cbn in Hstart. injection Hstart as ->. subst pre'. rewrite <- app_assoc. cbn [app].
      rewrite list_lookup_middle by done. cbn. by rewrite Z.add_0_r.
  - subst pre'. rewrite length_app. cbn [length]. left. lia.
  - done.
Qed.

(** Moving packed strings over the first one, and clearing what is left. *)
Lemma move_down s0 body :
  (m ← memmove_in (s0 ++ 0 :: body) 0 (Z.of_nat (length s0) + 1) (Z.of_nat (length body));
   memzero_in m (Some (0 + Z.of_nat (length body))) (Z.of_nat (length s0) + 1)) =
  Ok (body ++ replicate (length s0 + 1) 0).
Proof.
  unfold memmove_in, peek. rewrite length_app, length_cons, Nat2Z.id.
  rewrite (proj2 (Z.leb_le _ _)), (proj2 (Z.leb_le _ _)) by lia. cbn [andb]. rewrite bind_Ok.
  replace (Z.to_nat (Z.of_nat (length s0) + 1)) with (length s0 + 1)%nat by lia.
  rewrite drop_app_add. change (drop 1 (0 :: body)) with body. rewrite take_ge by lia.
  unfold poke at 1. rewrite length_app, length_cons.
  rewrite (proj2 (Z.leb_le _ _)), (proj2 (Z.leb_le _ _)) by lia. cbn [andb]. rewrite bind_Ok.
  change (Z.to_nat 0) with 0%nat. cbn [take app Nat.add memzero_in]. rewrite Z.add_0_l.
  rewrite take_0; cbn [app].   rewrite poke_app by (rewrite length_replicate, length_drop, length_app, length_cons; lia).
  rewrite length_replicate, drop_drop, drop_ge by (rewrite length_app, length_cons; lia).
  rewrite app_nil_r. do 3 f_equal. lia.
Qed.

(** The vector the kernel passes: the strings follow each other. *)
Definition contiguous (ss : list (list Z)) : strings :=
  mkStrings (pack ss) (offsets 0 ss ++ [None]).

(** Removal of the first of at least two strings. *)
Lemma adjust_argv_ok s0 s1 ss :
  Forall no_nul (s0 :: s1 :: ss) →
  adjust_argv (Z.of_nat (length (s0 :: s1 :: ss))) (contiguous (s0 :: s1 :: ss)) =
    Ok (mkStrings (pack (s1 :: ss) ++ replicate (length s0 + 1) 0)
                  (offsets 0 (s1 :: ss) ++ [None; None]),
        Z.of_nat (length (s1 :: ss))).
Proof.
  intros [H0 Hss]%Forall_cons. set (rest := s1 :: ss) in *.
  unfold adjust_argv, contiguous. rewrite pack_cons. cbn [offsets sv_mem].
  set (mem := s0 ++ 0 :: pack rest). set (n0 := Z.of_nat (length s0) + 1).
  cbn [app]. rewrite ptr_get_head, bind_Ok. unfold str_len. cbn [sv_mem].
  pose proof (str_at_spec [] s0 (pack rest) H0) as Hs0. cbn [app length] in Hs0.
  change (str_at mem (Some 0) = Ok s0) in Hs0.
  rewrite Hs0, bind_Ok, bind_Ok. fold n0.
  assert (offsets (0 + n0) rest = Some n0 :: tail (offsets (0 + n0) rest)) as Ho by done.
  rewrite Ho. cbn [app]. rewrite ptr_get_second, bind_Ok.
  change (Some n0 :: tail (offsets (0 + n0) rest) ++ [None])
    with (offsets (0 + n0) rest ++ [None]).
  replace (Z.to_nat (Z.of_nat (length (s0 :: rest)) - 1)) with (length rest) by (cbn; lia).
  pose proof (shift_ptrs_spec mem rest (s0 ++ [0]) 0 0 0 [] (Some 0) [None] Hss) as Hshift.
  replace (Z.of_nat (length (s0 ++ [0]))) with (0 + n0) in Hshift
    by (subst n0; rewrite length_app; cbn; lia).
  cbn [length app] in Hshift. change (Z.of_nat 0) with 0 in Hshift.
  rewrite Hshift; [|by subst mem; rewrite <- app_assoc|done|by right|done]. rewrite bind_Ok.
  replace (Z.of_nat (length (s0 :: rest)) - 1) with (Z.of_nat (length (offsets (0 + 0) rest)))
    by (rewrite length_offsets; cbn; lia).
  rewrite ptr_set_middle, bind_Ok. subst rest. cbn [offsets app].
  rewrite ptr_get_head, bind_Ok. cbn [sv_mem]. rewrite Z.add_0_l. subst mem n0.
  pose proof (move_down s0 (pack (s1 :: ss))) as Hm.
  apply bind_inv in Hm as (m & Hmv & Hz). rewrite (Z.add_0_l (Z.of_nat (length (pack _)))).
  rewrite Hmv, bind_Ok, Hz, bind_Ok. do 3 f_equal.
  by rewrite length_cons, length_offsets.
Qed.

Lemma lookup_offsets ss i s o rest :
  ss !! i = Some s →
  ∃ a b, pack ss ++ rest = a ++ s ++ 0 :: b ∧
         offsets o ss !! i = Some (Some (o + Z.of_nat (length a))).
Proof.
  revert i o. induction ss as [|s1 ss IH]; intros i o Hi; [done|].
  rewrite pack_cons. destruct i as [|i]; cbn in Hi.
  - injection Hi as ->. exists [], (pack ss ++ rest). cbn. rewrite <- app_assoc. cbn.
    by rewrite Z.add_0_r.
  - destruct (IH i (o + (Z.of_nat (length s1) + 1)) Hi) as (a & b & Hp & Ho).
    exists (s1 ++ 0 :: a), b. rewrite <- !app_assoc. cbn [app]. split; [by rewrite Hp|].
    change (offsets (o + (Z.of_nat (length s1) + 1)) ss !! i =
            Some (Some (o + Z.of_nat (length (s1 ++ 0 :: a))))).
    rewrite Ho. do 2 f_equal. rewrite length_app. cbn. lia.
Qed.

(** Dropping mldr's own [argv[0]] from a vector of at least two contiguous
    strings leaves every other argument readable through its new pointer, in
    order and null-terminated, inside the same block.  With a single argument
    (the case [main] announces as "Executing with no argv[0]. Continuing anyway")
    the cleared pointer is then written through. *)
Theorem adjust_argv_spec s0 ss :
  Forall no_nul (s0 :: ss) →
  match ss with
  | [] => adjust_argv 1 (contiguous [s0]) = UB
  | _ =>
      ∃ v, adjust_argv (Z.of_nat (length (s0 :: ss))) (contiguous (s0 :: ss)) =
             Ok (v, Z.of_nat (length ss)) ∧
           (∀ i s, ss !! i = Some s →
              ∃ p, sv_ptrs v !! i = Some p ∧ str_at (sv_mem v) p = Ok s) ∧
           sv_ptrs v !! length ss = Some None ∧
           length (sv_mem v) = length (pack (s0 :: ss))
  end.
Proof.
  intros H. destruct ss as [|s1 ss].
  - apply Forall_cons in H as [H0 _]. unfold adjust_argv, contiguous. cbn [offsets app sv_mem].
    rewrite ptr_get_head, bind_Ok, pack_cons. unfold str_len. cbn [sv_mem].
    pose proof (str_at_spec [] s0 (pack []) H0) as Hs0. cbn [app length] in Hs0.
    change (Z.of_nat 0) with 0 in Hs0. rewrite Hs0, bind_Ok, bind_Ok. reflexivity.
  - eexists. split; [by apply adjust_argv_ok|]. cbn [sv_ptrs sv_mem]. split_and!.
    + intros i s Hi.
      destruct (lookup_offsets (s1 :: ss) i s 0 (replicate (length s0 + 1) 0) Hi)
        as (a & b & Hp & Ho).
      exists (Some (0 + Z.of_nat (length a))). rewrite Hp. split.
      * rewrite lookup_app_l by (rewrite length_offsets; by eapply lookup_lt_Some). done.
      * rewrite Z.add_0_l. apply str_at_spec.
        apply Forall_cons in H as [_ H]. by eapply Forall_lookup_1.
    + rewrite lookup_app_r by (by rewrite length_offsets). rewrite length_offsets.
      by rewrite Nat.sub_diag.
    + rewrite length_app, length_replicate, (pack_cons s0), length_app, length_cons. lia.
Qed.

(** ** The stack image *)

Section StackImage.

(** A store and the loads that follow it. *)
Lemma stack_write_inv m addr bs m' :
  stack_write m addr bs = Ok m' →
  sk_lo m' = sk_lo m ∧ length (sk_bytes m') = length (sk_bytes m) ∧
  sk_lo m ≤ addr ∧ addr + Z.of_nat (length bs) ≤ sk_lo m + Z.of_nat (length (sk_bytes m)) ∧
  poke (E := mldr_error) (sk_bytes m) (addr - sk_lo m) bs = Ok (sk_bytes m').
Proof.
  unfold stack_write. intros H. apply bind_inv in H as (b & Hp & H). injection H as <-. cbn.
  pose proof Hp as (H1 & H2 & H3 & _)%poke_inv. split_and!; try done; lia.
Qed.

Lemma stack_write_Ok m addr bs :
  sk_lo m ≤ addr → addr + Z.of_nat (length bs) ≤ sk_lo m + Z.of_nat (length (sk_bytes m)) →
  ∃ m', stack_write m addr bs = Ok m'.
Proof.
  intros H1 H2. unfold stack_write.
  destruct (poke_Ok (E := mldr_error) (sk_bytes m) (addr - sk_lo m) bs) as (b & -> & _);
    [lia|lia|]. by eexists.
Qed.

(** The [n] bytes at [addr]. *)
Definition stack_read (m : stack_mem) (addr : Z) (n : nat) : res mldr_error (list Z) :=
  peek (sk_bytes m) (addr - sk_lo m) n.

(** [holds m addr bs]: the bytes [bs] are at [addr]. *)
Definition holds (m : stack_mem) (addr : Z) (bs : list Z) : Prop :=
  sk_lo m ≤ addr ∧ stack_read m addr (length bs) = Ok bs.

Lemma holds_write m addr bs m' : stack_write m addr bs = Ok m' → holds m' addr bs.
Proof.
  intros H. apply stack_write_inv in H as (Hlo & _ & Hge & _ & Hp). unfold holds, stack_read.
  rewrite Hlo. split; [done|]. by eapply peek_poke_eq.
Qed.

Lemma holds_frame m addr bs m' a b :
  stack_write m addr bs = Ok m' → holds m a b →
  a + Z.of_nat (length b) ≤ addr ∨ addr + Z.of_nat (length bs) ≤ a → holds m' a b.
Proof.
  intros H [Ha Hb] Hd. apply stack_write_inv in H as (Hlo & _ & Hge & _ & Hp).
  unfold holds, stack_read in *. rewrite Hlo. split; [done|].
  rewrite (peek_poke_ne _ _ _ _ _ _ Hp) by lia. done.
Qed.

Lemma holds_app m a b1 b2 :
  holds m a b1 → holds m (a + Z.of_nat (length b1)) b2 → holds m a (b1 ++ b2).
Proof.
  unfold holds, stack_read, peek. intros [Ha H1] [_ H2]. split; [done|].
  destruct (_ && _) eqn:B1 in H1; [|done]. destruct (_ && _) eqn:B2 in H2; [|done].
  apply andb_true_iff in B1 as [?%Z.leb_le ?%Z.leb_le], B2 as [?%Z.leb_le ?%Z.leb_le].
  rewrite (proj2 (Z.leb_le _ _)), (proj2 (Z.leb_le _ _)) by (rewrite ?length_app; lia).
  cbn [andb]. injection H1 as H1. injection H2 as H2. f_equal.
  rewrite <- H1 at 2. rewrite <- H2 at 2. rewrite length_app, <- take_take_drop, drop_drop.
  do 3 f_equal. lia.
Qed.

(** A run of 8-byte words stored upwards from [a]. *)
Fixpoint put_words (m : stack_mem) (a : Z) (ws : list Z) : res mldr_error stack_mem :=
  match ws with
  | [] => Ok m
  | w :: ws => m ← put_user m a w; put_words m (a + 8) ws
  end.

Definition words (ws : list Z) : list Z := concat (map (le_bytes 8) ws).

Lemma length_words ws : length (words ws) = (8 * length ws)%nat.
Proof.
  induction ws as [|w ws IH]; [done|]. unfold words in *. cbn [map concat].
  rewrite length_app, IH, length_le_bytes. cbn [length]. lia.
Qed.

Lemma put_words_app m a ws1 ws2 :
  put_words m a (ws1 ++ ws2) =
    m ← put_words m a ws1; put_words m (a + 8 * Z.of_nat (length ws1)) ws2.
Proof.
  revert m a. induction ws1 as [|w ws1 IH]; intros m a; cbn [app put_words length].
  - rewrite bind_Ok. f_equal. lia.
  - destruct (put_user m a w) as [m'| | |]; [|done..]. rewrite !bind_Ok, IH.
    apply bind_ext; [done|]. intros m2 _. f_equal. lia.
Qed.

Lemma put_words_spec m a ws :
  sk_lo m ≤ a → a + 8 * Z.of_nat (length ws) ≤ sk_lo m + Z.of_nat (length (sk_bytes m)) →
  ∃ m', put_words m a ws = Ok m' ∧ holds m' a (words ws) ∧
        (∀ b bs, holds m b bs → b + Z.of_nat (length bs) ≤ a ∨
                                a + 8 * Z.of_nat (length ws) ≤ b → holds m' b bs) ∧
        sk_lo m' = sk_lo m ∧ length (sk_bytes m') = length (sk_bytes m).
Proof.
  revert m a. induction ws as [|w ws IH]; intros m a H1 H2; cbn [put_words length] in *.
  - exists m. split_and!; try done. unfold holds, stack_read, peek, words. cbn [map concat length].
    rewrite (proj2 (Z.leb_le _ _)), (proj2 (Z.leb_le _ _)) by lia. done.
  - unfold put_user. destruct (stack_write_Ok m a (le_bytes 8 w)) as [m1 Hw];
      [done|rewrite length_le_bytes; lia|].
    rewrite Hw, bind_Ok. pose proof (stack_write_inv _ _ _ _ Hw) as (L1 & L2 & _).
    destruct (IH m1 (a + 8)) as (m2 & Hm & Hh & Hf & L3 & L4); [lia|lia|].
    exists m2. split; [done|]. pose proof (length_le_bytes 8 w) as Hlen.
    split_and!; [|..|congruence|congruence].
    + apply holds_app; [|by rewrite Hlen]. apply Hf; [by eapply holds_write|]. rewrite Hlen. lia.
    + intros b bs Hb Hd. apply Hf; [|lia]. eapply holds_frame; [done..|]. rewrite Hlen. lia.
Qed.

Lemma put_ptrs_words n i ptrs m slot :
  Forall (fun p => p ≠ 0) (take n (drop i ptrs)) → (i + n ≤ length ptrs)%nat →
  put_ptrs n (Z.of_nat i) ptrs m slot =
    m ← put_words m slot (take n (drop i ptrs));
    Ok (m, slot + 8 * Z.of_nat n, Z.of_nat (i + n)).
Proof.
  revert i m slot. induction n as [|n IH]; intros i m slot Hnz Hl; cbn [put_ptrs].
  - rewrite take_0. cbn [put_words]. rewrite bind_Ok. do 2 f_equal; [f_equal|]; lia.
  - destruct (lookup_lt_is_Some_2 ptrs i) as [p Hp]; [lia|].
    rewrite Nat2Z.id, Hp. cbn [access]. rewrite bind_Ok.
    erewrite drop_S in Hnz |- * by done.
    rewrite firstn_cons in *. cbn [put_words].
    apply Forall_cons in Hnz as [Hp0 Hnz]. rewrite (proj2 (Z.eqb_neq _ _) Hp0).
    destruct (put_user m slot p) as [m1| | |]; [|done..]. rewrite !bind_Ok.
    replace (Z.of_nat i + 1) with (Z.of_nat (S i)) by lia. rewrite IH by (done || lia).
    apply bind_ext; [done|]. intros m2 _. do 2 f_equal; [f_equal|]; lia.
Qed.

Lemma put_ptrs_all ptrs tail m slot :
  Forall (fun p => p ≠ 0) ptrs →
  put_ptrs (length ptrs) 0 (ptrs ++ tail) m slot =
    m ← put_words m slot ptrs;
    Ok (m, slot + 8 * Z.of_nat (length ptrs), Z.of_nat (length ptrs)).
Proof.
  intros H. pose proof (put_ptrs_words (length ptrs) 0 (ptrs ++ tail) m slot) as Hp.
  rewrite drop_0, take_app_length, length_app in Hp. apply Hp; [done|lia].
Qed.
End StackImage.

(** The words dyld finds from the stack pointer up. *)
Definition start_words (mh : Z) (argv envp : list Z) (apple : list Z) : list Z :=
  [mh; Z.of_nat (length argv)] ++ argv ++ [0] ++ envp ++ [0] ++ apple ++ [0].

(** The chain of stores after the strings is one run of words. *)
Lemma setup_words {A} (K : stack_mem → Z → Z → res mldr_error A) m sp mh argv envp atail etail
    e k c :
  Forall (fun p => p ≠ 0) argv → Forall (fun p => p ≠ 0) envp →
  (m ← put_user m sp mh;
   m ← put_user m (sp + 8) (Z.of_nat (length argv));
   '(m, slot, argc) ← put_ptrs (Z.to_nat (Z.of_nat (length argv))) 0 (argv ++ atail) m (sp + 16);
   m ← put_user m slot 0;
   '(m, slot, envc) ← put_ptrs (Z.to_nat (Z.of_nat (length envp))) 0 (envp ++ etail) m (slot + 8);
   m ← put_user m slot 0;
   m ← put_user m (slot + 8) e;
   m ← put_user m (slot + 16) k;
   m ← put_user m (slot + 24) c;
   m ← put_user m (slot + 32) 0;
   K m argc envc) =
  (m ← put_words m sp (start_words mh argv envp [e; k; c]);
   K m (Z.of_nat (length argv)) (Z.of_nat (length envp))).
Proof.
  intros Ha He. unfold start_words. rewrite !Nat2Z.id. cbn [app put_words].
  assert (∀ {A B C} (x : res mldr_error A) (f : A → res mldr_error B) (g : B → res mldr_error C),
    (b ← (a ← x; f a); g b) = (a ← x; b ← f a; g b)) as assoc by (intros; by destruct x).
  rewrite assoc. apply bind_ext; [done|]. intros m1 _.
  rewrite assoc. apply bind_ext; [done|]. intros m2 _.
  replace (sp + 8 + 8) with (sp + 16) by lia.
  rewrite put_ptrs_all by done.
  rewrite put_words_app, !assoc. apply bind_ext; [done|]. intros m3 _. rewrite bind_Ok.
  cbn [put_words]. rewrite assoc. apply bind_ext; [done|]. intros m4 _.
  rewrite put_ptrs_all by done.
  rewrite put_words_app, !assoc. apply bind_ext; [done|]. intros m5 _. rewrite bind_Ok.
  cbn [put_words].
  set (x := sp + 16 + 8 * Z.of_nat (length argv) + 8 + 8 * Z.of_nat (length envp)).
  replace (x + 8 + 8) with (x + 16) by lia. replace (x + 16 + 8) with (x + 24) by lia.
  replace (x + 24 + 8) with (x + 32) by lia.
  do 5 (rewrite assoc; apply bind_ext; [done|]; intros ? _). done.
Qed.

(** The strings above the words, from low to high addresses. *)
Definition apple_strings (a : stack_args) (lr : load_results) (path : list Z) : list Z :=
  snprintf 27 (sa_junk a) (cstr "elf_calls=" ++ print_hex (sa_elfcalls a)) ++
  snprintf 12 (sa_junk a) (cstr "kernfd=" ++ print_int (lr_kernfd lr)) ++
  EXECUTABLE_PATH ++ path ++ [0].

Lemma length_snprintf size junk text : (1 ≤ size)%nat → length (snprintf size junk text) = size.
Proof.
  intros H. unfold snprintf. rewrite !length_app, length_replicate, !length_take.
  cbn [length]. lia.
Qed.

(** The four string stores. *)
Lemma setup_strings m top path s1 s2 :
  let len := Z.of_nat (length path) in
  length s1 = 12%nat → length s2 = 27%nat →
  sk_lo m + Z.of_nat (length (sk_bytes m)) = top → sk_lo m ≤ elfcalls_user top len →
  ∃ m', (∀ A (K : stack_mem → res mldr_error A),
         (m ← stack_write m (exepath_user top len) EXECUTABLE_PATH;
          m ← stack_write m (exepath_user top len + Z.of_nat (length EXECUTABLE_PATH)) (path ++ [0]);
          m ← stack_write m (kernfd_user top len) s1;
          m ← stack_write m (elfcalls_user top len) s2; K m) = K m') ∧
        holds m' (elfcalls_user top len) (s2 ++ s1 ++ EXECUTABLE_PATH ++ path ++ [0]) ∧
        sk_lo m' = sk_lo m ∧ length (sk_bytes m') = length (sk_bytes m).
Proof.
  intros len L1 L2 Htop Hlo. unfold elfcalls_user, kernfd_user, exepath_user in *.
  change (Z.of_nat (length EXECUTABLE_PATH)) with 16 in *. set (e := top - len - (16 + 1)) in *.
  pose proof (eq_refl : length EXECUTABLE_PATH = 16%nat) as LE.
  pose proof (length_app path [0]) as LP. cbn [length] in LP.
  destruct (stack_write_Ok m e EXECUTABLE_PATH) as [m1 H1]; [lia|rewrite LE; lia|].
  pose proof (stack_write_inv _ _ _ _ H1) as (A1 & B1 & _).
  destruct (stack_write_Ok m1 (e + 16) (path ++ [0])) as [m2 H2]; [lia|rewrite LP; lia|].
  pose proof (stack_write_inv _ _ _ _ H2) as (A2 & B2 & _).
  destruct (stack_write_Ok m2 (e - 12) s1) as [m3 H3]; [lia|rewrite L1; lia|].
  pose proof (stack_write_inv _ _ _ _ H3) as (A3 & B3 & _).
  destruct (stack_write_Ok m3 (e - 12 - 27) s2) as [m4 H4]; [lia|rewrite L2; lia|].
  pose proof (stack_write_inv _ _ _ _ H4) as (A4 & B4 & _).
  exists m4. split_and!; [intros; by rewrite H1, bind_Ok, H2, bind_Ok, H3, bind_Ok, H4| |lia|lia].
  assert (holds m4 (e + 16) (path ++ [0])) as P.
  { eapply holds_frame; [exact H4| |lia]. eapply holds_frame; [exact H3| |lia].
    by eapply holds_write. }
  assert (holds m4 e EXECUTABLE_PATH) as PE.
  { eapply holds_frame; [exact H4| |lia]. eapply holds_frame; [exact H3| |lia].
    eapply holds_frame; [exact H2| |rewrite LE; lia]. by eapply holds_write. }
  assert (holds m4 (e - 12) s1) as P1.
  { eapply holds_frame; [exact H4| |lia]. by eapply holds_write. }
  apply holds_app; [by eapply holds_write|]. rewrite L2.
  replace (e - 12 - 27 + Z.of_nat 27) with (e - 12) by lia.
  apply holds_app; [done|]. rewrite L1. replace (e - 12 + Z.of_nat 12) with e by lia.
  apply holds_app; [done|]. by rewrite LE.
Qed.

Lemma align8 top : top mod 8 = 0 → Z.land top (Z.lnot 7) = top.
Proof. intros H. rewrite land_lnot_7. lia. Qed.

(** C3: [setup_stack64] leaves the stack [dyldStartup.S] expects.  From the new
    stack pointer up lie the mach header, [argc], the argument pointers and a
    null, the environment pointers and a null, the three apple pointers and a
    null; the strings those three point to ([elf_calls=], [kernfd=],
    [executable_path=]) fill the top of the stack, above the pointers and without
    touching them; the pointer is 8-byte aligned. *)
Theorem setup_stack64_layout filepath a lr m path argv envp atail etail :
  (length filepath < 4096)%nat →
  executable_path lr filepath = Ok path →
  sk_lo m + Z.of_nat (length (sk_bytes m)) = lr_stack_top lr → lr_stack_top lr mod 8 = 0 →
  sa_argc a = Z.of_nat (length argv) → sa_argv a = argv ++ atail → Forall (fun p => p ≠ 0) argv →
  sa_envc a = Z.of_nat (length envp) → sa_envp a = envp ++ etail → Forall (fun p => p ≠ 0) envp →
  let len := Z.of_nat (length path) in
  let top := lr_stack_top lr in
  let sp := stack_slot top len (sa_argc a) (sa_envc a) in
  let ws := start_words (lr_mh lr) argv envp
              [exepath_user top len; kernfd_user top len; elfcalls_user top len] in
  sk_lo m ≤ sp →
  ∃ m', setup_stack64 filepath a lr m =
          Ok (Ok (lr_set_stack_top sp lr, Z.of_nat (length argv), Z.of_nat (length envp), m')) ∧
        holds m' sp (words ws) ∧
        holds m' (elfcalls_user top len) (apple_strings a lr path) ∧
        sp + 8 * Z.of_nat (length ws) ≤ elfcalls_user top len ∧
        elfcalls_user top len + Z.of_nat (length (apple_strings a lr path)) = top ∧
        sp mod 8 = 0.
Proof.
  intros Hf Hp Htop Hal Hac Hav Ha Hec Hev He len top sp ws Hlo.
  assert (sp + 8 * Z.of_nat (length ws) ≤ elfcalls_user top len ∧
          elfcalls_user top len ≤ top ∧ sp mod 8 = 0) as (Hsep & Htp & Hal2).
  { subst sp ws. unfold stack_slot, start_words, elfcalls_user, kernfd_user, exepath_user,
      user_long_count. rewrite align8 by done. rewrite !length_app. cbn [length].
    change (length EXECUTABLE_PATH) with 16%nat. rewrite Hac, Hec. subst top len. lia. }
  assert (elfcalls_user top len + Z.of_nat (length (apple_strings a lr path)) = top) as Hend.
  { unfold apple_strings. rewrite !length_app, !length_snprintf by lia.
    unfold elfcalls_user, kernfd_user, exepath_user. change (length EXECUTABLE_PATH) with 16%nat.
    cbn [length]. subst len. lia. }
  destruct (setup_strings m top path
    (snprintf 12 (sa_junk a) (cstr "kernfd=" ++ print_int (lr_kernfd lr)))
    (snprintf 27 (sa_junk a) (cstr "elf_calls=" ++ print_hex (sa_elfcalls a))))
    as (m1 & H1 & P1 & A1 & B1); [by apply length_snprintf; lia..|done|fold len; lia|].
  destruct (put_words_spec m1 sp ws) as (m2 & H2 & P2 & F2 & _ & _); [lia|subst top; lia|].
  exists m2. split_and!; try done.
  - unfold setup_stack64. rewrite (proj2 (Z.leb_gt _ _)) by lia. rewrite Hp, bind_Ok.
    fold top len. rewrite H1. fold sp.
    replace (lr_mh (lr_set_stack_top sp lr)) with (lr_mh lr) by by destruct lr.
    rewrite Hac, Hav, Hec, Hev. rewrite (setup_words (fun m argc envc => _)) by done.
    fold ws. by rewrite H2.
  - apply F2; [|right; done]. unfold apple_strings. exact P1.
Qed.

(** ** Printed numbers *)

Lemma print_base_app fuel base n acc :
  print_base fuel base n acc = print_base fuel base n [] ++ acc.
Proof.
  revert n acc. induction fuel as [|fuel IH]; intros n acc; cbn [print_base]; [done|].
  destruct (n <? base); [done|]. rewrite (IH (n / base) (_ :: acc)), (IH (n / base) [_]).
  by rewrite <- app_assoc.
Qed.

(** One step, when the number has more than one digit. *)
Lemma print_base_step fuel base n :
  base ≤ n →
  print_base (S fuel) base n [] =
    print_base fuel base (n / base) [] ++
      [if n mod base <? 10 then n mod base + 48 else n mod base + 87].
Proof.
  intros H. cbn [print_base]. rewrite (proj2 (Z.ltb_ge _ _)) by lia. by rewrite print_base_app.
Qed.

Lemma print_base_ascii fuel base n :
  0 < base ≤ 16 → Forall (fun c => 48 ≤ c) (print_base fuel base n []).
Proof.
  intros Hb. revert n. induction fuel as [|fuel IH]; intros n; cbn [print_base]; [done|].
  assert (48 ≤ if n mod base <? 10 then n mod base + 48 else n mod base + 87).
  { pose proof (Z.mod_pos_bound n base). destruct (_ <? _); lia. }
  destruct (n <? base); [by repeat constructor|]. rewrite print_base_app. apply Forall_app.
  split; [apply IH|by repeat constructor].
Qed.

Lemma length_print_small fuel n k :
  0 ≤ n < 10 ^ Z.of_nat (S k) → (length (print_base fuel 10 n []) ≤ S k)%nat.
Proof.
  revert n k. induction fuel as [|fuel IH]; intros n k Hn; [cbn; lia|].
  destruct (Z.ltb_spec n 10).
  - cbn [print_base]. rewrite (proj2 (Z.ltb_lt _ _)) by lia. cbn. lia.
  - rewrite print_base_step, length_app by lia. cbn [length].
    destruct k as [|k]; [lia|]. specialize (IH (n / 10) k).
    rewrite (Nat2Z.inj_succ (S k)), Z.pow_succ_r in Hn by lia. lia.
Qed.

Lemma length_print_large fuel n k :
  10 ^ Z.of_nat k ≤ n → (k < fuel)%nat → (k < length (print_base fuel 10 n []))%nat.
Proof.
  revert n k. induction fuel as [|fuel IH]; intros n k Hn Hk; [lia|].
  destruct k as [|k].
  - cbn [print_base]. destruct (_ <? _); [cbn; lia|]. rewrite print_base_app, length_app.
    cbn. lia.
  - rewrite Nat2Z.inj_succ, Z.pow_succ_r in Hn by lia.
    pose proof (Z.pow_pos_nonneg 10 (Z.of_nat k)).
    rewrite print_base_step, length_app by lia. cbn [length].
    specialize (IH (n / 10) k). lia.
Qed.

(** The [kernfd=] string holds four digits.  A descriptor up to 9999 is
    passed in full; a larger one (the descriptors of the bitmap are taken from the
    top of the table, so this is every process with a limit above 10000) is cut to
    its first four digits. *)
Theorem kernfd_string_truncated fd junk :
  0 ≤ fd < 2 ^ 31 →
  until_nul (snprintf 12 junk (cstr "kernfd=" ++ print_int fd)) =
    cstr "kernfd=" ++ take 4 (print_int fd) ∧
  (take 4 (print_int fd) = print_int fd ↔ fd < 10000).
Proof.
  intros Hfd. unfold print_int. rewrite (proj2 (Z.ltb_ge _ _)) by lia.
  set (ds := print_base 10 10 fd []). split.
  - unfold snprintf. change (12 - 1)%nat with (length (cstr "kernfd=") + 4)%nat.
    rewrite take_app_add. apply until_nul_app_nul. apply Forall_app. split.
    + repeat constructor; discriminate.
    + apply Forall_take. eapply Forall_impl; [by apply print_base_ascii|]. intros c Hc.
      cbn in Hc. lia.
  - split.
    + intros Ht. apply (f_equal length) in Ht. rewrite length_take in Ht.
      destruct (Z.lt_ge_cases fd 10000); [done|].
      pose proof (length_print_large 10 fd 4). fold ds in H0. lia.
    + intros Hlt. apply take_ge. subst ds. apply (length_print_small 10 fd 3). lia.
Qed.

(** ** Paths *)

Lemma strncmp_eq_prefix root s :
  no_nul root → strncmp_eq (Z.of_nat (length root)) s root = has_prefix root s.
Proof.
  intros Hr. unfold strncmp_eq, has_prefix. rewrite Nat2Z.id, take_app_length.
  destruct (bytes_eqb root (take (length root) s)) eqn:Hb.
  - apply bytes_eqb_spec in Hb. apply bytes_eqb_spec.
    assert (length root ≤ length s)%nat by (rewrite Hb, length_take; lia).
    by rewrite take_app_le.
  - apply not_true_is_false. intros H%bytes_eqb_spec. apply not_true_iff_false in Hb. apply Hb.
    apply bytes_eqb_spec. destruct (decide (length root ≤ length s)%nat).
    + by rewrite take_app_le in H.
    + exfalso. rewrite take_app_ge in H by lia.
      assert (0 ∈ root) as H0.
      { rewrite <- H. apply elem_of_app. right.
        replace (length root - length s)%nat with (S (length root - length s - 1)) by lia. left. }
      unfold no_nul in Hr. rewrite Forall_forall in Hr. by apply (Hr 0 H0).
Qed.

(** [setup_stack64] and [vchroot_unexpand_interpreter] turn a Linux path into
    the path the process should see: a path that starts with the root loses it, any
    other path is placed under /Volumes/SystemRoot.  The stripped path must be shorter
    than the 4096-byte buffer, the prefixed one shorter than it with the 19 bytes
    of the prefix: longer paths overflow the buffer. *)
Theorem unexpand_spec root s :
  no_nul root → no_nul s → Z.of_nat (length s) < 2 ^ 63 →
  let r := unexpand root (Z.of_nat (length root)) s in
  let text := if has_prefix root s then drop (length root) s else SYSTEM_ROOT ++ s in
  if bool_decide (length text < 4096)%nat
  then ∃ buf, r = Ok buf ∧ until_nul buf = text
  else r = UB.
Proof.
  intros Hr Hs Hlen r text. subst r text. unfold unexpand. rewrite strncmp_eq_prefix by done.
  destruct (has_prefix root s) eqn:Hp.
  - apply has_prefix_spec in Hp as [t ->]. rewrite drop_app_length.
    apply Forall_app in Hs as [_ Ht]. unfold peek. rewrite !length_app in *. cbn [length].
    rewrite u64_small by lia. rewrite (proj2 (Z.leb_le _ _)), (proj2 (Z.leb_le _ _)) by lia.
    cbn [andb]. rewrite bind_Ok, Nat2Z.id, <- app_assoc, drop_app_length, take_ge by
        (rewrite length_app; cbn; lia).
    case_bool_decide.
    + pose proof (poke_app (E := mldr_error) [] (replicate 4096 0) (t ++ [0])) as P.
      cbn [app length] in P. change (Z.of_nat 0) with 0 in P. eexists. split.
      * apply P. rewrite length_app, length_replicate. cbn. lia.
      * rewrite <- app_assoc. by apply until_nul_app_nul.
    + apply poke_UB. rewrite length_app, length_replicate. cbn. lia.
  - rewrite length_app. change (length SYSTEM_ROOT) with 19%nat. case_bool_decide.
    + pose proof (poke_app (E := mldr_error) (replicate 19 0) (replicate 4077 0) (s ++ [0])) as P.
      rewrite <- replicate_add, !length_replicate in P. change (19 + 4077)%nat with 4096%nat in P.
      rewrite P, bind_Ok by (rewrite length_app; cbn; lia).
      eexists. split.
      * apply (poke_app (E := mldr_error) []). cbn. lia.
      * cbn [app]. change (length SYSTEM_ROOT) with 19%nat. cbn [drop].
        rewrite drop_0, <- app_assoc, app_assoc. apply until_nul_app_nul.
        apply Forall_app. split; [|done]. repeat constructor; discriminate.
    + rewrite poke_UB; [done|]. rewrite length_app, length_replicate. cbn. lia.
Qed.

(** ** The special environment *)

(** Text that does not continue a hexadecimal number. *)
Definition ends_number (rest : list Z) : Prop :=
  match rest with [] => True | c :: _ => digit_in 16 c = None ∧ c ≠ 120 ∧ c ≠ 88 end.

Lemma scan_digits_app s rest acc n v k :
  scan_digits 16 s acc n = (v, k, []) → ends_number rest →
  scan_digits 16 (s ++ rest) acc n = (v, k, rest).
Proof.
  revert acc n. induction s as [|c s IH]; intros acc n; cbn [scan_digits app].
  - intros [= <- <-] Hr. destruct rest as [|c rest]; [done|]. cbn. by destruct Hr as [-> _].
  - destruct (digit_in 16 c); [|done]. apply IH.
Qed.

Lemma digit_in_print d : 0 ≤ d < 16 →
  digit_in 16 (if d <? 10 then d + 48 else d + 87) = Some d.
Proof.
  intros Hd. unfold digit_in.
  destruct (Z.ltb_spec d 10); repeat case_match; simplify_eq/=; zbool; try lia; f_equal; lia.
Qed.

(** Scanning what [%x] printed. *)
Lemma scan_digits_print fuel v acc n :
  0 ≤ v < 16 ^ Z.of_nat fuel →
  ∃ k, scan_digits 16 (print_base fuel 16 v []) acc n =
         (acc * 16 ^ Z.of_nat k + v, (n + k)%nat, []) ∧ (1 ≤ k ∨ fuel = 0)%nat.
Proof.
  revert v acc n. induction fuel as [|fuel IH]; intros v acc n Hv.
  { exists 0%nat. cbn in *. split; [|lia]. do 2 f_equal; lia. }
  destruct (Z.ltb_spec v 16) as [Hlt|Hge].
  - exists 1%nat. cbn [print_base]. rewrite (proj2 (Z.ltb_lt _ _)) by lia. cbn [scan_digits].
    rewrite digit_in_print, Z.mod_small by (apply Z.mod_pos_bound || idtac; lia).
    split; [|lia]. do 2 f_equal; lia.
  - rewrite print_base_step by lia.
    rewrite Nat2Z.inj_succ, Z.pow_succ_r in Hv by lia.
    destruct (IH (v / 16) acc n) as (k & Hk & _); [lia|]. exists (S k).
    split; [|lia].
    assert (∀ s acc n v' m, scan_digits 16 s acc n = (v', m, []) →
      scan_digits 16 (s ++ [if v mod 16 <? 10 then v mod 16 + 48 else v mod 16 + 87]) acc n =
      (v' * 16 + v mod 16, S m, [])) as Hsnoc.
    { clear. intros s. induction s as [|c s IH]; intros acc n v' m; cbn [scan_digits app].
      - intros [= <- <-]. rewrite digit_in_print by (apply Z.mod_pos_bound; lia). done.
      - destruct (digit_in 16 c); [apply IH|done]. }
    rewrite (Hsnoc _ _ _ _ _ Hk), Nat2Z.inj_succ, Z.pow_succ_r by lia.
    do 2 f_equal; lia.
Qed.

Lemma print_base_hex fuel v :
  0 ≤ v → Forall (fun c => digit_in 16 c ≠ None) (print_base fuel 16 v []).
Proof.
  revert v. induction fuel as [|fuel IH]; intros v Hv; [done|].
  assert (digit_in 16 (if v mod 16 <? 10 then v mod 16 + 48 else v mod 16 + 87) ≠ None).
  { rewrite digit_in_print; [done|]. apply Z.mod_pos_bound. lia. }
  destruct (Z.ltb_spec v 16).
  - cbn [print_base]. rewrite (proj2 (Z.ltb_lt _ _)) by lia. by repeat constructor.
  - rewrite print_base_step by lia. apply Forall_app. split; [apply IH; lia|by repeat constructor].
Qed.

Lemma hex_digit_ge c : digit_in 16 c ≠ None → 48 ≤ c ∧ c ≠ 120 ∧ c ≠ 88.
Proof. unfold digit_in. repeat case_match; zbool; done || lia. Qed.

(** A printed number starts a conversion and is no [0x] prefix. *)
Lemma scan_int_print v rest :
  0 ≤ v < 2 ^ 32 → ends_number rest → scan_int false (print_hex v ++ rest) = Some (v, rest).
Proof.
  intros Hv Hr. unfold print_hex.
  pose proof (print_base_hex 16 v (proj1 Hv)) as Hhex.
  destruct (scan_digits_print 16 v 0 0) as (k & Hk & Hk1); [lia|].
  destruct (print_base 16 16 v []) as [|c s]; [injection Hk; lia|].
  apply (scan_digits_app _ rest) in Hk; [|done].
  apply Forall_cons in Hhex as [Hc Hs]. pose proof (hex_digit_ge c Hc).
  unfold scan_int. cbn [app skip_space]. unfold is_space.
  rewrite (proj2 (Z.eqb_neq c 32)), (proj2 (Z.leb_gt c 13)), andb_false_r by lia. cbn [orb].
  unfold scan_sign.
  rewrite (proj2 (Z.eqb_neq c 45)), (proj2 (Z.eqb_neq c 43)) by lia.
  assert (has_0x (c :: s ++ rest) = false) as ->.
  { unfold has_0x. destruct (s ++ rest) as [|d t] eqn:Hd; [done|].
    assert (d ≠ 120 ∧ d ≠ 88) as [H1 H2].
    { destruct s as [|d' s]; cbn in Hd.
      - subst rest. cbn in Hr. tauto.
      - injection Hd as -> _. apply Forall_cons in Hs as [Hd _]. apply hex_digit_ge in Hd. tauto. }
    rewrite (proj2 (Z.eqb_neq d 120)), (proj2 (Z.eqb_neq d 88)) by done. by rewrite andb_false_r. }
  cbn [app] in Hk. rewrite Hk.
  rewrite (proj2 (Nat.eqb_neq _ _)) by lia. by rewrite Z.mul_0_l.
Qed.

(** The text of four preferences. *)
Definition print_bprefs (b0 b1 b2 b3 : Z) : list Z :=
  print_hex b0 ++ 44 :: print_hex b1 ++ 44 :: print_hex b2 ++ 44 :: print_hex b3.

(** The binary preferences survive their passage through the environment:
    parsing the four comma-separated hexadecimal numbers gives them back, whatever
    the array held. *)
Theorem scan_bprefs_roundtrip b0 b1 b2 b3 p0 p1 p2 p3 :
  Forall (fun b => 0 ≤ b < 2 ^ 32) [b0; b1; b2; b3] →
  scan_bprefs (print_bprefs b0 b1 b2 b3) [p0; p1; p2; p3] = [b0; b1; b2; b3].
Proof.
  intros H. rewrite !Forall_cons in H. destruct H as (H0 & H1 & H2 & H3 & _).
  assert (∀ r, ends_number (44 :: r)) as Hc by (by intros).
  unfold print_bprefs. cbn [scan_bprefs].
  do 3 (rewrite scan_int_print by done).
  rewrite <- (app_nil_r (print_hex b3)), scan_int_print by done.
  unfold u32. by rewrite !Z.mod_small by lia.
Qed.

(** *** The environment loop *)

(** A stretch of the environment block: a string and the bytes after its NUL. *)
Definition chunk := (list Z * list Z)%type.
Definition chunk_bytes (c : chunk) : list Z := c.1 ++ 0 :: c.2.
Definition chunks_bytes (cs : list chunk) : list Z := concat (map chunk_bytes cs).

Fixpoint chunk_ptrs (o : Z) (cs : list chunk) : list (option Z) :=
  match cs with
  | [] => []
  | c :: cs => Some o :: chunk_ptrs (o + Z.of_nat (length (chunk_bytes c))) cs
  end.

Definition root_var : list Z := cstr "__mldr_DYLD_ROOT_PATH=".

(** The variable as the process sees it. *)
Definition renamed (s : list Z) : list Z := if has_prefix root_var s then drop 7 s else s.

Definition renamed_chunk (c : chunk) : chunk :=
  let s := renamed c.1 in (s, drop (length s + 1) (chunk_bytes c)).

Definition plain_var (s : list Z) : Prop :=
  no_nul s ∧ has_prefix (cstr "__mldr_bprefs=") s = false ∧
  has_prefix (cstr "__mldr_sockpath=") s = false.

(** Writing the shifted string over the start of its chunk. *)
Lemma rename_env_spec pre c b done ptrs :
  no_nul c.1 → has_prefix root_var c.1 = true →
  rename_env (Z.of_nat (length done))
    (mkStrings (pre ++ chunk_bytes c ++ b) (done ++ Some (Z.of_nat (length pre)) :: ptrs)) =
  Ok (mkStrings (pre ++ chunk_bytes (renamed_chunk c) ++ b)
                (done ++ Some (Z.of_nat (length pre)) :: ptrs)).
Proof.
  intros Hn Hp. unfold rename_env. rewrite ptr_get_middle, bind_Ok. cbn [sv_mem sv_ptrs].
  unfold renamed_chunk, renamed. rewrite Hp. destruct c as [s j]. cbn [fst snd] in *.
  unfold chunk_bytes. cbn [fst snd].
  apply has_prefix_spec in Hp as [t Ht].
  assert (∃ x y, s = x ++ y ∧ length x = 7%nat) as (x & y & -> & Hx).
  { exists (take 7 s), (drop 7 s). rewrite take_drop. split; [done|]. subst s.
    rewrite length_take, length_app. change (length root_var) with 22%nat. lia. }
  assert (drop 7 (x ++ y) = y) as -> by (rewrite <- Hx; apply drop_app_length).
  apply Forall_app in Hn as [_ Hy].
  pose proof (str_at_spec (pre ++ x) y (j ++ b) Hy) as Hs. rewrite length_app, Hx in Hs.
  replace (pre ++ ((x ++ y) ++ 0 :: j) ++ b) with ((pre ++ x) ++ y ++ 0 :: j ++ b)
    by by rewrite <- !app_assoc.
  replace (Z.of_nat (length pre) + 7) with (Z.of_nat (length pre + 7)) by lia.
  unfold str_len. rewrite Hs, bind_Ok, bind_Ok.
  unfold memmove_in, peek. rewrite !length_app. cbn [length].
  rewrite (proj2 (Z.leb_le _ _)), (proj2 (Z.leb_le _ _)) by (rewrite ?length_app; lia).
  cbn [andb]. rewrite bind_Ok, Nat2Z.id.
  replace (length pre + 7)%nat with (length (pre ++ x)) by (rewrite length_app; lia).
  rewrite drop_app_length.
  replace (Z.to_nat (Z.of_nat (length y) + 1)) with (length (y ++ [0]))
    by (rewrite length_app; cbn; lia).
  replace (y ++ 0 :: j ++ b) with ((y ++ [0]) ++ j ++ b) by by rewrite <- app_assoc.
  rewrite take_app_length, <- (app_assoc pre x).
  rewrite poke_app by (rewrite !length_app; cbn; lia). rewrite bind_Ok. do 3 f_equal.
  rewrite <- !app_assoc. cbn [app]. do 2 f_equal. f_equal.
  rewrite length_app. cbn [length].
  replace (x ++ y ++ 0 :: j ++ b) with ((x ++ y ++ 0 :: j) ++ b) by by rewrite <- !app_assoc.
  rewrite drop_app_le; [done|]. rewrite !length_app. cbn [length]. lia.
Qed.

Lemma length_renamed s : (length (renamed s) ≤ length s)%nat.
Proof. unfold renamed. case_match; [rewrite length_drop|]; lia. Qed.

Lemma length_renamed_chunk c :
  length (chunk_bytes (renamed_chunk c)) = length (chunk_bytes c).
Proof.
  unfold renamed_chunk, chunk_bytes at 1. cbn [fst snd].
  rewrite length_app, length_cons, length_drop. pose proof (length_renamed c.1).
  unfold chunk_bytes. rewrite length_app, length_cons. lia.
Qed.

Lemma renamed_chunk_plain c : has_prefix root_var c.1 = false → renamed_chunk c = c.
Proof.
  intros H. unfold renamed_chunk, renamed. rewrite H. destruct c as [s j]; cbn [fst snd].
  unfold chunk_bytes; cbn [fst snd]. f_equal.
  replace (s ++ 0 :: j) with ((s ++ [0]) ++ j) by by rewrite <- app_assoc.
  replace (length s + 1)%nat with (length (s ++ [0])) by (rewrite length_app; cbn; lia).
  by rewrite drop_app_length.
Qed.

Lemma str_at_chunk pre c b :
  no_nul c.1 → str_at (pre ++ chunk_bytes c ++ b) (Some (Z.of_nat (length pre))) = Ok c.1.
Proof. intros H. unfold chunk_bytes. rewrite <- app_assoc. cbn [app]. by apply str_at_spec. Qed.

Lemma chunks_bytes_cons c cs : chunks_bytes (c :: cs) = chunk_bytes c ++ chunks_bytes cs.
Proof. reflexivity. Qed.

Lemma adjust_envp_chunks cs fuel pre done k extra :
  Forall (fun c => plain_var c.1) cs → (length cs < fuel)%nat → (extra ≤ k)%nat →
  let ptrs := done ++ chunk_ptrs (Z.of_nat (length pre)) cs ++ replicate (S k) None in
  adjust_envp fuel (Z.of_nat (length done))
      (Z.of_nat (length done + length cs + extra))
      (mkStrings (pre ++ chunks_bytes cs) ptrs) =
    Ok (mkStrings (pre ++ chunks_bytes (map renamed_chunk cs)) ptrs,
        Z.of_nat (length done + length cs)).
Proof.
  intros Hcs. revert fuel pre done. induction Hcs as [|c cs (Hn & Hb & Hk) Hcs IH];
    intros fuel pre done Hf He ptrs; subst ptrs; (destruct fuel as [|fuel]; [cbn in Hf; lia|]);
    cbn [adjust_envp chunk_ptrs].
  - cbn [length]. rewrite Nat.add_0_r.
    destruct (Z.ltb_spec (Z.of_nat (length done)) (Z.of_nat (length done + extra))).
    + cbn [app replicate]. by rewrite ptr_get_middle, bind_Ok.
    + do 2 f_equal. lia.
  - rewrite (proj2 (Z.ltb_lt _ _)) by (cbn [length]; lia). cbn [app].
    rewrite ptr_get_middle, bind_Ok. cbn [sv_mem].
    rewrite chunks_bytes_cons, str_at_chunk, bind_Ok by done.
    unfold env_var_matches. rewrite Hb, Hk. cbn [orb map]. rewrite chunks_bytes_cons.
    specialize (IH fuel (pre ++ chunk_bytes (renamed_chunk c))
                   (done ++ [Some (Z.of_nat (length pre))])).
    rewrite !length_app, length_renamed_chunk in IH. cbn [length] in IH, Hf |- *.
    rewrite <- !app_assoc in IH. cbn [app] in IH. rewrite <- Nat2Z.inj_add.
    replace (Z.of_nat (length done) + 1) with (Z.of_nat (length done + 1)) by lia.
    replace (length done + S (length cs) + extra)%nat
      with (length done + 1 + length cs + extra)%nat by lia.
    replace (length done + S (length cs))%nat with (length done + 1 + length cs)%nat by lia.
    destruct (has_prefix (cstr "__mldr_DYLD_ROOT_PATH=") c.1) eqn:Hr.
    + rewrite rename_env_spec, bind_Ok by done. apply IH; [lia|done].
    + rewrite (renamed_chunk_plain c Hr) in *. apply IH; [lia|done].
Qed.

Lemma lookup_chunk_ptrs cs i c pre :
  cs !! i = Some c →
  ∃ a b, pre ++ chunks_bytes cs = a ++ chunk_bytes c ++ b ∧
         chunk_ptrs (Z.of_nat (length pre)) cs !! i = Some (Some (Z.of_nat (length a))).
Proof.
  revert i pre. induction cs as [|c1 cs IH]; intros i pre Hi; [done|].
  rewrite chunks_bytes_cons. destruct i as [|i]; cbn in Hi.
  - injection Hi as ->. by exists pre, (chunks_bytes cs).
  - destruct (IH i (pre ++ chunk_bytes c1) Hi) as (a & b & Hp & Ho). exists a, b.
    rewrite <- app_assoc in Hp. split; [done|]. rewrite <- Ho, length_app, Nat2Z.inj_add. done.
Qed.

Lemma chunk_ptrs_renamed cs o : chunk_ptrs o (map renamed_chunk cs) = chunk_ptrs o cs.
Proof.
  revert o. induction cs as [|c cs IH]; intros o; cbn [chunk_ptrs map]; [done|].
  by rewrite length_renamed_chunk, IH.
Qed.

(** Once the variables meant for mldr have been unset, the loop over the
    environment keeps every pointer and every variable, except that
    [__mldr_DYLD_ROOT_PATH=x] now reads [DYLD_ROOT_PATH=x]; the count becomes the
    number of pointers before the first null, however many were unset. *)
Theorem adjust_envp_spec cs k extra :
  Forall (fun c => plain_var c.1) cs → (extra ≤ k)%nat →
  let ptrs := chunk_ptrs 0 cs ++ replicate (S k) None in
  let envc := Z.of_nat (length cs + extra) in
  ∃ v, adjust_envp (S (2 * Z.to_nat envc)) 0 envc (mkStrings (chunks_bytes cs) ptrs) =
         Ok (v, Z.of_nat (length cs)) ∧
       sv_ptrs v = ptrs ∧
       (∀ i c, cs !! i = Some c →
          ∃ p, ptrs !! i = Some p ∧ str_at (sv_mem v) p = Ok (renamed c.1)).
Proof.
  intros Hcs He ptrs envc.
  pose proof (adjust_envp_chunks cs (S (2 * Z.to_nat envc)) [] [] k extra Hcs) as H.
  cbn [length app] in H. eexists. split; [apply H; lia|]. cbn [sv_ptrs sv_mem]. split; [done|].
  intros i c Hi.
  assert (map renamed_chunk cs !! i = Some (renamed_chunk c)) as Hi'
    by (by apply lookup_map).
  destruct (lookup_chunk_ptrs _ i _ [] Hi') as (a & b & Hp & Ho). cbn [app length] in Hp, Ho.
  change (Z.of_nat 0) with 0 in Ho. rewrite chunk_ptrs_renamed in Ho.
  exists (Some (Z.of_nat (length a))). split.
  - subst ptrs. rewrite lookup_app_l by (by eapply lookup_lt_Some). done.
  - rewrite Hp, str_at_chunk; [done|]. rewrite Forall_lookup in Hcs.
    destruct (Hcs i c Hi) as [Hn _]. unfold renamed_chunk, renamed. cbn [fst].
    destruct (has_prefix _ _); [by apply Forall_drop|done].
Qed.

(** *** Termination of the loop *)

Lemma str_at_terminates mem p : terminates (str_at mem p).
Proof. unfold str_at. solve_terminates. Qed.
#[local] Hint Resolve str_at_terminates : osxie.

Lemma shift_ptrs_terminates n start j total v : terminates (shift_ptrs n start j total v).
Proof.
  revert j total v. induction n as [|n IH]; intros; cbn [shift_ptrs]; [done|].
  unfold ptr_get, ptr_add, ptr_set, str_len. solve_terminates.
Qed.
#[local] Hint Resolve shift_ptrs_terminates : osxie.

Lemma remove_env_terminates i envc len v : terminates (remove_env i envc len v).
Proof. unfold remove_env, ptr_get, ptr_set, memmove_in, memzero_in. solve_terminates. Qed.

Lemma remove_env_count i envc len v v' envc' :
  remove_env i envc len v = Ok (v', envc') → envc' = envc - 1.
Proof.
  unfold remove_env. intros H. apply bind_inv in H as (p & _ & H).
  apply bind_inv in H as ([v1 l1] & _ & H). inv_bind H. by injection H.
Qed.

(** The loop over the environment ends within [envc] steps on any block
    and any pointers: a variable is either passed over or taken out of the count. *)
Theorem adjust_envp_terminates fuel i envc v :
  (Z.to_nat (envc - i) < fuel)%nat → terminates (adjust_envp fuel i envc v).
Proof.
  revert i envc v. induction fuel as [|fuel IH]; intros i envc v Hf; [lia|].
  cbn [adjust_envp]. destruct (Z.ltb_spec i envc); [|done].
  apply bind_terminates; [unfold ptr_get; auto with osxie|]. intros [p|] _; [|done].
  apply bind_terminates; [auto with osxie|]. intros s _. case_match.
  - apply bind_terminates; [apply remove_env_terminates|].
    intros [v' envc'] ->%remove_env_count. apply IH. lia.
  - case_match; [|apply IH; lia].
    apply bind_terminates; [|intros v' _; apply IH; lia].
    unfold rename_env, ptr_get, str_len, memmove_in. solve_terminates.
Qed.

(** ** Witnesses *)

Lemma adjust_argv_spec_witness :
  ∃ v, adjust_argv 3 (contiguous [cstr "mldr!/bin/ls"; cstr "ls"; cstr "-l"]) = Ok (v, 2) ∧
       (∃ p, sv_ptrs v !! 1%nat = Some p ∧ str_at (sv_mem v) p = Ok (cstr "-l")).
Proof.
  destruct (adjust_argv_spec (cstr "mldr!/bin/ls") [cstr "ls"; cstr "-l"])
    as (v & Hv & Hi & _ & _).
  - repeat constructor; discriminate.
  - exists v. split; [exact Hv|]. apply (Hi 1%nat). reflexivity.
Defined.

Lemma setup_stack64_layout_witness :
  ∃ m', setup_stack64 (cstr "/bin/ls") (mkArgs 1 [100; 0] 0 [0] 4096 0)
          (lr_set_stack_top 4096 load_results_init) (mkStack 0 (replicate 4096 0)) =
        Ok (Ok (lr_set_stack_top 3960 (lr_set_stack_top 4096 load_results_init), 1, 0, m')) ∧
        holds m' 3960 (words [0; 1; 100; 0; 0; 4072; 4060; 4033; 0]).
Proof.
  destruct (setup_stack64_layout (cstr "/bin/ls") (mkArgs 1 [100; 0] 0 [0] 4096 0)
    (lr_set_stack_top 4096 load_results_init) (mkStack 0 (replicate 4096 0)) (cstr "/bin/ls")
    [100] [] [0] [0]) as (m' & H1 & H2 & _);
    [cbn; lia|reflexivity|reflexivity|reflexivity|reflexivity|reflexivity| |reflexivity|
     reflexivity|constructor| |].
  - repeat constructor; discriminate.
  - vm_compute. discriminate.
  - exists m'. split; [exact H1|exact H2].
Defined.

Lemma kernfd_string_witness :
  until_nul (snprintf 12 0 (cstr "kernfd=" ++ print_int 1048575)) = cstr "kernfd=1048" ∧
  (take 4 (print_int 1048575) = print_int 1048575 ↔ 1048575 < 10000).
Proof. apply (kernfd_string_truncated 1048575 0). lia. Defined.

(** A sibling directory whose name starts like the root. *)
Lemma unexpand_spec_witness :
  ∃ buf, unexpand (cstr "/root") 5 (cstr "/root2/bin/ls") = Ok buf ∧
         until_nul buf = cstr "2/bin/ls".
Proof.
  apply (unexpand_spec (cstr "/root") (cstr "/root2/bin/ls"));
    [repeat constructor; discriminate|repeat constructor; discriminate|reflexivity].
Defined.

Lemma scan_bprefs_roundtrip_witness :
  scan_bprefs (cstr "1000007,7,0,0") [0; 0; 0; 0] = [0x1000007; 7; 0; 0].
Proof.
  apply (scan_bprefs_roundtrip 0x1000007 7 0 0 0 0 0 0).
  repeat constructor; discriminate.
Defined.

Lemma adjust_envp_spec_witness :
  ∃ v, adjust_envp 7 0 3 (mkStrings (cstr "A=1" ++ [0] ++ cstr "__mldr_DYLD_ROOT_PATH=/r" ++ [0])
                                    [Some 0; Some 4; None; None]) = Ok (v, 2) ∧
       sv_ptrs v = [Some 0; Some 4; None; None] ∧
       str_at (sv_mem v) (Some 4) = Ok (cstr "DYLD_ROOT_PATH=/r").
Proof.
  destruct (adjust_envp_spec [(cstr "A=1", []); (cstr "__mldr_DYLD_ROOT_PATH=/r", [])] 1 1)
    as (v & H1 & H2 & H3).
  - repeat constructor; discriminate.
  - lia.
  - exists v. split; [exact H1|]. split; [exact H2|].
    destruct (H3 1%nat (cstr "__mldr_DYLD_ROOT_PATH=/r", []) eq_refl) as (p & Hp & Hs).
    injection Hp as <-. exact Hs.
Defined.

Lemma adjust_envp_terminates_witness :
  terminates (adjust_envp 2 0 1 (mkStrings (cstr "__mldr_bprefs=7" ++ [0]) [Some 0; None])).
Proof. apply adjust_envp_terminates. cbn. lia. Defined.
