(* ===== verification/LaunchData.v ===== *)
(** * Launch data ([src/src/launchd/liblaunch/liblaunch.c])

    The property-list values launchd and its clients exchange: allocation, the
    dictionary and array operations, copying.  A node owns its children, so a
    value is a tree; an operation that frees nodes returns them.  Allocation is
    taken to succeed. *)

From S2P Require Import Prelude.

(** ** The data *)

(** [struct _launch_data].  An array element may be null.  A string is the bytes
    its pointer designates ([None] is a null pointer) with [string_len]; reading
    past those bytes is undefined.  A real is its 64 bits. *)
Inductive ldata :=
  | LDict (elems : list (option ldata))
  | LArray (elems : list (option ldata))
  | LFd (fd : Z)
  | LInteger (number : Z)
  | LReal (bits : Z)
  | LBool (boolean : Z)
  | LString (mem : option (list Z)) (string_len : Z)
  | LOpaque (bytes : list Z)
  | LErrno (err : Z)
  | LMachPort (mp : Z).

Definition LAUNCH_DATA_DICTIONARY : Z := 1.
Definition LAUNCH_DATA_ARRAY : Z := 2.
Definition LAUNCH_DATA_FD : Z := 3.
Definition LAUNCH_DATA_INTEGER : Z := 4.
Definition LAUNCH_DATA_REAL : Z := 5.
Definition LAUNCH_DATA_BOOL : Z := 6.
Definition LAUNCH_DATA_STRING : Z := 7.
Definition LAUNCH_DATA_OPAQUE : Z := 8.
Definition LAUNCH_DATA_ERRNO : Z := 9.
Definition LAUNCH_DATA_MACHPORT : Z := 10.

Definition launch_data_get_type (d : ldata) : Z :=
  match d with
  | LDict _ => LAUNCH_DATA_DICTIONARY
  | LArray _ => LAUNCH_DATA_ARRAY
  | LFd _ => LAUNCH_DATA_FD
  | LInteger _ => LAUNCH_DATA_INTEGER
  | LReal _ => LAUNCH_DATA_REAL
  | LBool _ => LAUNCH_DATA_BOOL
  | LString _ _ => LAUNCH_DATA_STRING
  | LOpaque _ => LAUNCH_DATA_OPAQUE
  | LErrno _ => LAUNCH_DATA_ERRNO
  | LMachPort _ => LAUNCH_DATA_MACHPORT
  end.

(** ** Constructors *)

(** The string [strdup(s)] leaves in a node. *)
Definition launch_data_new_string (s : list Z) : ldata :=
  LString (Some (s ++ [0])) (Z.of_nat (length s)).
Definition launch_data_new_opaque (o : list Z) : ldata := LOpaque o.
Definition launch_data_new_integer (n : Z) : ldata := LInteger (i64 n).
Definition launch_data_new_bool (b : bool) : ldata := LBool (Z.b2z b).
Definition launch_data_new_real (bits : Z) : ldata := LReal bits.
Definition launch_data_new_fd (fd : Z) : ldata := LFd fd.
(** [uint64_t err = (int) e] *)
Definition launch_data_new_errno (e : Z) : ldata := LErrno (u64 (i32 e)).
Definition launch_data_new_machport (p : Z) : ldata := LMachPort (u32 p).

(** A node of type [t], zeroed; [None] is a type without a member of the union. *)
Definition launch_data_alloc (t : Z) : option ldata :=
  if t =? LAUNCH_DATA_DICTIONARY then Some (LDict [])
  else if t =? LAUNCH_DATA_ARRAY then Some (LArray [])
  else if t =? LAUNCH_DATA_FD then Some (LFd 0)
  else if t =? LAUNCH_DATA_INTEGER then Some (LInteger 0)
  else if t =? LAUNCH_DATA_REAL then Some (LReal 0)
  else if t =? LAUNCH_DATA_BOOL then Some (LBool 0)
  else if t =? LAUNCH_DATA_STRING then Some (LString None 0)
  else if t =? LAUNCH_DATA_OPAQUE then Some (LOpaque [])
  else if t =? LAUNCH_DATA_ERRNO then Some (LErrno 0)
  else if t =? LAUNCH_DATA_MACHPORT then Some (LMachPort 0)
  else None.

(** The nodes [launch_data_free] releases, children first. *)
Fixpoint launch_data_free (d : ldata) : list ldata :=
  match d with
  | LDict l | LArray l =>
      (fix go (l : list (option ldata)) : list ldata :=
         match l with
         | [] => []
         | Some c :: l => launch_data_free c ++ go l
         | None :: l => go l
         end) l ++ [d]
  | _ => [d]
  end.

(** A copy: the same tree in new memory.  [strdup] copies up to the NUL, and the
    recorded length is that of the original. *)
Fixpoint launch_data_copy (o : ldata) : res Empty_set ldata :=
  let copy_all :=
    (fix go (l : list (option ldata)) : res Empty_set (list (option ldata)) :=
       match l with
       | [] => Ok []
       | None :: l => r ← go l; Ok (None :: r)
       | Some c :: l => c ← launch_data_copy c; r ← go l; Ok (Some c :: r)
       end) in
  match o with
  | LDict l => l ← copy_all l; Ok (LDict l)
  | LArray l => l ← copy_all l; Ok (LArray l)
  | LString None _ => UB
  | LString (Some mem) n =>
      if bool_decide (0 ∈ mem) then Ok (LString (Some (until_nul mem ++ [0])) n) else UB
  | o => Ok o
  end.

(** ** Arrays *)

(** The children of a dictionary or an array; the member of another type is not
    an array. *)
Definition ld_elems (d : ldata) : res Empty_set (list (option ldata)) :=
  match d with LDict l | LArray l => Ok l | _ => UB end.

Definition ld_with_elems (d : ldata) (l : list (option ldata)) : ldata :=
  match d with LDict _ => LDict l | LArray _ => LArray l | d => d end.

(** [launch_data_array_set_index] at an index whose element has an address: the new elements
    and the node that was freed. *)
Definition array_set_index (l : list (option ldata)) (what : option ldata) (ind : nat) :
    list (option ldata) * option ldata :=
  let l := if (length l <=? ind + 1)%nat
           then l ++ replicate (ind + 1 - length l) None else l in
  (<[ind := what]> l, mjoin (l !! ind)).

Definition array_set_nth (where_ : ldata) (what : option ldata) (ind : nat) :
    res Empty_set (ldata * option ldata) :=
  l ← ld_elems where_;
  let '(l, freed) := array_set_index l what ind in
  Ok (ld_with_elems where_ l, freed).

(** No allocation is larger than [PTRDIFF_MAX]; of a null pointer nothing can be cleared. *)
Definition PTRDIFF_MAX : Z := 2 ^ 63 - 1.

(** The elements after [reallocf] and [memset], whose sizes are computed in [size_t]: the
    allocation has [room] elements, and what is cleared must lie in it. *)
Definition array_grow (l : list (option ldata)) (ind : Z) : res Empty_set (list (option ldata)) :=
  let cnt := Z.of_nat (length l) in
  if u64 (ind + 1) <? cnt then Ok l else
  let bytes := u64 (u64 (ind + 1) * 8) in
  let room := bytes / 8 in
  let fill := u64 (u64 (ind + 1 - cnt) * 8) / 8 in
  if (bytes <=? PTRDIFF_MAX) && (cnt + fill <=? room)
  then Ok (l ++ replicate (Z.to_nat fill) None) else UB.

(** [launch_data_array_set_index] at any [size_t] index. *)
Definition launch_data_array_set_index (where_ : ldata) (what : option ldata) (ind : Z) :
    res Empty_set (ldata * option ldata) :=
  l ← ld_elems where_;
  l ← array_grow l ind;
  freed ← access (l !! Z.to_nat ind);
  Ok (ld_with_elems where_ (<[Z.to_nat ind := what]> l), freed).

Definition launch_data_array_get_index (where_ : ldata) (ind : nat) : option ldata :=
  match where_ with
  | LArray l => mjoin (l !! ind)
  | _ => None
  end.

Definition launch_data_array_pop_first (where_ : ldata) :
    res Empty_set (option ldata * ldata) :=
  l ← ld_elems where_;
  match l with
  | [] => Ok (None, where_)
  | r :: l => Ok (r, ld_with_elems where_ l)
  end.

Definition launch_data_array_get_count (where_ : ldata) : nat :=
  match where_ with LArray l => length l | _ => 0 end.

(** ** Dictionaries

    A dictionary is an array of alternating keys and values; keys are compared
    with [strcasecmp]. *)

Definition tolower (c : Z) : Z := if (65 <=? c) && (c <=? 90) then c + 32 else c.
Definition lower (s : list Z) : list Z := map tolower s.
Definition strcasecmp_eq (a b : list Z) : bool := bytes_eqb (lower a) (lower b).

(** [d->string] of a key node, as a C string. *)
Definition key_string (k : option ldata) : res Empty_set (list Z) :=
  match k with
  | Some (LString (Some mem) _) => if bool_decide (0 ∈ mem) then Ok (until_nul mem) else UB
  | _ => UB
  end.

Definition launch_data_dict_get_count (dict : ldata) : res Empty_set nat :=
  l ← ld_elems dict; Ok (length l / 2)%nat.

(** [for (i = 0; i < cnt; i += 2) if (!strcasecmp(key, _array[i]->string))]: the
    index where the loop stops. *)
Fixpoint find_key (key : list Z) (l : list (option ldata)) (i : nat) :
    res Empty_set (bool * nat) :=
  match l with
  | [] => Ok (false, i)
  | k :: l =>
      s ← key_string k;
      if strcasecmp_eq key s then Ok (true, i)
      else match l with
           | [] => Ok (false, i + 2)%nat
           | _ :: l => find_key key l (i + 2)
           end
  end.

(** Insertion: the dictionary and the nodes that were freed. *)
Definition launch_data_dict_insert (dict what : ldata) (key : list Z) :
    res Empty_set (ldata * list ldata) :=
  l ← ld_elems dict;
  '(_, i) ← find_key key l 0;
  let '(l, f1) := array_set_index l (Some (launch_data_new_string key)) i in
  let '(l, f2) := array_set_index l (Some what) (i + 1) in
  Ok (ld_with_elems dict l, omap id [f1; f2]).

Definition launch_data_dict_lookup (dict : ldata) (key : list Z) :
    res Empty_set (option ldata) :=
  match dict with
  | LDict l =>
      '(found, i) ← find_key key l 0;
      if (found : bool) then access (l !! (i + 1)%nat) else Ok None
  | _ => Ok None
  end.

(** Removal: whether the key was there, the dictionary, the freed nodes.  A null
    value is dereferenced by [launch_data_free]. *)
Definition launch_data_dict_remove (dict : ldata) (key : list Z) :
    res Empty_set (bool * ldata * list ldata) :=
  l ← ld_elems dict;
  '(found, i) ← find_key key l 0;
  if (i =? length l)%nat then Ok (false, dict, []) else
  k ← access (l !! i);
  v ← access (l !! (i + 1)%nat);
  match k, v with
  | Some k, Some v => Ok (true, ld_with_elems dict (take i l ++ drop (i + 2) l), [k; v])
  | _, _ => UB
  end.

(** The calls of the callback of [launch_data_dict_iterate], in order. *)
Fixpoint iterate_elems (l : list (option ldata)) :
    res Empty_set (list (list Z * option ldata)) :=
  match l with
  | [] => Ok []
  | _ :: [] => UB
  | k :: v :: l => s ← key_string k; r ← iterate_elems l; Ok ((s, v) :: r)
  end.

Definition launch_data_dict_iterate (dict : ldata) :
    res Empty_set (list (list Z * option ldata)) :=
  match dict with LDict l => iterate_elems l | _ => Ok [] end.

(** ** Setters and getters

    A setter stores into the member of the union its type names; on a node of
    another type it would overwrite a pointer, which is left undefined. *)

Definition launch_data_set_errno (d : ldata) (e : Z) : res Empty_set ldata :=
  match d with LErrno _ => Ok (launch_data_new_errno e) | _ => UB end.
Definition launch_data_set_fd (d : ldata) (fd : Z) : res Empty_set ldata :=
  match d with LFd _ => Ok (LFd fd) | _ => UB end.
Definition launch_data_set_machport (d : ldata) (p : Z) : res Empty_set ldata :=
  match d with LMachPort _ => Ok (launch_data_new_machport p) | _ => UB end.
Definition launch_data_set_integer (d : ldata) (n : Z) : res Empty_set ldata :=
  match d with LInteger _ => Ok (launch_data_new_integer n) | _ => UB end.
Definition launch_data_set_bool (d : ldata) (b : bool) : res Empty_set ldata :=
  match d with LBool _ => Ok (launch_data_new_bool b) | _ => UB end.
Definition launch_data_set_real (d : ldata) (bits : Z) : res Empty_set ldata :=
  match d with LReal _ => Ok (LReal bits) | _ => UB end.
Definition launch_data_set_string (d : ldata) (s : list Z) : res Empty_set ldata :=
  match d with LString _ _ => Ok (launch_data_new_string s) | _ => UB end.
Definition launch_data_set_opaque (d : ldata) (o : list Z) : res Empty_set ldata :=
  match d with LOpaque _ => Ok (LOpaque o) | _ => UB end.

(** [return d->err] of an [int] function keeps the low 32 bits. *)
Definition launch_data_get_errno (d : ldata) : res Empty_set Z :=
  match d with LErrno e => Ok (i32 e) | _ => UB end.
Definition launch_data_get_fd (d : ldata) : res Empty_set Z :=
  match d with LFd fd => Ok (i32 fd) | _ => UB end.
Definition launch_data_get_machport (d : ldata) : res Empty_set Z :=
  match d with LMachPort p => Ok (u32 p) | _ => UB end.
Definition launch_data_get_integer (d : ldata) : res Empty_set Z :=
  match d with LInteger n => Ok n | _ => UB end.
Definition launch_data_get_bool (d : ldata) : res Empty_set bool :=
  match d with LBool b => Ok (negb (b =? 0)) | _ => UB end.
Definition launch_data_get_string (d : ldata) : option (list Z) :=
  match d with LString mem _ => mem | _ => None end.
Definition launch_data_get_opaque (d : ldata) : option (list Z) :=
  match d with LOpaque o => Some o | _ => None end.

(** ** The dictionary as a finite map *)

(** The array of a dictionary with the given entries. *)
Definition dict_elems (kvs : list (list Z * ldata)) : list (option ldata) :=
  concat (map (fun '(k, v) => [Some (launch_data_new_string k); Some v]) kvs).

Definition lower_keys (kvs : list (list Z * ldata)) : list (list Z) :=
  map (fun kv => lower kv.1) kvs.

(** A dictionary built by the operations: alternating keys and values, no key
    twice up to case, keys without NUL. *)
Record dict_ok (kvs : list (list Z * ldata)) : Prop := mkDictOk {
  dict_nodup : NoDup (lower_keys kvs);
  dict_keys : Forall (fun kv => Forall (fun c => c ≠ 0) kv.1) kvs;
}.

(** The abstraction: the finite map from lower-case keys to values. *)
Definition dict_map (kvs : list (list Z * ldata)) : gmap (list Z) ldata :=
  list_to_map (map (fun kv => (lower kv.1, kv.2)) kvs).

Lemma until_nul_string s rest : Forall (fun c => c ≠ 0) s → until_nul (s ++ 0 :: rest) = s.
Proof.
  induction 1 as [|c s Hc _ IH]; cbn; [done|]. rewrite (proj2 (Z.eqb_neq _ _) Hc). by rewrite IH.
Qed.

Lemma key_string_new k :
  Forall (fun c => c ≠ 0) k → key_string (Some (launch_data_new_string k)) = Ok k.
Proof.
  intros Hk. cbn. rewrite bool_decide_true by (apply elem_of_app; right; left).
  by rewrite until_nul_string.
Qed.

Lemma strcasecmp_eq_spec a b : strcasecmp_eq a b = true ↔ lower a = lower b.
Proof. apply bytes_eqb_spec. Qed.

Lemma dict_elems_cons k v kvs :
  dict_elems ((k, v) :: kvs) = Some (launch_data_new_string k) :: Some v :: dict_elems kvs.
Proof. reflexivity. Qed.

Lemma dict_elems_app a b : dict_elems (a ++ b) = dict_elems a ++ dict_elems b.
Proof. unfold dict_elems. by rewrite map_app, concat_app. Qed.

Lemma length_dict_elems kvs : length (dict_elems kvs) = (2 * length kvs)%nat.
Proof.
  induction kvs as [|[k v] kvs IH]; [done|]. rewrite dict_elems_cons. cbn [length]. lia.
Qed.

Lemma iterate_dict_elems kvs :
  Forall (fun kv => Forall (fun c => c ≠ 0) kv.1) kvs →
  iterate_elems (dict_elems kvs) = Ok (map (fun kv => (kv.1, Some kv.2)) kvs).
Proof.
  induction 1 as [|[k v] kvs Hk _ IH]; [done|]. change (dict_elems ((k, v) :: kvs)) with
    (Some (launch_data_new_string k) :: Some v :: dict_elems kvs). cbn [iterate_elems].
  rewrite key_string_new by done. rewrite bind_Ok, IH. done.
Qed.

(** Where the scan for a key stops: at its entry, or at the end. *)
Lemma find_key_spec key kvs i :
  Forall (fun kv => Forall (fun c => c ≠ 0) kv.1) kvs →
  (∃ pre k v post, kvs = pre ++ (k, v) :: post ∧ lower k = lower key ∧
     lower key ∉ lower_keys pre ∧
     find_key key (dict_elems kvs) i = Ok (true, (i + 2 * length pre)%nat)) ∨
  (lower key ∉ lower_keys kvs ∧
     find_key key (dict_elems kvs) i = Ok (false, (i + 2 * length kvs)%nat)).
Proof.
  intros Hk. revert i. induction Hk as [|[k v] kvs Hk Hkvs IH]; intros i.
  - right. cbn. split; [apply not_elem_of_nil|]. do 2 f_equal. lia.
  - rewrite dict_elems_cons. cbn [find_key]. rewrite key_string_new, bind_Ok by done.
    destruct (strcasecmp_eq key k) eqn:Hc.
    + apply strcasecmp_eq_spec in Hc. left. exists [], k, v, kvs. split_and!; try done.
      * apply not_elem_of_nil.
      * do 2 f_equal. cbn. lia.
    + assert (lower key ≠ lower k) as Hne.
      { intros Heq%strcasecmp_eq_spec. congruence. }
      destruct (IH (i + 2)%nat) as [(pre & k' & v' & post & -> & Hl & Hn & Hf)|[Hn Hf]].
      * left. exists ((k, v) :: pre), k', v', post. split_and!; try done.
        -- unfold lower_keys. cbn [map]. rewrite elem_of_cons. naive_solver.
        -- rewrite Hf. do 2 f_equal. cbn [length]. lia.
      * right. split.
        -- unfold lower_keys. cbn [map]. rewrite elem_of_cons. naive_solver.
        -- rewrite Hf. do 2 f_equal. cbn [length]. lia.
Qed.

(** Replacing an element, and appending one. *)
Lemma array_set_middle a x b w :
  array_set_index (a ++ x :: b) w (length a) = (a ++ w :: b, x).
Proof.
  unfold array_set_index.
  replace (if (_ <=? _)%nat then _ else _) with (a ++ x :: b).
  - rewrite insert_app_r_alt, Nat.sub_diag by lia. by rewrite list_lookup_middle.
  - case_match; [|done]. rewrite length_app. cbn [length].
    replace (length a + 1 - (length a + S (length b)))%nat with 0%nat by lia.
    by rewrite app_nil_r.
Qed.

Lemma array_set_end l w : array_set_index l w (length l) = (l ++ [w], None).
Proof.
  unfold array_set_index. rewrite (proj2 (Nat.leb_le _ _)) by lia.
  replace (length l + 1 - length l)%nat with 1%nat by lia. cbn [replicate].
  rewrite insert_app_r_alt, Nat.sub_diag by lia. by rewrite list_lookup_middle.
Qed.

(** An element that fits into memory is set without wrapping around. *)
Lemma array_grow_small l ind :
  0 ≤ ind → (ind + 1) * 8 ≤ PTRDIFF_MAX →
  array_grow l ind = Ok (if (length l <=? Z.to_nat ind + 1)%nat
                         then l ++ replicate (Z.to_nat ind + 1 - length l) None else l).
Proof.
  unfold array_grow, PTRDIFF_MAX. intros H0 Hs. rewrite (u64_small (ind + 1)) by lia.
  destruct (Z.ltb_spec (ind + 1) (Z.of_nat (length l))).
  - by rewrite (proj2 (Nat.leb_gt _ _)) by lia.
  - rewrite (u64_small (ind + 1 - _)), !u64_small, !Z.div_mul, (proj2 (Nat.leb_le _ _)) by lia.
    rewrite !(proj2 (Z.leb_le _ _)) by lia. cbn [andb]. do 3 f_equal. lia.
Qed.

Lemma set_index_small where_ what ind :
  0 ≤ ind → (ind + 1) * 8 ≤ PTRDIFF_MAX →
  launch_data_array_set_index where_ what ind = array_set_nth where_ what (Z.to_nat ind).
Proof.
  intros H0 Hs. unfold launch_data_array_set_index, array_set_nth, array_set_index.
  apply bind_ext; [done|]. intros l _. rewrite array_grow_small, bind_Ok by done.
  set (l' := if (_ <=? _)%nat then _ else _).
  assert (Z.to_nat ind < length l')%nat as Hlt.
  { subst l'. destruct (Nat.leb_spec (length l) (Z.to_nat ind + 1));
      rewrite ?length_app, ?length_replicate; lia. }
  destruct (lookup_lt_is_Some_2 l' _ Hlt) as [o ->]. done.
Qed.

(** An index whose element has no address: the sizes wrap around, and the access is outside
    the array. *)
Lemma set_index_wraps where_ what ind :
  0 ≤ ind < 2 ^ 64 → PTRDIFF_MAX < (ind + 1) * 8 →
  (∀ l, ld_elems where_ = Ok l → Z.of_nat (length l) * 8 ≤ PTRDIFF_MAX) →
  launch_data_array_set_index where_ what ind = UB.
Proof.
  unfold launch_data_array_set_index, PTRDIFF_MAX. intros Hi Hw Hl.
  destruct (ld_elems where_) as [l|e| |] eqn:He; try done; [|by destruct where_..].
  rewrite bind_Ok. specialize (Hl l eq_refl).
  assert (∀ l' : list (option ldata), Z.of_nat (length l') ≤ ind → access (E := Empty_set) (l' !! Z.to_nat ind) = UB) as Hout.
  { intros l' Hle. rewrite lookup_ge_None_2 by lia. done. }
  unfold array_grow. destruct (Z.ltb_spec (u64 (ind + 1)) (Z.of_nat (length l))).
  { rewrite bind_Ok. by rewrite Hout by lia. }
  destruct (_ && _) eqn:Hb; [|done]. rewrite bind_Ok, Hout; [done|].
  rewrite length_app, length_replicate. apply andb_true_iff in Hb as [Hm%Z.leb_le Hb%Z.leb_le].
  pose proof (u64_range (u64 (ind + 1 - Z.of_nat (length l)) * 8)).
  unfold PTRDIFF_MAX in *. lia.
Qed.

(** The entries after an insertion. *)
Fixpoint insert_entry (key : list Z) (what : ldata) (kvs : list (list Z * ldata)) :
    list (list Z * ldata) :=
  match kvs with
  | [] => [(key, what)]
  | (k, v) :: kvs =>
      if bool_decide (lower k = lower key) then (key, what) :: kvs
      else (k, v) :: insert_entry key what kvs
  end.

Lemma insert_entry_found key what pre k v post :
  lower k = lower key → lower key ∉ lower_keys pre →
  insert_entry key what (pre ++ (k, v) :: post) = pre ++ (key, what) :: post.
Proof.
  intros Hk. induction pre as [|[k' v'] pre IH]; cbn [insert_entry app]; intros Hn.
  - by rewrite bool_decide_true.
  - unfold lower_keys in Hn. cbn [map] in Hn. rewrite elem_of_cons in Hn.
    rewrite bool_decide_false by (cbn in Hn; naive_solver). rewrite IH; [done|]. naive_solver.
Qed.

Lemma insert_entry_new key what kvs :
  lower key ∉ lower_keys kvs → insert_entry key what kvs = kvs ++ [(key, what)].
Proof.
  induction kvs as [|[k v] kvs IH]; cbn [insert_entry app]; intros Hn; [done|].
  unfold lower_keys in Hn. cbn [map] in Hn. rewrite elem_of_cons in Hn.
  rewrite bool_decide_false by (cbn in Hn; naive_solver). rewrite IH; [done|]. naive_solver.
Qed.

(** What [launch_data_dict_insert] does to the entries, and what it frees. *)
Lemma dict_insert_elems kvs what key :
  Forall (fun kv => Forall (fun c => c ≠ 0) kv.1) kvs →
  ∃ freed, launch_data_dict_insert (LDict (dict_elems kvs)) what key =
             Ok (LDict (dict_elems (insert_entry key what kvs)), freed) ∧
           ((∃ k v, (k, v) ∈ kvs ∧ lower k = lower key ∧ freed = [launch_data_new_string k; v]) ∨
            (lower key ∉ lower_keys kvs ∧ freed = [])).
Proof.
  intros Hk. unfold launch_data_dict_insert. cbn [ld_elems]. rewrite bind_Ok.
  destruct (find_key_spec key kvs 0 Hk) as [(pre & k & v & post & -> & Hl & Hn & ->)|[Hn ->]];
    rewrite bind_Ok, Nat.add_0_l.
  - rewrite dict_elems_app, dict_elems_cons, <- (length_dict_elems pre), array_set_middle.
    replace (length (dict_elems pre) + 1)%nat
      with (length (dict_elems pre ++ [Some (launch_data_new_string key)]))
      by (rewrite length_app; done).
    pose proof (array_set_middle (dict_elems pre ++ [Some (launch_data_new_string key)])
                  (Some v) (dict_elems post) (Some what)) as Hset.
    rewrite <- !app_assoc in Hset. cbn [app] in Hset. rewrite Hset. eexists. split.
    + rewrite insert_entry_found by done. by rewrite dict_elems_app, dict_elems_cons.
    + left. exists k, v. split_and!; try done. apply elem_of_app. right. left.
  - rewrite <- (length_dict_elems kvs), array_set_end.
    replace (length (dict_elems kvs) + 1)%nat
      with (length (dict_elems kvs ++ [Some (launch_data_new_string key)]))
      by (rewrite length_app; done).
    rewrite array_set_end. eexists. split.
    + rewrite insert_entry_new by done. by rewrite dict_elems_app, <- app_assoc.
    + by right.
Qed.

Lemma lower_keys_app a b : lower_keys (a ++ b) = lower_keys a ++ lower_keys b.
Proof. apply map_app. Qed.

Lemma insert_entry_ok key what kvs :
  Forall (fun c => c ≠ 0) key → dict_ok kvs → dict_ok (insert_entry key what kvs).
Proof.
  intros Hkey [Hnd Hks].
  assert (lower_keys (insert_entry key what kvs) =
            (if bool_decide (lower key ∈ lower_keys kvs) then lower_keys kvs
             else lower_keys kvs ++ [lower key])) as Hl.
  { clear Hnd Hks. induction kvs as [|[k v] kvs IH]; [by cbn|]. cbn [insert_entry].
    destruct (decide (lower k = lower key)) as [Hk|Hk].
    - change (lower_keys ((k, v) :: kvs)) with (lower k :: lower_keys kvs).
      rewrite !bool_decide_true by (done || (rewrite Hk; left)).
      change (lower key :: lower_keys kvs = lower k :: lower_keys kvs). by rewrite Hk.
    - rewrite (bool_decide_false (lower k = lower key)) by done. change (lower_keys ((k, v) :: ?x)) with (lower k :: lower_keys x). rewrite IH.
      change (lower_keys ((k, v) :: kvs)) with (lower k :: lower_keys kvs).
      case_bool_decide as H1; case_bool_decide as H2; rewrite elem_of_cons in H2; naive_solver. }
  constructor.
  - rewrite Hl. case_bool_decide; [done|]. apply NoDup_app. split_and!; [done| |].
    + intros x Hx ->%list_elem_of_singleton. done.
    + apply NoDup_singleton.
  - clear Hl Hnd. induction Hks as [|[k v] kvs Hk Hks IH]; cbn [insert_entry].
    + by repeat constructor.
    + case_bool_decide; by constructor.
Qed.

Lemma dict_map_cons k v kvs : dict_map ((k, v) :: kvs) = <[lower k := v]> (dict_map kvs).
Proof. reflexivity. Qed.

Lemma dict_map_insert_entry key what kvs :
  dict_map (insert_entry key what kvs) = <[lower key := what]> (dict_map kvs).
Proof.
  induction kvs as [|[k v] kvs IH]; [done|]. cbn [insert_entry].
  destruct (decide (lower k = lower key)) as [Hk|Hk].
  - rewrite bool_decide_true by done. by rewrite !dict_map_cons, Hk, insert_insert_eq.
  - rewrite bool_decide_false by done. by rewrite !dict_map_cons, IH, insert_insert_ne.
Qed.

Lemma dict_map_not_in key kvs : lower key ∉ lower_keys kvs → dict_map kvs !! lower key = None.
Proof.
  induction kvs as [|[k v] kvs IH]; intros Hn; [done|].
  change (lower_keys ((k, v) :: kvs)) with (lower k :: lower_keys kvs) in Hn.
  apply not_elem_of_cons in Hn as [Hk Hn]. rewrite dict_map_cons, lookup_insert_ne by done. auto.
Qed.

Lemma dict_map_found key pre k v post :
  lower k = lower key → lower key ∉ lower_keys pre →
  dict_map (pre ++ (k, v) :: post) !! lower key = Some v.
Proof.
  intros Hk. induction pre as [|[k' v'] pre IH]; intros Hn; cbn [app].
  - by rewrite dict_map_cons, Hk, lookup_insert_eq.
  - change (lower_keys ((k', v') :: pre)) with (lower k' :: lower_keys pre) in Hn.
    apply not_elem_of_cons in Hn as [Hk' Hn]. rewrite dict_map_cons, lookup_insert_ne by done.
    auto.
Qed.

Lemma dict_map_remove key pre k v post :
  lower k = lower key → NoDup (lower_keys (pre ++ (k, v) :: post)) →
  dict_map (pre ++ post) = delete (lower key) (dict_map (pre ++ (k, v) :: post)).
Proof.
  intros Hk. induction pre as [|[k' v'] pre IH]; cbn [app]; intros Hnd.
  - change (lower_keys ((k, v) :: post)) with (lower k :: lower_keys post) in Hnd.
    apply NoDup_cons in Hnd as [Hn _]. rewrite dict_map_cons, Hk, delete_insert_id; [done|].
    apply dict_map_not_in. by rewrite <- Hk.
  - change (lower_keys ((k', v') :: ?x)) with (lower k' :: lower_keys x) in Hnd.
    apply NoDup_cons in Hnd as [Hn Hnd]. rewrite !dict_map_cons, IH by done.
    rewrite delete_insert_ne; [done|]. intros Heq. apply Hn.
    rewrite <- Heq, <- Hk, lower_keys_app. apply elem_of_app. right. left.
Qed.

(** C35: inserting into a dictionary is an update of the finite map from
    lower-case keys to values; the invariant (distinct keys up to case) is kept,
    and exactly the replaced key and value are freed. *)
Theorem dict_insert_refines kvs what key :
  dict_ok kvs → Forall (fun c => c ≠ 0) key →
  ∃ kvs' freed, launch_data_dict_insert (LDict (dict_elems kvs)) what key =
                  Ok (LDict (dict_elems kvs'), freed) ∧
                dict_ok kvs' ∧ dict_map kvs' = <[lower key := what]> (dict_map kvs) ∧
                match dict_map kvs !! lower key with
                | Some old => ∃ k, freed = [launch_data_new_string k; old] ∧ lower k = lower key
                | None => freed = []
                end.
Proof.
  intros Hok Hkey. destruct (dict_insert_elems kvs what key (dict_keys _ Hok)) as (freed & H & Hf).
  exists (insert_entry key what kvs), freed. split; [done|].
  split; [by apply insert_entry_ok|]. split; [apply dict_map_insert_entry|].
  destruct Hf as [(k & v & Hin & Hl & ->)|[Hn ->]].
  - apply list_elem_of_split in Hin as (pre & post & ->).
    rewrite (dict_map_found key pre k v post Hl); [by eauto|].
    destruct Hok as [Hnd _]. rewrite lower_keys_app in Hnd.
    apply NoDup_app in Hnd as (_ & Hd & _). intros Hp. apply (Hd _ Hp).
    rewrite <- Hl. left.
  - by rewrite dict_map_not_in.
Qed.

(** A lookup finds what the finite map holds under the lower-case key, and
    the count is the number of its entries. *)
Theorem dict_lookup_refines kvs key :
  dict_ok kvs →
  launch_data_dict_lookup (LDict (dict_elems kvs)) key = Ok (dict_map kvs !! lower key) ∧
  launch_data_dict_get_count (LDict (dict_elems kvs)) = Ok (size (dict_map kvs)).
Proof.
  intros [Hnd Hks]. split.
  - unfold launch_data_dict_lookup.
    destruct (find_key_spec key kvs 0 Hks) as [(pre & k & v & post & -> & Hl & Hn & ->)|[Hn ->]];
      rewrite bind_Ok.
    + rewrite (dict_map_found key pre k v post) by done.
      rewrite dict_elems_app, dict_elems_cons, Nat.add_0_l, <- (length_dict_elems pre).
      rewrite lookup_app_r by lia.
      by replace (length (dict_elems pre) + 1 - length (dict_elems pre))%nat with 1%nat by lia.
    + by rewrite dict_map_not_in.
  - unfold launch_data_dict_get_count. cbn [ld_elems]. rewrite bind_Ok, length_dict_elems.
    f_equal. rewrite Nat.mul_comm, Nat.div_mul by lia.
    clear Hks. induction kvs as [|[k v] kvs IH]; [done|].
    change (lower_keys ((k, v) :: kvs)) with (lower k :: lower_keys kvs) in Hnd.
    apply NoDup_cons in Hnd as [Hn Hnd]. rewrite dict_map_cons.
    rewrite map_size_insert_None by (by apply dict_map_not_in). cbn [length]. by rewrite IH.
Qed.

(** Removing a key deletes it from the finite map and frees its two nodes; it
    reports whether the key was there. *)
Theorem dict_remove_refines kvs key :
  dict_ok kvs →
  ∃ kvs' freed, launch_data_dict_remove (LDict (dict_elems kvs)) key =
                  Ok (bool_decide (is_Some (dict_map kvs !! lower key)),
                      LDict (dict_elems kvs'), freed) ∧
                dict_ok kvs' ∧ dict_map kvs' = delete (lower key) (dict_map kvs) ∧
                (∀ v, dict_map kvs !! lower key = Some v →
                      ∃ k, freed = [launch_data_new_string k; v]).
Proof.
  intros [Hnd Hks]. unfold launch_data_dict_remove. cbn [ld_elems]. rewrite bind_Ok.
  destruct (find_key_spec key kvs 0 Hks) as [(pre & k & v & post & -> & Hl & Hn & ->)|[Hn ->]];
    rewrite bind_Ok, Nat.add_0_l.
  - rewrite (dict_map_found key pre k v post) by done.
    rewrite dict_elems_app, dict_elems_cons, length_app, <- (length_dict_elems pre).
    rewrite (proj2 (Nat.eqb_neq _ _)) by (cbn [length]; lia).
    rewrite (list_lookup_middle (dict_elems pre) _ _ (length (dict_elems pre)) eq_refl).
    cbn [access]. rewrite bind_Ok. rewrite lookup_app_r by lia.
    replace (length (dict_elems pre) + 1 - length (dict_elems pre))%nat with 1%nat by lia.
    cbn [access lookup]. exists (pre ++ post), [launch_data_new_string k; v].
    rewrite bool_decide_true by done. split_and!.
    + rewrite take_app_length, drop_app_add, dict_elems_app. done.
    + rewrite lower_keys_app in Hnd. apply NoDup_app in Hnd as (H1 & H2 & H3).
      change (lower_keys ((k, v) :: post)) with (lower k :: lower_keys post) in *.
      apply NoDup_cons in H3 as [H3 H4]. constructor.
      * rewrite lower_keys_app. apply NoDup_app. split_and!; [done| |done].
        intros x Hx Hx'. apply (H2 x Hx). by right.
      * apply Forall_app in Hks as [? Hks]. apply Forall_cons in Hks as [_ ?].
        by apply Forall_app.
    + by apply (dict_map_remove key pre k v post).
    + intros v' [= <-]. by eexists.
  - rewrite <- (length_dict_elems kvs), Nat.eqb_refl, dict_map_not_in by done.
    exists kvs, []. rewrite bool_decide_false by (by intros [? ?]). split_and!; try done.
    rewrite delete_id; [done|]. by apply dict_map_not_in.
Qed.

(** ** Witnesses *)

(** The dictionary {"Label": 1, "Program": true}. *)
Definition example_entries : list (list Z * ldata) :=
  [([76; 97; 98; 101; 108], LInteger 1); ([80; 114; 111; 103; 114; 97; 109], LBool 1)].

Lemma example_entries_ok : dict_ok example_entries.
Proof.
  constructor; [|repeat constructor; done].
  apply (bool_decide_unpack _). vm_compute. reflexivity.
Qed.

Lemma dict_insert_refines_witness :
  ∃ kvs' freed, launch_data_dict_insert (LDict (dict_elems example_entries)) (LInteger 7)
                  [76; 65; 66; 69; 76] = Ok (LDict (dict_elems kvs'), freed) ∧
                dict_ok kvs' ∧
                dict_map kvs' = <[[108; 97; 98; 101; 108] := LInteger 7]> (dict_map example_entries) ∧
                ∃ k, freed = [launch_data_new_string k; LInteger 1].
Proof.
  destruct (dict_insert_refines example_entries (LInteger 7) [76; 65; 66; 69; 76]
              example_entries_ok) as (kvs' & freed & H1 & H2 & H3 & H4); [repeat constructor; done|].
  exists kvs', freed. split; [exact H1|]. split; [exact H2|]. split; [exact H3|].
  destruct H4 as (k & H4 & _). by exists k.
Defined.

Lemma dict_lookup_refines_witness :
  launch_data_dict_lookup (LDict (dict_elems example_entries)) [76; 65; 66; 69; 76] =
    Ok (Some (LInteger 1)).
Proof.
  exact (proj1 (dict_lookup_refines example_entries [76; 65; 66; 69; 76] example_entries_ok)).
Defined.

Lemma dict_remove_refines_witness :
  ∃ kvs' freed, launch_data_dict_remove (LDict (dict_elems example_entries)) [76; 65; 66; 69; 76] =
                  Ok (true, LDict (dict_elems kvs'), freed) ∧ dict_ok kvs'.
Proof.
  destruct (dict_remove_refines example_entries [76; 65; 66; 69; 76] example_entries_ok)
    as (kvs' & freed & H1 & H2 & _). exists kvs', freed. split; [exact H1|exact H2].
Defined.
