(* ===== verification/LaunchTypes.v ===== *)
(** * Well-typed launch data ([src/src/launchd/liblaunch/liblaunch.c])

    The members of [struct _launch_data] share a union, so every function of the interface
    relies on the type the node was made with.  Here: the values that belong to each type, the
    calls that fit a type, and that fitting calls are defined, keep the type and keep the
    value in it. *)

From S2P Require Import Prelude LaunchData.

Definition no_nul (s : list Z) : Prop := Forall (fun c => c ≠ 0) s.

(** The values of each type. *)
Inductive typed : ldata → Prop :=
  | typed_integer n : - 2 ^ 63 ≤ n < 2 ^ 63 → typed (LInteger n)
  | typed_real b : 0 ≤ b < 2 ^ 64 → typed (LReal b)
  | typed_bool b : 0 ≤ b < 2 → typed (LBool b)
  | typed_errno e : 0 ≤ e < 2 ^ 64 → typed (LErrno e)
  | typed_fd fd : - 2 ^ 31 ≤ fd < 2 ^ 31 → typed (LFd fd)
  | typed_machport p : 0 ≤ p < 2 ^ 32 → typed (LMachPort p)
  | typed_string s : no_nul s → typed (LString (Some (s ++ [0])) (Z.of_nat (length s)))
  | typed_opaque o : typed (LOpaque o)
  | typed_array l : Forall (fun o => ∀ d, o = Some d → typed d) l → typed (LArray l)
  | typed_dict kvs : dict_ok kvs → Forall (fun kv => typed kv.2) kvs → typed (LDict (dict_elems kvs)).

#[export] Hint Constructors typed : osxie.

(** ** Calls

    The functions that change a node, with their arguments.  [ld_apply] gives the node
    afterwards and the nodes that were freed or handed to the caller. *)

Inductive ld_call :=
  | SetInteger (n : Z) | SetReal (bits : Z) | SetBool (b : bool) | SetErrno (e : Z) | SetFd (fd : Z)
  | SetMachPort (p : Z) | SetString (s : list Z) | SetOpaque (o : list Z)
  | ArraySetIndex (what : option ldata) (ind : Z) | ArrayPopFirst
  | DictInsert (what : ldata) (key : list Z) | DictRemove (key : list Z).

Definition ld_apply (c : ld_call) (d : ldata) : res Empty_set (ldata * list ldata) :=
  let keep (r : res Empty_set ldata) := d ← r; Ok (d, []) in
  match c with
  | SetInteger n => keep (launch_data_set_integer d n)
  | SetReal b => keep (launch_data_set_real d b)
  | SetBool b => keep (launch_data_set_bool d b)
  | SetErrno e => keep (launch_data_set_errno d e)
  | SetFd fd => keep (launch_data_set_fd d fd)
  | SetMachPort p => keep (launch_data_set_machport d p)
  | SetString s => keep (launch_data_set_string d s)
  | SetOpaque o => keep (launch_data_set_opaque d o)
  | ArraySetIndex what ind => '(d, f) ← launch_data_array_set_index d what ind; Ok (d, omap id [f])
  | ArrayPopFirst => '(f, d) ← launch_data_array_pop_first d; Ok (d, omap id [f])
  | DictInsert what key => launch_data_dict_insert d what key
  | DictRemove key => '(_, d, f) ← launch_data_dict_remove d key; Ok (d, f)
  end.

(** The type a call is for. *)
Definition call_type (c : ld_call) : Z :=
  match c with
  | SetInteger _ => LAUNCH_DATA_INTEGER | SetReal _ => LAUNCH_DATA_REAL | SetBool _ => LAUNCH_DATA_BOOL
  | SetErrno _ => LAUNCH_DATA_ERRNO | SetFd _ => LAUNCH_DATA_FD | SetMachPort _ => LAUNCH_DATA_MACHPORT
  | SetString _ => LAUNCH_DATA_STRING | SetOpaque _ => LAUNCH_DATA_OPAQUE
  | ArraySetIndex _ _ | ArrayPopFirst => LAUNCH_DATA_ARRAY
  | DictInsert _ _ | DictRemove _ => LAUNCH_DATA_DICTIONARY
  end.

(** Arguments of the right C types: numbers in range, strings without NUL, typed nodes that
    are passed on to the call and are not part of the node already, and an array index whose
    element has an address. *)
Definition args_ok (c : ld_call) : Prop :=
  match c with
  | SetReal b => 0 ≤ b < 2 ^ 64
  | SetFd fd => - 2 ^ 31 ≤ fd < 2 ^ 31
  | SetString s => no_nul s
  | ArraySetIndex what ind =>
      (∀ d, what = Some d → typed d) ∧ 0 ≤ ind ∧ (ind + 1) * 8 ≤ PTRDIFF_MAX
  | DictInsert what key => typed what ∧ no_nul key
  | _ => True
  end.

(** A sequence of calls on one node; the nodes handed back accumulate. *)
Fixpoint ld_run (cs : list ld_call) (d : ldata) : res Empty_set (ldata * list ldata) :=
  match cs with
  | [] => Ok (d, [])
  | c :: cs => '(d, f) ← ld_apply c d; '(d, f') ← ld_run cs d; Ok (d, f ++ f')
  end.

(** ** Readers

    What the functions that read a node give for a node of its type. *)
Definition reads_ok (d : ldata) : Prop :=
  match d with
  | LInteger _ => ∃ n, launch_data_get_integer d = Ok n ∧ - 2 ^ 63 ≤ n < 2 ^ 63
  | LBool _ => ∃ b, launch_data_get_bool d = Ok b ∧ d = launch_data_new_bool b
  | LErrno _ => ∃ e, launch_data_get_errno d = Ok e ∧ - 2 ^ 31 ≤ e < 2 ^ 31
  | LFd fd => launch_data_get_fd d = Ok fd
  | LMachPort p => launch_data_get_machport d = Ok p
  | LString _ _ => ∃ s, launch_data_get_string d = Some (s ++ [0]) ∧ no_nul s ∧ d = launch_data_new_string s
  | LOpaque o => launch_data_get_opaque d = Some o
  | LReal _ => True
  | LArray l => launch_data_array_get_count d = length l ∧
      ∀ i c, launch_data_array_get_index d i = Some c → typed c
  | LDict _ => ∃ kvs, launch_data_dict_iterate d = Ok (map (fun kv => (kv.1, Some kv.2)) kvs) ∧
      launch_data_dict_get_count d = Ok (length kvs) ∧ Forall (fun kv => no_nul kv.1 ∧ typed kv.2) kvs ∧
      ∀ key, launch_data_dict_lookup d key = Ok (dict_map kvs !! lower key)
  end.

(** ** Proofs *)

Lemma i64_range n : - 2 ^ 63 ≤ i64 n < 2 ^ 63.
Proof. unfold i64, sext. zbool; lia. Qed.
Lemma i32_range n : - 2 ^ 31 ≤ i32 n < 2 ^ 31.
Proof. unfold i32, sext. zbool; lia. Qed.
Lemma u32_range n : 0 ≤ u32 n < 2 ^ 32.
Proof. unfold u32. lia. Qed.
#[export] Hint Resolve i64_range i32_range u32_range : osxie.

(** Induction on typed values, through the elements of arrays and dictionaries. *)
Lemma typed_nested (P : ldata → Prop) :
  (∀ d, typed d → launch_data_get_type d ≠ LAUNCH_DATA_ARRAY → launch_data_get_type d ≠ LAUNCH_DATA_DICTIONARY → P d) →
  (∀ l, Forall (fun o => ∀ d, o = Some d → typed d ∧ P d) l → P (LArray l)) →
  (∀ kvs, dict_ok kvs → Forall (fun kv => typed kv.2 ∧ P kv.2) kvs → P (LDict (dict_elems kvs))) →
  ∀ d, typed d → P d.
Proof.
  intros H1 H2 H3. fix go 2. intros d [ | | | | | | | | l Hl | kvs Hok Hv]; try (apply H1; [auto with osxie|done|done]).
  - apply H2. induction Hl as [|o l Ho _ IH]; constructor; [|done]. intros d' Hd. split; [by apply Ho|by apply go, Ho].
  - apply H3; [done|]. clear Hok. induction Hv as [|kv kvs Hkv _ IH]; constructor; [|done]. split; [done|by apply go].
Qed.

(** A copy is the same value. *)
Lemma copy_typed d : typed d → launch_data_copy d = Ok d.
Proof.
  apply (typed_nested (fun d => launch_data_copy d = Ok d)).
  - intros ? [ | | | | | |s Hs| | | ] Ha Hd; try done. cbn.
    rewrite bool_decide_true by (apply elem_of_app; right; left). by rewrite until_nul_string.
  - intros l Hl. cbn.
    match goal with |- mbind _ (?go l) = _ => assert (go l = Ok l) as ->; [|done] end.
    induction Hl as [|[x|] l Ho _ IH]; [done| |].
    + destruct (Ho x eq_refl) as [_ E]. cbn. rewrite E, bind_Ok. by rewrite IH.
    + by rewrite IH.
  - intros kvs [_ Hk] Hv. cbn.
    match goal with |- mbind _ (?go _) = _ => assert (go (dict_elems kvs) = Ok (dict_elems kvs)) as ->; [|done] end.
    revert Hk. induction Hv as [|[k v] kvs [_ E] _ IH]; intros Hk; [done|].
    apply Forall_cons in Hk as [Hk Hks]. cbn in Hk, E. rewrite dict_elems_cons. cbn.
    rewrite bool_decide_true by (apply elem_of_app; right; left). rewrite until_nul_string, E, !bind_Ok by done.
    by rewrite IH.
Qed.

Lemma typed_array_elem l i d : typed (LArray l) → l !! i = Some (Some d) → typed d.
Proof. intros H Hi. inversion H as [| | | | | | | |? Hl|]; subst. by eapply (proj1 (Forall_lookup _ _) Hl i). Qed.

Lemma typed_reads d : typed d → reads_ok d.
Proof.
  intros H. destruct H as [n Hn|b Hb|b Hb|e He|fd Hfd|p Hp|s Hs|o|l Hl|kvs Hok Hv]; cbn [reads_ok].
  - by exists n.
  - done.
  - assert (b = 0 ∨ b = 1) as [-> | ->] by lia; [by exists false|by exists true].
  - eexists. split; [reflexivity|auto with osxie].
  - cbn. by rewrite i32_small.
  - cbn. unfold u32. by rewrite Z.mod_small.
  - by exists s.
  - done.
  - split; [done|]. intros i c. cbn. intros Hi. apply (typed_array_elem l i); [auto with osxie|].
    destruct (l !! i); cbn in Hi; congruence.
  - exists kvs. pose proof (dict_keys _ Hok) as Hk. split_and!.
    + by apply iterate_dict_elems.
    + unfold launch_data_dict_get_count. cbn [ld_elems]. rewrite bind_Ok, length_dict_elems, Nat.mul_comm, Nat.div_mul; done.
    + apply Forall_and. split; [done|done].
    + intros key. by apply dict_lookup_refines.
Qed.

Lemma typed_set_index l what ind :
  typed (LArray l) → (∀ d, what = Some d → typed d) →
  typed (LArray (array_set_index l what ind).1) ∧ ∀ d, (array_set_index l what ind).2 = Some d → typed d.
Proof.
  intros H Hw. unfold array_set_index. cbn.
  set (l' := if (length l <=? ind + 1)%nat then l ++ replicate (ind + 1 - length l) None else l).
  assert (typed (LArray l')) as Hl'.
  { subst l'. destruct (length l <=? ind + 1)%nat; [|done]. inversion H as [| | | | | | | |? Hl|]; subst.
    constructor. apply Forall_app. split; [done|]. by apply Forall_replicate. }
  split.
  - inversion Hl' as [| | | | | | | |? Hl|]; subst. constructor. by apply Forall_insert.
  - intros d Hd. apply (typed_array_elem l' ind); [done|]. destruct (l' !! ind); cbn in Hd; congruence.
Qed.

(** The values of a dictionary are those of its map. *)
Lemma dict_values (Q : ldata → Prop) kvs :
  dict_ok kvs → Forall (fun kv => Q kv.2) kvs ↔ map_Forall (fun _ => Q) (dict_map kvs).
Proof.
  intros [Hnd _]. induction kvs as [|[k v] kvs IH]; [split; [intros _; apply map_Forall_empty|done]|].
  change (lower_keys ((k, v) :: kvs)) with (lower k :: lower_keys kvs) in Hnd. apply NoDup_cons in Hnd as [Hn Hnd].
  rewrite dict_map_cons, Forall_cons, map_Forall_insert by (by apply dict_map_not_in). by rewrite IH.
Qed.

Lemma typed_dict_inv l : typed (LDict l) → ∃ kvs, l = dict_elems kvs ∧ dict_ok kvs ∧ map_Forall (fun _ => typed) (dict_map kvs).
Proof.
  intros H. inversion H as [| | | | | | | | |kvs Hok Hv]; subst. exists kvs. split_and!; [done|done|]. by apply dict_values.
Qed.

Lemma typed_dict_map kvs : dict_ok kvs → map_Forall (fun _ => typed) (dict_map kvs) → typed (LDict (dict_elems kvs)).
Proof. intros Hok Hv. constructor; [done|]. by apply dict_values. Qed.

(** One call. *)
Lemma call_typed c d :
  typed d → launch_data_get_type d = call_type c → args_ok c →
  ∃ d' f, ld_apply c d = Ok (d', f) ∧ typed d' ∧ launch_data_get_type d' = launch_data_get_type d.
Proof.
  intros Hd Ht Ha. destruct c as [n|b|b|e|fd|p|s|o|what ind| |what key|key], d; try discriminate Ht; cbn in Ha.
  1-8: (eexists _, []; split; [reflexivity|]; split; [|done]; constructor; auto with osxie).
  - by destruct b.
  - destruct Ha as (Hw & H0 & Hs). destruct (typed_set_index elems what (Z.to_nat ind) Hd Hw) as [H _].
    cbn [ld_apply]. rewrite set_index_small by done. unfold array_set_nth. cbn [ld_elems]. rewrite bind_Ok.
    destruct (array_set_index elems what (Z.to_nat ind)) as [l' fr]. eexists _, _. split; [reflexivity|]. by split.
  - destruct elems as [|x l]; (eexists _, _; split; [reflexivity|]); [done|]. split; [|done].
    inversion Hd as [| | | | | | | |? Hl|]; subst. constructor. by apply Forall_cons in Hl as [_ Hl].
  - destruct Ha as [Hw Hkey]. destruct (typed_dict_inv _ Hd) as (kvs & -> & Hok & Hv).
    destruct (dict_insert_elems kvs what key (dict_keys _ Hok)) as (f & H & _). eexists _, f. split; [exact H|]. split; [|done].
    apply typed_dict_map; [by apply insert_entry_ok|]. rewrite dict_map_insert_entry. by apply map_Forall_insert_2.
  - destruct (typed_dict_inv _ Hd) as (kvs & -> & Hok & Hv).
    destruct (dict_remove_refines kvs key Hok) as (kvs' & f & H & Hok' & Hm & _). cbn [ld_apply]. rewrite H, bind_Ok.
    eexists _, _. split; [reflexivity|]. split; [|done]. apply typed_dict_map; [done|]. rewrite Hm. by apply map_Forall_delete.
Qed.

(** A sequence of calls. *)
Lemma calls_typed d cs :
  typed d → Forall (fun c => call_type c = launch_data_get_type d ∧ args_ok c) cs →
  ∃ d' f, ld_run cs d = Ok (d', f) ∧ typed d' ∧ launch_data_get_type d' = launch_data_get_type d ∧
    launch_data_copy d' = Ok d' ∧ reads_ok d'.
Proof.
  revert d. induction cs as [|c cs IH]; intros d Hd Hcs.
  - exists d, []. split_and!; [done|done|done|by apply copy_typed|by apply typed_reads].
  - apply Forall_cons in Hcs as [[Hc Ha] Hcs]. destruct (call_typed c d Hd (eq_sym Hc) Ha) as (d1 & f1 & H1 & Hd1 & Ht1).
    rewrite <- Ht1 in Hcs. destruct (IH d1 Hd1 Hcs) as (d2 & f2 & H2 & Hd2 & Ht2 & Hr1 & Hr2).
    exists d2, (f1 ++ f2). cbn [ld_run]. rewrite H1, bind_Ok, H2, bind_Ok. rewrite <- Ht1. done.
Qed.

(** C36: well-typed calls do not go wrong.  On a node whose value belongs to its type, any
    sequence of setters, array and dictionary operations for that type is defined: no access
    outside the node and no member of the union read as another.  The arguments are of their
    C types, an array index [ind] satisfies [(ind + 1) * 8 <= PTRDIFF_MAX], a node that is
    stored is not stored already, and the allocations of sizes up to that bound succeed.  The
    node keeps its type and its value stays in it, so a copy of it is equal to it and every
    reading function of its type gives a value in range: the string that is stored, the
    number, typed elements of an array, and for a dictionary typed values under distinct
    string keys, with the lookup that belongs to them.  The bound on the index is needed: at
    every larger [size_t] index [launch_data_array_set_index] on an array that fits into
    memory is undefined, because its sizes wrap around or the allocation fails. *)
Theorem launch_data_type_sound d cs :
  typed d → Forall (fun c => call_type c = launch_data_get_type d ∧ args_ok c) cs →
  (∃ d' f, ld_run cs d = Ok (d', f) ∧ typed d' ∧ launch_data_get_type d' = launch_data_get_type d ∧
    launch_data_copy d' = Ok d' ∧ reads_ok d') ∧
  (∀ l what ind, d = LArray l → Z.of_nat (length l) * 8 ≤ PTRDIFF_MAX →
    0 ≤ ind < 2 ^ 64 → PTRDIFF_MAX < (ind + 1) * 8 → ld_run [ArraySetIndex what ind] d = UB).
Proof.
  intros Hd Hcs. split; [by apply calls_typed|]. intros l what ind -> Hl Hi Hw.
  cbn [ld_run ld_apply]. rewrite set_index_wraps; [done|done|done|]. by intros ? [= <-].
Qed.

(** A job dictionary: a label is inserted, replaced and removed. *)
Lemma launch_data_type_sound_witness :
  ∃ d' f, ld_run [DictInsert (launch_data_new_string [99]) [76; 97]; DictInsert (LInteger 3) [108; 65]; DictRemove [88]]
            (LDict []) = Ok (d', f) ∧
    launch_data_dict_lookup d' [76; 97] = Ok (Some (LInteger 3)).
Proof.
  destruct (launch_data_type_sound (LDict (dict_elems []))
    [DictInsert (launch_data_new_string [99]) [76; 97]; DictInsert (LInteger 3) [108; 65]; DictRemove [88]])
    as [(d' & f & H & _) _].
  - constructor; [split; constructor|constructor].
  - repeat apply Forall_cons_2; [..|apply Forall_nil_2]; (split; [reflexivity|]); cbn; try done.
    + split; [apply (typed_string [99])|]; repeat constructor; lia.
    + split; [constructor; lia|]. repeat constructor; lia.
  - exists d', f. split; [exact H|]. vm_compute in H. injection H as <- <-. reflexivity.
Defined.
