(* ===== verification/LaunchMsg.v ===== *)
(** * Launch messages ([src/src/launchd/liblaunch/liblaunch.c])

    Serialisation of launch data ([launch_data_pack], [launch_data_unpack]) and
    the message layer over a socket ([launchd_msg_send], [launchd_msg_recv]).
    Buffers are lists of bytes; what the kernel accepts and delivers is an
    argument of each call. *)

From S2P Require Import Prelude LaunchData.

(** [ROUND_TO_64BIT_WORD_SIZE] *)
Definition ROUND_TO_64BIT_WORD_SIZE (x : Z) : Z := Z.land (u64 (x + 7)) (Z.lnot 7).

Definition sizeof_launch_data : Z := 24.
(** [malloc(4 * 1024)] of [int]s. *)
Definition fd_slots : nat := 1024.

(** ** Packing *)

(** A descriptor to pass: it is written to the next slot of [fd_where]. *)
Definition pack_fd (fds : option (list Z)) (fd : Z) : res Empty_set (option (list Z)) :=
  match fds with
  | None => Ok None
  | Some l =>
      if fd =? -1 then Ok (Some l)
      else if (length l <? fd_slots)%nat then Ok (Some (l ++ [i32 fd])) else UB
  end.

(** Bytes followed by their zero padding at [w]. *)
Definition pack_bytes (buf : list Z) (w : Z) (bs : list Z) (padded : Z) :
    res Empty_set (list Z) :=
  buf ← poke buf w bs;
  poke buf (w + Z.of_nat (length bs))
       (replicate (Z.to_nat (u64 (padded - Z.of_nat (length bs)))) 0).

(** [launch_data_pack(d, where, len, ...)] with [where] at offset [w] of the
    buffer: the size (0 on failure), the buffer and the descriptors. *)
Fixpoint launch_data_pack (d : ldata) (buf : list Z) (w len : Z) (fds : option (list Z)) :
    res Empty_set (Z * list Z * option (list Z)) :=
  let node := sizeof_launch_data in
  if len <? node then Ok (0, buf, fds) else
  buf ← poke_le buf w 8 (launch_data_get_type d);
  let pack_children :=
    (fix go (l : list (option ldata)) (buf : list Z) (w node : Z) (fds : option (list Z)) :
         res Empty_set (Z * list Z * option (list Z)) :=
       match l with
       | [] => Ok (node, buf, fds)
       | None :: _ => UB
       | Some c :: l =>
           '(rsz, buf, fds) ← launch_data_pack c buf w (u64 (len - node)) fds;
           if rsz =? 0 then Ok (0, buf, fds)
           else go l buf (w + rsz) (u64 (node + rsz)) fds
       end) in
  match d with
  | LInteger n => buf ← poke_le buf (w + 8) 8 n; Ok (node, buf, fds)
  | LReal n => buf ← poke_le buf (w + 8) 8 n; Ok (node, buf, fds)
  | LBool n => buf ← poke_le buf (w + 8) 8 n; Ok (node, buf, fds)
  | LErrno n => buf ← poke_le buf (w + 8) 8 n; Ok (node, buf, fds)
  | LFd fd => buf ← poke_le buf (w + 8) 8 fd; fds ← pack_fd fds fd; Ok (node, buf, fds)
  | LString mem n =>
      buf ← poke_le buf (w + 16) 8 n;
      let n1 := u64 (n + 1) in
      let node := u64 (node + ROUND_TO_64BIT_WORD_SIZE n1) in
      if len <? node then Ok (0, buf, fds) else
      mem ← access mem;
      bs ← peek mem 0 (Z.to_nat n1);
      buf ← pack_bytes buf (w + sizeof_launch_data) bs (ROUND_TO_64BIT_WORD_SIZE n1);
      Ok (node, buf, fds)
  | LOpaque bs =>
      let n := Z.of_nat (length bs) in
      buf ← poke_le buf (w + 16) 8 n;
      let node := u64 (node + ROUND_TO_64BIT_WORD_SIZE n) in
      if len <? node then Ok (0, buf, fds) else
      buf ← pack_bytes buf (w + sizeof_launch_data) bs (ROUND_TO_64BIT_WORD_SIZE n);
      Ok (node, buf, fds)
  | LDict l | LArray l =>
      let cnt := Z.of_nat (length l) in
      buf ← poke_le buf (w + 16) 8 cnt;
      let node := u64 (node + cnt * 8) in
      if len <? node then Ok (0, buf, fds) else
      pack_children l buf (w + sizeof_launch_data + cnt * 8) node fds
  | LMachPort _ => Ok (node, buf, fds)
  end.

(** ** Unpacking *)

(** The [errno] of a failed unpack: the node does not fit in what was received,
    it has no known type, or there is no room for a node at all. *)
Inductive unpack_error := UnpackAgain | UnpackInval | UnpackShort.

(** The node at [off]: its value, the offset after it and the next descriptor. *)
Fixpoint launch_data_unpack (fuel : nat) (data fds : list Z) (off fdoff : Z) :
    res unpack_error (ldata * Z * Z) :=
  match fuel with
  | O => NoFuel
  | S fuel =>
      let size := Z.of_nat (length data) in
      if size <? off then Err UnpackShort else
      if size - off <? sizeof_launch_data then Err UnpackShort else
      type ← peek_le data off 8;
      let body := off + sizeof_launch_data in
      let unpack_children :=
        (fix go (n : nat) (off fdoff : Z) : res unpack_error (list (option ldata) * Z * Z) :=
           match n with
           | O => Ok ([], off, fdoff)
           | S n =>
               '(c, off, fdoff) ← launch_data_unpack fuel data fds off fdoff;
               '(l, off, fdoff) ← go n off fdoff;
               Ok (Some c :: l, off, fdoff)
           end) in
      if (type =? LAUNCH_DATA_DICTIONARY) || (type =? LAUNCH_DATA_ARRAY) then
        cnt ← peek_le data (off + 16) 8;
        if (2 ^ 64 - 1) / 8 <? cnt then Err UnpackAgain else
        if size - body <? cnt * 8 then Err UnpackAgain else
        '(l, off, fdoff) ← unpack_children (Z.to_nat cnt) (body + cnt * 8) fdoff;
        Ok (if type =? LAUNCH_DATA_DICTIONARY then LDict l else LArray l, off, fdoff)
      else if type =? LAUNCH_DATA_STRING then
        n ← peek_le data (off + 16) 8;
        let n1 := u64 (n + 1) in
        if size - body <? n1 then Err UnpackAgain else
        mem ← peek data body (Z.to_nat n1);
        Ok (LString (Some mem) n, u64 (body + ROUND_TO_64BIT_WORD_SIZE n1), fdoff)
      else if type =? LAUNCH_DATA_OPAQUE then
        n ← peek_le data (off + 16) 8;
        if size - body <? n then Err UnpackAgain else
        bs ← peek data body (Z.to_nat n);
        Ok (LOpaque bs, u64 (body + ROUND_TO_64BIT_WORD_SIZE n), fdoff)
      else
        v ← peek_le data (off + 8) 8;
        if type =? LAUNCH_DATA_FD then
          let fd := i64 v in
          if negb (fd =? -1) && (fdoff <? Z.of_nat (length fds)) then
            r ← access (fds !! Z.to_nat fdoff); Ok (LFd r, body, fdoff + 1)
          else Ok (LFd fd, body, fdoff)
        else if type =? LAUNCH_DATA_INTEGER then Ok (LInteger (i64 v), body, fdoff)
        else if type =? LAUNCH_DATA_REAL then Ok (LReal v, body, fdoff)
        else if type =? LAUNCH_DATA_BOOL then Ok (LBool v, body, fdoff)
        else if type =? LAUNCH_DATA_ERRNO then Ok (LErrno v, body, fdoff)
        else if type =? LAUNCH_DATA_MACHPORT then Ok (LMachPort v, body, fdoff)
        else Err UnpackInval
  end.

(** ** The connection *)

Inductive which_fd := LAUNCHD_USE_CHECKIN_FD | LAUNCHD_USE_OTHER_FD.
#[export] Instance which_fd_eq_dec : EqDecision which_fd.
Proof. solve_decision. Defined.

(** [struct _launch]: the first [sendlen] bytes of [sendbuf] are pending, and
    [recvbuf] is what has been received and not yet consumed. *)
Record launch := mkLaunch {
  l_sendbuf : list Z;
  l_sendlen : Z;
  l_sendfds : list Z;
  l_recvbuf : list Z;
  l_recvfds : list Z;
  l_which : which_fd;
  l_cifd : Z;
  l_fd : Z;
}.

Definition launchd_getfd (l : launch) : Z :=
  if decide (l_which l = LAUNCHD_USE_CHECKIN_FD) then l_cifd l else l_fd l.

(** [launchd_fdopen]: the connection, or [None] when an allocation fails ([alloc i] is
    the outcome of the [i]-th one: the structure, then the four buffers), and the
    descriptors that were made non-blocking.  The structure is zeroed, which selects the
    check-in descriptor when no rule applies. *)
Definition launchd_fdopen (alloc : nat → bool) (fd cifd : Z) : option launch * list Z :=
  if negb (alloc 0%nat) then (None, []) else
  let which :=
    if (fd =? -1) || (negb (fd =? -1) && negb (cifd =? -1)) then LAUNCHD_USE_CHECKIN_FD
    else if cifd =? -1 then LAUNCHD_USE_OTHER_FD
    else LAUNCHD_USE_CHECKIN_FD in
  let c := mkLaunch [] 0 [] [] [] which cifd fd in
  (if negb (alloc 1%nat) then None
   else if negb (alloc 2%nat) then None
   else if negb (alloc 3%nat) then None
   else if negb (alloc 4%nat) then None
   else Some c, [fd; cifd]).

Definition LAUNCH_MSG_HEADER_MAGIC : Z := 0xD2FEA02366B39A41.
Definition sizeof_launch_msg_header : Z := 16.
Definition good_enough_size : Z := 10 * 1024 * 1024.

Definition msg_header (len : Z) : list Z :=
  le_bytes 8 LAUNCH_MSG_HEADER_MAGIC ++ le_bytes 8 len.

(** The [errno] values of the message layer; [Other] is any other value left by
    the kernel. *)
Inductive msg_errno := EPERM | ENOMEM | ECONNRESET | ECONNABORTED | EBADRPC | EAGAIN | Other.
#[export] Instance msg_errno_eq_dec : EqDecision msg_errno.
Proof. solve_decision. Defined.

(** ** Sending *)

(** What the system answers to one call: whether the two allocations succeed and
    what the new buffer holds, what [sendmsg] returns (with [errno] when it is -1)
    and whether it leaves [msg_controllen] alone. *)
Record send_env := mkSend {
  sd_alloc_buf : bool;
  sd_alloc_fds : bool;
  sd_fresh : list Z;
  sd_sendmsg : Z;
  sd_errno : msg_errno;
  sd_ctrl_same : bool;
}.

(** The outcome of a call: 0 or an [errno], the connection, the bytes and the
    descriptors the kernel took. *)
Record send_result := mkSent {
  sr_errno : option msg_errno;
  sr_launch : launch;
  sr_wire : list Z;
  sr_fds : list Z;
}.

Definition with_send (l : launch) (buf : list Z) (len : Z) (fds : list Z) : launch :=
  mkLaunch buf len fds (l_recvbuf l) (l_recvfds l) (l_which l) (l_cifd l) (l_fd l).

(** The part after packing: [header] is what precedes the pending bytes. *)
Definition send_pending (e : send_env) (l : launch) (header : list Z) :
    res Empty_set send_result :=
  let body := take (Z.to_nat (l_sendlen l)) (l_sendbuf l) in
  let r := sd_sendmsg e in
  if r =? -1 then Ok (mkSent (Some (sd_errno e)) l [] []) else
  let wire := take (Z.to_nat r) (header ++ body) in
  if r =? 0 then Ok (mkSent (Some ECONNRESET) l [] []) else
  if negb (sd_ctrl_same e) then Ok (mkSent (Some ECONNRESET) l wire (l_sendfds l)) else
  let r := i32 (u64 (r - Z.of_nat (length header))) in
  let sendlen := u64 (l_sendlen l - r) in
  sendbuf ← (if 0 <? sendlen
             then bs ← peek (l_sendbuf l) r (Z.to_nat sendlen); poke (l_sendbuf l) 0 bs
             else Ok []);
  Ok (mkSent (if 0 <? sendlen then Some EAGAIN else None)
             (with_send l sendbuf sendlen []) wire (l_sendfds l)).

(** [launchd_msg_send]; [Err] is the failed assertion. *)
Definition launchd_msg_send (e : send_env) (l : launch) (d : option ldata) :
    res unit send_result :=
  if launchd_getfd l =? -1 then Ok (mkSent (Some EPERM) l [] []) else
  match d with
  | Some d =>
      if negb (l_sendlen l =? 0) then Err tt else
      if negb (sd_alloc_buf e) then Ok (mkSent (Some ENOMEM) (with_send l [] 0 (l_sendfds l)) [] [])
      else if negb (sd_alloc_fds e) then Ok (mkSent (Some ENOMEM) (with_send l [] 0 []) [] [])
      else
        '(sendlen, buf, fds) ← lift_ub (launch_data_pack d (sd_fresh e) 0 good_enough_size (Some []));
        let fds := default [] fds in
        if sendlen =? 0 then Ok (mkSent (Some ENOMEM) (with_send l buf 0 []) [] [])
        else lift_ub (send_pending e (with_send l buf sendlen fds)
                     (msg_header (sendlen + sizeof_launch_msg_header)))
  | None =>
      if l_sendlen l =? 0 then Err tt else lift_ub (send_pending e l [])
  end.

(** ** Receiving *)

Record recv_result := mkRecv {
  rr_errno : option msg_errno;
  rr_launch : launch;
  rr_msgs : list ldata;
}.

Definition with_recv (l : launch) (buf fds : list Z) : launch :=
  mkLaunch (l_sendbuf l) (l_sendlen l) (l_sendfds l) buf fds (l_which l) (l_cifd l) (l_fd l).

(** The loop over the complete messages of [recvbuf]; [closes] tells whether the
    callback closes the connection on a message.  The fuel of [unpack] is one per
    byte. *)
Fixpoint recv_loop (fuel : nat) (closes : ldata → bool) (l : launch) (msgs : list ldata) :
    res Empty_set recv_result :=
  match fuel with
  | O => NoFuel
  | S fuel =>
      let buf := l_recvbuf l in
      let recvlen := Z.of_nat (length buf) in
      if recvlen =? 0 then Ok (mkRecv None l msgs) else
      if recvlen <? sizeof_launch_msg_header then Ok (mkRecv (Some EAGAIN) l msgs) else
      magic ← peek_le buf 0 8;
      tmplen ← peek_le buf 8 8;
      if negb (magic =? LAUNCH_MSG_HEADER_MAGIC) || (tmplen <=? sizeof_launch_msg_header)
      then Ok (mkRecv (Some EBADRPC) l msgs) else
      if recvlen <? tmplen then Ok (mkRecv (Some EAGAIN) l msgs) else
      match launch_data_unpack (S (length buf)) buf (l_recvfds l) sizeof_launch_msg_header 0 with
      | UB => UB
      | NoFuel => NoFuel
      | Err _ => Ok (mkRecv (Some EBADRPC) l msgs)
      | Ok (rmsg, data_offset, fd_offset) =>
          if closes rmsg then Ok (mkRecv None l (msgs ++ [rmsg])) else
          let recvlen := u64 (recvlen - data_offset) in
          buf ← (if 0 <? recvlen then peek buf data_offset (Z.to_nat recvlen) else Ok []);
          recv_loop fuel closes (with_recv l buf (drop (Z.to_nat fd_offset) (l_recvfds l)))
                    (msgs ++ [rmsg])
      end
  end.

(** What [recvmsg] delivers: [None] is -1. *)
Record recv_env := mkRecvEnv {
  rv_bytes : option (list Z);
  rv_errno : msg_errno;
  rv_ctrunc : bool;
  rv_fds : list Z;
}.

Definition launchd_msg_recv (e : recv_env) (closes : ldata → bool) (l : launch) :
    res Empty_set recv_result :=
  if launchd_getfd l =? -1 then Ok (mkRecv (Some EPERM) l []) else
  match rv_bytes e with
  | None => Ok (mkRecv (Some (rv_errno e)) l [])
  | Some [] => Ok (mkRecv (Some ECONNRESET) l [])
  | Some bs =>
      if rv_ctrunc e then Ok (mkRecv (Some ECONNABORTED) l []) else
      let l := with_recv l (l_recvbuf l ++ bs) (l_recvfds l ++ rv_fds e) in
      recv_loop (S (length (l_recvbuf l))) closes l []
  end.

(** ** Bounds and termination of unpacking *)

Lemma ROUND_eq x : ROUND_TO_64BIT_WORD_SIZE x = u64 (x + 7) / 8 * 8.
Proof. apply land_lnot_7. Qed.

Lemma ROUND_bounds x : 0 ≤ x < 2 ^ 63 → x ≤ ROUND_TO_64BIT_WORD_SIZE x < x + 8.
Proof. intros H. rewrite ROUND_eq, u64_small by lia. lia. Qed.

Lemma ROUND_mod x : ROUND_TO_64BIT_WORD_SIZE x mod 8 = 0.
Proof. rewrite ROUND_eq. lia. Qed.

Section UnpackBounds.
Context (data fds : list Z).
Context (Hsize : Z.of_nat (length data) < 2 ^ 62).

(** The children loop, named. *)
Definition unpack_children (fuel : nat) :=
  fix go (n : nat) (off fdoff : Z) : res unpack_error (list (option ldata) * Z * Z) :=
    match n with
    | O => Ok ([], off, fdoff)
    | S n =>
        '(c, off, fdoff) ← launch_data_unpack fuel data fds off fdoff;
        '(l, off, fdoff) ← go n off fdoff;
        Ok (Some c :: l, off, fdoff)
    end.

Context (Hbytes : Forall (fun b => 0 ≤ b < 256) data).

(** What is known of an accepted node: it lies inside the buffer, only the
    padding of its last string or opaque may end after it. *)
Definition unpacked_at {A : Type} (off : Z) (r : A * Z * Z) : Prop :=
  let '(_, off', fdoff') := r in
  off ≤ off' < Z.of_nat (length data) + 8 ∧ 0 ≤ fdoff'.

Lemma children_ensures fuel lo n off fdoff :
  (∀ off fdoff, lo ≤ off → 0 ≤ fdoff →
     ensures (launch_data_unpack fuel data fds off fdoff) (unpacked_at (off + 24))) →
  lo ≤ off < Z.of_nat (length data) + 8 → 0 ≤ fdoff →
  ensures (unpack_children fuel n off fdoff) (unpacked_at off).
Proof.
  intros IH. revert off fdoff. induction n as [|n IHn]; intros off fdoff Ho Hf;
    cbn [unpack_children]; [cbn; lia|].
  eapply ensures_bind; [by apply IH; lia|]. intros [[c o2] f2] [? ?].
  eapply ensures_bind; [apply IHn; lia|]. intros [[l o3] f3] [? ?]. cbn. lia.
Qed.

Lemma unpack_ensures fuel off fdoff :
  0 ≤ off → 0 ≤ fdoff → (Z.to_nat (Z.of_nat (length data) - off) < fuel)%nat →
  ensures (launch_data_unpack fuel data fds off fdoff) (unpacked_at (off + 24)).
Proof.
  revert off fdoff. induction fuel as [|fuel IH]; intros off fdoff Hoff Hfd Hf; [lia|].
  cbn [launch_data_unpack]. fold (unpack_children fuel).
  destruct (Z.ltb_spec (Z.of_nat (length data)) off); [done|].
  destruct (Z.ltb_spec (Z.of_nat (length data) - off) sizeof_launch_data); [done|].
  unfold sizeof_launch_data in *.
  eapply ensures_bind; [apply ensures_peek_le; (lia || done)|]. intros type _. destruct (_ || _).
  { eapply ensures_bind; [apply ensures_peek_le; (lia || done)|]. intros cnt Hc.
    cbn beta in Hc. destruct (_ <? cnt); [done|].
    destruct (Z.ltb_spec (Z.of_nat (length data) - (off + 24)) (cnt * 8)); [done|].
    eapply ensures_bind; [apply (children_ensures fuel (off + 24)); [|lia|done]|].
    - intros o f Ho Hf0. apply IH; lia.
    - intros [[l o2] f2] [? ?]. cbn. lia. }
  destruct (type =? LAUNCH_DATA_STRING).
  { eapply ensures_bind; [apply ensures_peek_le; (lia || done)|]. intros n _.
    pose proof (u64_range (n + 1)).
    destruct (Z.ltb_spec (Z.of_nat (length data) - (off + 24)) (u64 (n + 1))); [done|].
    eapply ensures_bind; [apply ensures_peek; lia|]. intros mem _. cbn.
    pose proof (ROUND_bounds (u64 (n + 1))). rewrite u64_small by lia. lia. }
  destruct (type =? LAUNCH_DATA_OPAQUE).
  { eapply ensures_bind; [apply ensures_peek_le; (lia || done)|]. intros n Hn.
    cbn beta in Hn. destruct (Z.ltb_spec (Z.of_nat (length data) - (off + 24)) n); [done|].
    eapply ensures_bind; [apply ensures_peek; lia|]. intros mem _. cbn.
    pose proof (ROUND_bounds n). rewrite u64_small by lia. lia. }
  eapply ensures_bind; [apply ensures_peek_le; (lia || done)|]. intros v _.
  destruct (type =? LAUNCH_DATA_FD); [|repeat (case_match; [cbn; lia|]); done].
  destruct (_ && _) eqn:Hb; [|cbn; lia]. apply andb_true_iff in Hb as [_ Hb%Z.ltb_lt].
  destruct (lookup_lt_is_Some_2 fds (Z.to_nat fdoff)) as [r ->]; [lia|]. cbn. lia.
Qed.
End UnpackBounds.

(** C23: unpacking is safe on any bytes received: with one step of fuel per byte it
    never reads outside the buffer or the descriptors and always ends, and a node
    that is accepted starts at the given offset and ends inside the buffer, or at
    most seven bytes of padding after it. *)
Theorem launch_data_unpack_safe data fds off :
  Z.of_nat (length data) < 2 ^ 62 → Forall (fun b => 0 ≤ b < 256) data → 0 ≤ off →
  ensures (launch_data_unpack (S (length data)) data fds off 0)
    (fun '(_, off', fdoff') =>
       off + 24 ≤ off' < Z.of_nat (length data) + 8 ∧ 0 ≤ fdoff').
Proof. intros Hs Hb Ho. apply unpack_ensures; lia || done. Qed.

(** ** The wire format

    [wire d bs]: the bytes [bs] represent [d].  The pointer-sized holes of a node
    and of the element table hold anything.  Mach ports have no representation. *)

Inductive wire : ldata → list Z → Prop :=
  | wire_integer n j : - 2 ^ 63 ≤ n < 2 ^ 63 → length j = 8%nat →
      wire (LInteger n) (le_bytes 8 LAUNCH_DATA_INTEGER ++ le_bytes 8 n ++ j)
  | wire_real n j : 0 ≤ n < 2 ^ 64 → length j = 8%nat →
      wire (LReal n) (le_bytes 8 LAUNCH_DATA_REAL ++ le_bytes 8 n ++ j)
  | wire_bool n j : 0 ≤ n < 2 ^ 64 → length j = 8%nat →
      wire (LBool n) (le_bytes 8 LAUNCH_DATA_BOOL ++ le_bytes 8 n ++ j)
  | wire_errno n j : 0 ≤ n < 2 ^ 64 → length j = 8%nat →
      wire (LErrno n) (le_bytes 8 LAUNCH_DATA_ERRNO ++ le_bytes 8 n ++ j)
  | wire_fd fd j : - 1 ≤ fd < 2 ^ 31 → length j = 8%nat →
      wire (LFd fd) (le_bytes 8 LAUNCH_DATA_FD ++ le_bytes 8 fd ++ j)
  | wire_string s j :
      length j = 8%nat → Z.of_nat (length s) < 2 ^ 61 →
      let n1 := Z.of_nat (length s) + 1 in
      wire (LString (Some (s ++ [0])) (Z.of_nat (length s)))
           (le_bytes 8 LAUNCH_DATA_STRING ++ j ++ le_bytes 8 (Z.of_nat (length s)) ++
            (s ++ [0]) ++ replicate (Z.to_nat (ROUND_TO_64BIT_WORD_SIZE n1 - n1)) 0)
  | wire_opaque o j :
      length j = 8%nat → Z.of_nat (length o) < 2 ^ 61 →
      let n := Z.of_nat (length o) in
      wire (LOpaque o)
           (le_bytes 8 LAUNCH_DATA_OPAQUE ++ j ++ le_bytes 8 n ++
            o ++ replicate (Z.to_nat (ROUND_TO_64BIT_WORD_SIZE n - n)) 0)
  | wire_dict l j slots body :
      length j = 8%nat → length slots = (8 * length l)%nat → wires l body →
      wire (LDict l) (le_bytes 8 LAUNCH_DATA_DICTIONARY ++ j ++ le_bytes 8 (Z.of_nat (length l)) ++
                      slots ++ body)
  | wire_array l j slots body :
      length j = 8%nat → length slots = (8 * length l)%nat → wires l body →
      wire (LArray l) (le_bytes 8 LAUNCH_DATA_ARRAY ++ j ++ le_bytes 8 (Z.of_nat (length l)) ++
                       slots ++ body)
with wires : list (option ldata) → list Z → Prop :=
  | wires_nil : wires [] []
  | wires_cons c l bs body : wire c bs → wires l body → wires (Some c :: l) (bs ++ body).

Scheme wire_mut := Induction for wire Sort Prop
  with wires_mut := Induction for wires Sort Prop.
Combined Scheme wire_wires_ind from wire_mut, wires_mut.

(** The descriptors of a value, in the order they are passed. *)
Fixpoint fd_list (d : ldata) : list Z :=
  match d with
  | LFd fd => if fd =? -1 then [] else [fd]
  | LDict l | LArray l =>
      (fix go (l : list (option ldata)) : list Z :=
         match l with
         | [] => []
         | Some c :: l => fd_list c ++ go l
         | None :: l => go l
         end) l
  | _ => []
  end.

Definition fd_lists (l : list (option ldata)) : list Z :=
  concat (map (fun c => match c with Some c => fd_list c | None => [] end) l).

Lemma fd_list_elems l : fd_list (LDict l) = fd_lists l ∧ fd_list (LArray l) = fd_lists l.
Proof.
  cbn. assert (∀ l, (fix go (l : list (option ldata)) : list Z :=
         match l with
         | [] => [] | Some c :: l => fd_list c ++ go l | None :: l => go l
         end) l = fd_lists l) as H; [|by rewrite H].
  clear l. induction l as [|[c|] l IH]; [done| |done].
  unfold fd_lists in *. cbn [map concat]. by rewrite IH.
Qed.

(** *** Reading the format back *)

Lemma peek_slice {E} (a x b : list Z) off :
  off = Z.of_nat (length a) → peek (E := E) (a ++ x ++ b) off (length x) = Ok x.
Proof.
  intros ->. unfold peek. rewrite !length_app, (proj2 (Z.leb_le _ _)), (proj2 (Z.leb_le _ _)) by lia.
  cbn [andb]. by rewrite Nat2Z.id, drop_app_length, take_app_length.
Qed.

Lemma peek_le_slice {E} (a b : list Z) off n v :
  off = Z.of_nat (length a) →
  peek_le (E := E) (a ++ le_bytes n v ++ b) off n = Ok (v mod 256 ^ Z.of_nat n).
Proof.
  intros Ha. unfold peek_le. rewrite <- (length_le_bytes n v) at 2.
  rewrite peek_slice by done. by rewrite bind_Ok, le_val_bytes.
Qed.

Lemma i64_u64 n : - 2 ^ 63 ≤ n < 2 ^ 63 → i64 (n mod 256 ^ Z.of_nat 8) = n.
Proof.
  intros Hn. unfold i64, sext. change (256 ^ Z.of_nat 8) with (2 ^ 64). rewrite Z.mod_mod by lia.
  destruct (Z.ltb_spec (n mod 2 ^ 64) (2 ^ (64 - 1))); lia.
Qed.

Section UnpackNode.
Context (a x y rest fds : list Z) (t : Z) (fuel : nat) (fdoff : Z).
Context (Hx : length x = 8%nat) (Hy : length y = 8%nat).

Definition node_bytes : list Z := a ++ le_bytes 8 t ++ x ++ y ++ rest.

Lemma length_node : length node_bytes = (length a + 24 + length rest)%nat.
Proof. unfold node_bytes. rewrite !length_app, length_le_bytes. lia. Qed.

Lemma node_type : peek_le (E := unpack_error) node_bytes (Z.of_nat (length a)) 8 =
  Ok (t mod 256 ^ Z.of_nat 8).
Proof. by apply peek_le_slice. Qed.

Lemma node_word1 : peek_le (E := unpack_error) node_bytes (Z.of_nat (length a) + 8) 8 =
  Ok (le_val x).
Proof.
  unfold peek_le, node_bytes.
  replace (a ++ le_bytes 8 t ++ x ++ y ++ rest) with ((a ++ le_bytes 8 t) ++ x ++ y ++ rest)
    by by rewrite <- app_assoc.
  pose proof (peek_slice (E := unpack_error) (a ++ le_bytes 8 t) x (y ++ rest)
                (Z.of_nat (length a) + 8)) as Hp.
  rewrite Hx in Hp. rewrite Hp; [done|]. rewrite length_app, length_le_bytes. lia.
Qed.

Lemma node_word2 : peek_le (E := unpack_error) node_bytes (Z.of_nat (length a) + 16) 8 =
  Ok (le_val y).
Proof.
  unfold peek_le, node_bytes.
  replace (a ++ le_bytes 8 t ++ x ++ y ++ rest) with ((a ++ le_bytes 8 t ++ x) ++ y ++ rest)
    by by rewrite <- !app_assoc.
  pose proof (peek_slice (E := unpack_error) (a ++ le_bytes 8 t ++ x) y rest
                (Z.of_nat (length a) + 16)) as Hp.
  rewrite Hy in Hp. rewrite Hp; [done|]. rewrite !length_app, length_le_bytes. lia.
Qed.

Lemma node_body bs r :
  rest = bs ++ r →
  peek (E := unpack_error) node_bytes (Z.of_nat (length a) + 24) (length bs) = Ok bs.
Proof.
  intros Hrest. unfold node_bytes. rewrite Hrest.
  replace (a ++ le_bytes 8 t ++ x ++ y ++ bs ++ r)
    with ((a ++ le_bytes 8 t ++ x ++ y) ++ bs ++ r) by by rewrite <- !app_assoc.
  apply peek_slice. rewrite !length_app, length_le_bytes. lia.
Qed.

(** The first tests of [launch_data_unpack] pass on a whole node. *)
Lemma node_fits : (Z.of_nat (length node_bytes) <? Z.of_nat (length a)) = false ∧
  (Z.of_nat (length node_bytes) - Z.of_nat (length a) <? sizeof_launch_data) = false.
Proof. rewrite length_node. unfold sizeof_launch_data. split; apply Z.ltb_ge; lia. Qed.
End UnpackNode.

(** Unfolding of one call on a node of a known type. *)
Ltac unpack_node :=
  match goal with
  | |- context [launch_data_unpack (S _) (node_bytes ?a ?x ?y ?rest ?t)] =>
      cbn [launch_data_unpack];
      destruct (node_fits a x y rest t ltac:(done) ltac:(done)) as [-> ->];
      rewrite (node_type a x y rest t), bind_Ok, (Z.mod_small t) by done
  end.

Lemma unpack_scalar fuel a x j b fds fdoff t :
  length x = 8%nat → length j = 8%nat → In t [4; 5; 6; 9] →
  launch_data_unpack (S fuel) (node_bytes a x j b t) fds (Z.of_nat (length a)) fdoff =
  Ok ((if t =? 4 then LInteger (i64 (le_val x)) else if t =? 5 then LReal (le_val x)
       else if t =? 6 then LBool (le_val x) else LErrno (le_val x)),
      Z.of_nat (length a) + 24, fdoff).
Proof.
  intros Hx Hj Ht. pose proof (node_word1 a x j b t Hx) as Hw.
  destruct Ht as [<-|[<-|[<-|[<-|[]]]]]; unpack_node; cbn [Z.eqb Pos.eqb orb LAUNCH_DATA_DICTIONARY
    LAUNCH_DATA_ARRAY LAUNCH_DATA_STRING LAUNCH_DATA_OPAQUE LAUNCH_DATA_FD LAUNCH_DATA_INTEGER
    LAUNCH_DATA_REAL LAUNCH_DATA_BOOL LAUNCH_DATA_ERRNO]; by rewrite Hw, bind_Ok.
Qed.

Lemma unpack_fd fuel a j b fds fdoff fd rest :
  length j = 8%nat → -1 ≤ fd < 2 ^ 31 → 0 ≤ fdoff →
  drop (Z.to_nat fdoff) fds = fd_list (LFd fd) ++ rest →
  launch_data_unpack (S fuel) (node_bytes a (le_bytes 8 fd) j b LAUNCH_DATA_FD) fds
    (Z.of_nat (length a)) fdoff =
  Ok (LFd fd, Z.of_nat (length a) + 24, fdoff + Z.of_nat (length (fd_list (LFd fd)))).
Proof.
  intros Hj Hfd Hf Hd. pose proof (length_le_bytes 8 fd) as Hx.
  pose proof (node_word1 a (le_bytes 8 fd) j b LAUNCH_DATA_FD Hx) as Hw. unpack_node.
  cbn [Z.eqb Pos.eqb orb LAUNCH_DATA_DICTIONARY LAUNCH_DATA_ARRAY LAUNCH_DATA_STRING
    LAUNCH_DATA_OPAQUE LAUNCH_DATA_FD].
  rewrite Hw, bind_Ok, le_val_bytes, i64_u64 by lia. cbn [fd_list] in Hd |- *.
  destruct (Z.eqb_spec fd (-1)) as [->|Hne]; cbn [negb andb length].
  - unfold sizeof_launch_data. by rewrite Z.add_0_r.
  - assert (fds !! Z.to_nat fdoff = Some fd) as Hl.
    { rewrite <- (Nat.add_0_r (Z.to_nat fdoff)), <- lookup_drop, Hd. done. }
    pose proof (lookup_lt_Some _ _ _ Hl). rewrite (proj2 (Z.ltb_lt _ _)) by lia.
    rewrite Hl. cbn [access]. rewrite bind_Ok. done.
Qed.

(** A string or opaque node: the data follows, padded. *)
Lemma unpack_bytes fuel a j bs pad b fds fdoff n :
  length j = 8%nat → Z.of_nat (length bs) < 2 ^ 62 →
  Z.of_nat (length a + 24 + length (bs ++ pad ++ b)) < 2 ^ 62 →
  (n = Z.of_nat (length bs) - 1 ∧ 0 ≤ n →
   launch_data_unpack (S fuel) (node_bytes a j (le_bytes 8 n) (bs ++ pad ++ b) LAUNCH_DATA_STRING)
     fds (Z.of_nat (length a)) fdoff =
   Ok (LString (Some bs) n,
       Z.of_nat (length a) + 24 + ROUND_TO_64BIT_WORD_SIZE (Z.of_nat (length bs)), fdoff)) ∧
  (n = Z.of_nat (length bs) →
   launch_data_unpack (S fuel) (node_bytes a j (le_bytes 8 n) (bs ++ pad ++ b) LAUNCH_DATA_OPAQUE)
     fds (Z.of_nat (length a)) fdoff =
   Ok (LOpaque bs,
       Z.of_nat (length a) + 24 + ROUND_TO_64BIT_WORD_SIZE (Z.of_nat (length bs)), fdoff)).
Proof.
  intros Hj Hbs Hlen. pose proof (length_le_bytes 8 n) as Hy.
  rewrite length_app in Hlen.
  pose proof (ROUND_bounds (Z.of_nat (length bs))) as Hr.
  assert (∀ t, Z.of_nat (length (node_bytes a j (le_bytes 8 n) (bs ++ pad ++ b) t)) -
    (Z.of_nat (length a) + 24) <? Z.of_nat (length bs) = false) as Hfit.
  { intros t. rewrite length_node, length_app by done. apply Z.ltb_ge. lia. }
  split; [intros [-> H0]|intros ->];
    [pose proof (node_word2 a j (le_bytes 8 (Z.of_nat (length bs) - 1)) (bs ++ pad ++ b)
                   LAUNCH_DATA_STRING Hj Hy) as Hw
    |pose proof (node_word2 a j (le_bytes 8 (Z.of_nat (length bs))) (bs ++ pad ++ b)
                   LAUNCH_DATA_OPAQUE Hj Hy) as Hw];
    rewrite le_val_bytes_small in Hw by (change (256 ^ Z.of_nat 8) with (2 ^ 64); lia);
    unpack_node; cbn [Z.eqb Pos.eqb orb LAUNCH_DATA_DICTIONARY LAUNCH_DATA_ARRAY
      LAUNCH_DATA_STRING LAUNCH_DATA_OPAQUE]; rewrite Hw, bind_Ok;
    unfold sizeof_launch_data; rewrite ?Z.sub_add, ?(u64_small (Z.of_nat (length bs))) by lia;
    rewrite Hfit, Nat2Z.id; erewrite node_body by done; rewrite bind_Ok, u64_small by lia; done.
Qed.

Lemma wire_size :
  (∀ d bs, wire d bs → (24 ≤ length bs)%nat) ∧
  (∀ l body, wires l body → (24 * length l ≤ length body)%nat).
Proof.
  apply wire_wires_ind; intros; rewrite ?length_app, ?length_le_bytes; cbn [length]; lia.
Qed.

(** An array or dictionary node, given its children. *)
Lemma unpack_elems fuel a j slots body b fds fdoff l off' fdoff' (dict : bool) :
  let t := if dict then LAUNCH_DATA_DICTIONARY else LAUNCH_DATA_ARRAY in
  length j = 8%nat → length slots = (8 * length l)%nat →
  let data := node_bytes a j (le_bytes 8 (Z.of_nat (length l))) (slots ++ body ++ b) t in
  Z.of_nat (length data) < 2 ^ 62 →
  unpack_children data fds fuel (length l)
    (Z.of_nat (length (a ++ le_bytes 8 t ++ j ++ le_bytes 8 (Z.of_nat (length l)) ++ slots)))
    fdoff = Ok (l, off', fdoff') →
  launch_data_unpack (S fuel) data fds (Z.of_nat (length a)) fdoff =
    Ok (if dict then LDict l else LArray l, off', fdoff').
Proof.
  intros t Hj Hs data Hlen Hch. pose proof (length_le_bytes 8 (Z.of_nat (length l))) as Hy.
  assert (Z.of_nat (length data) = Z.of_nat (length a) + 24 + 8 * Z.of_nat (length l) +
            Z.of_nat (length (body ++ b))) as Hl.
  { subst data. rewrite length_node, length_app, Hs by done. lia. }
  pose proof (node_word2 a j (le_bytes 8 (Z.of_nat (length l))) (slots ++ body ++ b) t Hj Hy) as Hw.
  rewrite le_val_bytes_small in Hw by (change (256 ^ Z.of_nat 8) with (2 ^ 64); lia).
  fold data in Hw. rewrite !length_app, !length_le_bytes, Hj, Hs in Hch.
  assert (launch_data_unpack (S fuel) data fds (Z.of_nat (length a)) fdoff =
    '(l, off, fdoff) ← unpack_children data fds fuel (length l)
       (Z.of_nat (length a) + 24 + Z.of_nat (length l) * 8) fdoff;
    Ok (if dict then LDict l else LArray l, off, fdoff)) as ->.
  { subst data t. destruct dict; unpack_node; cbn [Z.eqb Pos.eqb orb LAUNCH_DATA_DICTIONARY
      LAUNCH_DATA_ARRAY] in *; rewrite Hw, bind_Ok, Nat2Z.id; unfold sizeof_launch_data;
      rewrite (proj2 (Z.ltb_ge ((2 ^ 64 - 1) / 8) _)) by lia;
      rewrite (proj2 (Z.ltb_ge _ (Z.of_nat (length l) * 8))) by lia; reflexivity. }
  replace (Z.of_nat (length a) + 24 + Z.of_nat (length l) * 8)
    with (Z.of_nat (length a + (8 + (8 + (8 + 8 * length l))))) by lia.
  by rewrite Hch, bind_Ok.
Qed.

Lemma unpack_elems_wire (dict : bool) l j slots body :
  length j = 8%nat → length slots = (8 * length l)%nat →
  (∀ fuel a b fds fdoff rest,
     Z.of_nat (length (a ++ body ++ b)) < 2 ^ 62 → (length body < fuel)%nat → 0 ≤ fdoff →
     drop (Z.to_nat fdoff) fds = fd_lists l ++ rest →
     unpack_children (a ++ body ++ b) fds fuel (length l) (Z.of_nat (length a)) fdoff =
       Ok (l, Z.of_nat (length (a ++ body)), fdoff + Z.of_nat (length (fd_lists l)))) →
  ∀ fuel a b fds fdoff rest,
  let d := if dict then LDict l else LArray l in
  let bs := le_bytes 8 (if dict then LAUNCH_DATA_DICTIONARY else LAUNCH_DATA_ARRAY) ++ j ++
            le_bytes 8 (Z.of_nat (length l)) ++ slots ++ body in
  Z.of_nat (length (a ++ bs ++ b)) < 2 ^ 62 → (length bs < S fuel)%nat → 0 ≤ fdoff →
  drop (Z.to_nat fdoff) fds = fd_list d ++ rest →
  launch_data_unpack (S fuel) (a ++ bs ++ b) fds (Z.of_nat (length a)) fdoff =
    Ok (d, Z.of_nat (length (a ++ bs)), fdoff + Z.of_nat (length (fd_list d))).
Proof.
  intros Hj Hs IH fuel a b fds fdoff rest d bs Hlen Hf Hfd Hd.
  assert (fd_list d = fd_lists l) as Hfl by (subst d; destruct dict; apply fd_list_elems).
  rewrite Hfl in *.
  set (t := if dict then LAUNCH_DATA_DICTIONARY else LAUNCH_DATA_ARRAY) in *.
  set (cnt := le_bytes 8 (Z.of_nat (length l))) in *.
  assert (a ++ bs ++ b = node_bytes a j cnt (slots ++ body ++ b) t) as Hb.
  { subst bs. unfold node_bytes. by rewrite <- !app_assoc. }
  assert (a ++ bs ++ b = (a ++ le_bytes 8 t ++ j ++ cnt ++ slots) ++ body ++ b) as Hb2.
  { subst bs. by rewrite <- !app_assoc. }
  rewrite Hb. rewrite Hb in Hlen. apply unpack_elems; [done|done|exact Hlen|].
  change (unpack_children (node_bytes a j cnt (slots ++ body ++ b) t) fds fuel (length l)
    (Z.of_nat (length (a ++ le_bytes 8 t ++ j ++ cnt ++ slots))) fdoff =
    Ok (l, Z.of_nat (length (a ++ bs)), fdoff + Z.of_nat (length (fd_lists l)))).
  rewrite <- Hb in Hlen |- *. rewrite Hb2. rewrite (IH fuel _ b fds fdoff rest); [|by rewrite <- Hb2| |done|done].
  - do 3 f_equal. subst bs. by rewrite <- !app_assoc.
  - subst bs. rewrite !length_app, length_le_bytes in Hf. lia.
Qed.

(** Equality of results that differ in their offsets. *)
Ltac triple_lia :=
  apply (f_equal Ok), (f_equal2 pair); [apply (f_equal2 pair); [reflexivity|lia]|lia].

(** Every representation of a value unpacks to it, wherever it lies. *)
Lemma unpack_wire_mut :
  (∀ d bs, wire d bs → ∀ fuel a b fds fdoff rest,
     Z.of_nat (length (a ++ bs ++ b)) < 2 ^ 62 → (length bs < fuel)%nat → 0 ≤ fdoff →
     drop (Z.to_nat fdoff) fds = fd_list d ++ rest →
     launch_data_unpack fuel (a ++ bs ++ b) fds (Z.of_nat (length a)) fdoff =
       Ok (d, Z.of_nat (length (a ++ bs)), fdoff + Z.of_nat (length (fd_list d)))) ∧
  (∀ l body, wires l body → ∀ fuel a b fds fdoff rest,
     Z.of_nat (length (a ++ body ++ b)) < 2 ^ 62 → (length body < fuel)%nat → 0 ≤ fdoff →
     drop (Z.to_nat fdoff) fds = fd_lists l ++ rest →
     unpack_children (a ++ body ++ b) fds fuel (length l) (Z.of_nat (length a)) fdoff =
       Ok (l, Z.of_nat (length (a ++ body)), fdoff + Z.of_nat (length (fd_lists l)))).
Proof.
  assert (∀ t x y r b a : list Z, a ++ (t ++ x ++ y ++ r) ++ b = a ++ t ++ x ++ y ++ (r ++ b))
    as Hassoc by (intros; by rewrite <- !app_assoc).
  assert (∀ t x y b a : list Z, a ++ (t ++ x ++ y) ++ b = a ++ t ++ x ++ y ++ b)
    as Hassoc3 by (intros; by rewrite <- !app_assoc).
  apply wire_wires_ind.
  1-4: intros n j Hn Hj [|fuel] a b fds fdoff rest Hlen Hf Hfd Hd; [lia|];
    rewrite Hassoc3, length_app, !length_app, !length_le_bytes, Hj;
    fold (node_bytes a (le_bytes 8 n) j b LAUNCH_DATA_INTEGER)
         (node_bytes a (le_bytes 8 n) j b LAUNCH_DATA_REAL)
         (node_bytes a (le_bytes 8 n) j b LAUNCH_DATA_BOOL)
         (node_bytes a (le_bytes 8 n) j b LAUNCH_DATA_ERRNO);
    rewrite unpack_scalar by (rewrite ?length_le_bytes; done || (cbn; tauto));
    rewrite le_val_bytes, ?i64_u64, ?Z.mod_small
      by (done || (change (256 ^ Z.of_nat 8) with (2 ^ 64); lia)); cbn [fd_list length];
    triple_lia.
  - intros fd j Hn Hj [|fuel] a b fds fdoff rest Hlen Hf Hfd Hd; [lia|].
    rewrite Hassoc3. fold (node_bytes a (le_bytes 8 fd) j b LAUNCH_DATA_FD).
    rewrite (unpack_fd _ _ _ _ _ _ _ rest) by done. rewrite !length_app, !length_le_bytes, Hj.
    triple_lia.
  - intros s j Hj Hs n1 [|fuel] a b fds fdoff rest Hlen Hf Hfd Hd; [lia|].
    pose proof (ROUND_bounds n1). rewrite Hassoc, <- (app_assoc (s ++ [0])) in *.
    edestruct (unpack_bytes fuel a j (s ++ [0])
      (replicate (Z.to_nat (ROUND_TO_64BIT_WORD_SIZE n1 - n1)) 0) b fds fdoff) as [Hu _];
      [exact Hj|rewrite length_app; cbn; lia| |].
    { rewrite !length_app, !length_le_bytes, Hj in Hlen. rewrite !length_app. lia. }
    unfold node_bytes in Hu. rewrite Hu by (rewrite length_app; cbn; lia).
    rewrite !length_app, !length_le_bytes, length_replicate, Hj. cbn [fd_list length].
    replace (Z.of_nat (length s + 1)) with n1 by lia. triple_lia.
  - intros o j Hj Hs n [|fuel] a b fds fdoff rest Hlen Hf Hfd Hd; [lia|].
    pose proof (ROUND_bounds n). rewrite Hassoc, <- (app_assoc o) in *.
    edestruct (unpack_bytes fuel a j o
      (replicate (Z.to_nat (ROUND_TO_64BIT_WORD_SIZE n - n)) 0) b fds fdoff) as [_ Hu];
      [exact Hj|lia| |].
    { rewrite !length_app, !length_le_bytes, Hj in Hlen. rewrite !length_app. lia. }
    unfold node_bytes in Hu. rewrite Hu by done.
    rewrite !length_app, !length_le_bytes, length_replicate, Hj. cbn [fd_list length].
    fold n. triple_lia.
  - intros l j slots body Hj Hs _ IH [|fuel] a b fds fdoff rest Hlen Hf Hfd Hd; [lia|].
    exact (unpack_elems_wire true l j slots body Hj Hs IH fuel a b fds fdoff rest Hlen Hf Hfd Hd).
  - intros l j slots body Hj Hs _ IH [|fuel] a b fds fdoff rest Hlen Hf Hfd Hd; [lia|].
    exact (unpack_elems_wire false l j slots body Hj Hs IH fuel a b fds fdoff rest Hlen Hf Hfd Hd).
  - intros fuel a b fds fdoff rest _ _ _ _. cbn. rewrite app_nil_r. triple_lia.
  - intros c l bs body _ IHc _ IHl fuel a b fds fdoff rest Hlen Hf Hfd Hd.
    change (fd_lists (Some c :: l)) with (fd_list c ++ fd_lists l) in *.
    rewrite <- app_assoc in *. cbn [length unpack_children].
    rewrite !length_app in Hf.
    rewrite (IHc fuel a (body ++ b) fds fdoff (fd_lists l ++ rest)), bind_Ok
      by (done || lia || by rewrite <- app_assoc in Hd).
    replace (a ++ bs ++ body ++ b) with ((a ++ bs) ++ body ++ b) in * by by rewrite <- app_assoc.
    fold (unpack_children ((a ++ bs) ++ body ++ b) fds fuel).
    rewrite (IHl fuel (a ++ bs) b fds _ rest), bind_Ok; [|done|lia|lia|].
    + rewrite !length_app. triple_lia.
    + replace (Z.to_nat (fdoff + Z.of_nat (length (fd_list c))))
        with (Z.to_nat fdoff + length (fd_list c))%nat by lia.
      by rewrite <- drop_drop, Hd, drop_app_length.
Qed.

(** *** Writing the format *)

(** [packable d sz]: a value the wire format represents, in [sz] bytes. *)
Inductive packable : ldata → nat → Prop :=
  | pk_integer n : - 2 ^ 63 ≤ n < 2 ^ 63 → packable (LInteger n) 24
  | pk_real n : 0 ≤ n < 2 ^ 64 → packable (LReal n) 24
  | pk_bool n : 0 ≤ n < 2 ^ 64 → packable (LBool n) 24
  | pk_errno n : 0 ≤ n < 2 ^ 64 → packable (LErrno n) 24
  | pk_fd fd : - 1 ≤ fd < 2 ^ 31 → packable (LFd fd) 24
  | pk_string s : Z.of_nat (length s) < 2 ^ 61 →
      packable (LString (Some (s ++ [0])) (Z.of_nat (length s)))
               (24 + Z.to_nat (ROUND_TO_64BIT_WORD_SIZE (Z.of_nat (length s) + 1)))
  | pk_opaque o : Z.of_nat (length o) < 2 ^ 61 →
      packable (LOpaque o) (24 + Z.to_nat (ROUND_TO_64BIT_WORD_SIZE (Z.of_nat (length o))))
  | pk_dict l sz : packables l sz → packable (LDict l) (24 + 8 * length l + sz)
  | pk_array l sz : packables l sz → packable (LArray l) (24 + 8 * length l + sz)
with packables : list (option ldata) → nat → Prop :=
  | pks_nil : packables [] 0
  | pks_cons c l sz szs : packable c sz → packables l szs → packables (Some c :: l) (sz + szs).

Scheme packable_mut := Induction for packable Sort Prop
  with packables_mut := Induction for packables Sort Prop.
Combined Scheme packable_packables_ind from packable_mut, packables_mut.

(** The loop over the children, named. *)
Definition pack_children (len : Z) :=
  fix go (l : list (option ldata)) (buf : list Z) (w node : Z) (fds : option (list Z)) :
      res Empty_set (Z * list Z * option (list Z)) :=
    match l with
    | [] => Ok (node, buf, fds)
    | None :: _ => UB
    | Some c :: l =>
        '(rsz, buf, fds) ← launch_data_pack c buf w (u64 (len - node)) fds;
        if rsz =? 0 then Ok (0, buf, fds)
        else go l buf (w + rsz) (u64 (node + rsz)) fds
    end.

Definition add_fds (fds : option (list Z)) (l : list Z) : option (list Z) :=
  (fun f => f ++ l) <$> fds.

Definition fds_room (fds : option (list Z)) (l : list Z) : Prop :=
  match fds with Some f => (length f + length l ≤ fd_slots)%nat | None => True end.

Lemma pack_fd_room fds fd :
  -1 ≤ fd < 2 ^ 31 → fds_room fds (fd_list (LFd fd)) →
  pack_fd fds fd = Ok (add_fds fds (fd_list (LFd fd))).
Proof.
  intros Hfd. unfold pack_fd, add_fds. destruct fds as [f|]; [|done]. cbn [fds_room fd_list].
  destruct (Z.eqb_spec fd (-1)); cbn [length]; intros Hr.
  - cbn. by rewrite app_nil_r.
  - rewrite (proj2 (Nat.ltb_lt _ _)) by lia. by rewrite i32_small by lia.
Qed.

(** Splitting the room for a node off the rest of the buffer. *)
Lemma split_room (c : list Z) n : (n ≤ length c)%nat → c = take n c ++ drop n c.
Proof. intros. by rewrite take_drop. Qed.

(** A store into the next bytes of the node being written. *)
Lemma poke_next {E} (a x y b : list Z) off :
  off = Z.of_nat (length a) → length x = length y →
  poke (E := E) (a ++ x ++ b) off y = Ok (a ++ y ++ b).
Proof.
  intros -> Hl. rewrite poke_app by (rewrite length_app; lia).
  by rewrite <- Hl, drop_app_length.
Qed.

Lemma pack_bytes_spec a x bs b padded :
  Z.of_nat (length x) = padded → Z.of_nat (length bs) ≤ padded < 2 ^ 62 →
  pack_bytes (a ++ x ++ b) (Z.of_nat (length a)) bs padded =
    Ok (a ++ (bs ++ replicate (Z.to_nat (padded - Z.of_nat (length bs))) 0) ++ b).
Proof.
  intros Hx Hb. unfold pack_bytes.
  rewrite (split_room x (length bs)) at 1 by lia. rewrite <- app_assoc.
  rewrite poke_next, bind_Ok by (rewrite ?length_take; lia).
  rewrite u64_small by lia.
  replace (a ++ bs ++ drop (length bs) x ++ b) with ((a ++ bs) ++ drop (length bs) x ++ b)
    by by rewrite <- app_assoc.
  rewrite poke_next.
  - by rewrite <- !app_assoc.
  - rewrite length_app. lia.
  - rewrite length_drop, length_replicate. lia.
Qed.

(** The 24 bytes of a node in the buffer. *)
Lemma node_room (c : list Z) :
  (24 ≤ length c)%nat →
  ∃ t x y r, c = t ++ x ++ y ++ r ∧ length t = 8%nat ∧ length x = 8%nat ∧ length y = 8%nat ∧
             drop 24 c = r ∧ (length c = 24 + length r)%nat.
Proof.
  intros H. exists (take 8 c), (take 8 (drop 8 c)), (take 8 (drop 16 c)), (drop 24 c).
  rewrite !length_take, !length_drop. split_and!; try lia; try done.
  rewrite <- (take_drop 8 c) at 1. f_equal. rewrite <- (take_drop 8 (drop 8 c)) at 1.
  rewrite drop_drop. f_equal. rewrite <- (take_drop 8 (drop (8 + 8) c)) at 1. by rewrite drop_drop.
Qed.

Lemma poke_le_next {E} (a x b : list Z) off v :
  off = Z.of_nat (length a) → length x = 8%nat →
  poke_le (E := E) (a ++ x ++ b) off 8 v = Ok (a ++ le_bytes 8 v ++ b).
Proof. intros Ha Hx. apply poke_next; [done|]. by rewrite length_le_bytes. Qed.

(** The type of a node and one of its two words. *)
Lemma pack_word1 (a t x b : list Z) v w :
  length t = 8%nat → length x = 8%nat →
  (buf ← poke_le (E := Empty_set) (a ++ t ++ x ++ b) (Z.of_nat (length a)) 8 v;
   poke_le buf (Z.of_nat (length a) + 8) 8 w) = Ok (a ++ le_bytes 8 v ++ le_bytes 8 w ++ b).
Proof.
  intros Ht Hx. rewrite poke_le_next, bind_Ok by done.
  replace (a ++ le_bytes 8 v ++ x ++ b) with ((a ++ le_bytes 8 v) ++ x ++ b)
    by by rewrite <- app_assoc.
  rewrite poke_le_next; [by rewrite <- app_assoc| |done].
  rewrite length_app, length_le_bytes. lia.
Qed.

Lemma pack_word2 (a t x y b : list Z) v w :
  length t = 8%nat → length x = 8%nat → length y = 8%nat →
  (buf ← poke_le (E := Empty_set) (a ++ t ++ x ++ y ++ b) (Z.of_nat (length a)) 8 v;
   poke_le buf (Z.of_nat (length a) + 16) 8 w) =
  Ok (a ++ le_bytes 8 v ++ x ++ le_bytes 8 w ++ b).
Proof.
  intros Ht Hx Hy. rewrite poke_le_next, bind_Ok by done.
  replace (a ++ le_bytes 8 v ++ x ++ y ++ b) with ((a ++ le_bytes 8 v ++ x) ++ y ++ b)
    by by rewrite <- !app_assoc.
  rewrite poke_le_next; [by rewrite <- !app_assoc| |done].
  rewrite !length_app, length_le_bytes. lia.
Qed.

Definition packs (d : ldata) (sz : nat) : Prop :=
  ∀ a c len fds,
    Z.of_nat sz ≤ len ≤ Z.of_nat (length c) → len < 2 ^ 62 → fds_room fds (fd_list d) →
    ∃ bs, wire d bs ∧ length bs = sz ∧
          launch_data_pack d (a ++ c) (Z.of_nat (length a)) len fds =
            Ok (Z.of_nat sz, a ++ bs ++ drop sz c, add_fds fds (fd_list d)).

Lemma bind_bind_Ok {E A B C} (m : res E A) (f : A → res E B) (b : B) (g : B → res E C) :
  mbind f m = Ok b → (x ← m; y ← f x; g y) = g b.
Proof. destruct m; cbn; try done. by intros ->. Qed.

Lemma add_fds_nil fds : add_fds fds [] = fds.
Proof. destruct fds; cbn; [by rewrite app_nil_r|done]. Qed.

(** The scalar nodes. *)
Lemma packs_scalar d n :
  (∀ a c len fds, 24 ≤ len → launch_data_pack d (a ++ c) (Z.of_nat (length a)) len fds =
     (buf ← poke_le (a ++ c) (Z.of_nat (length a)) 8 (launch_data_get_type d);
      buf ← poke_le buf (Z.of_nat (length a) + 8) 8 n; Ok (24, buf, fds))) →
  (∀ j, length j = 8%nat →
        wire d (le_bytes 8 (launch_data_get_type d) ++ le_bytes 8 n ++ j)) →
  fd_list d = [] → packs d 24.
Proof.
  intros Hp Hw Hfd a c len fds Hlen _ _.
  destruct (node_room c) as (t & x & y & r & -> & Ht & Hx & Hy & Hd & _); [lia|].
  exists (le_bytes 8 (launch_data_get_type d) ++ le_bytes 8 n ++ y). rewrite Hd, Hfd, add_fds_nil.
  split; [by apply Hw|]. rewrite !length_app, !length_le_bytes, Hy. split; [done|].
  rewrite Hp by lia. rewrite (bind_bind_Ok _ _ _ _ (pack_word1 a t x (y ++ r) _ _ Ht Hx)).
  by rewrite <- !app_assoc.
Qed.

(** The nodes followed by bytes. *)
Lemma packs_bytes d t n bs :
  let sz := ROUND_TO_64BIT_WORD_SIZE (Z.of_nat (length bs)) in
  Z.of_nat (length bs) ≤ 2 ^ 61 →
  (∀ a c len fds, 24 + sz ≤ len < 2 ^ 62 →
     launch_data_pack d (a ++ c) (Z.of_nat (length a)) len fds =
     (buf ← poke_le (a ++ c) (Z.of_nat (length a)) 8 t;
      buf ← poke_le buf (Z.of_nat (length a) + 16) 8 n;
      buf ← pack_bytes buf (Z.of_nat (length a) + 24) bs sz; Ok (24 + sz, buf, fds))) →
  (∀ j, length j = 8%nat →
     wire d (le_bytes 8 t ++ j ++ le_bytes 8 n ++ bs ++
             replicate (Z.to_nat (sz - Z.of_nat (length bs))) 0)) →
  fd_list d = [] → packs d (24 + Z.to_nat sz).
Proof.
  intros sz Hbs Hp Hw Hfd a c len fds Hlen Hlen2 _.
  pose proof (ROUND_bounds (Z.of_nat (length bs))) as Hr. fold sz in Hr.
  destruct (node_room c) as (t0 & x & y & r & -> & Ht & Hx & Hy & Hd & Hl); [lia|].
  exists (le_bytes 8 t ++ x ++ le_bytes 8 n ++ bs ++
          replicate (Z.to_nat (sz - Z.of_nat (length bs))) 0).
  split; [by apply Hw|]. rewrite !length_app, !length_le_bytes, length_replicate, Hx.
  split; [lia|]. rewrite Hfd, add_fds_nil, Hp by lia.
  rewrite (bind_bind_Ok _ _ _ _ (pack_word2 a t0 x y r _ _ Ht Hx Hy)).
  rewrite <- drop_drop, Hd. rewrite (split_room r (Z.to_nat sz)) at 1 by lia.
  replace (a ++ le_bytes 8 t ++ x ++ le_bytes 8 n ++ take (Z.to_nat sz) r ++ drop (Z.to_nat sz) r)
    with ((a ++ le_bytes 8 t ++ x ++ le_bytes 8 n) ++ take (Z.to_nat sz) r ++ drop (Z.to_nat sz) r)
    by by rewrite <- !app_assoc.
  replace (Z.of_nat (length a) + 24)
    with (Z.of_nat (length (a ++ le_bytes 8 t ++ x ++ le_bytes 8 n)))
    by (rewrite !length_app, !length_le_bytes; lia).
  rewrite pack_bytes_spec, bind_Ok by (rewrite ?length_take; lia).
  rewrite <- !app_assoc. apply (f_equal Ok), (f_equal2 pair); [|done].
  apply (f_equal2 pair); [lia|done].
Qed.

Definition packs_all (l : list (option ldata)) (sz : nat) : Prop :=
  ∀ a c len node fds,
    0 ≤ node → node + Z.of_nat sz ≤ len → len - node ≤ Z.of_nat (length c) → len < 2 ^ 62 →
    fds_room fds (fd_lists l) →
    ∃ body, wires l body ∧ length body = sz ∧
            pack_children len l (a ++ c) (Z.of_nat (length a)) node fds =
              Ok (node + Z.of_nat sz, a ++ body ++ drop sz c, add_fds fds (fd_lists l)).

Lemma add_fds_app fds l1 l2 : add_fds (add_fds fds l1) l2 = add_fds fds (l1 ++ l2).
Proof. destruct fds; cbn; [by rewrite <- app_assoc|done]. Qed.

Lemma packs_all_cons c l sz szs :
  (1 ≤ sz)%nat → packs c sz → packs_all l szs → packs_all (Some c :: l) (sz + szs).
Proof.
  intros Hsz Hc Hl a r len node fds Hn Hlen Hroom Hmax Hfds.
  change (fd_lists (Some c :: l)) with (fd_list c ++ fd_lists l) in *.
  assert (fds_room fds (fd_list c) ∧ fds_room (add_fds fds (fd_list c)) (fd_lists l)) as [Hf1 Hf2].
  { destruct fds as [f|]; cbn in *; [|done]. rewrite !length_app in *. lia. }
  destruct (Hc a r (len - node) fds) as (bs & Hw & Hbl & Hp); [lia|lia|done|].
  destruct (Hl (a ++ bs) (drop sz r) len (node + Z.of_nat sz) (add_fds fds (fd_list c)))
    as (body & Hws & Hbody & Hps); [lia|lia|rewrite length_drop; lia|done|done|].
  exists (bs ++ body). split; [by constructor|]. rewrite length_app, Hbl, Hbody. split; [done|].
  cbn [pack_children]. rewrite u64_small by lia. rewrite Hp, bind_Ok.
  rewrite (proj2 (Z.eqb_neq _ _)) by lia. fold (pack_children len).
  rewrite u64_small by lia.
  replace (Z.of_nat (length a) + Z.of_nat sz) with (Z.of_nat (length (a ++ bs)))
    by (rewrite length_app; lia).
  rewrite app_assoc, Hps, add_fds_app, drop_drop, <- !app_assoc.
  apply (f_equal Ok), (f_equal2 pair); [|done]. apply (f_equal2 pair); [lia|done].
Qed.

Lemma packs_elems (dict : bool) l sz :
  packs_all l sz → packs (if dict then LDict l else LArray l) (24 + 8 * length l + sz).
Proof.
  intros Hl a c len fds Hlen Hmax Hfds.
  set (d := if dict then LDict l else LArray l) in *.
  assert (fd_list d = fd_lists l) as Hfd by (subst d; destruct dict; apply fd_list_elems).
  rewrite Hfd in *.
  destruct (node_room c) as (t & x & y & r & -> & Ht & Hx & Hy & Hd & Hlc); [lia|].
  set (n := Z.of_nat (length l)) in *.
  set (hd := a ++ le_bytes 8 (launch_data_get_type d) ++ x ++ le_bytes 8 n).
  assert (length hd = length a + 24)%nat as Hhd
    by (subst hd; rewrite !length_app, !length_le_bytes; lia).
  destruct (Hl (hd ++ take (8 * length l) r) (drop (8 * length l) r) len (24 + n * 8) fds)
    as (body & Hws & Hbody & Hp); [lia|lia|rewrite length_drop; lia|done|done|].
  exists (le_bytes 8 (launch_data_get_type d) ++ x ++ le_bytes 8 n ++ take (8 * length l) r ++ body).
  split.
  { subst d. destruct dict; constructor; try done; rewrite length_take; lia. }
  rewrite !length_app, !length_le_bytes, length_take. split; [lia|].
  assert (launch_data_pack d (a ++ t ++ x ++ y ++ r) (Z.of_nat (length a)) len fds =
    (buf ← poke_le (a ++ t ++ x ++ y ++ r) (Z.of_nat (length a)) 8 (launch_data_get_type d);
     buf ← poke_le buf (Z.of_nat (length a) + 16) 8 n;
     pack_children len l buf (Z.of_nat (length a) + 24 + n * 8) (24 + n * 8) fds)) as ->.
  { subst d. destruct dict; cbn [launch_data_pack]; fold (pack_children len);
      unfold sizeof_launch_data; rewrite (proj2 (Z.ltb_ge len 24)) by lia; fold n;
      rewrite (u64_small (24 + n * 8)) by lia;
      rewrite (proj2 (Z.ltb_ge len (24 + n * 8))) by lia; reflexivity. }
  rewrite (bind_bind_Ok _ _ _ _ (pack_word2 a t x y r _ _ Ht Hx Hy)).
  rewrite (split_room r (8 * length l)) at 1 by lia.
  replace (a ++ le_bytes 8 (launch_data_get_type d) ++ x ++ le_bytes 8 n ++
           take (8 * length l) r ++ drop (8 * length l) r)
    with ((hd ++ take (8 * length l) r) ++ drop (8 * length l) r)
    by (subst hd; by rewrite <- !app_assoc).
  replace (Z.of_nat (length a) + 24 + n * 8) with (Z.of_nat (length (hd ++ take (8 * length l) r)))
    by (rewrite length_app, length_take; lia).
  rewrite Hp. subst hd. rewrite <- !app_assoc.
  apply (f_equal Ok), (f_equal2 pair); [|done]. apply (f_equal2 pair); [lia|].
  do 6 f_equal. rewrite drop_drop.
  replace (24 + 8 * length l + sz)%nat with (24 + (8 * length l + sz))%nat by lia.
  by rewrite <- (drop_drop _ _ 24), Hd.
Qed.

Lemma pack_wire : (∀ d sz, packable d sz → packs d sz) ∧ (∀ l sz, packables l sz → packs_all l sz).
Proof.
  assert (∀ d sz, packable d sz → (1 ≤ sz)%nat) as Hpos.
  { intros d sz H. destruct H; lia. }
  apply packable_packables_ind.
  1-4: intros n Hn; apply (packs_scalar _ n); [|by intros; constructor|done];
    intros a c len fds Hlen; cbn [launch_data_pack]; unfold sizeof_launch_data;
    by rewrite (proj2 (Z.ltb_ge len 24)) by lia.
  - intros fd Hfd a c len fds Hlen _ Hroom.
    destruct (node_room c) as (t & x & y & r & -> & Ht & Hx & Hy & Hd & _); [lia|].
    exists (le_bytes 8 LAUNCH_DATA_FD ++ le_bytes 8 fd ++ y). rewrite Hd.
    split; [by constructor|]. rewrite !length_app, !length_le_bytes, Hy. split; [done|].
    cbn [launch_data_pack]. unfold sizeof_launch_data. rewrite (proj2 (Z.ltb_ge len 24)) by lia.
    rewrite (bind_bind_Ok _ _ _ _ (pack_word1 a t x (y ++ r) _ _ Ht Hx)).
    rewrite pack_fd_room, bind_Ok by done. by rewrite <- !app_assoc.
  - intros s Hs. pose proof (length_app s [0]) as Hl. cbn [length] in Hl.
    replace (Z.of_nat (length s) + 1) with (Z.of_nat (length (s ++ [0]))) by lia.
    pose proof (ROUND_bounds (Z.of_nat (length (s ++ [0])))) as Hr.
    apply (packs_bytes _ LAUNCH_DATA_STRING (Z.of_nat (length s)) (s ++ [0])); [lia| | |done].
    + intros a c len fds Hlen. cbn [launch_data_pack launch_data_get_type].
      unfold sizeof_launch_data.
      rewrite (u64_small (Z.of_nat (length s) + 1)) by lia.
      replace (Z.of_nat (length s) + 1) with (Z.of_nat (length (s ++ [0]))) by lia.
      rewrite (u64_small (24 + _)) by lia.
      rewrite !(proj2 (Z.ltb_ge len _)) by lia.
      rewrite Nat2Z.id.
      pose proof (peek_slice (E := Empty_set) [] (s ++ [0]) [] 0 eq_refl) as Hp.
      cbn [app] in Hp. rewrite app_nil_r in Hp.
      cbn [access]. apply bind_ext; [done|]. intros b1 _. apply bind_ext; [done|]. intros b2 _.
      by rewrite bind_Ok, Hp, bind_Ok.
    + intros j Hj. rewrite Hl, Nat2Z.inj_add. by apply wire_string.
  - intros o Hs. pose proof (ROUND_bounds (Z.of_nat (length o))) as Hr.
    apply (packs_bytes _ LAUNCH_DATA_OPAQUE (Z.of_nat (length o)) o); [lia| | |done].
    + intros a c len fds Hlen. cbn [launch_data_pack launch_data_get_type].
      unfold sizeof_launch_data. rewrite (u64_small (24 + _)) by lia.
      by rewrite !(proj2 (Z.ltb_ge len _)) by lia.
    + intros j Hj. by apply wire_opaque.
  - intros l sz _ Hl. exact (packs_elems true l sz Hl).
  - intros l sz _ Hl. exact (packs_elems false l sz Hl).
  - intros a c len node fds _ _ _ _ _. exists []. split; [constructor|]. split; [done|].
    cbn. rewrite Z.add_0_r, add_fds_nil. by rewrite drop_0.
  - intros c l sz szs Hc IHc _ IHl. apply packs_all_cons; [by eapply Hpos|done|done].
Qed.

(** C22: packing and unpacking are inverse.  A value the format represents, packed
    into any buffer with room for it, takes exactly its wire size, leaves the rest of
    the buffer alone, appends its descriptors in order, and unpacks from there (with
    those descriptors) to itself. *)
Theorem pack_unpack_roundtrip d sz a c len fds :
  packable d sz → Z.of_nat sz ≤ len ≤ Z.of_nat (length c) →
  Z.of_nat (length (a ++ c)) < 2 ^ 62 → fds_room fds (fd_list d) →
  ∃ bs, length bs = sz ∧
        launch_data_pack d (a ++ c) (Z.of_nat (length a)) len fds =
          Ok (Z.of_nat sz, a ++ bs ++ drop sz c, add_fds fds (fd_list d)) ∧
        launch_data_unpack (S sz) (a ++ bs ++ drop sz c) (fd_list d) (Z.of_nat (length a)) 0 =
          Ok (d, Z.of_nat (length (a ++ bs)), Z.of_nat (length (fd_list d))).
Proof.
  intros Hp Hlen Hmax Hfds. rewrite length_app in Hmax.
  destruct (proj1 pack_wire d sz Hp a c len fds) as (bs & Hw & Hl & Hpk); [done|lia|done|].
  exists bs. split_and!; try done.
  rewrite (proj1 unpack_wire_mut d bs Hw (S sz) a (drop sz c) (fd_list d) 0 []); try done.
  - rewrite !length_app, length_drop. lia.
  - lia.
  - by rewrite drop_0, app_nil_r.
Qed.

(** ** Sending *)

(** The bytes that remain to be sent. *)
Definition pending (l : launch) : list Z := take (Z.to_nat (l_sendlen l)) (l_sendbuf l).

(** One [sendmsg] that takes the header and some of the body. *)
Lemma send_pending_spec e l header :
  0 ≤ l_sendlen l ≤ Z.of_nat (length (l_sendbuf l)) → Z.of_nat (length (l_sendbuf l)) < 2 ^ 30 →
  Z.of_nat (length header) ≤ sd_sendmsg e → 0 < sd_sendmsg e →
  sd_sendmsg e ≤ Z.of_nat (length header) + l_sendlen l → Z.of_nat (length header) < 2 ^ 30 →
  sd_ctrl_same e = true →
  ∃ l', send_pending e l header =
          Ok (mkSent (if sd_sendmsg e =? Z.of_nat (length header) + l_sendlen l
                      then None else Some EAGAIN) l'
                     (take (Z.to_nat (sd_sendmsg e)) (header ++ pending l)) (l_sendfds l)) ∧
        pending l' = drop (Z.to_nat (sd_sendmsg e)) (header ++ pending l) ∧
        l_sendlen l' = Z.of_nat (length (pending l')) ∧
        l_sendlen l' ≤ Z.of_nat (length (l_sendbuf l')) < 2 ^ 30 ∧
        l_sendfds l' = [] ∧ launchd_getfd l' = launchd_getfd l.
Proof.
  intros Hlen Hbuf Hr Hr0 Hr1 Hh Hc. unfold send_pending. fold (pending l).
  set (r := sd_sendmsg e) in *. set (h := Z.of_nat (length header)) in *.
  rewrite (proj2 (Z.eqb_neq r (-1))), (proj2 (Z.eqb_neq r 0)), Hc by lia. cbn [negb].
  rewrite (u64_small (r - h)), i32_small by lia. rewrite (u64_small (l_sendlen l - (r - h))) by lia.
  assert (length (pending l) = Z.to_nat (l_sendlen l)) as Hp
    by (unfold pending; rewrite length_take; lia).
  assert (drop (Z.to_nat r) (header ++ pending l) = drop (Z.to_nat (r - h)) (pending l)) as Hdrop.
  { replace (Z.to_nat r) with (length header + Z.to_nat (r - h))%nat by lia.
    by rewrite drop_app_add. }
  rewrite Hdrop. destruct (Z.ltb_spec 0 (l_sendlen l - (r - h))) as [Hpos|Hzero].
  - rewrite (proj2 (Z.eqb_neq r _)) by lia. unfold peek.
    rewrite (proj2 (Z.leb_le 0 (r - h))), (proj2 (Z.leb_le _ (Z.of_nat (length (l_sendbuf l))))) by lia.
    cbn [andb]. rewrite bind_Ok.
    set (bs := take _ (drop (Z.to_nat (r - h)) (l_sendbuf l))).
    assert (length bs = Z.to_nat (l_sendlen l - (r - h))) as Hbs
      by (subst bs; rewrite length_take, length_drop; lia).
    assert (bs = drop (Z.to_nat (r - h)) (pending l)) as Hbs2.
    { subst bs. unfold pending. rewrite skipn_firstn_comm. f_equal. lia. }
    pose proof (poke_app (E := Empty_set) [] (l_sendbuf l) bs) as P. cbn [app length] in P.
    change (Z.of_nat 0) with 0 in P. rewrite P, bind_Ok by lia.
    eexists. split; [done|]. unfold pending at 1 3. cbn [with_send l_sendlen l_sendbuf l_sendfds].
    rewrite <- Hbs, take_app_length, length_app, length_drop. split_and!; try done; lia.
  - rewrite (proj2 (Z.eqb_eq r _)) by lia. rewrite bind_Ok. eexists. split; [done|].
    unfold pending at 1 3. cbn [with_send l_sendlen l_sendbuf l_sendfds length].
    rewrite drop_ge by lia. rewrite take_nil. split_and!; try done; cbn; lia.
Qed.

Lemma length_msg_header n : length (msg_header n) = 16%nat.
Proof. reflexivity. Qed.

(** What a new message looks like once it is packed. *)
Lemma msg_send_new e l d sz :
  launchd_getfd l ≠ -1 → l_sendlen l = 0 → sd_alloc_buf e = true → sd_alloc_fds e = true →
  Z.of_nat (length (sd_fresh e)) = good_enough_size →
  packable d sz → Z.of_nat sz ≤ good_enough_size → (length (fd_list d) ≤ fd_slots)%nat →
  ∃ bs, wire d bs ∧ length bs = sz ∧
        launchd_msg_send e l (Some d) =
          lift_ub (send_pending e
            (with_send l (bs ++ drop sz (sd_fresh e)) (Z.of_nat sz) (fd_list d))
            (msg_header (Z.of_nat sz + 16))).
Proof.
  intros Hfd Hs Ha1 Ha2 Hbuf Hp Hsz Hfds.
  destruct (proj1 pack_wire d sz Hp [] (sd_fresh e) good_enough_size (Some []))
    as (bs & Hw & Hl & Hpk); [lia|done|done|].
  exists bs. split_and!; try done. unfold launchd_msg_send.
  rewrite (proj2 (Z.eqb_neq _ _) Hfd), Hs, Ha1, Ha2. cbn [Z.eqb negb].
  cbn [app length] in Hpk. change (Z.of_nat 0) with 0 in Hpk. rewrite Hpk. cbn [lift_ub].
  rewrite bind_Ok. cbn [add_fds fmap option_fmap option_map app default].
  assert (24 ≤ sz)%nat by (rewrite <- Hl; by eapply wire_size).
  rewrite (proj2 (Z.eqb_neq (Z.of_nat sz) 0)) by lia. done.
Qed.

(** A message is put on the wire as its header followed by its packed bytes,
    whole or in pieces: as long as the first [sendmsg] takes at least the header,
    what was sent and what is pending make up header and body, the descriptors go
    with the first piece, the result is 0 exactly when nothing is pending and
    EAGAIN otherwise, and a retry without data continues where the last one
    stopped. *)
Theorem msg_send_stream e l d sz :
  launchd_getfd l ≠ -1 → l_sendlen l = 0 → sd_alloc_buf e = true → sd_alloc_fds e = true →
  Z.of_nat (length (sd_fresh e)) = good_enough_size →
  packable d sz → Z.of_nat sz ≤ good_enough_size → (length (fd_list d) ≤ fd_slots)%nat →
  16 ≤ sd_sendmsg e ≤ 16 + Z.of_nat sz → sd_ctrl_same e = true →
  ∃ bs r1, wire d bs ∧ launchd_msg_send e l (Some d) = Ok r1 ∧
    sr_wire r1 ++ pending (sr_launch r1) = msg_header (Z.of_nat sz + 16) ++ bs ∧
    sr_fds r1 = fd_list d ∧
    sr_errno r1 = (if bool_decide (pending (sr_launch r1) = []) then None else Some EAGAIN) ∧
    (∀ e2, 0 < sd_sendmsg e2 ≤ Z.of_nat (length (pending (sr_launch r1))) →
           sd_ctrl_same e2 = true →
       ∃ r2, launchd_msg_send e2 (sr_launch r1) None = Ok r2 ∧ sr_fds r2 = [] ∧
             sr_wire r2 ++ pending (sr_launch r2) = pending (sr_launch r1)).
Proof.
  intros Hfd Hs Ha1 Ha2 Hbuf Hp Hsz Hfds Hr Hc.
  destruct (msg_send_new e l d sz) as (bs & Hw & Hl & ->); [done..|].
  exists bs. unfold good_enough_size in *.
  destruct (send_pending_spec e (with_send l (bs ++ drop sz (sd_fresh e)) (Z.of_nat sz) (fd_list d))
              (msg_header (Z.of_nat sz + 16))) as (l' & -> & Hpend & Hlen & Hle & Hf & Hg);
    try done; rewrite ?length_msg_header; cbn [with_send l_sendlen l_sendbuf];
    try (rewrite length_app, length_drop; lia); try lia.
  assert (pending (with_send l (bs ++ drop sz (sd_fresh e)) (Z.of_nat sz) (fd_list d)) = bs) as Hb.
  { unfold pending. cbn. rewrite Nat2Z.id, <- Hl. apply take_app_length. }
  rewrite Hb in *. eexists. split; [done|]. split; [done|].
  cbn [sr_wire sr_launch sr_fds sr_errno]. split; [by rewrite Hpend, take_drop|]. split; [done|].
  assert (length (pending l') = (16 + sz - Z.to_nat (sd_sendmsg e))%nat) as Hpl
    by (rewrite Hpend, length_drop, length_app, length_msg_header; lia).
  split.
  - cbn [with_send l_sendlen]. case_bool_decide as Hd.
    + rewrite Hd in Hpl. cbn in Hpl. by rewrite (proj2 (Z.eqb_eq _ _)) by lia.
    + rewrite (proj2 (Z.eqb_neq _ _)); [done|]. intros He. apply Hd, length_zero_iff_nil. lia.
  - intros e2 H2 Hc2.
    destruct (send_pending_spec e2 l' []) as (l2 & E2 & Hp2 & _); try done; cbn [length]; try lia.
    exists (mkSent (if sd_sendmsg e2 =? Z.of_nat (length (@nil Z)) + l_sendlen l' then None
                    else Some EAGAIN) l2 (take (Z.to_nat (sd_sendmsg e2)) ([] ++ pending l'))
                   (l_sendfds l')).
    split_and!.
    + assert (launchd_getfd l' ≠ -1) as Hfd' by (by rewrite Hg).
      unfold launchd_msg_send. rewrite (proj2 (Z.eqb_neq _ _) Hfd').
      rewrite (proj2 (Z.eqb_neq (l_sendlen l') 0)) by lia. by rewrite E2.
    + done.
    + cbn [sr_wire sr_launch]. by rewrite Hp2, take_drop.
Qed.

(** Two ways a message is damaged.  When the socket is full at the first
    attempt (EAGAIN), the retry [launch_msg_internal] makes sends the packed bytes
    without the header and reports success.  When the first [sendmsg] takes only
    part of the header, the count of sent bytes goes negative and the buffer is
    moved from before its start. *)
Theorem msg_send_header_lost e l d sz :
  launchd_getfd l ≠ -1 → l_sendlen l = 0 → sd_alloc_buf e = true → sd_alloc_fds e = true →
  Z.of_nat (length (sd_fresh e)) = good_enough_size →
  packable d sz → Z.of_nat sz ≤ good_enough_size → (length (fd_list d) ≤ fd_slots)%nat →
  (sd_sendmsg e = -1 → sd_errno e = EAGAIN →
     ∃ l1 bs, wire d bs ∧
       launchd_msg_send e l (Some d) = Ok (mkSent (Some EAGAIN) l1 [] []) ∧
       ∀ e2, sd_sendmsg e2 = Z.of_nat sz → sd_ctrl_same e2 = true →
         ∃ l2, launchd_msg_send e2 l1 None = Ok (mkSent None l2 bs (fd_list d))) ∧
  (0 < sd_sendmsg e < 16 → sd_ctrl_same e = true → launchd_msg_send e l (Some d) = UB).
Proof.
  intros Hfd Hs Ha1 Ha2 Hbuf Hp Hsz Hfds.
  destruct (msg_send_new e l d sz) as (bs & Hw & Hl & ->); [done..|].
  unfold good_enough_size in *. set (l1 := with_send _ _ _ _).
  assert (24 ≤ sz)%nat by (rewrite <- Hl; by eapply wire_size).
  assert (pending l1 = bs) as Hb.
  { unfold pending. cbn. rewrite Nat2Z.id, <- Hl. apply take_app_length. }
  split.
  - intros Hr He. exists l1, bs. split; [done|].
    split; [unfold send_pending; rewrite Hr; cbn [Z.eqb Pos.eqb lift_ub]; by rewrite He|].
    intros e2 H2 Hc2.
    assert (launchd_getfd l1 ≠ -1) as Hfd' by exact Hfd.
    assert (l_sendlen l1 = Z.of_nat sz ∧ l_sendfds l1 = fd_list d) as [Hl1 Hf1] by done.
    assert (Z.of_nat (length (l_sendbuf l1)) = Z.of_nat (length (sd_fresh e))) as Hb1
      by (subst l1; cbn [with_send l_sendbuf]; rewrite length_app, length_drop; lia).
    clearbody l1.
    destruct (send_pending_spec e2 l1 []) as (l2 & E2 & _); try done; cbn [length]; try lia.
    exists l2. unfold launchd_msg_send.
    rewrite (proj2 (Z.eqb_neq _ _) Hfd'), (proj2 (Z.eqb_neq _ 0)) by lia.
    rewrite E2, Hb, Hf1. cbn [lift_ub length app].
    rewrite (proj2 (Z.eqb_eq _ _)) by lia. by rewrite H2, Nat2Z.id, <- Hl, firstn_all.
  - intros Hr Hc. unfold send_pending. rewrite length_msg_header.
    rewrite (proj2 (Z.eqb_neq _ (-1))), (proj2 (Z.eqb_neq _ 0)), Hc by lia. cbn [negb].
    assert (i32 (u64 (sd_sendmsg e - Z.of_nat 16)) = sd_sendmsg e - 16) as ->.
    { unfold i32, sext, u64. change (Z.of_nat 16) with 16.
      destruct (Z.ltb_spec (((sd_sendmsg e - 16) mod 2 ^ 64) mod 2 ^ 32) (2 ^ (32 - 1))); lia. }
    subst l1. cbn [with_send l_sendlen l_sendbuf]. rewrite u64_small by lia.
    rewrite (proj2 (Z.ltb_lt 0 _)) by lia. unfold peek.
    by rewrite (proj2 (Z.leb_gt 0 (sd_sendmsg e - 16))) by lia.
Qed.

(** ** Receiving *)

(** A message on the wire: header and body. *)
Definition frame (d : ldata) (bs : list Z) : Prop :=
  ∃ body, wire d body ∧ bs = msg_header (16 + Z.of_nat (length body)) ++ body.

(** Bytes that do not yet hold a message. *)
Definition incomplete (p : list Z) : Prop :=
  (length p < 16)%nat ∨
  ∃ n r, p = msg_header n ++ r ∧ 16 < n < 2 ^ 64 ∧ Z.of_nat (length p) < n.

Lemma header_words n r :
  0 ≤ n < 2 ^ 64 →
  peek_le (E := Empty_set) (msg_header n ++ r) 0 8 = Ok LAUNCH_MSG_HEADER_MAGIC ∧
  peek_le (E := Empty_set) (msg_header n ++ r) 8 8 = Ok n.
Proof.
  intros Hn. unfold msg_header. rewrite <- app_assoc. split.
  - pose proof (peek_le_slice (E := Empty_set) [] (le_bytes 8 n ++ r) 0 8 LAUNCH_MSG_HEADER_MAGIC
                  eq_refl) as Hp. exact Hp.
  - rewrite (peek_le_slice (le_bytes 8 LAUNCH_MSG_HEADER_MAGIC)) by done.
    by rewrite Z.mod_small by done.
Qed.

Lemma recv_incomplete fuel closes l msgs :
  incomplete (l_recvbuf l) →
  recv_loop (S fuel) closes l msgs =
    Ok (mkRecv (if bool_decide (l_recvbuf l = []) then None else Some EAGAIN) l msgs).
Proof.
  intros Hi. cbn [recv_loop]. unfold sizeof_launch_msg_header.
  destruct (Z.eqb_spec (Z.of_nat (length (l_recvbuf l))) 0) as [H0|H0].
  { rewrite bool_decide_true; [done|]. apply length_zero_iff_nil. lia. }
  rewrite bool_decide_false by (intros He; by rewrite He in H0).
  destruct Hi as [Hs|(n & r & Hb & Hn & Hl)]; [by rewrite (proj2 (Z.ltb_lt _ _)) by lia|].
  assert (16 ≤ length (l_recvbuf l))%nat by (rewrite Hb, length_app, length_msg_header; lia).
  rewrite (proj2 (Z.ltb_ge _ 16)) by lia.
  destruct (header_words n r) as [H1 H2]; [lia|]. rewrite <- Hb in H1, H2.
  rewrite H1, bind_Ok, H2, bind_Ok, Z.eqb_refl, (proj2 (Z.leb_gt _ _)) by lia. cbn [negb orb].
  by rewrite (proj2 (Z.ltb_lt _ n)) by done.
Qed.

(** One complete message at the head of the buffer. *)
Lemma recv_one fuel closes l msgs d bs rest rfds :
  frame d bs → l_recvbuf l = bs ++ rest → l_recvfds l = fd_list d ++ rfds →
  Z.of_nat (length (bs ++ rest)) < 2 ^ 62 → closes d = false →
  recv_loop (S fuel) closes l msgs =
    recv_loop fuel closes (with_recv l rest rfds) (msgs ++ [d]).
Proof.
  intros (body & Hw & ->) Hbuf Hfds Hmax Hc. cbn [recv_loop]. rewrite Hbuf, Hfds.
  pose proof (proj1 wire_size _ _ Hw) as Hsz. unfold sizeof_launch_msg_header.
  set (n := 16 + Z.of_nat (length body)). rewrite <- app_assoc in *.
  rewrite !length_app, length_msg_header in *.
  rewrite (proj2 (Z.eqb_neq _ 0)), (proj2 (Z.ltb_ge _ 16)) by lia.
  destruct (header_words n (body ++ rest)) as [-> ->]; [lia|]. rewrite !bind_Ok.
  rewrite Z.eqb_refl, (proj2 (Z.leb_gt n 16)), (proj2 (Z.ltb_ge _ n)) by lia. cbn [negb orb].
  pose proof (proj1 unpack_wire_mut d body Hw (S (16 + (length body + length rest)))
    (msg_header n) rest (fd_list d ++ rfds) 0 rfds) as Hu.
  rewrite length_msg_header in Hu. change (Z.of_nat 16) with 16 in Hu.
  rewrite Hu; [|rewrite !length_app, length_msg_header; lia|lia|done|by rewrite drop_0].
  rewrite Hc, length_app, length_msg_header, Z.add_0_l, Nat2Z.id, drop_app_length.
  rewrite u64_small by lia.
  replace (Z.of_nat (16 + (length body + length rest)) - Z.of_nat (16 + length body))
    with (Z.of_nat (length rest)) by lia.
  destruct (Z.ltb_spec 0 (Z.of_nat (length rest))) as [Hpos|Hzero].
  - rewrite Nat2Z.id.
    pose proof (peek_slice (E := Empty_set) (msg_header n ++ body) rest []
      (Z.of_nat (16 + length body))) as Hp.
    rewrite app_nil_r, <- app_assoc in Hp. rewrite Hp, bind_Ok; [done|].
    rewrite length_app, length_msg_header. lia.
  - rewrite bind_Ok. destruct rest; [done|]. cbn in Hzero. lia.
Qed.

Inductive frames : list ldata → list Z → Prop :=
  | frames_nil : frames [] []
  | frames_cons d ds bs rest : frame d bs → frames ds rest → frames (d :: ds) (bs ++ rest).

Definition fd_all (ds : list ldata) : list Z := concat (map fd_list ds).

Lemma frames_length ds bs : frames ds bs → (length ds ≤ length bs)%nat.
Proof.
  induction 1 as [|d ds bs rest (body & _ & ->) _ IH]; [done|].
  rewrite !length_app, length_msg_header. cbn [length]. lia.
Qed.

Lemma recv_frames closes ds bs p rfds : frames ds bs → incomplete p →
  Forall (fun d => closes d = false) ds →
  ∀ fuel l msgs, l_recvbuf l = bs ++ p → l_recvfds l = fd_all ds ++ rfds →
  Z.of_nat (length (bs ++ p)) < 2 ^ 62 → (length ds < fuel)%nat →
  recv_loop fuel closes l msgs =
    Ok (mkRecv (if bool_decide (p = []) then None else Some EAGAIN)
               (with_recv l p rfds) (msgs ++ ds)).
Proof.
  intros Hf Hp. induction Hf as [|d ds bs rest Hd _ IH]; intros Hcl [|fuel] l msgs Hb Hfd Hmax Hfuel;
    cbn [length] in Hfuel; try lia.
  - cbn [app fd_all map concat] in *. rewrite recv_incomplete by (by rewrite Hb).
    rewrite Hb, app_nil_r. destruct l; cbn in *; subst; reflexivity.
  - apply Forall_cons in Hcl as [Hc Hcl]. rewrite <- app_assoc in Hb, Hmax.
    unfold fd_all in Hfd. cbn [map concat] in Hfd. rewrite <- app_assoc in Hfd.
    rewrite (recv_one fuel closes l msgs d bs (rest ++ p) (fd_all ds ++ rfds)) by done.
    rewrite IH; [by rewrite <- app_assoc|done|done|done| |lia].
    rewrite length_app in Hmax. lia.
Qed.

(** The bytes of whole messages and of an incomplete one. *)
Lemma recv_stream e closes l got ds bs p rfds :
  launchd_getfd l ≠ -1 → rv_bytes e = Some got → got ≠ [] → rv_ctrunc e = false →
  l_recvbuf l ++ got = bs ++ p → l_recvfds l ++ rv_fds e = fd_all ds ++ rfds →
  frames ds bs → incomplete p → Z.of_nat (length (bs ++ p)) < 2 ^ 62 →
  Forall (fun d => closes d = false) ds →
  launchd_msg_recv e closes l =
    Ok (mkRecv (if bool_decide (p = []) then None else Some EAGAIN) (with_recv l p rfds) ds).
Proof.
  intros Hfd Hgot Hne Hct Hbuf Hfds Hf Hp Hmax Hc. unfold launchd_msg_recv.
  rewrite (proj2 (Z.eqb_neq _ _) Hfd), Hgot, Hct. destruct got as [|g got]; [done|].
  cbn [with_recv l_recvbuf]. rewrite Hbuf, Hfds.
  rewrite (recv_frames closes ds bs p rfds); try done.
  apply frames_length in Hf. rewrite length_app. lia.
Qed.

(** Receiving reassembles the stream.  Whatever pieces the socket delivers,
    when the bytes kept from earlier calls and those just read are a sequence of
    messages followed by an incomplete one, the callback sees exactly those
    messages in order, each with its own descriptors; the incomplete tail and the
    remaining descriptors are kept for the next call, and the result is EAGAIN
    exactly when there is a tail. *)
Theorem msg_recv_stream e closes l got ds bs p rfds :
  launchd_getfd l ≠ -1 → rv_bytes e = Some got → got ≠ [] → rv_ctrunc e = false →
  l_recvbuf l ++ got = bs ++ p → l_recvfds l ++ rv_fds e = fd_all ds ++ rfds →
  frames ds bs → incomplete p → Z.of_nat (length (bs ++ p)) < 2 ^ 62 →
  Forall (fun d => closes d = false) ds →
  launchd_msg_recv e closes l =
    Ok (mkRecv (if bool_decide (p = []) then None else Some EAGAIN) (with_recv l p rfds) ds).
Proof. apply recv_stream. Qed.

(** ** Malformed messages *)

Lemma peek_UB {E} m off n :
  Z.of_nat (length m) < off + Z.of_nat n → peek (E := E) m off n = UB.
Proof.
  intros H. unfold peek. rewrite (proj2 (Z.leb_gt _ (Z.of_nat (length m)))) by lia.
  by rewrite andb_false_r.
Qed.

(** An empty string at the very end of the bytes, without its padding. *)
Definition unpadded_frame : list Z :=
  msg_header 41 ++ le_bytes 8 LAUNCH_DATA_STRING ++ le_bytes 16 0 ++ [0].

(** A dictionary with one element, which is a key. *)
Definition odd_dictionary : list Z :=
  le_bytes 8 LAUNCH_DATA_DICTIONARY ++ le_bytes 8 0 ++ le_bytes 8 1 ++ le_bytes 8 0 ++
  le_bytes 8 LAUNCH_DATA_STRING ++ le_bytes 16 0 ++ le_bytes 8 0.

(** What the receiver does not check.  A message whose last string is not
    padded is accepted, and the length left over wraps around below zero, so the
    buffer is read far beyond its end.  A dictionary with an odd number of elements
    is accepted, and a lookup or removal of its last key, or an iteration, reads
    beyond its array. *)
Theorem msg_recv_malformed closes l e :
  launchd_getfd l ≠ -1 → l_recvbuf l = [] → rv_bytes e = Some unpadded_frame →
  rv_ctrunc e = false → closes (LString (Some [0]) 0) = false →
  launchd_msg_recv e closes l = UB ∧
  ∃ d off, launch_data_unpack (S (length odd_dictionary)) odd_dictionary [] 0 0 = Ok (d, off, 0) ∧
    launch_data_dict_lookup d [] = UB ∧ launch_data_dict_remove d [] = UB ∧
    launch_data_dict_iterate d = UB.
Proof.
  intros Hfd Hb Hrv Hct Hc. split.
  - unfold launchd_msg_recv. rewrite (proj2 (Z.eqb_neq _ _) Hfd), Hrv, Hct.
    change (match unpadded_frame with [] => ?x | _ :: _ => ?y end) with y.
    cbn [with_recv l_recvbuf]. rewrite Hb. cbn [app recv_loop with_recv l_recvbuf l_recvfds].
    assert (launch_data_unpack (S (length unpadded_frame)) unpadded_frame
              (l_recvfds l ++ rv_fds e) sizeof_launch_msg_header 0 =
            Ok (LString (Some [0]) 0, 48, 0)) as -> by reflexivity.
    rewrite Hc. change (u64 (Z.of_nat (length unpadded_frame) - 48)) with (2 ^ 64 - 7).
    rewrite peek_UB by (change (Z.of_nat (length unpadded_frame)) with 41; lia). reflexivity.
  - eexists _, _. split; [reflexivity|]. done.
Qed.

(** ** Witnesses *)

Definition example_msg : ldata :=
  LDict [Some (launch_data_new_string [76]); Some (LFd 5)].

Lemma example_msg_packable : packable example_msg 96.
Proof.
  apply (pk_dict [Some (launch_data_new_string [76]); Some (LFd 5)] 56). apply (pks_cons _ _ 32 24).
  - apply (pk_string [76]). cbn. lia.
  - apply (pks_cons _ _ 24 0); [constructor; lia|constructor].
Qed.

Definition example_launch : launch :=
  default (mkLaunch [] 0 [] [] [] LAUNCHD_USE_OTHER_FD 0 0) (launchd_fdopen (fun _ => true) 3 (-1)).1.
Definition example_send (r : Z) : send_env :=
  mkSend true true (replicate (Z.to_nat good_enough_size) 0) r EAGAIN true.

Lemma example_send_fresh r : Z.of_nat (length (sd_fresh (example_send r))) = good_enough_size.
Proof. cbn [example_send sd_fresh]. rewrite length_replicate. unfold good_enough_size. lia. Qed.

Lemma launch_data_unpack_safe_witness :
  ensures (launch_data_unpack (S (length unpadded_frame)) unpadded_frame [] 16 0)
    (fun '(_, off', fdoff') =>
       16 + 24 ≤ off' < Z.of_nat (length unpadded_frame) + 8 ∧ 0 ≤ fdoff').
Proof.
  apply (launch_data_unpack_safe unpadded_frame [] 16).
  - cbn. lia.
  - apply (bool_decide_unpack _). vm_compute. reflexivity.
  - lia.
Defined.

Lemma pack_unpack_roundtrip_witness :
  ∃ bs, length bs = 96%nat ∧
    launch_data_unpack 97 (bs ++ drop 96 (replicate 100 0)) [5] 0 0 = Ok (example_msg, 96, 1).
Proof.
  destruct (pack_unpack_roundtrip example_msg 96 [] (replicate 100 0) 100 (Some []))
    as (bs & H1 & _ & H2).
  - exact example_msg_packable.
  - done.
  - done.
  - apply Nat.leb_le. reflexivity.
  - exists bs. split; [exact H1|].
    change (Z.of_nat (length ([] ++ bs))) with (Z.of_nat (length bs)) in H2.
    rewrite H1 in H2. exact H2.
Defined.

Lemma msg_send_stream_witness :
  ∃ bs r1, wire example_msg bs ∧
    launchd_msg_send (example_send 20) example_launch (Some example_msg) = Ok r1 ∧
    sr_fds r1 = [5].
Proof.
  destruct (msg_send_stream (example_send 20) example_launch example_msg 96)
    as (bs & r1 & H1 & H2 & _ & H3 & _).
  - done.
  - reflexivity.
  - reflexivity.
  - reflexivity.
  - apply example_send_fresh.
  - exact example_msg_packable.
  - done.
  - apply Nat.leb_le. reflexivity.
  - cbn. lia.
  - reflexivity.
  - exists bs, r1. split; [exact H1|]. split; [exact H2|exact H3].
Defined.

Lemma msg_send_header_lost_witness :
  ∃ l1 bs, wire example_msg bs ∧
    launchd_msg_send (example_send (-1)) example_launch (Some example_msg) =
      Ok (mkSent (Some EAGAIN) l1 [] []) ∧
    ∃ l2, launchd_msg_send (example_send 96) l1 None = Ok (mkSent None l2 bs [5]).
Proof.
  destruct (msg_send_header_lost (example_send (-1)) example_launch example_msg 96) as [H _].
  - done.
  - reflexivity.
  - reflexivity.
  - reflexivity.
  - apply example_send_fresh.
  - exact example_msg_packable.
  - done.
  - apply Nat.leb_le. reflexivity.
  - destruct H as (l1 & bs & H1 & H2 & H3); [reflexivity|reflexivity|].
    exists l1, bs. split; [exact H1|]. split; [exact H2|]. apply H3; reflexivity.
Defined.

Definition integer_frame (n : Z) : list Z :=
  msg_header 40 ++ le_bytes 8 LAUNCH_DATA_INTEGER ++ le_bytes 8 n ++ le_bytes 8 0.

Lemma integer_frame_ok n : - 2 ^ 63 ≤ n < 2 ^ 63 → frame (LInteger n) (integer_frame n).
Proof.
  intros H. exists (le_bytes 8 LAUNCH_DATA_INTEGER ++ le_bytes 8 n ++ le_bytes 8 0).
  split; [by constructor|reflexivity].
Qed.

(** Two messages and half a header arrive at once. *)
Lemma msg_recv_stream_witness :
  launchd_msg_recv
    (mkRecvEnv (Some (integer_frame 1 ++ integer_frame 2 ++ take 8 (msg_header 40))) Other false [])
    (fun _ => false) example_launch =
  Ok (mkRecv (Some EAGAIN) (with_recv example_launch (take 8 (msg_header 40)) [])
             [LInteger 1; LInteger 2]).
Proof.
  apply (msg_recv_stream _ (fun _ => false) example_launch
    (integer_frame 1 ++ integer_frame 2 ++ take 8 (msg_header 40)) [LInteger 1; LInteger 2]
    (integer_frame 1 ++ integer_frame 2 ++ []) (take 8 (msg_header 40)) []); try reflexivity.
  - done.
  - done.
  - repeat (constructor; [apply integer_frame_ok; lia|]). constructor.
  - left. cbn. lia.
  - repeat constructor.
Defined.

Lemma msg_recv_malformed_witness :
  launchd_msg_recv (mkRecvEnv (Some unpadded_frame) Other false []) (fun _ => false)
    example_launch = UB.
Proof.
  apply (msg_recv_malformed (fun _ => false) example_launch
           (mkRecvEnv (Some unpadded_frame) Other false [])); done.
Defined.
