(* ===== verification/Machine.v ===== *)
(** * Machines of threads

    What the models of the futex primitives share: the table of the program counters
    of the threads, a function updated at one thread, and invariants of the states
    reachable by a step relation. *)

From stdpp Require Export relations functions.
From S2P Require Import Prelude.

Lemma fn_lookup_insert_ext {A} (th : nat → A) t p u :
  (<[t := p]> th : nat → A) u = if decide (t = u) then p else th u.
Proof. reflexivity. Qed.

Lemma rtc_invariant {A} (R : relation A) (P : A → Prop) x y :
  rtc R x y → P x → (∀ a b, R a b → P a → P b) → P y.
Proof. intros Hr HP Hst. induction Hr as [|a b c Hab _ IH]; [done|]. eauto. Qed.

(** A thread with property [f] remains when one thread moves. *)
Lemma some_thread_update {A} (f : A → bool) (th : nat → A) t p :
  (∃ u, f (th u) = true) → (f (th t) = true → f p = true) →
  ∃ u, f ((<[t := p]> th : nat → A) u) = true.
Proof.
  intros [u Hu] Hf. destruct (decide (t = u)) as [->|Hne].
  - exists u. rewrite fn_lookup_insert. auto.
  - exists u. by rewrite fn_lookup_insert_ne.
Qed.

Lemma some_thread_here {A} (f : A → bool) (th : nat → A) t p :
  f p = true → ∃ u, f ((<[t := p]> th : nat → A) u) = true.
Proof. exists t. by rewrite fn_lookup_insert. Qed.

(** ** What a lock promises

    The specification: a lock is free or has one holder; a free lock is acquired, a holder
    releases it, and other steps do not change it. *)
Inductive lock_spec : option nat → option nat → Prop :=
  | spec_acquire t : lock_spec None (Some t)
  | spec_release t : lock_spec (Some t) None
  | spec_stutter o : lock_spec o o.

(** A token: the thread it names is the one whose counter says so. *)
Definition token {A} (o : option nat) (f : A → bool) (th : nat → A) : Prop :=
  ∀ u, f (th u) = true ↔ o = Some u.

(** A machine whose threads hold a lock refines the specification when the holders form a
    token that moves as the specification allows. *)
Class RefinesLock {W A} (init : W) (step : relation W) (threads : W → nat → A) (f : A → bool) : Prop := {
  refines_init : token None f (threads init);
  refines_step : ∀ s s' o, rtc step init s → token o f (threads s) → step s s' →
    ∃ o', token o' f (threads s') ∧ lock_spec o o';
}.

(** Every reachable state of such a machine has at most one holder. *)
Lemma refines_holder {W A} (init : W) step (threads : W → nat → A) f `{!RefinesLock init step threads f} s :
  rtc step init s → ∃ o, token o f (threads s).
Proof.
  revert s. apply rtc_ind_r; [exists None; apply refines_init|].
  intros s s' Hr Hs [o Ho]. destruct (refines_step s s' o Hr Ho Hs) as (o' & Ho' & _). by exists o'.
Qed.
