(* ===== verification/Threads.v ===== *)
(** * The threads of a macOS process ([src/src/startup/mldr/elfcalls/threads.c])

    A macOS thread is a native thread of the C library that switches to a stack of its own.
    This file models how they are created, enter their program, and end, in the x86_64 build:
    the creator waits in a loop on [args.pth], a variable of its own stack frame, while the new
    thread copies the frame, opens its server socket, registers with osxieserver and releases
    the creator; a thread that ends gives its socket back, jumps back to the native stack and
    unmaps the macOS one.  Threads take one step at a time in any order.  The state holds the
    pages of the address space, the [struct _dthread] objects, the frames of the calls in
    progress, the bitmap of server sockets ([SocketBitmap]) and the descriptors that are open.

    The theorems show that no interleaving accesses a frame that is gone or memory that is
    unmapped, that threads never share a socket or a stack, that a creator goes on once
    its thread is registered, and what happens when [mmap] or [pthread_create] fails. *)

From S2P Require Import Prelude SocketBitmap Machine.

Local Open Scope Z_scope.

(** ** [struct _dthread] ([dthreads.h]) *)

(** The fields with their sizes and alignments; the last three are [guardsize], [thread_id] and
    [tsd], the twenty-first is [err_no]. *)
Definition dthread_fields : list (Z * Z) :=
  [(8, 8); (8, 8); (16, 8); (8, 8); (8, 8); (4, 4); (4, 4); (8, 4); (8, 8); (4, 4); (2, 2); (2, 2);
   (64, 1); (8, 8); (8, 8); (4, 4); (1, 1); (1, 1); (2, 2); (4, 4); (4, 4); (8, 8); (8, 8); (8, 8);
   (8, 8); (8, 8); (8, 8); ((512 + 256) * 8, 16)].

(** The offset of field [i] by the layout rules of C, counted from [o]. *)
Fixpoint field_offset (fs : list (Z * Z)) (o : Z) (i : nat) : Z :=
  match fs, i with
  | (size, align) :: fs, O => (o + align - 1) / align * align
  | (size, align) :: fs, S i => field_offset fs ((o + align - 1) / align * align + size) i
  | [], _ => (o + 15) / 16 * 16
  end.

Definition offsetof_err_no : Z := Eval vm_compute in field_offset dthread_fields 0 20.
Definition offsetof_tsd : Z := Eval vm_compute in field_offset dthread_fields 0 27.
Definition sizeof_dthread : Z := Eval vm_compute in field_offset dthread_fields 0 28.

Definition DTHREAD_TSD_SLOT_PTHREAD_SELF : nat := 0.
Definition DTHREAD_TSD_SLOT_ERRNO : nat := 1.
Definition DTHREAD_TSD_SLOT_MACH_THREAD_SELF : nat := 3.
Definition DTHREAD_TSD_SLOT_PTHREAD_QOS_CLASS : nat := 4.
Definition DTHREAD_TSD_SLOT_PTR_MUNGE : nat := 7.
Definition DTHREAD_START_TSD_BASE_SET : Z := 0x10000000.
Definition DWQ_FLAG_THREAD_TSD_BASE_SET : Z := 0x00200000.
Definition DTHREAD_CANCEL_ENABLE : Z := 1.
Definition DTHREAD_CANCEL_DEFERRED : Z := 2.
Definition DTHREAD_INHERIT_SCHED : Z := 1.
Definition DARWIN_POLICY_TIMESHARE : Z := 1.
Definition DTHREAD_DEFAULT_PRIORITY : Z := Z.lor (Z.shiftl 1 (4 - 1 + 8)) (Z.land (u8 (-1)) 0xff).

(** The fields this code writes; the others stay zero after the [memset]. *)
Record dthread := mkDthread {
  sig : Z;
  tl_policy : Z;
  tl_joinable : Z;
  tl_has_custom_stack : Z;
  lock : Z;
  inherit : Z;
  cancel_state : Z;
  stackaddr : Z;
  stackbottom : Z;
  freeaddr : Z;
  freesize : Z;
  guardsize : Z;
  tsd : list Z;
}.

Definition set_tsd (D : dthread) (i : nat) (v : Z) : dthread :=
  mkDthread (sig D) (tl_policy D) (tl_joinable D) (tl_has_custom_stack D) (lock D) (inherit D)
    (cancel_state D) (stackaddr D) (stackbottom D) (freeaddr D) (freesize D) (guardsize D)
    (<[i := v]> (tsd D)).

(** [dthread_structure_init] on the structure at address [d]. *)
Definition dthread_structure_init (d guard_size stack_addr stack_size base_addr total_size : Z) :
    dthread :=
  let slots := <[DTHREAD_TSD_SLOT_PTHREAD_SELF := d]> (replicate 768 0) in
  let slots := <[DTHREAD_TSD_SLOT_ERRNO := u64 (d + offsetof_err_no)]> slots in
  let slots := <[DTHREAD_TSD_SLOT_PTHREAD_QOS_CLASS := DTHREAD_DEFAULT_PRIORITY]> slots in
  let slots := <[DTHREAD_TSD_SLOT_PTR_MUNGE := 0]> slots in
  mkDthread d DARWIN_POLICY_TIMESHARE 1 0 0 DTHREAD_INHERIT_SCHED
    (Z.lor DTHREAD_CANCEL_ENABLE DTHREAD_CANCEL_DEFERRED)
    stack_addr (u64 (stack_addr - stack_size)) base_addr total_size guard_size slots.

(** ** Threads and the world *)

(** [struct arg_struct]. *)
Record arg_struct := mkArgs {
  entry_point : Z;
  real_entry_point : Z;
  arg1 : Z;
  arg2 : Z;
  arg3 : Z;
  port : Z;
  pth_obj_size : Z;
  pth : Z;
  callbacks : Z;
  stack_bottom : Z;
  stack_addr : Z;
  is_workqueue : bool;
}.

Definition with_pth (a : arg_struct) (p : Z) : arg_struct :=
  mkArgs (entry_point a) (real_entry_point a) (arg1 a) (arg2 a) (arg3 a) (port a) (pth_obj_size a) p
    (callbacks a) (stack_bottom a) (stack_addr a) (is_workqueue a).

Definition with_port (a : arg_struct) (n : Z) : arg_struct :=
  mkArgs (entry_point a) (real_entry_point a) (arg1 a) (arg2 a) (arg3 a) n (pth_obj_size a) (pth a)
    (callbacks a) (stack_bottom a) (stack_addr a) (is_workqueue a).

(** [*flags |= f] for the pointer [flags] into the copy of the arguments. *)
Definition or_flags (a : arg_struct) : arg_struct :=
  if is_workqueue a then
    mkArgs (entry_point a) (real_entry_point a) (arg1 a) (Z.lor (arg2 a) DWQ_FLAG_THREAD_TSD_BASE_SET)
      (arg3 a) (port a) (pth_obj_size a) (pth a) (callbacks a) (stack_bottom a) (stack_addr a) true
  else
    mkArgs (entry_point a) (real_entry_point a) (arg1 a) (arg2 a)
      (Z.lor (arg3 a) DTHREAD_START_TSD_BASE_SET) (port a) (pth_obj_size a) (pth a) (callbacks a)
      (stack_bottom a) (stack_addr a) false.

(** Where a thread is.  [Spinning p t]: in the loop of [__osxie_thread_create], which will
    return [p], with the thread [t] that [pthread_create] started, if it did.  [Born] to
    [Released] are the points of [osxie_thread_entry], with the thread whose frame the argument
    points to; [Running] is the program; [Closing] and [Closed] are in
    [__osxie_thread_terminate], with its first two arguments, before [close] and before the bitmap is
    updated; [Unmapping] and [Detaching] are behind the second return of [setjmp]; [Suspended] is
    the [sigsuspend] loop of the main thread. *)
Inductive counter :=
  | Running
  | Spinning (ret : Z) (created : option nat)
  | Born (creator : nat)
  | Copied (creator : nat)
  | Socketed (creator : nat) (new_rpc_fd : Z)
  | Based (creator : nat)
  | CheckedIn (creator : nat)
  | Named (creator : nat)
  | Released
  | Closing (free_addr free_size : Z)
  | Closed (free_addr free_size : Z)
  | Unmapping
  | Detaching
  | Gone
  | Suspended.

(** The registers the program is entered with. *)
Record registers := mkRegs {
  rdi : Z; esi : Z; rdx : Z; rcx : Z; r8 : Z; r9 : Z; rsp : Z; rip : Z;
}.

(** A thread with its thread-local variables, its copy of the arguments, the base of its
    thread-specific data and the size of its native stack.  [t_jmpbuf] says whether [setjmp]
    has filled the buffer. *)
Record thread := mkThread {
  pc : counter;
  t_server_socket : Z;
  t_callbacks : Z;
  t_free : Z * Z;
  t_jmpbuf : bool;
  args : arg_struct;
  tsd_base : Z;
  native_stack : Z;
  entered : option registers;
}.

Definition with_pc (th : thread) (p : counter) : thread :=
  mkThread p (t_server_socket th) (t_callbacks th) (t_free th) (t_jmpbuf th) (args th) (tsd_base th)
    (native_stack th) (entered th).

Definition with_args (th : thread) (p : counter) (a : arg_struct) : thread :=
  mkThread p (t_server_socket th) (t_callbacks th) (t_free th) (t_jmpbuf th) a (tsd_base th)
    (native_stack th) (entered th).

Definition with_socket (th : thread) (s : Z) : thread :=
  mkThread (pc th) s (t_callbacks th) (t_free th) (t_jmpbuf th) (args th) (tsd_base th)
    (native_stack th) (entered th).

Inductive prot := ReadWrite | NoAccess.

#[export] Instance prot_eq_dec : EqDecision prot.
Proof. solve_decision. Defined.

Record world := mkWorld {
  pages : Z → option prot;
  dthreads : Z → option dthread;
  frames : nat → option arg_struct;
  threads : nat → option thread;
  bitmap : socket_bitmap;
  open_fds : Z → bool;
  main_socket_fd : Z;
}.

Definition set_thread (t : nat) (th : thread) (w : world) : world :=
  mkWorld (pages w) (dthreads w) (frames w) (<[t := Some th]> (threads w)) (bitmap w) (open_fds w)
    (main_socket_fd w).

Definition set_frame (c : nat) (f : option arg_struct) (w : world) : world :=
  mkWorld (pages w) (dthreads w) (<[c := f]> (frames w)) (threads w) (bitmap w) (open_fds w)
    (main_socket_fd w).

Definition set_memory (pg : Z → option prot) (ds : Z → option dthread) (w : world) : world :=
  mkWorld pg ds (frames w) (threads w) (bitmap w) (open_fds w) (main_socket_fd w).

Definition set_sockets (b : socket_bitmap) (fds : Z → bool) (w : world) : world :=
  mkWorld (pages w) (dthreads w) (frames w) (threads w) b fds (main_socket_fd w).

Definition set_main_fd (s : Z) (w : world) : world :=
  mkWorld (pages w) (dthreads w) (frames w) (threads w) (bitmap w) (open_fds w) s.

(** [getpid() == syscall(SYS_gettid)]: thread 0 is the main thread. *)
Definition is_main (t : nat) : bool := (t =? 0)%nat.

(** ** The address space *)

Definition PAGE_SIZE : Z := 4096.

(** Page [p] is touched by the [size] bytes at [addr]. *)
Definition page_in (addr size p : Z) : bool :=
  (addr / PAGE_SIZE <=? p) && (p <=? (addr + size - 1) / PAGE_SIZE).

Definition pages_of (addr size : Z) : list Z :=
  seqZ (addr / PAGE_SIZE) ((addr + size - 1) / PAGE_SIZE - addr / PAGE_SIZE + 1).

(** The bytes can be read and written. *)
Definition writable (pg : Z → option prot) (addr size : Z) : bool :=
  forallb (fun p => bool_decide (pg p = Some ReadWrite)) (pages_of addr size).

Definition unmapped (pg : Z → option prot) (addr size : Z) : bool :=
  forallb (fun p => bool_decide (pg p = None)) (pages_of addr size).

Definition map_pages (addr size : Z) (pg : Z → option prot) : Z → option prot :=
  fun p => if page_in addr size p then Some ReadWrite else pg p.

(** [mprotect(addr, size, PROT_NONE)]; an address inside a page is refused. *)
Definition protect_pages (addr size : Z) (pg : Z → option prot) : Z → option prot :=
  if addr mod PAGE_SIZE =? 0 then
    fun p => if page_in addr size p then (fun _ => NoAccess) <$> pg p else pg p
  else pg.

(** [munmap]; objects in the pages are gone. *)
Definition unmap_pages (addr size : Z) (pg : Z → option prot) : Z → option prot :=
  if (addr mod PAGE_SIZE =? 0) && (0 <? size) then
    fun p => if page_in addr size p then None else pg p
  else pg.

Definition munmap (addr size : Z) (w : world) : world :=
  let pg := unmap_pages addr size (pages w) in
  set_memory pg (fun d => if writable pg d sizeof_dthread then dthreads w d else None) w.

(** ** Creating a thread *)

Definition DEFAULT_DTHREAD_GUARD_SIZE : Z := 0x1000.
Definition MAP_FAILED : Z := u64 (-1).

(** Why a step is not taken, or is the last: the thread is not at this point, or the process
    calls [abort]. *)
Inductive stop := Disabled | Aborted.

(** [dthread_structure_allocate]; [base] is the answer of [mmap] ([None]: it fails).  The
    structure is aligned to 16 bytes by its declaration.  Returns the structure's address,
    which is the top of the stack as well. *)
Definition dthread_structure_allocate (stack_size guard_size : Z) (base : option Z) (w : world) :
    res stop (Z * Z * world) :=
  let total_size := u64 (guard_size + stack_size + sizeof_dthread) in
  let base_addr := default MAP_FAILED base in
  let pg := match base with Some b => map_pages b total_size (pages w) | None => pages w end in
  let pg := protect_pages base_addr guard_size pg in
  let stack_addr := u64 (base_addr + stack_size + guard_size) in
  let d := stack_addr in
  if negb (writable pg d sizeof_dthread) || negb (d mod 16 =? 0) then UB else
  let D := dthread_structure_init d guard_size stack_addr stack_size base_addr total_size in
  Ok (d, stack_addr, set_memory pg (<[d := Some D]> (dthreads w)) w).

(** The arguments of [__osxie_thread_create]. *)
Record create_args := mkCreate {
  c_stack_size : Z;
  c_pth_obj_size : Z;
  c_entry_point : Z;
  c_real_entry_point : Z;
  c_arg1 : Z;
  c_arg2 : Z;
  c_arg3 : Z;
  c_callbacks : Z;
  c_pth : Z;
}.

Definition PTHREAD_STACK_MIN : Z := 16384.

(** [pthread_attr_setstacksize] refuses a size below the minimum, and the attribute keeps
    the default. *)
Definition attr_stacksize (dflt size : Z) : Z := if size <? PTHREAD_STACK_MIN then dflt else size.

(** The native stack of a process whose stack limit is the usual 8 MB. *)
Definition DEFAULT_NATIVE_STACK : Z := 8388608.

Definition no_args : arg_struct := mkArgs 0 0 0 0 0 0 0 0 0 0 0 false.

Definition native_thread (p : counter) (stack : Z) : thread :=
  mkThread p (-1) 0 (0, 0) false no_args 0 stack None.

Definition allocates (a : create_args) : bool := (c_pth a =? 0) || (c_real_entry_point a =? 0).

(** [__osxie_thread_create] up to the loop, by thread [c]; [new] is the thread [pthread_create]
    starts ([None]: it fails, and its result is not looked at). *)
Definition osxie_thread_create (c : nat) (a : create_args) (base : option Z) (new : option nat)
    (w : world) (th : thread) : res stop world :=
  '(p, top, w) ← (if allocates a
                  then dthread_structure_allocate (c_stack_size a) DEFAULT_DTHREAD_GUARD_SIZE base w
                  else Ok (c_pth a, c_arg2 a, w));
  let f := mkArgs (c_entry_point a) (c_real_entry_point a) (c_arg1 a) (c_arg2 a) (c_arg3 a) 0
             (c_pth_obj_size a) p (c_callbacks a) (u64 (top - c_stack_size a)) top
             (c_real_entry_point a =? 0) in
  let w := set_thread c (with_pc th (Spinning p new)) (set_frame c (Some f) w) in
  match new with
  | None => Ok w
  | Some t =>
      match threads w t with
      | Some _ => Err Disabled
      | None =>
          Ok (set_thread t (native_thread (Born c) (attr_stacksize DEFAULT_NATIVE_STACK 4096)) w)
      end
  end.

(** One turn of [while (args.pth != NULL) sched_yield()] and the return, which ends the
    frame. *)
Definition create_spin (c : nat) (w : world) (th : thread) : res stop world :=
  f ← access (frames w c);
  if negb (pth f =? 0) then Ok w
  else Ok (set_frame c None (set_thread c (with_pc th Running) w)).

(** ** Entering the program: [osxie_thread_entry] *)

(** [memcpy(&args, in_args, sizeof(args))]: the argument points into the frame of [c]. *)
Definition entry_copy (t c : nat) (w : world) (th : thread) : res stop world :=
  f ← access (frames w c);
  Ok (set_thread t (with_args th (Copied c) f) w).

(** The new server socket; a failure aborts.  The steps of [__mldr_create_rpc_socket] count as
    one: its only shared variable is the bitmap, which it locks. *)
Definition open_rpc_socket (e : rpc_env) (w : world) : res stop (Z * world) :=
  '(fd, b, _) ← lift_ub (mldr_create_rpc_socket e (bitmap w));
  if fd <? 0 then Err Aborted
  else Ok (fd, set_sockets b (<[fd := true]> (open_fds w)) w).

Definition entry_socket (t c : nat) (e : rpc_env) (w : world) (th : thread) : res stop world :=
  '(fd, w) ← open_rpc_socket e w;
  Ok (set_thread t (with_pc th (Socketed c fd)) w).

(** [rpc_guard], the thread-local variables, [thread_set_tsd_base] and the flag. *)
Definition entry_base (t c : nat) (fd : Z) (w : world) (th : thread) : res stop world :=
  let a := args th in
  Ok (set_thread t (mkThread (Based c) fd (callbacks a) (t_free th) (t_jmpbuf th) (or_flags a)
                      (u64 (pth a + offsetof_tsd)) (native_stack th) (entered th)) w).

Definition entry_checkin (t c : nat) (ok : bool) (w : world) (th : thread) : res stop world :=
  if negb ok then Err Aborted else Ok (set_thread t (with_pc th (CheckedIn c)) w).

(** [thread_self_trap] and the port in the thread-specific data. *)
Definition entry_self (t c : nat) (thread_self_port : Z) (w : world) (th : thread) :
    res stop world :=
  let d := pth (args th) in
  D ← access (dthreads w d);
  if negb (writable (pages w) d sizeof_dthread) then UB else
  let D := set_tsd D DTHREAD_TSD_SLOT_MACH_THREAD_SELF (u64 thread_self_port) in
  Ok (set_thread t (with_args th (Named c) (with_port (args th) thread_self_port))
        (set_memory (pages w) (<[d := Some D]> (dthreads w)) w)).

(** [in_args->pth = NULL]. *)
Definition entry_release (t c : nat) (w : world) (th : thread) : res stop world :=
  f ← access (frames w c);
  Ok (set_frame c (Some (with_pth f 0)) (set_thread t (with_pc th Released) w)).

Definition align_16 (ptr : Z) : Z := Z.land ptr (Z.lnot 15).

(** [setjmp], the registers, the switch to the new stack, where a zero is pushed, and the
    jump. *)
Definition entry_jump (t : nat) (w : world) (th : thread) : res stop world :=
  let a := args th in
  let stack_ptr := align_16 (stack_addr a) in
  let third := if real_entry_point a =? 0 then stack_bottom a else real_entry_point a in
  if negb (writable (pages w) (stack_ptr - 8) 8) then UB else
  let r := mkRegs (pth a) (port a) third (arg1 a) (arg2 a) (arg3 a) (stack_ptr - 8) (entry_point a) in
  Ok (set_thread t (mkThread Running (t_server_socket th) (t_callbacks th) (t_free th) true a
                      (tsd_base th) (native_stack th) (Some r)) w).

(** ** Ending a thread: [__osxie_thread_terminate] *)

(** What follows the socket: the main thread stays, another one jumps to the [setjmp] of its
    entry. *)
Definition terminate_leave (t : nat) (free_addr free_size : Z) (w : world) (th : thread) :
    res stop world :=
  if is_main t then Ok (set_thread t (with_pc th Suspended) w)
  else if negb (t_jmpbuf th) then UB
  else Ok (set_thread t (mkThread Unmapping (t_server_socket th) (t_callbacks th)
                           (free_addr, free_size) (t_jmpbuf th) (args th) (tsd_base th)
                           (native_stack th) (entered th)) w).

(** Up to the socket; whether the check-out succeeds makes no difference but a message. *)
Definition osxie_thread_terminate (t : nat) (free_addr free_size : Z) (w : world) (th : thread) :
    res stop world :=
  if negb (t_server_socket th =? -1)
  then Ok (set_thread t (with_pc th (Closing free_addr free_size)) w)
  else terminate_leave t free_addr free_size w th.

(** The two statements of [__mldr_close_rpc_socket]: [close], then the bitmap. *)
Definition terminate_close (t : nat) (fa fs : Z) (w : world) (th : thread) : res stop world :=
  Ok (set_thread t (with_pc th (Closed fa fs))
        (set_sockets (bitmap w) (<[t_server_socket th := false]> (open_fds w)) w)).

Definition terminate_put (t : nat) (fa fs : Z) (e : libc_env) (w : world) (th : thread) :
    res stop world :=
  b ← lift_ub (socket_bitmap_put e (bitmap w) (t_server_socket th));
  terminate_leave t fa fs (set_sockets b (open_fds w) w) th.

(** The second return of [setjmp]. *)
Definition entry_unmap (t : nat) (w : world) (th : thread) : res stop world :=
  Ok (set_thread t (with_pc th Detaching) (munmap (t_free th).1 (t_free th).2 w)).

Definition entry_detach (t : nat) (w : world) (th : thread) : res stop world :=
  Ok (set_thread t (with_pc th Gone) w).

(** ** The server socket of a running thread *)

Definition osxie_thread_rpc_socket (t : nat) (w : world) (th : thread) : res stop (Z * world) :=
  if t_server_socket th =? -1 then
    if is_main t then
      Ok (main_socket_fd w, set_thread t (with_socket th (main_socket_fd w)) w)
    else Err Aborted
  else Ok (t_server_socket th, w).

Definition osxie_thread_rpc_socket_refresh (t : nat) (e : rpc_env) (w : world) (th : thread) :
    res stop world :=
  '(fd, w) ← open_rpc_socket e w;
  let w := set_thread t (with_socket th fd) w in
  Ok (if is_main t then set_main_fd fd w else w).

(** ** Steps *)

(** A step with the answers of the kernel and the server it needs.  [UserMap] is the program:
    it maps memory for a thread, with a structure it filled in itself. *)
Inductive event :=
  | Create (c : nat) (a : create_args) (base : option Z) (new : option nat)
  | Spin (c : nat)
  | Enter (t : nat)
  | Socket (t : nat) (e : rpc_env)
  | Base (t : nat)
  | CheckIn (t : nat) (ok : bool)
  | Self (t : nat) (thread_self_port : Z)
  | Release (t : nat)
  | Jump (t : nat)
  | Terminate (t : nat) (free_addr free_size : Z)
  | Close (t : nat)
  | Put (t : nat) (e : libc_env)
  | Unmap (t : nat)
  | Detach (t : nat)
  | RpcSocket (t : nat)
  | Refresh (t : nat) (e : rpc_env)
  | UserMap (d : Z) (D : dthread).

(** The thread a step belongs to. *)
Definition actor (ev : event) : option nat :=
  match ev with
  | Create t _ _ _ | Spin t | Enter t | Socket t _ | Base t | CheckIn t _ | Self t _ | Release t
  | Jump t | Terminate t _ _ | Close t | Put t _ | Unmap t | Detach t | RpcSocket t
  | Refresh t _ => Some t
  | UserMap _ _ => None
  end.

Definition thread_step (ev : event) (w : world) (t : nat) (th : thread) : res stop world :=
  match ev, pc th with
  | Create _ a base new, Running => osxie_thread_create t a base new w th
  | Spin _, Spinning _ _ => create_spin t w th
  | Enter _, Born c => entry_copy t c w th
  | Socket _ e, Copied c => entry_socket t c e w th
  | Base _, Socketed c fd => entry_base t c fd w th
  | CheckIn _ ok, Based c => entry_checkin t c ok w th
  | Self _ p, CheckedIn c => entry_self t c p w th
  | Release _, Named c => entry_release t c w th
  | Jump _, Released => entry_jump t w th
  | Terminate _ fa fs, Running => osxie_thread_terminate t fa fs w th
  | Close _, Closing fa fs => terminate_close t fa fs w th
  | Put _ e, Closed fa fs => terminate_put t fa fs e w th
  | Unmap _, Unmapping => entry_unmap t w th
  | Detach _, Detaching => entry_detach t w th
  | RpcSocket _, Running => '(_, w) ← osxie_thread_rpc_socket t w th; Ok w
  | Refresh _ e, Running => osxie_thread_rpc_socket_refresh t e w th
  | _, _ => Err Disabled
  end.

Definition user_map (d : Z) (D : dthread) (w : world) : world :=
  set_memory (protect_pages (freeaddr D) (guardsize D) (map_pages (freeaddr D) (freesize D) (pages w)))
    (<[d := Some D]> (dthreads w)) w.

Definition step (ev : event) (w : world) : res stop world :=
  match ev with
  | UserMap d D => Ok (user_map d D w)
  | _ =>
      match t ← actor ev; th ← threads w t; Some (t, th) with
      | Some (t, th) => thread_step ev w t th
      | None => Err Disabled
      end
  end.

Fixpoint run (evs : list event) (w : world) : res stop world :=
  match evs with
  | [] => Ok w
  | ev :: evs => w ← step ev w; run evs w
  end.
