(* ===== verification/ThreadSafety.v ===== *)
(** * Safety of the threads of a process

    For every interleaving of the steps of [Threads]: the invariant of the reachable states in
    three parts (sockets, memory, the hand-over of the creator's frame), each stated on the view of
    the threads it needs, and what follows: no step is undefined, threads share neither sockets nor
    stacks, and creators are released. *)

From S2P Require Import Prelude SocketBitmap Machine Threads.

Local Open Scope Z_scope.

(** ** Views of a thread *)

(** The thread whose frame a thread that is entering still uses. *)
Definition creator (p : counter) : option nat :=
  match p with
  | Born c | Copied c | Socketed c _ | Based c | CheckedIn c | Named c => Some c
  | _ => None
  end.

(** The server socket a thread owns and whether it is open; the main thread owns
    [__dserver_main_thread_socket_fd]. *)
Definition socket_view (main_fd : Z) (t : nat) (th : thread) : option (Z * bool) :=
  let own := if is_main t then main_fd else t_server_socket th in
  match pc th with
  | Born _ | Copied _ | Unmapping | Detaching | Gone | Suspended => None
  | Socketed _ fd => Some (fd, true)
  | Closed _ _ => Some (own, false)
  | _ => Some (own, true)
  end.

(** What a thread holds of the memory: its arguments (in the frame of its creator until they
    are copied), whether its port is stored, and the range it is about to unmap. *)
Record holding := mkHolding {
  h_args : arg_struct;
  h_named : bool;
  h_free : option (Z * Z);
}.

Definition memory_view (fr : nat → option arg_struct) (t : nat) (th : thread) : option holding :=
  match pc th with
  | Born c => (fun a => mkHolding a false None) <$> fr c
  | Detaching | Gone | Suspended => None
  | p =>
      if is_main t then None else
      Some (mkHolding (args th)
              (match p with
               | Copied _ | Socketed _ _ | Based _ | CheckedIn _ => false
               | _ => true
               end)
              (match p with
               | Closing fa fs | Closed fa fs => Some (fa, fs)
               | Unmapping => Some (t_free th)
               | _ => None
               end))
  end.

Definition sockets (w : world) (t : nat) : option (Z * bool) :=
  threads w t ≫= socket_view (main_socket_fd w) t.

Definition holdings (w : world) (t : nat) : option holding :=
  threads w t ≫= memory_view (frames w) t.

Definition counters (w : world) (t : nat) : option counter := pc <$> threads w t.

(** ** Sockets *)

Record sock_ok (b : socket_bitmap) (o : Z → bool) (σ : nat → option (Z * bool)) : Prop := {
  so_wf : bitmap_wf b;
  so_high : 0 ≤ highest b;
  so_taken : ∀ t s x, σ t = Some (s, x) →
    0 ≤ s ≤ highest b ∧ taken b (highest b - s) = true ∧ (x = true → o s = true);
  so_own : ∀ t u s x y, σ t = Some (s, x) → σ u = Some (s, y) → t = u;
}.

Lemma sock_sub b o σ σ' :
  sock_ok b o σ →
  (∀ t s x, σ' t = Some (s, x) → ∃ y, σ t = Some (s, y) ∧ (x = true → y = true)) →
  sock_ok b o σ'.
Proof.
  intros [Hwf Hh Ht Ho] Hs. split; [done..| |].
  - intros t s x H. destruct (Hs _ _ _ H) as (y & Hy & Hxy).
    destruct (Ht _ _ _ Hy) as (? & ? & Hopen). auto.
  - intros t u s x y Hx Hy. destruct (Hs _ _ _ Hx) as (? & ? & _), (Hs _ _ _ Hy) as (? & ? & _).
    eauto.
Qed.

Lemma get_highest e b fd b' :
  socket_bitmap_get e b = Ok (fd, b') → highest b ≠ -1 → highest b' = highest b.
Proof.
  unfold socket_bitmap_get, get_init_highest. intros H Hh.
  rewrite (proj2 (Z.eqb_neq _ _) Hh) in H. cbn [negb] in H.
  apply bind_inv in H as ([go b1] & Hg & H).
  assert (highest b1 = highest b) as <-.
  { unfold get_grow in Hg. repeat case_match; inv_bind Hg; repeat case_match; inv_bind Hg; by simplify_eq. }
  destruct go; cbn [negb] in H; [|by simplify_eq].
  inv_bind H. case_match; by simplify_eq.
Qed.

(** Why [__mldr_create_rpc_socket] gives no socket: a system call fails, the bitmap cannot grow, or
    every descriptor is taken. *)
Definition refused (e : rpc_env) (b : socket_bitmap) : bool :=
  negb (rpc_ok e) || (negb (alloc_ok (rpc_get e)) && needs_byte b) || (highest b <? next_index b).

Lemma get_known e b :
  bitmap_wf b → 0 ≤ highest b →
  if (negb (alloc_ok e) && needs_byte b) || (highest b <? next_index b)
  then ∃ b', socket_bitmap_get e b = Ok (-1, b')
  else ∃ fd b', socket_bitmap_get e b = Ok (fd, b') ∧ bitmap_wf b' ∧ highest b' = highest b ∧
    0 ≤ fd ≤ highest b ∧ taken b (highest b - fd) = false ∧
    (∀ fd', fd < fd' ≤ highest b → taken b (highest b - fd') = true) ∧
    ∀ i, 0 ≤ i → taken b' i = (taken b i || (i =? highest b - fd)).
Proof.
  intros Hwf Hh. pose proof (wf_fits b Hwf). pose proof (wf_next b Hwf).
  destruct (negb (alloc_ok e) && needs_byte b) eqn:Hn; cbn [orb].
  { apply andb_true_iff in Hn as [Ha%negb_true_iff Hn]. unfold needs_byte in Hn.
    apply andb_true_iff in Hn as [H1%Z.eqb_eq H2%Z.eqb_eq].
    unfold socket_bitmap_get, get_init_highest. rewrite (proj2 (Z.eqb_neq (highest b) (-1))) by lia. cbn [negb].
    rewrite get_grow_failure by done. by eexists. }
  assert (alloc_ok e = true ∨ needs_byte b = false) as Ha by (destruct (alloc_ok e), (needs_byte b); auto).
  rewrite (get_known_limit e b Hwf ltac:(lia) Ha). set (e' := mkLibc None true (junk e)).
  destruct (Z.ltb_spec (highest b) (next_index b)); [apply get_full; done || lia|].
  destruct (bitmap_get_ok e' b Hwf) as (fd & b1 & Hget & Hwf1 & Hfd & Hfree & Hab & Htk); [done| |done|].
  { unfold room, get_init_highest. by rewrite (proj2 (Z.eqb_neq (highest b) (-1))) by lia. }
  pose proof (get_highest _ _ _ _ Hget ltac:(lia)) as Eh. rewrite Eh in *. exists fd, b1. done.
Qed.

Lemma create_rpc_socket_ok e b :
  bitmap_wf b → 0 ≤ highest b →
  if refused e b then ∃ b' cl, mldr_create_rpc_socket e b = Ok (-1, b', cl)
  else ∃ fd b', mldr_create_rpc_socket e b = Ok (fd, b', [rpc_socket e]) ∧ bitmap_wf b' ∧
    highest b' = highest b ∧ 0 ≤ fd ≤ highest b ∧ taken b (highest b - fd) = false ∧
    ∀ i, 0 ≤ i → taken b' i = (taken b i || (i =? highest b - fd)).
Proof.
  intros Hwf Hh. pose proof (get_known (rpc_get e) b Hwf Hh) as Hg. unfold refused. rewrite <- orb_assoc.
  unfold mldr_create_rpc_socket. destruct (Z.ltb_spec (rpc_socket e) 0) as [Hs|Hs].
  { unfold rpc_ok. rewrite (proj2 (Z.leb_gt 0 (rpc_socket e))) by lia. unfold rpc_err_out. cbn.
    by eexists _, _. }
  destruct (_ || _); cbn [orb].
  { rewrite orb_true_r. destruct Hg as (b1 & ->). rewrite bind_Ok. unfold rpc_err_out. cbn. by eexists _, _. }
  destruct Hg as (fd & b1 & -> & Hwf1 & Eh & Hfd & Hfree & Hab & Htk). rewrite bind_Ok, orb_false_r.
  rewrite (proj2 (Z.ltb_ge fd 0)) by lia.
  destruct (put_after_get (rpc_put e) b b1 fd) as (b2 & Hput & _); [done|by rewrite Eh..|].
  unfold rpc_ok, rpc_err_out. rewrite (proj2 (Z.leb_le 0 (rpc_socket e))), Z.leb_antisym, Hput by lia.
  rewrite (proj2 (Z.leb_le 0 fd)) by lia.
  destruct (rpc_dup2 e); cbn; [|by eexists _, _]. destruct (rpc_getfd e <? 0); cbn; [by eexists _, _|].
  destruct (rpc_setfd e); cbn; [|by eexists _, _]. destruct (rpc_bind e); cbn; [|by eexists _, _].
  exists fd, b1. done.
Qed.

Lemma sock_open e w σ t :
  sock_ok (bitmap w) (open_fds w) σ →
  if refused e (bitmap w) then open_rpc_socket e w = Err Aborted
  else ∃ fd b, open_rpc_socket e w = Ok (fd, set_sockets b (<[fd := true]> (open_fds w)) w) ∧
    sock_ok b (<[fd := true]> (open_fds w)) (<[t := Some (fd, true)]> σ).
Proof.
  intros [Hwf Hh Ht Ho]. unfold open_rpc_socket. pose proof (create_rpc_socket_ok e _ Hwf Hh) as Hc.
  destruct (refused e (bitmap w)); [by destruct Hc as (b & cl & ->)|].
  destruct Hc as (fd & b & -> & Hwf' & Eh & Hfd & Hfree & Htk).
  assert (∀ u s x, σ u = Some (s, x) → s ≠ fd) as Hne.
  { intros u s x H ->. destruct (Ht _ _ _ H) as (_ & H' & _). congruence. }
  exists fd, b. cbn. rewrite (proj2 (Z.ltb_ge fd 0)) by lia. split; [done|].
  split; [done|lia| |].
  - intros u s x. rewrite Eh, fn_lookup_insert_ext. case_decide; intros Hu.
    + simplify_eq. rewrite Htk, Z.eqb_refl, orb_true_r, fn_lookup_insert by lia. done.
    + destruct (Ht _ _ _ Hu) as (? & Htk' & ?). rewrite Htk, Htk' by lia.
      rewrite fn_lookup_insert_ne; [done|]. apply not_eq_sym. eauto.
  - intros u v s x y. rewrite !fn_lookup_insert_ext. repeat case_decide; intros; simplify_eq; try done.
    + exfalso. eapply Hne; eauto.
    + exfalso. eapply Hne; eauto.
    + eauto.
Qed.

Lemma sock_close b o σ t s :
  sock_ok b o σ → σ t = Some (s, true) →
  sock_ok b (<[s := false]> o) (<[t := Some (s, false)]> σ).
Proof.
  intros [Hwf Hh Ht Ho] Hs. split; [done..| |].
  - intros u s' x. rewrite fn_lookup_insert_ext. case_decide; intros Hu.
    + simplify_eq. destruct (Ht _ _ _ Hs) as (? & ? & _). done.
    + destruct (Ht _ _ _ Hu) as (? & ? & ?). rewrite fn_lookup_insert_ne; [done|]. intros ->.
      eauto.
  - intros u v s' x y. rewrite !fn_lookup_insert_ext. repeat case_decide; intros; simplify_eq; eauto.
Qed.

Lemma sock_put e b o σ t s x :
  sock_ok b o σ → σ t = Some (s, x) → empties_last_byte b (highest b - s) = false →
  ∃ b', socket_bitmap_put e b s = Ok b' ∧ sock_ok b' o (<[t := None]> σ).
Proof.
  intros [Hwf Hh Ht Ho] Hs Hl. destruct (Ht _ _ _ Hs) as (Hsr & Htk & _).
  destruct (bitmap_put_ok e b s) as (b' & Hput & Hwf' & Eh & Htk'); [done|lia|done|done|].
  exists b'. split; [done|]. split; [done|lia| |].
  - intros u s' y. rewrite Eh, fn_lookup_insert_ext. case_decide; [done|]. intros H'.
    destruct (Ht _ _ _ H') as (? & Hu & ?). rewrite Htk', Hu by lia. split_and!; try done; [lia..|].
    apply negb_true_iff, Z.eqb_neq. intros E. assert (s' = s) as -> by lia. eauto.
  - intros u v s' y z. rewrite !fn_lookup_insert_ext. repeat case_decide; intros; simplify_eq; eauto.
Qed.

(** ** Memory *)

Lemma pages_of_spec (P : Z → bool) addr size :
  forallb P (pages_of addr size) = true ↔ ∀ p, page_in addr size p = true → P p = true.
Proof.
  unfold pages_of, page_in. rewrite forallb_forall. split; intros H p Hp.
  - apply H. apply list_elem_of_In, elem_of_seqZ. lia.
  - apply H. apply list_elem_of_In, elem_of_seqZ in Hp. lia.
Qed.

Lemma writable_spec pg addr size :
  writable pg addr size = true ↔ ∀ p, page_in addr size p = true → pg p = Some ReadWrite.
Proof. unfold writable. rewrite pages_of_spec. by setoid_rewrite bool_decide_eq_true. Qed.

Lemma unmapped_spec pg addr size :
  unmapped pg addr size = true ↔ ∀ p, page_in addr size p = true → pg p = None.
Proof. unfold unmapped. rewrite pages_of_spec. by setoid_rewrite bool_decide_eq_true. Qed.

(** The block of a thread: a guard, the stack, the structure at [d]. *)
Record placed (d : Z) (D : dthread) : Prop := {
  pl_free : freeaddr D mod PAGE_SIZE = 0;
  pl_low : PAGE_SIZE ≤ freeaddr D;
  pl_high : freeaddr D + freesize D < 2 ^ 63;
  pl_guard : 0 < guardsize D ∧ guardsize D mod PAGE_SIZE = 0;
  pl_bottom : freeaddr D + guardsize D ≤ stackbottom D;
  pl_stack : stackbottom D + PAGE_SIZE ≤ stackaddr D;
  pl_top : stackaddr D ≤ d;
  pl_end : d + sizeof_dthread ≤ freeaddr D + freesize D;
  pl_tsd : length (tsd D) = 768%nat;
}.

Definition in_block (D : dthread) (p : Z) : bool := page_in (freeaddr D) (freesize D) p.

(** Behind the guard the block can be read and written; the guard cannot. *)
Definition block_mapped (pg : Z → option prot) (D : dthread) : Prop :=
  ∀ p, in_block D p = true →
    pg p = Some (if page_in (freeaddr D) (guardsize D) p then NoAccess else ReadWrite).

Record mem_ok (pg : Z → option prot) (ds : Z → option dthread) (α : nat → option holding) : Prop := {
  me_block : ∀ d D, ds d = Some D → placed d D ∧ block_mapped pg D;
  me_apart : ∀ d e D E p, ds d = Some D → ds e = Some E →
    in_block D p = true → in_block E p = true → d = e;
  me_hold : ∀ t h, α t = Some h → ∃ D, ds (pth (h_args h)) = Some D ∧
    stack_addr (h_args h) = stackaddr D ∧
    (h_named h = true → tsd D !! DTHREAD_TSD_SLOT_MACH_THREAD_SELF = Some (u64 (port (h_args h)))) ∧
    (∀ r, h_free h = Some r → r = (freeaddr D, freesize D));
  me_own : ∀ t u h k, α t = Some h → α u = Some k → pth (h_args h) = pth (h_args k) → t = u;
}.

Ltac page_lia := unfold page_in, PAGE_SIZE, sizeof_dthread in *; lia.

Lemma placed_in_block d D a n p :
  placed d D → freeaddr D ≤ a → a + n ≤ freeaddr D + freesize D → 0 < n →
  page_in a n p = true → in_block D p = true.
Proof. intros [] ? ? ?. unfold in_block. page_lia. Qed.

Lemma placed_past_guard d D a n p :
  placed d D → freeaddr D + guardsize D ≤ a → page_in a n p = true →
  page_in (freeaddr D) (guardsize D) p = false.
Proof. intros [] ?. page_lia. Qed.

(** Any bytes between the bottom of the stack and the end of the block can be written. *)
Lemma block_writable pg d D a n :
  placed d D → block_mapped pg D → freeaddr D + guardsize D ≤ a → 0 < n →
  a + n ≤ freeaddr D + freesize D → writable pg a n = true.
Proof.
  intros Hp Hm Ha Hn He. apply writable_spec. intros p Hpg.
  assert (0 < guardsize D) by apply Hp.
  rewrite (Hm p) by (apply (placed_in_block d D a n); done || lia).
  by rewrite (placed_past_guard d D a n p).
Qed.

Lemma struct_writable pg d D :
  placed d D → block_mapped pg D → writable pg d sizeof_dthread = true.
Proof.
  intros Hp Hm. pose proof Hp as []. eapply block_writable; eauto; unfold sizeof_dthread, PAGE_SIZE in *; lia.
Qed.

Lemma mem_sub pg ds α α' :
  mem_ok pg ds α →
  (∀ t h', α' t = Some h' → ∃ h, α t = Some h ∧ pth (h_args h') = pth (h_args h) ∧
     stack_addr (h_args h') = stack_addr (h_args h) ∧
     (h_named h' = true → h_named h = true ∧ port (h_args h') = port (h_args h)) ∧
     (∀ r, h_free h' = Some r → h_free h = Some r ∨
        ∃ D, ds (pth (h_args h)) = Some D ∧ r = (freeaddr D, freesize D))) →
  mem_ok pg ds α'.
Proof.
  intros [Hb Ha Hh Ho] Hs. split; [done..| |].
  - intros t h' Ht. destruct (Hs _ _ Ht) as (h & Hα & Ep & Es & Hn & Hf).
    destruct (Hh _ _ Hα) as (D & HD & Hst & Hnm & Hfr). exists D. rewrite Ep, Es.
    split_and!; [done..| |].
    + intros Hn'. destruct (Hn Hn') as (? & ->). auto.
    + intros r Hr. destruct (Hf _ Hr) as [|(D' & HD' & ->)]; [auto|]. congruence.
  - intros t u h k Ht Hu E. destruct (Hs _ _ Ht) as (h1 & H1 & E1 & _), (Hs _ _ Hu) as (k1 & K1 & E2 & _).
    eapply Ho; eauto. congruence.
Qed.

(** A new block, in pages that were free. *)
Definition alloc_pages (D : dthread) (pg : Z → option prot) : Z → option prot :=
  protect_pages (freeaddr D) (guardsize D) (map_pages (freeaddr D) (freesize D) pg).

Lemma alloc_pages_at D pg p :
  freeaddr D mod PAGE_SIZE = 0 →
  alloc_pages D pg p =
    if page_in (freeaddr D) (guardsize D) p
    then (fun _ => NoAccess) <$> (if in_block D p then Some ReadWrite else pg p)
    else if in_block D p then Some ReadWrite else pg p.
Proof.
  intros H. unfold alloc_pages, protect_pages, map_pages. rewrite H. cbn. reflexivity.
Qed.

Lemma placed_guard_in d D p :
  placed d D → page_in (freeaddr D) (guardsize D) p = true → in_block D p = true.
Proof. intros [] . unfold in_block. page_lia. Qed.

Lemma mem_alloc pg ds α d D :
  mem_ok pg ds α → placed d D → unmapped pg (freeaddr D) (freesize D) = true →
  mem_ok (alloc_pages D pg) (<[d := Some D]> ds) α ∧ ds d = None ∧
  (∀ t h, α t = Some h → pth (h_args h) ≠ d).
Proof.
  intros [Hb Ha Hh Ho] Hp Hun. pose proof Hp as [Hfree Hlow Hhigh [] Hbot Hst Htop Hend Htsd].
  assert (∀ e E p, ds e = Some E → in_block E p = true → in_block D p = true → False) as Hfresh.
  { intros e E p HE HpE HpD. destruct (Hb _ _ HE) as (_ & Hm). rewrite unmapped_spec in Hun.
    specialize (Hm _ HpE). rewrite (Hun p) in Hm by done. done. }
  assert (ds d = None) as Hd.
  { destruct (ds d) as [E|] eqn:HE; [|done]. destruct (Hb _ _ HE) as (HpE & _).
    exfalso. pose proof HpE as []. apply (Hfresh d E (d / PAGE_SIZE)); [done|..];
      unfold in_block, page_in, PAGE_SIZE, sizeof_dthread in *; lia. }
  assert (∀ t h, α t = Some h → pth (h_args h) ≠ d) as Hne.
  { intros t h Ht E. destruct (Hh _ _ Ht) as (D' & HD' & _). congruence. }
  split_and!; [|done..]. split.
  - intros e E. destruct (decide (e = d)) as [->|Hed].
    + rewrite fn_lookup_insert. intros [= <-]. split; [done|]. intros p HpD.
      rewrite alloc_pages_at, HpD by done. by destruct (page_in _ _ p).
    + rewrite fn_lookup_insert_ne by done. intros HE. destruct (Hb _ _ HE) as (HpE & Hm).
      split; [done|]. intros p HpE'. rewrite alloc_pages_at by done.
      destruct (in_block D p) eqn:HpD; [exfalso; eauto|].
      destruct (page_in (freeaddr D) (guardsize D) p) eqn:Hg.
      { apply (placed_guard_in d) in Hg; [congruence|done]. }
      by apply Hm.
  - intros e f E F p. destruct (decide (e = d)) as [->|He], (decide (f = d)) as [->|Hf];
      rewrite ?fn_lookup_insert, ?fn_lookup_insert_ne by done; intros HE HF HpE HpF;
      simplify_eq; try done; [exfalso; eauto..|eauto].
  - intros t h Ht. destruct (Hh _ _ Ht) as (E & HE & Hrest). exists E.
    rewrite fn_lookup_insert_ne; [done|]. apply not_eq_sym. eauto.
  - eauto.
Qed.

(** A thread takes a block nobody holds. *)
Lemma mem_hold pg ds α t a D :
  mem_ok pg ds α → ds (pth a) = Some D → stack_addr a = stackaddr D →
  (∀ u h, α u = Some h → pth (h_args h) ≠ pth a) →
  mem_ok pg ds (<[t := Some (mkHolding a false None)]> α).
Proof.
  intros [Hb Ha Hh Ho] HD Hs Hne. split; [done..| |].
  - intros u h. rewrite fn_lookup_insert_ext. case_decide; intros Hu; [|eauto].
    simplify_eq. exists D. cbn. done.
  - intros u v h k. rewrite !fn_lookup_insert_ext. repeat case_decide; intros Hu Hv E; simplify_eq;
      cbn in *; try done; [exfalso; eapply Hne; eauto..|eauto].
Qed.

(** A thread stores its port in its own structure. *)
Lemma mem_write pg ds α t h a D v :
  mem_ok pg ds α → α t = Some h → pth a = pth (h_args h) → stack_addr a = stack_addr (h_args h) →
  ds (pth a) = Some D → v = u64 (port a) →
  mem_ok pg (<[pth a := Some (set_tsd D DTHREAD_TSD_SLOT_MACH_THREAD_SELF v)]> ds)
    (<[t := Some (mkHolding a true None)]> α).
Proof.
  intros [Hb Ha Hh Ho] Ht Ep Es HD ->. set (D' := set_tsd D _ _).
  assert (∀ e E, (<[pth a := Some D']> ds : Z → _) e = Some E →
    ∃ E0, ds e = Some E0 ∧ freeaddr E = freeaddr E0 ∧ freesize E = freesize E0 ∧
          guardsize E = guardsize E0) as Hsame.
  { intros e E. destruct (decide (e = pth a)) as [->|].
    - rewrite fn_lookup_insert. intros [= <-]. by exists D.
    - rewrite fn_lookup_insert_ne by done. by exists E. }
  split.
  - intros e E. destruct (decide (e = pth a)) as [->|].
    + rewrite fn_lookup_insert. intros [= <-]. destruct (Hb _ _ HD) as ([] & Hm). split; [|done].
      split; try done. cbn. by rewrite length_insert.
    + rewrite fn_lookup_insert_ne by done. eauto.
  - intros e f E F p HE HF. destruct (Hsame _ _ HE) as (E0 & HE0 & E1 & E2 & _).
    destruct (Hsame _ _ HF) as (F0 & HF0 & F1 & F2 & _). unfold in_block. rewrite E1, E2, F1, F2. eauto.
  - intros u k. rewrite fn_lookup_insert_ext. case_decide as Hut; intros Hu.
    + simplify_eq. exists D'. cbn. rewrite fn_lookup_insert. split_and!; [done|..|done].
      * destruct (Hh _ _ Ht) as (D0 & HD0 & Hst & _). congruence.
      * intros _. apply list_lookup_insert_eq. destruct (Hb _ _ HD) as ([] & _).
        unfold DTHREAD_TSD_SLOT_MACH_THREAD_SELF. lia.
    + rewrite fn_lookup_insert_ne; [eauto|]. intros E. apply Hut. eapply Ho; eauto. congruence.
  - intros u v k l. rewrite !fn_lookup_insert_ext. repeat case_decide; intros Hu Hv E; simplify_eq;
      cbn in *; try done; try (eapply Ho; eauto; congruence).
Qed.

(** A thread unmaps its block; the others keep theirs. *)
Lemma mem_unmap w α t h r :
  mem_ok (pages w) (dthreads w) α → α t = Some h → h_free h = Some r →
  mem_ok (pages (munmap r.1 r.2 w)) (dthreads (munmap r.1 r.2 w)) (<[t := None]> α).
Proof.
  intros [Hb Ha Hh Ho] Ht Hr. destruct (Hh _ _ Ht) as (D0 & HD0 & _ & _ & Hf).
  rewrite (Hf _ Hr). destruct (Hb _ _ HD0) as (Hp0 & _). cbn.
  set (pg := unmap_pages _ _ _).
  assert (∀ p, pg p = if in_block D0 p then None else pages w p) as Hpg.
  { intros p. subst pg. unfold unmap_pages. pose proof Hp0 as [-> ? ? [] ? ? ? ? ?].
    rewrite (proj2 (Z.ltb_lt 0 (freesize D0))) by (unfold sizeof_dthread, PAGE_SIZE in *; lia). done. }
  assert (∀ d D, dthreads w d = Some D → d ≠ pth (h_args h) → block_mapped pg D) as Hkeep.
  { intros d D HD Hne p Hp. rewrite Hpg. destruct (in_block D0 p) eqn:Hp'.
    - exfalso. eauto.
    - by apply (Hb _ _ HD). }
  assert (writable pg (pth (h_args h)) sizeof_dthread = false) as Hgone.
  { apply not_true_is_false. intros Hw. rewrite writable_spec in Hw.
    pose proof Hp0 as [? ? ? [] ? ? ? ? ?].
    assert (pg (pth (h_args h) / PAGE_SIZE) = None) as E.
    { rewrite Hpg. replace (in_block D0 _) with true; [done|]. symmetry.
      unfold in_block. page_lia. }
    rewrite Hw in E; [done|]. page_lia. }
  assert (∀ d D, (if writable pg d sizeof_dthread then dthreads w d else None) = Some D ↔
                 dthreads w d = Some D ∧ d ≠ pth (h_args h)) as Hds.
  { intros d D. destruct (decide (d = pth (h_args h))) as [->|Hne].
    - rewrite Hgone. naive_solver.
    - split; [by case_match|]. intros (HD & _).
      rewrite (struct_writable pg d D); [done|apply (Hb _ _ HD)|eauto]. }
  split.
  - intros d D HD. apply Hds in HD as (HD & Hne). split; [apply (Hb _ _ HD)|eauto].
  - intros d e D E p HD HE. apply Hds in HD as (HD & _), HE as (HE & _). eauto.
  - intros u k. rewrite fn_lookup_insert_ext. case_decide as Hut; [done|]. intros Hu.
    destruct (Hh _ _ Hu) as (D & HD & Hrest). exists D. split; [|done]. apply Hds. split; [done|].
    intros E. apply Hut. eauto.
  - intros u v k l. rewrite !fn_lookup_insert_ext. repeat case_decide; naive_solver.
Qed.

(** ** The hand-over of the frame *)

Definition is_spinning (p : counter) : bool := match p with Spinning _ _ => true | _ => false end.

(** A thread that is entering uses the frame of a creator that waits for it; a creator that has
    been released was released by its thread. *)
Record hand_ok (fr : nat → option arg_struct) (κ : nat → option counter) : Prop := {
  ha_enter : ∀ t p c, κ t = Some p → creator p = Some c →
    ∃ f, fr c = Some f ∧ pth f ≠ 0 ∧ κ c = Some (Spinning (pth f) (Some t));
  ha_spin : ∀ c r n, κ c = Some (Spinning r n) → ∃ f, fr c = Some f ∧
    (pth f = 0 → ∃ t p, n = Some t ∧ κ t = Some p ∧ creator p = None);
}.

Lemma hand_move fr κ t p p' :
  hand_ok fr κ → κ t = Some p → creator p' = creator p →
  is_spinning p = false → is_spinning p' = false → hand_ok fr (<[t := Some p']> κ).
Proof.
  intros [He Hs] Ht Hc Hp Hp'. split.
  - intros u q c Hu Hq. assert (∃ q0, κ u = Some q0 ∧ creator q0 = Some c) as (q0 & Hu0 & Hq0).
    { rewrite fn_lookup_insert_ext in Hu. case_decide; simplify_eq; [exists p|exists q]; split; congruence. }
    destruct (He _ _ _ Hu0 Hq0) as (f & Hf & Hn & Hcs). exists f. split_and!; [done..|].
    rewrite fn_lookup_insert_ne; [done|]. intros ->. simplify_eq.
  - intros c r n Hcs. rewrite fn_lookup_insert_ext in Hcs. case_decide; [by simplify_eq|].
    destruct (Hs _ _ _ Hcs) as (f & Hf & Hrel). exists f. split; [done|]. intros H0.
    destruct (Hrel H0) as (u & q & -> & Hu & Hq). destruct (decide (t = u)) as [->|].
    + exists u, p'. rewrite fn_lookup_insert. split_and!; congruence.
    + exists u, q. by rewrite fn_lookup_insert_ne by done.
Qed.

Lemma hand_release fr κ t c f :
  hand_ok fr κ → κ t = Some (Named c) → fr c = Some f →
  hand_ok (<[c := Some (with_pth f 0)]> fr) (<[t := Some Released]> κ).
Proof.
  intros [He Hs] Ht Hf.
  destruct (He _ _ _ Ht eq_refl) as (f0 & Hf0 & Hn & Hc). simplify_eq.
  assert (t ≠ c) as Htc by congruence. split.
  - intros u q c' Hu Hq. rewrite fn_lookup_insert_ext in Hu. case_decide; [by simplify_eq|].
    destruct (He _ _ _ Hu Hq) as (g & Hg & Hgn & Hc'). exists g.
    assert (c ≠ c') as Hcc by (intros ->; congruence).
    assert (t ≠ c') by congruence.
    rewrite !fn_lookup_insert_ne by done. done.
  - intros c' r n Hc'. rewrite fn_lookup_insert_ext in Hc'. case_decide; [done|].
    destruct (decide (c = c')) as [<-|].
    + exists (with_pth f 0). rewrite fn_lookup_insert. split; [done|]. intros _.
      exists t, Released. rewrite fn_lookup_insert. split_and!; done || congruence.
    + destruct (Hs _ _ _ Hc') as (g & Hg & Hrel). exists g. rewrite fn_lookup_insert_ne by done.
      split; [done|]. intros H0. destruct (Hrel H0) as (u & q & -> & Hu & Hq).
      exists u. rewrite fn_lookup_insert_ext. case_decide; [|by exists q]. by exists Released.
Qed.

(** Nobody uses the frame of a creator that is released, or of one that does not wait. *)
Lemma frame_unused fr κ c t p :
  hand_ok fr κ → κ t = Some p → creator p = Some c →
  (∀ r n, κ c = Some (Spinning r n) → ∃ f, fr c = Some f ∧ pth f = 0) → False.
Proof.
  intros [He Hs] Ht Hp Hc. destruct (He _ _ _ Ht Hp) as (f & Hf & Hn & Hcs).
  destruct (Hc _ _ Hcs) as (g & Hg & ?). congruence.
Qed.

Lemma hand_return fr κ c r n f :
  hand_ok fr κ → κ c = Some (Spinning r n) → fr c = Some f → pth f = 0 →
  hand_ok (<[c := None]> fr) (<[c := Some Running]> κ).
Proof.
  intros Hh Hc Hf H0. pose proof Hh as [He Hs].
  assert (∀ t p, κ t = Some p → creator p = Some c → False) as Hun.
  { intros t p Ht Hp. apply (frame_unused fr κ c t p Hh Ht Hp). naive_solver. }
  split.
  - intros t p c' Ht Hp. rewrite fn_lookup_insert_ext in Ht. case_decide; [by simplify_eq|].
    destruct (He _ _ _ Ht Hp) as (g & Hg & Hn & Hc'). exists g.
    assert (c ≠ c') by (intros ->; eauto). rewrite !fn_lookup_insert_ne by done. done.
  - intros c' r' n' Hc'. rewrite fn_lookup_insert_ext in Hc'. case_decide; [done|].
    destruct (Hs _ _ _ Hc') as (g & Hg & Hrel). exists g. rewrite fn_lookup_insert_ne by done.
    split; [done|]. intros Hg0. destruct (Hrel Hg0) as (u & q & -> & Hu & Hq).
    exists u. rewrite fn_lookup_insert_ext. case_decide; [by exists Running|by exists q].
Qed.

Lemma hand_create fr κ c f n :
  hand_ok fr κ → κ c = Some Running → pth f ≠ 0 →
  hand_ok (<[c := Some f]> fr) (<[c := Some (Spinning (pth f) n)]> κ).
Proof.
  intros Hh Hc Hn. pose proof Hh as [He Hs]. split.
  - intros t p c' Ht Hp. rewrite fn_lookup_insert_ext in Ht. case_decide; [by simplify_eq|].
    destruct (He _ _ _ Ht Hp) as (g & Hg & Hgn & Hc'). exists g.
    assert (c ≠ c') by congruence. rewrite !fn_lookup_insert_ne by done. done.
  - intros c' r' n' Hc'. rewrite fn_lookup_insert_ext in Hc'. case_decide as Hcc.
    + simplify_eq. exists f. rewrite fn_lookup_insert. done.
    + destruct (Hs _ _ _ Hc') as (g & Hg & Hrel). exists g. rewrite fn_lookup_insert_ne by done.
      split; [done|]. intros Hg0. destruct (Hrel Hg0) as (u & q & -> & Hu & Hq).
      exists u. rewrite fn_lookup_insert_ext. case_decide; [by eexists|by exists q].
Qed.

Lemma hand_born fr κ c r t :
  hand_ok fr κ → κ c = Some (Spinning r (Some t)) → κ t = None →
  (∃ f, fr c = Some f ∧ pth f ≠ 0 ∧ pth f = r) → hand_ok fr (<[t := Some (Born c)]> κ).
Proof.
  intros [He Hs] Hc Ht (f & Hf & Hn & <-). split.
  - intros u p c' Hu Hp. rewrite fn_lookup_insert_ext in Hu. case_decide as Htu.
    + simplify_eq/=. exists f. rewrite fn_lookup_insert_ne by congruence. done.
    + destruct (He _ _ _ Hu Hp) as (g & Hg & Hgn & Hc'). exists g.
      rewrite fn_lookup_insert_ne by congruence. done.
  - intros c' r' n' Hc'. rewrite fn_lookup_insert_ext in Hc'. case_decide as Htc; [done|].
    destruct (Hs _ _ _ Hc') as (g & Hg & Hrel). exists g. split; [done|].
    intros Hg0. destruct (Hrel Hg0) as (u & q & -> & Hu & Hq).
    exists u, q. rewrite fn_lookup_insert_ne by congruence. done.
Qed.

(** ** The invariant *)

(** What concerns one thread alone: the socket the main thread remembers is the one it owns, and it
    never enters or leaves like the others; a thread that can reach [longjmp] has called [setjmp]. *)
Definition local_ok (main_fd : Z) (t : nat) (th : thread) : Prop :=
  if is_main t then
    (t_server_socket th = -1 ∨ t_server_socket th = main_fd) ∧
    match pc th with
    | Running | Spinning _ _ | Suspended => True
    | Closing _ _ | Closed _ _ => t_server_socket th ≠ -1
    | _ => False
    end
  else
    match pc th with
    | Running | Spinning _ _ | Closing _ _ | Closed _ _ => t_jmpbuf th = true
    | Suspended => False
    | _ => True
    end.

Record inv (w : world) : Prop := {
  in_sock : sock_ok (bitmap w) (open_fds w) (sockets w);
  in_mem : mem_ok (pages w) (dthreads w) (holdings w);
  in_hand : hand_ok (frames w) (counters w);
  in_local : ∀ t th, threads w t = Some th → local_ok (main_socket_fd w) t th;
  in_main : threads w 0%nat ≠ None;
}.

Lemma sock_ext b o σ σ' : sock_ok b o σ → (∀ t, σ' t = σ t) → sock_ok b o σ'.
Proof. intros H E. eapply sock_sub; [done|]. intros t s x. rewrite E. eauto. Qed.

Lemma mem_ext pg ds α α' : mem_ok pg ds α → (∀ t, α' t = α t) → mem_ok pg ds α'.
Proof. intros H E. eapply mem_sub; [done|]. intros t h. rewrite E. eauto 10. Qed.

Lemma hand_ext fr κ κ' : hand_ok fr κ → (∀ t, κ' t = κ t) → hand_ok fr κ'.
Proof.
  intros [He Hs] E. split; [intros t p c|intros c r n]; rewrite E; [intros Ht Hp|intros Hc].
  - setoid_rewrite E. eauto.
  - setoid_rewrite E. eauto.
Qed.

(** The views when one thread changes. *)
Lemma sockets_set t th w u :
  sockets (set_thread t th w) u = (<[t := socket_view (main_socket_fd w) t th]> (sockets w) : nat → _) u.
Proof. unfold sockets. cbn. rewrite !fn_lookup_insert_ext. by case_decide; subst. Qed.

Lemma holdings_set t th w u :
  holdings (set_thread t th w) u = (<[t := memory_view (frames w) t th]> (holdings w) : nat → _) u.
Proof. unfold holdings. cbn. rewrite !fn_lookup_insert_ext. by case_decide; subst. Qed.

Lemma counters_set t th w u :
  counters (set_thread t th w) u = (<[t := Some (pc th)]> (counters w) : nat → _) u.
Proof. unfold counters. cbn. rewrite !fn_lookup_insert_ext. by case_decide. Qed.

Lemma local_set t th w :
  (∀ u uh, threads w u = Some uh → local_ok (main_socket_fd w) u uh) →
  local_ok (main_socket_fd w) t th →
  ∀ u uh, threads (set_thread t th w) u = Some uh → local_ok (main_socket_fd w) u uh.
Proof.
  intros H Ht u uh. cbn. rewrite fn_lookup_insert_ext. case_decide; [|apply H]. intros. by simplify_eq.
Qed.

Lemma main_set t th w : threads w 0%nat ≠ None → threads (set_thread t th w) 0%nat ≠ None.
Proof. cbn. rewrite fn_lookup_insert_ext. by case_decide. Qed.

(** A holding that carries the same block. *)
Definition same_holding (ds : Z → option dthread) (h' h : holding) : Prop :=
  pth (h_args h') = pth (h_args h) ∧ stack_addr (h_args h') = stack_addr (h_args h) ∧
  (h_named h' = true → h_named h = true ∧ port (h_args h') = port (h_args h)) ∧
  (∀ r, h_free h' = Some r → h_free h = Some r ∨
     ∃ D, ds (pth (h_args h)) = Some D ∧ r = (freeaddr D, freesize D)).

Lemma same_holding_refl ds h : same_holding ds h h.
Proof. split_and!; auto. Qed.

Lemma mem_update pg ds α t v :
  mem_ok pg ds α → (∀ h', v = Some h' → ∃ h, α t = Some h ∧ same_holding ds h' h) →
  mem_ok pg ds (<[t := v]> α).
Proof.
  intros Hm Hv. eapply mem_sub; [done|]. intros u h'. rewrite fn_lookup_insert_ext.
  case_decide; [subst; apply Hv|]. intros Hu. exists h'. split; [done|]. apply same_holding_refl.
Qed.

Lemma sock_update b o σ t v :
  sock_ok b o σ → (∀ s x, v = Some (s, x) → ∃ y, σ t = Some (s, y) ∧ (x = true → y = true)) →
  sock_ok b o (<[t := v]> σ).
Proof.
  intros Hs Hv. eapply sock_sub; [done|]. intros u s x. rewrite fn_lookup_insert_ext.
  case_decide; [subst; apply Hv|]. eauto.
Qed.

(** One thread moves on, keeping or giving up what it holds. *)
Lemma inv_set_thread w t th th' :
  inv w → threads w t = Some th →
  (∀ s x, socket_view (main_socket_fd w) t th' = Some (s, x) →
     ∃ y, socket_view (main_socket_fd w) t th = Some (s, y) ∧ (x = true → y = true)) →
  (∀ h', memory_view (frames w) t th' = Some h' →
     ∃ h, memory_view (frames w) t th = Some h ∧ same_holding (dthreads w) h' h) →
  creator (pc th') = creator (pc th) → is_spinning (pc th) = false → is_spinning (pc th') = false →
  local_ok (main_socket_fd w) t th' → inv (set_thread t th' w).
Proof.
  intros [Hs Hm Hh Hl H0] Ht Hsv Hmv Hc Hp Hp' Hl'. split.
  - eapply sock_ext; [|apply sockets_set]. apply sock_update; [done|]. unfold sockets. by rewrite Ht.
  - eapply mem_ext; [|apply holdings_set]. apply mem_update; [done|]. unfold holdings. by rewrite Ht.
  - eapply hand_ext; [|apply counters_set]. eapply hand_move; eauto. unfold counters. by rewrite Ht.
  - by apply local_set.
  - by apply main_set.
Qed.

(** ** Contracts of the environment *)

(** What the kernel and the program promise when a thread is created.  A successful [mmap] returns
    unused pages, the program asks for a stack of at least a page in multiples of 16 bytes; or it
    passes a structure it has mapped and not used, with its stack as [arg2]. *)
Definition create_ok (w : world) (a : create_args) (base : option Z) : Prop :=
  if allocates a then
    ∀ b, base = Some b → b mod PAGE_SIZE = 0 ∧ PAGE_SIZE ≤ b ∧
      PAGE_SIZE ≤ c_stack_size a ∧ c_stack_size a mod 16 = 0 ∧
      let total := DEFAULT_DTHREAD_GUARD_SIZE + c_stack_size a + sizeof_dthread in
      b + total < 2 ^ 63 ∧ unmapped (pages w) b total = true
  else
    ∃ D, dthreads w (c_pth a) = Some D ∧ c_arg2 a = stackaddr D ∧
      ∀ t h, holdings w t = Some h → pth (h_args h) ≠ c_pth a.

(** The same for every step: a thread passes its own block when it terminates, and the program maps
    blocks in free pages. *)
Definition promised (w : world) (ev : event) : Prop :=
  match ev with
  | Create _ a base _ => create_ok w a base
  | Terminate t fa fs => ∀ h D, holdings w t = Some h → dthreads w (pth (h_args h)) = Some D →
      (fa, fs) = (freeaddr D, freesize D)
  | UserMap d D => placed d D ∧ unmapped (pages w) (freeaddr D) (freesize D) = true
  | _ => True
  end.

(** The two steps whose code is wrong: a creation for which [mmap] fails, and the release of a
    socket for which the shrinking loop of the bitmap runs wild (see [empties_last_byte]). *)
Definition defective (w : world) (ev : event) : bool :=
  match ev with
  | Create _ a base _ => allocates a && negb (bool_decide (is_Some base))
  | Put t _ =>
      match sockets w t with
      | Some (s, _) => empties_last_byte (bitmap w) (highest (bitmap w) - s)
      | None => false
      end
  | _ => false
  end.

(** The steps the theorems speak of. *)
Definition env_ok (w : world) (ev : event) : Prop := promised w ev ∧ defective w ev = false.

(** The answers after which the process is aborted. *)
Definition may_abort (w : world) (ev : event) : bool :=
  match ev with
  | Socket _ e | Refresh _ e => refused e (bitmap w)
  | CheckIn _ ok => negb ok
  | _ => false
  end.

Definition safe (w : world) (ev : event) (r : res stop world) : Prop :=
  match r with
  | Ok w => inv w
  | Err Disabled => True
  | Err Aborted => may_abort w ev = true
  | UB | NoFuel => False
  end.

(** ** Every step keeps the invariant *)

Section Steps.
Context (w : world) (t : nat) (th : thread).
Hypothesis (Hinv : inv w) (Ht : threads w t = Some th).

Lemma own_local : local_ok (main_socket_fd w) t th.
Proof. by apply (in_local w Hinv). Qed.

Lemma own_counter : counters w t = Some (pc th).
Proof. unfold counters. by rewrite Ht. Qed.

Lemma own_socket : sockets w t = socket_view (main_socket_fd w) t th.
Proof. unfold sockets. by rewrite Ht. Qed.

Lemma own_holding : holdings w t = memory_view (frames w) t th.
Proof. unfold holdings. by rewrite Ht. Qed.

Lemma entering_not_main c : creator (pc th) = Some c → is_main t = false.
Proof.
  pose proof own_local as Hl. unfold local_ok in Hl. intros Hc.
  destruct (is_main t); [|done]. destruct Hl as [_ Hl]. by destruct (pc th).
Qed.

(** The frame of the creator, while the thread needs it. *)
Lemma entering_frame c :
  creator (pc th) = Some c → ∃ f, frames w c = Some f ∧ pth f ≠ 0 ∧
    counters w c = Some (Spinning (pth f) (Some t)).
Proof. intros Hc. by apply (ha_enter _ _ (in_hand w Hinv) t (pc th)); [apply own_counter|]. Qed.

Lemma step_enter c ev : pc th = Born c → safe w ev (entry_copy t c w th).
Proof.
  intros Hp. destruct (entering_frame c) as (f & Hf & _); [by rewrite Hp|].
  assert (is_main t = false) as Hm by (apply (entering_not_main c); by rewrite Hp).
  unfold entry_copy. rewrite Hf. cbn.
  eapply inv_set_thread; eauto; rewrite ?Hp; cbn; try done.
  - unfold memory_view. rewrite Hp. cbn. rewrite Hm, Hf. intros h' [= <-].
    eexists. split; [done|]. apply same_holding_refl.
  - unfold local_ok. by rewrite Hm.
Qed.

Lemma step_base c fd ev : pc th = Socketed c fd → safe w ev (entry_base t c fd w th).
Proof.
  intros Hp. assert (is_main t = false) as Hm by (apply (entering_not_main c); by rewrite Hp).
  cbn. eapply inv_set_thread; eauto; rewrite ?Hp; cbn; try done.
  - unfold socket_view. rewrite Hp, Hm. cbn. eauto.
  - unfold memory_view. rewrite Hp, Hm. cbn. intros h' [= <-]. eexists. split; [done|].
    unfold same_holding, or_flags. cbn. by destruct (is_workqueue _).
  - unfold local_ok. by rewrite Hm.
Qed.

Lemma step_checkin c ok ev :
  pc th = Based c → may_abort w ev = negb ok → safe w ev (entry_checkin t c ok w th).
Proof.
  intros Hp Ha. assert (is_main t = false) as Hm by (apply (entering_not_main c); by rewrite Hp).
  unfold entry_checkin. destruct ok; cbn; [|done].
  eapply inv_set_thread; eauto; rewrite ?Hp; cbn; try done.
  - unfold socket_view. rewrite Hp, Hm. cbn. eauto.
  - unfold memory_view. rewrite Hp, Hm. cbn. intros h' [= <-]. eexists. split; [done|]. done.
  - unfold local_ok. by rewrite Hm.
Qed.

(** The structure of a thread that holds a block. *)
Lemma own_block h :
  holdings w t = Some h → ∃ D, dthreads w (pth (h_args h)) = Some D ∧
    placed (pth (h_args h)) D ∧ block_mapped (pages w) D ∧ stack_addr (h_args h) = stackaddr D.
Proof.
  intros Hh. destruct (me_hold _ _ _ (in_mem w Hinv) _ _ Hh) as (D & HD & Hs & _).
  exists D. by destruct (me_block _ _ _ (in_mem w Hinv) _ _ HD).
Qed.

Lemma step_self c p ev : pc th = CheckedIn c → safe w ev (entry_self t c p w th).
Proof.
  intros Hp. assert (is_main t = false) as Hm by (apply (entering_not_main c); by rewrite Hp).
  assert (holdings w t = Some (mkHolding (args th) false None)) as Hh
    by (rewrite own_holding; unfold memory_view; by rewrite Hp, Hm).
  destruct (own_block _ Hh) as (D & HD & Hpl & Hbm & Hs). cbn [h_args] in *.
  unfold entry_self. rewrite HD, (struct_writable _ _ D) by done. cbn.
  set (D' := set_tsd D _ _). set (a := with_port (args th) p). destruct Hinv as [Hsk Hmm Hhd Hl H0].
  assert (Ht' : threads (set_memory (pages w) (<[pth (args th) := Some D']> (dthreads w)) w) t = Some th)
    by done.
  split.
  - eapply sock_ext; [|apply sockets_set]. apply sock_update; [apply Hsk|].
    change (sockets (set_memory _ _ w) t) with (sockets w t). rewrite own_socket.
    unfold socket_view. rewrite Hp, Hm. cbn. eauto.
  - eapply mem_ext; [|apply holdings_set].
    replace (memory_view _ t _) with (Some (mkHolding a true None)) by (unfold memory_view; cbn; by rewrite Hm).
    eapply (mem_write _ _ _ t _ a D); eauto.
  - eapply hand_ext; [|apply counters_set]. eapply hand_move; [apply Hhd|apply own_counter|..]; by rewrite ?Hp.
  - apply local_set; [done|]. unfold local_ok. by rewrite Hm.
  - by apply main_set.
Qed.

Lemma step_socket c e ev :
  pc th = Copied c → may_abort w ev = refused e (bitmap w) →
  safe w ev (entry_socket t c e w th).
Proof.
  intros Hp Ha. assert (is_main t = false) as Hm by (apply (entering_not_main c); by rewrite Hp).
  pose proof (sock_open e w (sockets w) t (in_sock w Hinv)) as Ho. unfold entry_socket.
  destruct (refused e (bitmap w)); [by rewrite Ho|]. destruct Ho as (fd & b & -> & Hsk'). cbn.
  destruct Hinv as [Hsk Hmm Hhd Hl H0]. split.
  - eapply sock_ext; [apply Hsk'|]. intros u. by rewrite sockets_set.
  - eapply mem_ext; [|apply holdings_set]. apply mem_update; [apply Hmm|].
    change (holdings (set_sockets _ _ w) t) with (holdings w t). rewrite own_holding.
    unfold memory_view. rewrite Hp, Hm. cbn. intros h' [= <-]. eexists. split; [done|].
    apply same_holding_refl.
  - eapply hand_ext; [|apply counters_set]. eapply hand_move; [apply Hhd|apply own_counter|..]; by rewrite ?Hp.
  - apply local_set; [done|]. unfold local_ok. by rewrite Hm.
  - by apply main_set.
Qed.

Lemma align_16_bounds x : align_16 x = x / 16 * 16.
Proof.
  unfold align_16. rewrite <- Z.ldiff_land. change 15 with (Z.ones 4).
  by rewrite Z.ldiff_ones_r, Z.shiftl_mul_pow2, Z.shiftr_div_pow2 by lia.
Qed.

Lemma step_jump ev : pc th = Released → safe w ev (entry_jump t w th).
Proof.
  intros Hp. assert (is_main t = false) as Hm.
  { pose proof own_local as Hl. unfold local_ok in Hl. rewrite Hp in Hl.
    destruct (is_main t); [by destruct Hl|done]. }
  assert (memory_view (frames w) t th = Some (mkHolding (args th) true None)) as Hmv
    by (unfold memory_view; by rewrite Hp, Hm).
  destruct (own_block (mkHolding (args th) true None)) as (D & HD & Hpl & Hbm & Hs).
  { by rewrite own_holding. }
  cbn [h_args] in *. unfold entry_jump. rewrite Hs, align_16_bounds.
  rewrite (block_writable _ (pth (args th)) D); try done.
  2-3: destruct Hpl; unfold PAGE_SIZE, sizeof_dthread in *; lia.
  cbn. eapply inv_set_thread; eauto; rewrite ?Hp; cbn; try done.
  - unfold socket_view. rewrite Hp, Hm. cbn. eauto.
  - rewrite Hmv. unfold memory_view. cbn. rewrite Hm. intros h' [= <-]. eexists. split; [done|].
    apply same_holding_refl.
  - unfold local_ok. by rewrite Hm.
Qed.

(** A change of a frame nobody is about to copy. *)
Lemma holdings_frame c f v u :
  (∀ x, counters v x ≠ Some (Born c)) → holdings (set_frame c f v) u = holdings v u.
Proof.
  intros Hn. unfold holdings. cbn. specialize (Hn u). unfold counters in Hn.
  destruct (threads v u) as [uh|]; [|done]. cbn in *. unfold memory_view.
  destruct (pc uh) eqn:E; try done. cbn. rewrite fn_lookup_insert_ne; [done|]. congruence.
Qed.

Lemma step_release c ev : pc th = Named c → safe w ev (entry_release t c w th).
Proof.
  intros Hp. destruct (entering_frame c) as (f & Hf & Hn & Hc); [by rewrite Hp|].
  assert (is_main t = false) as Hm by (apply (entering_not_main c); by rewrite Hp).
  unfold entry_release. rewrite Hf. cbn. destruct Hinv as [Hsk Hmm Hhd Hl H0].
  assert (counters w t = Some (Named c)) as Hk by (rewrite own_counter; congruence). split.
  - eapply sock_ext; [|apply sockets_set]. apply sock_update; [done|]. rewrite own_socket.
    unfold socket_view. rewrite Hp, Hm. cbn. eauto.
  - eapply mem_ext; [|intros u; rewrite holdings_frame; [apply holdings_set|]].
    + apply mem_update; [done|]. rewrite own_holding. unfold memory_view. rewrite Hp, Hm. cbn.
      intros h' [= <-]. eexists. split; [done|]. apply same_holding_refl.
    + intros x. rewrite counters_set, fn_lookup_insert_ext. case_decide as Hx; [done|]. intros Hb.
      destruct (ha_enter _ _ Hhd _ _ _ Hb eq_refl) as (g & _ & _ & Hg). congruence.
  - eapply hand_ext; [|apply (counters_set t _ w)]. by apply hand_release.
  - apply (local_set t _ w); [done|]. unfold local_ok. by rewrite Hm.
  - by apply (main_set t _ w).
Qed.

Lemma step_spin r n ev : pc th = Spinning r n → safe w ev (create_spin t w th).
Proof.
  intros Hp. assert (counters w t = Some (Spinning r n)) as Hk by (rewrite own_counter; congruence).
  destruct (ha_spin _ _ (in_hand w Hinv) _ _ _ Hk) as (f & Hf & _).
  unfold create_spin. rewrite Hf. cbn. destruct (Z.eqb_spec (pth f) 0) as [E|]; cbn; [|done].
  assert (∀ x, counters w x ≠ Some (Born t)) as Hnb.
  { intros x Hx. apply (frame_unused _ _ t x _ (in_hand w Hinv) Hx eq_refl). eauto. }
  pose proof own_local as Hlo. unfold local_ok in Hlo. rewrite Hp in Hlo.
  destruct Hinv as [Hsk Hmm Hhd Hl H0]. split.
  - eapply sock_ext; [|apply sockets_set]. apply sock_update; [done|]. rewrite own_socket.
    unfold socket_view. rewrite Hp. cbn. eauto.
  - eapply mem_ext; [|intros u; rewrite holdings_frame; [apply holdings_set|]].
    + apply mem_update; [done|]. rewrite own_holding. unfold memory_view. rewrite Hp. cbn.
      intros h' Hh'. exists h'. split; [done|]. apply same_holding_refl.
    + intros x. rewrite counters_set, fn_lookup_insert_ext. by case_decide.
  - eapply hand_ext; [|apply (counters_set t _ w)]. by eapply hand_return.
  - apply (local_set t _ w); [done|]. unfold local_ok. cbn. exact Hlo.
  - by apply (main_set t _ w).
Qed.

(** The socket of a running thread other than the main one is a descriptor. *)
Lemma own_socket_valid : pc th = Running → is_main t = false → t_server_socket th ≠ -1.
Proof.
  intros Hp Hm E. assert (sockets w t = Some (-1, true)) as Hs.
  { rewrite own_socket. unfold socket_view. by rewrite Hp, Hm, E. }
  apply (so_taken _ _ _ (in_sock w Hinv)) in Hs. lia.
Qed.

Lemma step_terminate fa fs ev :
  pc th = Running → env_ok w (Terminate t fa fs) → safe w ev (osxie_thread_terminate t fa fs w th).
Proof.
  intros Hp [He _]. cbn in He. pose proof own_local as Hl. unfold local_ok in Hl. rewrite Hp in Hl.
  unfold osxie_thread_terminate. destruct (Z.eqb_spec (t_server_socket th) (-1)) as [E|E]; cbn [negb].
  - unfold terminate_leave. destruct (is_main t) eqn:Hm.
    2: { by destruct (own_socket_valid Hp Hm). }
    cbn. eapply inv_set_thread; eauto; rewrite ?Hp; cbn; try done.
    unfold local_ok. rewrite Hm. cbn. tauto.
  - cbn. eapply inv_set_thread; eauto; rewrite ?Hp; cbn; try done.
    + unfold socket_view. rewrite Hp. cbn. eauto.
    + unfold memory_view. rewrite Hp. cbn. destruct (is_main t) eqn:Hm; [done|]. intros h' [= <-].
      eexists. split; [done|]. unfold same_holding. cbn. split_and!; try done. intros r [= <-]. right.
      assert (holdings w t = Some (mkHolding (args th) true None)) as Hh
        by (rewrite own_holding; unfold memory_view; by rewrite Hp, Hm).
      destruct (own_block _ Hh) as (D & HD & _). exists D. split; [done|]. by eapply He.
    + unfold local_ok. cbn. revert Hl. destruct (is_main t); tauto.
Qed.

(** The socket that is given back is the one the thread owns. *)
Lemma closing_socket fa fs x :
  pc th = (if x : bool then Closing fa fs else Closed fa fs) →
  sockets w t = Some (t_server_socket th, x).
Proof.
  intros Hp. pose proof own_local as Hl. unfold local_ok in Hl. rewrite own_socket. unfold socket_view.
  rewrite Hp in *. destruct (is_main t); [|by destruct x].
  assert (t_server_socket th = main_socket_fd w) as -> by (destruct x; tauto). by destruct x.
Qed.

Lemma step_close fa fs ev : pc th = Closing fa fs → safe w ev (terminate_close t fa fs w th).
Proof.
  intros Hp. pose proof own_local as Hlo. unfold local_ok in Hlo. rewrite Hp in Hlo.
  pose proof (closing_socket fa fs true Hp) as Hs. destruct Hinv as [Hsk Hmm Hhd Hl H0]. split.
  - eapply sock_ext; [apply (sock_close _ _ _ t _ Hsk Hs)|]. intros u. cbn [bitmap open_fds set_thread].
    rewrite sockets_set, !fn_lookup_insert_ext. case_decide; [subst u|done].
    unfold socket_view. cbn. revert Hs. rewrite own_socket. unfold socket_view. rewrite Hp.
    by intros [= ->].
  - eapply mem_ext; [|apply holdings_set]. apply mem_update; [apply Hmm|].
    change (holdings (set_sockets _ _ w) t) with (holdings w t). rewrite own_holding.
    unfold memory_view. rewrite Hp. cbn. intros h' Hh'. exists h'. split; [done|]. apply same_holding_refl.
  - eapply hand_ext; [|apply counters_set]. eapply hand_move; [apply Hhd|apply own_counter|..]; by rewrite ?Hp.
  - apply local_set; [done|]. unfold local_ok. cbn. done.
  - by apply main_set.
Qed.

Lemma step_put fa fs e ev :
  pc th = Closed fa fs → env_ok w (Put t e) → safe w ev (terminate_put t fa fs e w th).
Proof.
  intros Hp [_ He]. pose proof own_local as Hlo. unfold local_ok in Hlo. rewrite Hp in Hlo.
  pose proof (closing_socket fa fs false Hp) as Hs. cbn in He. rewrite Hs in He. destruct Hinv as [Hsk Hmm Hhd Hl H0].
  destruct (sock_put e _ _ _ t _ _ Hsk Hs He) as (b & Hb & Hsk').
  unfold terminate_put. rewrite Hb. cbn. unfold terminate_leave.
  assert (∀ th', socket_view (main_socket_fd w) t th' = None →
    (∀ h', memory_view (frames w) t th' = Some h' → memory_view (frames w) t th = Some h') →
    creator (pc th') = None → is_spinning (pc th') = false → local_ok (main_socket_fd w) t th' →
    inv (set_thread t th' (set_sockets b (open_fds w) w))) as Hgo.
  { intros th' Hv Hm Hc Hsp Hl'. split.
    - eapply sock_ext; [apply Hsk'|]. intros u. rewrite sockets_set, !fn_lookup_insert_ext.
      by case_decide.
    - eapply mem_ext; [|apply holdings_set]. apply mem_update; [apply Hmm|].
      change (holdings (set_sockets _ _ w) t) with (holdings w t). rewrite own_holding.
      intros h' Hh'. exists h'. split; [by apply Hm|apply same_holding_refl].
    - eapply hand_ext; [|apply counters_set].
      eapply hand_move; [apply Hhd|apply own_counter|..]; by rewrite ?Hp.
    - by apply local_set.
    - by apply main_set. }
  destruct (is_main t) eqn:Hm; cbn.
  - apply Hgo; try done. unfold local_ok. rewrite Hm. cbn. tauto.
  - rewrite Hlo. cbn. apply Hgo; try done.
    + unfold memory_view. rewrite Hp. cbn. by rewrite Hm.
    + unfold local_ok. by rewrite Hm.
Qed.

Lemma step_unmap ev : pc th = Unmapping → safe w ev (entry_unmap t w th).
Proof.
  intros Hp. assert (is_main t = false) as Hm.
  { pose proof own_local as Hl. unfold local_ok in Hl. rewrite Hp in Hl.
    destruct (is_main t); [by destruct Hl|done]. }
  assert (holdings w t = Some (mkHolding (args th) true (Some (t_free th)))) as Hh
    by (rewrite own_holding; unfold memory_view; by rewrite Hp, Hm).
  destruct Hinv as [Hsk Hmm Hhd Hl H0]. split.
  - eapply sock_ext; [|apply sockets_set]. by apply sock_update.
  - eapply mem_ext; [|apply holdings_set]. by apply (mem_unmap w (holdings w) t _ (t_free th) Hmm Hh).
  - eapply hand_ext; [|apply counters_set]. eapply hand_move; [apply Hhd|apply own_counter|..]; by rewrite ?Hp.
  - apply local_set; [done|]. unfold local_ok. by rewrite Hm.
  - by apply main_set.
Qed.

Lemma step_detach ev : pc th = Detaching → safe w ev (entry_detach t w th).
Proof.
  intros Hp. pose proof own_local as Hl. unfold local_ok in Hl. rewrite Hp in Hl. cbn.
  eapply inv_set_thread; eauto; rewrite ?Hp; cbn; try done.
Qed.

Lemma step_rpc_socket ev :
  pc th = Running → safe w ev ('(_, w) ← osxie_thread_rpc_socket t w th; Ok w).
Proof.
  intros Hp. pose proof own_local as Hl. unfold local_ok in Hl. rewrite Hp in Hl.
  unfold osxie_thread_rpc_socket. destruct (Z.eqb_spec (t_server_socket th) (-1)) as [E|E]; [|done].
  destruct (is_main t) eqn:Hm; [|by destruct (own_socket_valid Hp Hm)].
  cbn. eapply inv_set_thread; eauto; rewrite ?Hp; cbn; try done.
  - unfold socket_view. cbn. rewrite Hp, Hm. eauto.
  - unfold memory_view. cbn. by rewrite Hp, Hm.
  - by rewrite Hp.
  - unfold local_ok. cbn. rewrite Hm, Hp. tauto.
Qed.

Lemma step_refresh e ev :
  pc th = Running → may_abort w ev = refused e (bitmap w) →
  safe w ev (osxie_thread_rpc_socket_refresh t e w th).
Proof.
  intros Hp Ha. pose proof own_local as Hlo. unfold local_ok in Hlo. rewrite Hp in Hlo.
  pose proof (sock_open e w (sockets w) t (in_sock w Hinv)) as Ho.
  unfold osxie_thread_rpc_socket_refresh. destruct (refused e (bitmap w)); [by rewrite Ho|].
  destruct Ho as (fd & b & -> & Hsk'). cbn. destruct Hinv as [Hsk Hmm Hhd Hl H0].
  set (w' := if is_main t then _ else _).
  assert (∀ u, is_main u = true → u = 0%nat) as Hz by (intros [|u]; done).
  assert (threads w' = <[t := Some (with_socket th fd)]> (threads w)) as Eth
    by (subst w'; by destruct (is_main t)).
  assert (∀ u uh, is_main u = false → socket_view (main_socket_fd w') u uh = socket_view (main_socket_fd w) u uh) as Esv.
  { intros u uh Hu. unfold socket_view. by rewrite Hu. }
  assert (pages w' = pages w ∧ dthreads w' = dthreads w ∧ frames w' = frames w ∧ bitmap w' = b ∧
    open_fds w' = <[fd := true]> (open_fds w)) as (Ep & Ed & Ef & Eb & Eo)
    by (subst w'; by destruct (is_main t)).
  split.
  - rewrite Eb, Eo. eapply sock_ext; [apply Hsk'|]. intros u. unfold sockets. rewrite Eth.
    rewrite !fn_lookup_insert_ext. case_decide as Hu; [subst u|].
    + cbn. unfold socket_view. cbn. rewrite Hp. subst w'. by destruct (is_main t).
    + destruct (threads w u) as [uh|] eqn:Huh; [|done]. cbn. destruct (is_main u) eqn:Hmu; [|by apply Esv].
      unfold w'. destruct (is_main t) eqn:Hmt; [|done]. apply Hz in Hmu, Hmt. congruence.
  - rewrite Ep, Ed. eapply mem_ext; [apply Hmm|]. intros u. unfold holdings. rewrite Eth, Ef.
    rewrite fn_lookup_insert_ext. case_decide as Hu; [subst u|done]. rewrite Ht. cbn. unfold memory_view.
    cbn. by rewrite Hp.
  - rewrite Ef. eapply hand_ext; [apply Hhd|]. intros u. unfold counters. rewrite Eth.
    rewrite fn_lookup_insert_ext. case_decide as Hu; [subst u|done]. by rewrite Ht.
  - intros u uh. rewrite Eth, fn_lookup_insert_ext. case_decide as Hu; intros Huh.
    + subst u. simplify_eq. unfold local_ok. cbn. rewrite Hp. subst w'.
      destruct (is_main t); [cbn; tauto|done].
    + pose proof (Hl _ _ Huh) as Hlu. unfold local_ok in *. destruct (is_main u) eqn:Hmu; [|done].
      unfold w'. destruct (is_main t) eqn:Hmt; [|done]. apply Hz in Hmu, Hmt. congruence.
  - rewrite Eth, fn_lookup_insert_ext. by case_decide.
Qed.
End Steps.

(** *** Creating a thread *)

Lemma inv_memory w pg ds :
  inv w → mem_ok pg ds (holdings w) → inv (set_memory pg ds w).
Proof. intros [Hs Hm Hh Hl H0] Hm'. by split. Qed.

Lemma step_user_map w d D : inv w → promised w (UserMap d D) → inv (user_map d D w).
Proof.
  intros Hi (Hp & Hu). apply inv_memory; [done|]. by apply mem_alloc; [apply Hi|..].
Qed.

(** The block [dthread_structure_allocate] builds. *)
Definition new_dthread (b stack_size : Z) : dthread :=
  let d := b + stack_size + DEFAULT_DTHREAD_GUARD_SIZE in
  dthread_structure_init d DEFAULT_DTHREAD_GUARD_SIZE d stack_size b
    (DEFAULT_DTHREAD_GUARD_SIZE + stack_size + sizeof_dthread).

Lemma allocate_ok w a b :
  inv w → b mod PAGE_SIZE = 0 → PAGE_SIZE ≤ b → PAGE_SIZE ≤ c_stack_size a → c_stack_size a mod 16 = 0 →
  b + (DEFAULT_DTHREAD_GUARD_SIZE + c_stack_size a + sizeof_dthread) < 2 ^ 63 →
  unmapped (pages w) b (DEFAULT_DTHREAD_GUARD_SIZE + c_stack_size a + sizeof_dthread) = true →
  let D := new_dthread b (c_stack_size a) in let d := sig D in
  placed d D ∧ stackaddr D = d ∧
  dthread_structure_allocate (c_stack_size a) DEFAULT_DTHREAD_GUARD_SIZE (Some b) w =
    Ok (d, d, set_memory (alloc_pages D (pages w)) (<[d := Some D]> (dthreads w)) w).
Proof.
  intros Hi Hb Hlow Hst H16 Hhigh Hun D d.
  unfold DEFAULT_DTHREAD_GUARD_SIZE, sizeof_dthread, PAGE_SIZE in *.
  assert (d = b + c_stack_size a + 4096) as Ed by done.
  assert (placed d D) as Hp.
  { split; unfold DEFAULT_DTHREAD_GUARD_SIZE, sizeof_dthread, PAGE_SIZE; cbn -[Z.add Z.sub Z.modulo];
      unfold DEFAULT_DTHREAD_GUARD_SIZE, sizeof_dthread, PAGE_SIZE; rewrite ?u64_small; try lia. }
  split_and!; [done..|]. unfold dthread_structure_allocate. cbn [default].
  unfold sizeof_dthread. rewrite !u64_small by lia. cbn [from_option id].
  rewrite <- Ed, (u64_small d) by lia.
  match goal with |- context [writable ?pg d _] => change pg with (alloc_pages D (pages w)) end.
  change 6368 with sizeof_dthread. rewrite (struct_writable _ d D); [|done|].
  2: { intros p HpD. rewrite alloc_pages_at, HpD by done. by destruct (page_in _ _ p). }
  rewrite (proj2 (Z.eqb_eq (d mod 16) 0)) by lia. done.
Qed.

(** The rest of the creation: the frame, the state of the creator, the new thread. *)
Lemma create_tail w c th f D new :
  inv w → threads w c = Some th → pc th = Running → dthreads w (pth f) = Some D →
  stack_addr f = stackaddr D → (∀ t h, holdings w t = Some h → pth (h_args h) ≠ pth f) →
  let w1 := set_thread c (with_pc th (Spinning (pth f) new)) (set_frame c (Some f) w) in
  inv w1 ∧
  (∀ t st, new = Some t → threads w1 t = None → inv (set_thread t (native_thread (Born c) st) w1)).
Proof.
  intros Hi Hc Hp HD Hs Hne w1. pose proof Hi as [Hsk Hmm Hhd Hl H0].
  pose proof (own_local w c th Hi Hc) as Hlo. unfold local_ok in Hlo. rewrite Hp in Hlo.
  assert (counters w c = Some Running) as Hk by (rewrite (own_counter w c th Hc); congruence).
  assert (pth f ≠ 0) as Hn.
  { destruct (me_block _ _ _ Hmm _ _ HD) as ([] & _). unfold PAGE_SIZE in *. lia. }
  assert (∀ x, counters w x ≠ Some (Born c)) as Hnb.
  { intros x Hx. apply (frame_unused _ _ c x _ Hhd Hx eq_refl). congruence. }
  assert (∀ u, holdings w1 u = holdings w u) as Hho.
  { intros u. unfold w1. rewrite holdings_set, fn_lookup_insert_ext. case_decide; [subst u|by apply holdings_frame].
    unfold memory_view. cbn. rewrite (own_holding w c th Hc). unfold memory_view. by rewrite Hp. }
  assert (inv w1) as Hi1.
  { split.
    - eapply sock_ext; [|apply sockets_set]. apply sock_update; [apply Hsk|].
      change (sockets (set_frame _ _ w) c) with (sockets w c). rewrite (own_socket w c th Hc).
      unfold socket_view. rewrite Hp. cbn. eauto.
    - by eapply mem_ext.
    - eapply hand_ext; [|apply counters_set]. by apply hand_create.
    - apply (local_set c _ (set_frame c (Some f) w)); [done|]. unfold local_ok. cbn. exact Hlo.
    - by apply (main_set c _ (set_frame c (Some f) w)). }
  split; [done|]. intros t st -> Ht. destruct Hi1 as [Hsk1 Hmm1 Hhd1 Hl1 H01].
  assert (is_main t = false) as Hm by (destruct t; [by rewrite Ht in H01|done]).
  assert (frames w1 c = Some f) as Hf by (cbn; apply fn_lookup_insert).
  split.
  - eapply sock_ext; [|apply sockets_set]. by apply sock_update.
  - eapply mem_ext; [|apply holdings_set].
    replace (memory_view _ t _) with (Some (mkHolding f false None))
      by (unfold memory_view; cbn [pc native_thread]; by rewrite Hf).
    eapply mem_hold; eauto. intros u h. rewrite Hho. apply Hne.
  - eapply hand_ext; [|apply counters_set]. apply (hand_born _ _ c (pth f) t Hhd1).
    + unfold w1. by rewrite counters_set, fn_lookup_insert.
    + unfold counters. by rewrite Ht.
    + eauto.
  - apply local_set; [done|]. unfold local_ok. by rewrite Hm.
  - by apply main_set.
Qed.

Lemma step_create w c th a base new ev :
  inv w → threads w c = Some th → pc th = Running → env_ok w (Create c a base new) →
  safe w ev (osxie_thread_create c a base new w th).
Proof.
  intros Hi Hc Hp Ha.
  assert (∃ p top w' D, (if allocates a
                  then dthread_structure_allocate (c_stack_size a) DEFAULT_DTHREAD_GUARD_SIZE base w
                  else Ok (c_pth a, c_arg2 a, w)) = Ok (p, top, w') ∧ inv w' ∧ threads w' c = Some th ∧
    dthreads w' p = Some D ∧ top = stackaddr D ∧
    ∀ t h, holdings w' t = Some h → pth (h_args h) ≠ p) as (p & top & w' & D & E & Hi' & Hc' & HD & Hs & Hne).
  { destruct Ha as [Ha Hd]. cbn in Ha, Hd. unfold create_ok in Ha. destruct (allocates a).
    - destruct base as [b|]; [|done]. destruct (Ha b eq_refl) as (Hb & Hlow & Hst & H16 & Hhigh & Hun).
      destruct (allocate_ok w a b Hi Hb Hlow Hst H16 Hhigh Hun) as (Hpl & Hsa & ->).
      destruct (mem_alloc (pages w) (dthreads w) (holdings w) _ _ (in_mem w Hi) Hpl Hun) as (Hm & _ & Hne).
      eexists _, _, _, _. split_and!; [done|by apply inv_memory|done|apply fn_lookup_insert|done|done].
    - destruct Ha as (D & HD & Hs & Hne). exists (c_pth a), (c_arg2 a), w, D. done. }
  unfold osxie_thread_create. rewrite E, bind_Ok. cbv zeta.
  match goal with |- context [set_frame c (Some ?g) w'] => set (f := g) end.
  destruct (create_tail w' c th f D new) as (Hi1 & Hborn); try done.
  destruct new as [t|]; [|done].
  match goal with |- context [match ?x with Some _ => _ | None => _ end] => destruct x eqn:Hf end; [done|].
  by apply Hborn.
Qed.

(** *** All steps *)

Lemma step_safe w ev : inv w → env_ok w ev → safe w ev (step ev w).
Proof.
  intros Hi He. destruct (actor ev) as [t|] eqn:Ha.
  2: { destruct ev; try done. apply step_user_map; [done|apply He]. }
  assert (step ev w = match threads w t with Some th => thread_step ev w t th | None => Err Disabled end) as ->.
  { destruct ev; cbn in Ha |- *; simplify_eq; by destruct (threads w t). }
  destruct (threads w t) as [th|] eqn:Ht; [|done]. unfold thread_step.
  destruct ev; cbn in Ha; simplify_eq; destruct (pc th) eqn:Hp; try done.
  - by apply step_create.
  - by eapply step_spin.
  - by apply step_enter.
  - by apply step_socket.
  - by apply step_base.
  - by apply step_checkin.
  - by apply step_self.
  - by apply step_release.
  - by apply step_jump.
  - by apply step_terminate.
  - by apply step_close.
  - by apply step_put.
  - by apply step_unmap.
  - by apply step_detach.
  - by apply step_rpc_socket.
  - by apply step_refresh.
Qed.
