(* ===== verification/ThreadLife.v ===== *)
(** * What the threads of a process can rely on

    The theorems about [Threads] that follow from the invariant of [ThreadSafety]: the reachable
    states are safe, creators are released, and what becomes of creations whose system calls fail and
    of processes with many threads. *)

From S2P Require Import Prelude SocketBitmap Machine Threads ThreadSafety.

Local Open Scope Z_scope.

(** ** Reachable states *)

(** A process as [mldr] starts it: the main thread with its socket, and no memory of threads. *)
Definition booted (w : world) : Prop :=
  (∃ st, ∀ t, threads w t = if is_main t then Some (native_thread Running st) else None) ∧
  (∀ d, dthreads w d = None) ∧ bitmap_wf (bitmap w) ∧
  0 ≤ main_socket_fd w ≤ highest (bitmap w) ∧
  taken (bitmap w) (highest (bitmap w) - main_socket_fd w) = true ∧
  open_fds w (main_socket_fd w) = true.

Lemma booted_inv w : booted w → inv w.
Proof.
  intros ((st & Ht) & Hd & Hwf & Hfd & Htk & Ho).
  assert (∀ u s x, sockets w u = Some (s, x) → u = 0%nat ∧ s = main_socket_fd w) as Hs.
  { intros u s x. unfold sockets. rewrite Ht. destruct u; cbn; [|done]. by intros [= -> _]. }
  assert (∀ u, holdings w u = None) as Hh by (intros u; unfold holdings; rewrite Ht; by destruct u).
  split.
  - split; [done|lia| |].
    + intros u s x Hu. destruct (Hs _ _ _ Hu) as (_ & ->). done.
    + intros u v s x y Hu Hv. destruct (Hs _ _ _ Hu) as (-> & _), (Hs _ _ _ Hv) as (-> & _). done.
  - split.
    + intros d D. by rewrite Hd.
    + intros d e D E p. by rewrite Hd.
    + intros t h. by rewrite Hh.
    + intros t u h k. by rewrite Hh.
  - split.
    + intros t p c. unfold counters. rewrite Ht. destruct t; cbn; [|done]. by intros [= <-].
    + intros c r n. unfold counters. rewrite Ht. by destruct c.
  - intros t th. rewrite Ht. unfold local_ok. destruct t; cbn; [|done]. intros [= <-]. cbn. auto.
  - by rewrite Ht.
Qed.

(** A step whose environment keeps its promises. *)
Definition legal (w w' : world) : Prop := ∃ ev, env_ok w ev ∧ step ev w = Ok w'.

Lemma reachable_inv w0 w : booted w0 → rtc legal w0 w → inv w.
Proof.
  intros Hb Hr. eapply rtc_invariant; [done|by apply booted_inv|].
  intros a b (ev & He & Hs) Hi. pose proof (step_safe a ev Hi He) as H. by rewrite Hs in H.
Qed.

(** C7: the threads of a process, in any order of their steps.  The states are those reached from the
    start by steps for which the kernel and the program keep their promises ([promised]: a
    successful [mmap] returns unused pages, threads pass their own blocks) and which are not one
    of the two that are [defective]: a creation for which [mmap] fails, and the release of a socket
    that empties the last byte of the bitmap.  In such a state every step that goes wrong is one
    of these two: any other step that is promised is defined (no thread touches the frame of a creator
    that has returned, unmapped memory, a buffer of the bitmap that is gone or a jump buffer that is
    not set), and aborts the process only when a socket or a check-in is refused.  No two threads
    own the same server socket (a main thread that has ended owns none), and the one
    a running thread uses is open.  A running thread other than the main
    one has a block of its own: its structure and its stack can be written, its port is
    stored in the structure, the guard below the stack is not accessible, and no page belongs to
    the block of another thread. *)
Theorem threads_safe w0 w :
  booted w0 → rtc legal w0 w →
  (∀ ev, promised w ev →
     step ev w = UB ∨ step ev w = NoFuel ∨ (step ev w = Err Aborted ∧ may_abort w ev = false) →
     defective w ev = true) ∧
  (∀ t u s x y, sockets w t = Some (s, x) → sockets w u = Some (s, y) → t = u) ∧
  (∀ t th, threads w t = Some th → pc th = Running →
     ∃ s, sockets w t = Some (s, true) ∧ open_fds w s = true ∧
       s = if is_main t then main_socket_fd w else t_server_socket th) ∧
  (∀ t th, threads w t = Some th → pc th = Running → is_main t = false →
     ∃ D, dthreads w (pth (args th)) = Some D ∧
       tsd D !! DTHREAD_TSD_SLOT_MACH_THREAD_SELF = Some (u64 (port (args th))) ∧
       writable (pages w) (pth (args th)) sizeof_dthread = true ∧
       writable (pages w) (stackbottom D) (stackaddr D - stackbottom D) = true ∧
       (∀ p, page_in (freeaddr D) (guardsize D) p = true → pages w p = Some NoAccess) ∧
       ∀ u h E p, u ≠ t → holdings w u = Some h → dthreads w (pth (h_args h)) = Some E →
         in_block D p = true → in_block E p = false).
Proof.
  intros Hb Hr. pose proof (reachable_inv _ _ Hb Hr) as Hi. split_and!.
  - intros ev He Hbad. destruct (defective w ev) eqn:Hd; [done|].
    pose proof (step_safe w ev Hi (conj He Hd)) as Hs.
    destruct (step ev w) as [|[]| |]; cbn in Hs; naive_solver congruence.
  - apply (so_own _ _ _ (in_sock w Hi)).
  - intros t th Ht Hp. eexists. assert (sockets w t = Some (if is_main t then main_socket_fd w
      else t_server_socket th, true)) as Hs
      by (rewrite (own_socket w t th Ht); unfold socket_view; by rewrite Hp).
    split_and!; [done| |done]. by apply (so_taken _ _ _ (in_sock w Hi) t _ true).
  - intros t th Ht Hp Hm.
    assert (holdings w t = Some (mkHolding (args th) true None)) as Hh
      by (rewrite (own_holding w t th Ht); unfold memory_view; by rewrite Hp, Hm).
    destruct (me_hold _ _ _ (in_mem w Hi) _ _ Hh) as (D & HD & _ & Hn & _).
    destruct (me_block _ _ _ (in_mem w Hi) _ _ HD) as (Hpl & Hbm). exists D.
    split_and!; [done|by apply Hn|by eapply struct_writable|..].
    + pose proof Hpl as []. eapply block_writable; eauto; unfold PAGE_SIZE, sizeof_dthread in *; cbn in *; lia.
    + intros p Hg. rewrite (Hbm p) by (by eapply placed_guard_in). by rewrite Hg.
    + intros u h E p Hu Hh' HE HpD. apply not_true_is_false. intros HpE. apply Hu.
      eapply (me_own _ _ _ (in_mem w Hi)); eauto. symmetry.
      by eapply (me_apart _ _ _ (in_mem w Hi)); eauto.
Qed.

(** ** What a step can change *)

(** A thread before and after its step: it goes on entering, with the same structure; or it copies
    the frame; or it is not entering afterwards. *)
Definition moves (w w' : world) (th th' : thread) : Prop :=
  (creator (pc th') = creator (pc th) ∧ pth (args th') = pth (args th) ∧ frames w' = frames w ∧
     (∀ c, pc th = Born c → pc th' = Born c)) ∨
  (∃ c, pc th = Born c ∧ pc th' = Copied c ∧ frames w c = Some (args th') ∧ frames w' = frames w) ∨
  creator (pc th') = None.

Definition born_by (t : nat) (th : thread) : Prop := pc th = Born t.

(** A thread that may change its own frame: it is in the program, or its call is over. *)
Definition released (w : world) (t : nat) (th : thread) : Prop :=
  creator (pc th) = None ∧ (is_spinning (pc th) = true → ∃ f, frames w t = Some f ∧ pth f = 0).

(** The step of a thread changes the thread, and at most its own frame, the one it releases,
    and the table entry of a thread it creates. *)
Definition effect (w w' : world) (t : nat) (th : thread) : Prop :=
  (∃ th', threads w' t = Some th' ∧ moves w w' th th') ∧
  (∀ u, u ≠ t → threads w' u = threads w u ∨
     (threads w u = None ∧ ∃ uh, threads w' u = Some uh ∧ born_by t uh)) ∧
  (∀ c, frames w' c = frames w c ∨ (c = t ∧ released w t th) ∨ pc th = Named c).

Lemma effect_set w w' t th th' :
  threads w' = <[t := Some th']> (threads w) → frames w' = frames w → moves w w' th th' →
  effect w w' t th.
Proof.
  intros Ht Hf Hm. split_and!; [|intros u Hu; left; rewrite Ht; by apply fn_lookup_insert_ne|by left; rewrite Hf].
  exists th'. rewrite Ht. split; [apply fn_lookup_insert|done].
Qed.

Lemma effect_refl w t th : threads w t = Some th → effect w w t th.
Proof. intros Ht. split_and!; [|by left..]. exists th. split; [done|]. by left. Qed.

Lemma create_effect w w' c a base new th :
  threads w c = Some th → pc th = Running →
  osxie_thread_create c a base new w th = Ok w' → effect w w' c th.
Proof.
  intros Hc Hp H. unfold osxie_thread_create in H. apply bind_inv in H as ([[p top] w1] & H1 & H).
  assert (threads w1 = threads w ∧ frames w1 = frames w) as (Et & Ef).
  { destruct (allocates a); [|by simplify_eq]. unfold dthread_structure_allocate in H1.
    match type of H1 with context [if ?b then UB else _] => destruct b end; by simplify_eq/=. }
  cbv zeta in H. match type of H with context [set_frame c (Some ?g) w1] => set (f := g) in * end.
  set (w2 := set_thread c _ _) in *.
  assert (∀ u, frames w' u = frames w u ∨ u = c ∧ released w c th) as Hfr.
  { intros u. destruct (decide (c = u)) as [->|Hu]; [right; unfold released; by rewrite Hp|]. left.
    assert (frames w' = frames w2) as -> by (repeat case_match; by simplify_eq).
    cbn. by rewrite fn_lookup_insert_ne, Ef. }
  assert (threads w2 = <[c := Some (with_pc th (Spinning p new))]> (threads w)) as E2 by (cbn; by rewrite Et).
  assert (∀ u, u ≠ c → threads w2 u = threads w u) as Hne.
  { intros u Hu. rewrite E2. by apply fn_lookup_insert_ne. }
  assert (threads w2 c = Some (with_pc th (Spinning p new))) as Hc2 by (rewrite E2; apply fn_lookup_insert).
  split_and!; [| |naive_solver].
  - exists (with_pc th (Spinning p new)). split; [|by right; right].
    destruct new as [t|]; [|by simplify_eq]. destruct (threads w2 t) eqn:Ht; [done|]. simplify_eq.
    cbn. rewrite fn_lookup_insert_ne; [done|]. congruence.
  - intros u Hu. destruct new as [t|]; [|simplify_eq; auto].
    destruct (threads w2 t) eqn:Ht; [done|]. simplify_eq. cbn [threads set_thread].
    destruct (decide (t = u)) as [->|].
    + right. rewrite <- Hne by done. split; [done|]. eexists. split; [apply fn_lookup_insert|done].
    + left. rewrite fn_lookup_insert_ne by done. auto.
Qed.

Lemma effect_frame w t th th' c g :
  threads w t = Some th → creator (pc th') = None →
  (c = t ∧ released w t th) ∨ pc th = Named c →
  effect w (set_frame c g (set_thread t th' w)) t th.
Proof.
  intros Ht Hp Hc. split_and!.
  - exists th'. split; [apply fn_lookup_insert|]. by right; right.
  - intros u Hu. left. by apply fn_lookup_insert_ne.
  - intros u. cbn. destruct (decide (c = u)) as [->|]; [naive_solver|].
    left. by apply fn_lookup_insert_ne.
Qed.

Lemma open_frames e w fd w' :
  open_rpc_socket e w = Ok (fd, w') → threads w' = threads w ∧ frames w' = frames w.
Proof.
  unfold open_rpc_socket. intros H. apply bind_inv in H as ([[x b] l] & _ & H). case_match; by simplify_eq.
Qed.

Lemma terminate_leave_effect w w0 w' t fa fs th :
  threads w0 = threads w → frames w0 = frames w → creator (pc th) = None →
  terminate_leave t fa fs w0 th = Ok w' → effect w w' t th.
Proof.
  unfold terminate_leave. intros Et Ef Hp H. destruct (is_main t); [|destruct (t_jmpbuf th); [|done]];
    cbn in H; simplify_eq; (eapply effect_set; [cbn; by rewrite Et|done|by right; right]).
Qed.

Lemma step_effect w ev w' t :
  step ev w = Ok w' → actor ev = Some t → ∃ th, threads w t = Some th ∧ effect w w' t th.
Proof.
  intros Hs Ha.
  assert (∃ th, threads w t = Some th ∧ thread_step ev w t th = Ok w') as (th & Ht & Hst).
  { destruct ev; cbn in Ha, Hs; simplify_eq; destruct (threads w t); naive_solver. }
  exists th. split; [done|]. clear Hs. unfold thread_step in Hst.
  destruct ev; cbn in Ha; simplify_eq; destruct (pc th) eqn:Hp; try done.
  - by eapply create_effect.
  - unfold create_spin in Hst. apply bind_inv in Hst as (f & Hf & Hst).
    destruct (Z.eqb_spec (pth f) 0); cbn in Hst; simplify_eq; [|by apply effect_refl].
    apply effect_frame; [done..|]. left. split; [done|]. unfold released. rewrite Hp.
    split; [done|]. intros _. exists f. destruct (frames w t); by simplify_eq/=.
  - unfold entry_copy in Hst. apply bind_inv in Hst as (f & Hf & Hst). simplify_eq.
    eapply effect_set; [done..|]. right; left. exists creator. destruct (frames w creator); by simplify_eq/=.
  - unfold entry_socket in Hst. apply bind_inv in Hst as ([fd w1] & Ho & Hst).
    apply open_frames in Ho as (Et & Ef). simplify_eq. eapply effect_set; [cbn; by rewrite Et|done|].
    left. by rewrite Hp.
  - unfold entry_base in Hst. simplify_eq. eapply effect_set; [done..|]. left. rewrite Hp.
    split_and!; try done. cbn. unfold or_flags. by destruct (is_workqueue _).
  - unfold entry_checkin in Hst. case_match; simplify_eq. eapply effect_set; [done..|].
    left. by rewrite Hp.
  - unfold entry_self in Hst. apply bind_inv in Hst as (D & _ & Hst). case_match; simplify_eq.
    eapply effect_set; [done..|]. left. by rewrite Hp.
  - unfold entry_release in Hst. apply bind_inv in Hst as (f & _ & Hst). simplify_eq.
    apply effect_frame; [done..|]. by right.
  - unfold entry_jump in Hst. case_match; simplify_eq. eapply effect_set; [done..|]. by right; right.
  - unfold osxie_thread_terminate in Hst. case_match.
    + simplify_eq. eapply effect_set; [done..|]. by right; right.
    + eapply terminate_leave_effect; [done|done|by rewrite Hp|done].
  - unfold terminate_close in Hst. simplify_eq. eapply effect_set; [done..|]. by right; right.
  - unfold terminate_put in Hst. apply bind_inv in Hst as (b & _ & Hst).
    eapply terminate_leave_effect; [| |by rewrite Hp|done]; done.
  - unfold entry_unmap in Hst. simplify_eq. eapply effect_set; [done..|]. by right; right.
  - unfold entry_detach in Hst. simplify_eq. eapply effect_set; [done..|]. by right; right.
  - unfold osxie_thread_rpc_socket in Hst. repeat case_match; simplify_eq/=.
    + eapply effect_set; [done..|]. by left.
    + by apply effect_refl.
  - unfold osxie_thread_rpc_socket_refresh in Hst. apply bind_inv in Hst as ([fd w1] & Ho & Hst).
    apply open_frames in Ho as (Et & Ef). simplify_eq.
    eapply (effect_set _ _ _ _ (with_socket th fd)); [..|left]; destruct (is_main t); cbn;
      by rewrite ?Et, ?Ef.
Qed.

(** ** The structure a thread enters with *)

(** A thread that has copied the frame works on the structure its creator will return. *)
Definition copy_ok (w : world) : Prop :=
  ∀ t th c f, threads w t = Some th → creator (pc th) = Some c → frames w c = Some f →
    pc th = Born c ∨ pth (args th) = pth f.

Lemma step_copy w ev w' : inv w → copy_ok w → step ev w = Ok w' → copy_ok w'.
Proof.
  intros Hi Hcp Hs. destruct (actor ev) as [t|] eqn:Ha.
  2: { destruct ev; try done. cbn in Hs. by simplify_eq. }
  destruct (step_effect _ _ _ _ Hs Ha) as (th & Ht & (th' & Ht' & Hm) & Hoth & Hfr).
  intros u uh c f Hu Hc Hf. destruct (decide (u = t)) as [->|Hut].
  - simplify_eq. destruct Hm as [(Ec & Ep & Ef & Hbb)|[(c' & Hb & Hc' & Hf' & Ef)|Hn]]; [| |congruence].
    + rewrite Ec in Hc. rewrite Ef in Hf. destruct (Hcp _ _ _ _ Ht Hc Hf) as [Hb|]; [auto|right; congruence].
    + right. rewrite Hc' in Hc. cbn in Hc. rewrite Ef in Hf. by simplify_eq.
  - destruct (Hoth u Hut) as [E|(Hn & vh & Hv & Hb)].
    2: { simplify_eq. left. rewrite Hb in Hc. cbn in Hc. rewrite Hb. by simplify_eq. }
    rewrite E in Hu. destruct (entering_frame w u uh Hi Hu c Hc) as (g & Hg & Hg0 & Hk).
    destruct (Hfr c) as [Ef|[(-> & _ & Hsp)|Hnm]].
    + rewrite Ef in Hf. eauto.
    + exfalso. rewrite (own_counter w t th Ht) in Hk. simplify_eq.
      destruct Hsp as (g' & Hg' & ?); [by rewrite Hk|]. by simplify_eq.
    + destruct (entering_frame w t th Hi Ht c) as (g' & _ & _ & Hk'); [by rewrite Hnm|]. congruence.
Qed.

Lemma reachable_copy w0 w : booted w0 → rtc legal w0 w → copy_ok w.
Proof.
  intros Hb Hr. enough (inv w ∧ copy_ok w) as [] by done.
  eapply (rtc_invariant legal (fun w => inv w ∧ copy_ok w)); [exact Hr| |].
  - split; [by apply booted_inv|]. destruct Hb as ((st & Ht) & _). intros t th c f.
    rewrite Ht. destruct t; cbn; [|done]. by intros [= <-].
  - intros a b (ev & He & Hs) [Hi Hc]. pose proof (step_safe a ev Hi He) as H. rewrite Hs in H.
    split; [done|]. exact (step_copy a ev b Hi Hc Hs).
Qed.

(** ** The creator is released *)

(** The steps a thread that is entering still has to take until it releases its creator. *)
Definition entry_events (e : rpc_env) (port : Z) (t : nat) (p : counter) : list event :=
  match p with
  | Born _ => [Enter t; Socket t e; Base t; CheckIn t true; Self t port; Release t]
  | Copied _ => [Socket t e; Base t; CheckIn t true; Self t port; Release t]
  | Socketed _ _ => [Base t; CheckIn t true; Self t port; Release t]
  | Based _ => [CheckIn t true; Self t port; Release t]
  | CheckedIn _ => [Self t port; Release t]
  | Named _ => [Release t]
  | _ => []
  end.

Definition needs_socket (p : counter) : bool :=
  match p with Born _ | Copied _ => true | _ => false end.

(** What holds after one of these steps. *)
Definition entering_next (e : rpc_env) (port : Z) (t c : nat) (th : thread) (w w' : world)
    (evs : list event) : Prop :=
  inv w' ∧ threads w' c = threads w c ∧
  ∃ th', threads w' t = Some th' ∧ (needs_socket (pc th') = true → refused e (bitmap w') = false) ∧
    evs = entry_events e port t (pc th') ∧
    (creator (pc th') = Some c ∨
     (pc th' = Released ∧ pc th = Named c ∧ args th' = args th ∧ ∃ f, frames w' c = Some f ∧ pth f = 0)).

(** Evaluation of the step of a thread whose counter is known, and what it leaves. *)
Ltac go := match goal with H : ∀ ev, actor ev = _ → step ev _ = _, E : pc _ = _ |- _ =>
    rewrite H by done; unfold thread_step; rewrite E end.
Ltac moved := solve [apply fn_lookup_insert_ne; done|apply fn_lookup_insert|done|by left|by auto].

Lemma entering_step e port w t th c :
  inv w → threads w t = Some th → creator (pc th) = Some c →
  (needs_socket (pc th) = true → refused e (bitmap w) = false) →
  ∃ ev evs w', entry_events e port t (pc th) = ev :: evs ∧ step ev w = Ok w' ∧ env_ok w ev ∧
    entering_next e port t c th w w' evs.
Proof.
  intros Hi Ht Hc Hps.
  destruct (entering_frame w t th Hi Ht c Hc) as (f & Hf & _ & Hk).
  assert (t ≠ c) as Htc.
  { intros ->. rewrite (own_counter w c th Ht) in Hk. simplify_eq. by destruct (pc th). }
  assert (∀ ev evs w' th', entry_events e port t (pc th) = ev :: evs → env_ok w ev → step ev w = Ok w' →
    threads w' c = threads w c → threads w' t = Some th' →
    (needs_socket (pc th') = true → refused e (bitmap w') = false) → evs = entry_events e port t (pc th') →
    creator (pc th') = Some c ∨
      (pc th' = Released ∧ pc th = Named c ∧ args th' = args th ∧ ∃ f, frames w' c = Some f ∧ pth f = 0) →
    ∃ ev evs w', entry_events e port t (pc th) = ev :: evs ∧ step ev w = Ok w' ∧ env_ok w ev ∧
      entering_next e port t c th w w' evs) as Hgo.
  { intros ev evs w' th' Hev Hen Hst Hth Ht' Hb Hevs Hcr. exists ev, evs, w'. split_and!; [done..|].
    pose proof (step_safe w ev Hi Hen) as Hs. rewrite Hst in Hs. split_and!; [done..|]. by exists th'. }
  assert (∀ ev, actor ev = Some t → step ev w = thread_step ev w t th) as Hstep.
  { intros ev Ha. destruct ev; cbn in Ha |- *; simplify_eq; by rewrite Ht. }
  assert (is_main t = false) as Hm by (by apply (entering_not_main w t th Hi Ht c)).
  destruct (pc th) eqn:Hp; cbn in Hc; simplify_eq.
  - eapply Hgo; [done|done|go; unfold entry_copy; by rewrite Hf|moved..].
  - pose proof (sock_open e w (sockets w) t (in_sock w Hi)) as Ho. rewrite (Hps eq_refl) in Ho.
    destruct Ho as (fd & b & Ho & _).
    eapply Hgo; [done|done|go; unfold entry_socket; by rewrite Ho|moved..].
  - eapply Hgo; [done|done|by go|moved..].
  - eapply Hgo; [done|done|by go|moved..].
  - assert (holdings w t = Some (mkHolding (args th) false None)) as Hh
      by (rewrite (own_holding w t th Ht); unfold memory_view; by rewrite Hp, Hm).
    destruct (own_block w t Hi _ Hh) as (D & HD & Hpl & Hbm & _). cbn [h_args] in *.
    eapply Hgo; [done|done|go; unfold entry_self; rewrite HD; cbn [access];
      by rewrite bind_Ok, (struct_writable _ _ D)|moved..].
  - eapply Hgo; [done|done|go; unfold entry_release; by rewrite Hf|moved..|].
    right. split_and!; [done..|]. eexists. split; [apply fn_lookup_insert|done].
Qed.

Inductive legal_run : list event → world → world → Prop :=
  | legal_nil w : legal_run [] w w
  | legal_cons ev evs w w' w'' :
      env_ok w ev → step ev w = Ok w' → legal_run evs w' w'' → legal_run (ev :: evs) w w''.

Lemma entering_finishes e port t c r evs : ∀ w th,
  inv w → copy_ok w → counters w c = Some (Spinning r (Some t)) → threads w t = Some th → creator (pc th) = Some c →
  (needs_socket (pc th) = true → refused e (bitmap w) = false) → evs = entry_events e port t (pc th) →
  ∃ w', legal_run evs w w' ∧ inv w' ∧ threads w' c = threads w c ∧
    (∃ th', threads w' t = Some th' ∧ pc th' = Released ∧ pth (args th') = r) ∧
    ∃ f, frames w' c = Some f ∧ pth f = 0.
Proof.
  induction evs as [|ev evs IH]; intros w th Hi Hcp Hr Ht Hc Hps Hev;
    destruct (entering_step e port w t th c Hi Ht Hc Hps)
      as (ev' & evs' & w1 & Hev' & Hst & Hen & Hi1 & Hth & th' & Ht' & Hb & Hevs & Hcr);
    rewrite <- Hev in Hev'; simplify_eq.
  destruct Hcr as [Hcr|(Hrel & Hnm & Ea & Hfr)].
  - destruct (IH w1 th') as (w' & Hrun & Hi' & Hc' & Hrest); try done.
    { exact (step_copy _ _ _ Hi Hcp Hst). }
    { unfold counters. by rewrite Hth. }
    exists w'. split_and!; [by econstructor|done|congruence|..]; apply Hrest.
  - exists w1. split_and!; [econstructor; [done..|rewrite Hrel; constructor]|done|done| |done].
    exists th'. split_and!; [done..|]. destruct (entering_frame w t th Hi Ht c Hc) as (f & Hf & _ & Hk).
    destruct (Hcp _ _ _ _ Ht Hc Hf); congruence.
Qed.

(** C8: a creator is released.  In the states of the theorem before (reached without a failed [mmap] and
    without emptying the last byte of the bitmap), whenever a thread is entering, at whatever point,
    the frame it needs is there and its creator waits.  If the thread gets its socket (the system
    calls succeed, the bitmap can grow and a descriptor is free) and osxieserver acknowledges it,
    the steps it still has to take and one more turn of the creator's loop are all defined and
    permitted, whatever other threads have done before.  Then the creator has returned from the call
    with the address of the structure, its frame is gone, and the new thread is registered,
    with its port in the structure.  If the socket is refused, the process is aborted. *)
Theorem creator_returns w0 w t th c e port :
  booted w0 → rtc legal w0 w → threads w t = Some th → creator (pc th) = Some c →
  ∃ r, counters w c = Some (Spinning r (Some t)) ∧
  (refused e (bitmap w) = true → pc th = Copied c → step (Socket t e) w = Err Aborted) ∧
  (refused e (bitmap w) = false → ∃ w',
    legal_run (entry_events e port t (pc th) ++ [Spin c]) w w' ∧
    counters w' c = Some Running ∧ frames w' c = None ∧ counters w' t = Some Released ∧
    ∃ th' D, threads w' t = Some th' ∧ pth (args th') = r ∧ dthreads w' r = Some D ∧
      tsd D !! DTHREAD_TSD_SLOT_MACH_THREAD_SELF = Some (u64 (Threads.port (args th')))).
Proof.
  intros Hb Hr Ht Hc. pose proof (reachable_inv _ _ Hb Hr) as Hi.
  destruct (entering_frame w t th Hi Ht c Hc) as (f & Hf & _ & Hk). exists (pth f). split_and!; [done| |].
  { intros Hrf Hp. cbn. rewrite Ht. cbn. unfold thread_step. rewrite Hp. unfold entry_socket.
    pose proof (sock_open e w (sockets w) t (in_sock w Hi)) as Ho. rewrite Hrf in Ho. by rewrite Ho. }
  intros Hps.
  destruct (entering_finishes e port t c (pth f) _ w th Hi (reachable_copy _ _ Hb Hr) Hk Ht Hc
    (fun _ => Hps) eq_refl) as (w1 & Hrun & Hi1 & Hth & (th' & Ht' & Hp' & Ea) & g & Hg & Hg0).
  destruct (threads w c) as [thc|] eqn:Hthc; [|by unfold counters in Hk; rewrite Hthc in Hk].
  assert (pc thc = Spinning (pth f) (Some t)) as Hp by (unfold counters in Hk; rewrite Hthc in Hk; by simplify_eq/=).
  assert (step (Spin c) w1 = Ok (set_frame c None (set_thread c (with_pc thc Running) w1))) as Hst.
  { cbn. rewrite Hth. cbn. unfold thread_step. rewrite Hp. unfold create_spin. rewrite Hg. cbn.
    by rewrite Hg0. }
  pose proof (step_safe w1 (Spin c) Hi1 (conj I eq_refl)) as Hi2. rewrite Hst in Hi2. cbn [safe] in Hi2.
  set (w' := set_frame c None _) in *.
  assert (t ≠ c) as Htc.
  { intros ->. rewrite (own_counter w c th Ht) in Hk. simplify_eq. by destruct (pc th). }
  assert (threads w' t = Some th') as Ht2 by (cbn; by rewrite fn_lookup_insert_ne).
  exists w'. split_and!.
  - clear -Hrun Hst. induction Hrun; [by repeat econstructor|]. cbn. econstructor; eauto.
  - unfold counters. cbn. by rewrite fn_lookup_insert.
  - cbn. apply fn_lookup_insert.
  - unfold counters. by rewrite Ht2, <- Hp'.
  - assert (is_main t = false) as Hm by (by apply (entering_not_main w t th Hi Ht c)).
    assert (holdings w' t = Some (mkHolding (args th') true None)) as Hh
      by (rewrite (own_holding w' t th' Ht2); unfold memory_view; by rewrite Hp', Hm).
    destruct (me_hold _ _ _ (in_mem w' Hi2) _ _ Hh) as (D & HD & _ & Hn & _).
    cbn [h_args] in *. rewrite Ea in HD. exists th', D. split_and!; [done..|]. by apply Hn.
Qed.

(** The registers a thread enters the program with: the six arguments (the third is the bottom of the
    stack for a work queue), and a stack pointer inside the thread's own stack that has the alignment
    a function expects on entry. *)
Theorem entry_registers w0 w t th :
  booted w0 → rtc legal w0 w → threads w t = Some th → pc th = Released →
  ∃ w' th' r D, step (Jump t) w = Ok w' ∧ threads w' t = Some th' ∧ pc th' = Running ∧
    entered th' = Some r ∧ dthreads w' (pth (args th)) = Some D ∧
    rdi r = pth (args th) ∧ esi r = Threads.port (args th) ∧
    rdx r = (if real_entry_point (args th) =? 0 then stack_bottom (args th)
             else real_entry_point (args th)) ∧
    rcx r = arg1 (args th) ∧ r8 r = arg2 (args th) ∧ r9 r = arg3 (args th) ∧
    rip r = entry_point (args th) ∧ (rsp r + 8) mod 16 = 0 ∧
    stackbottom D ≤ rsp r ∧ rsp r + 8 ≤ stackaddr D.
Proof.
  intros Hb Hr Ht Hp. pose proof (reachable_inv _ _ Hb Hr) as Hi.
  assert (is_main t = false) as Hm.
  { pose proof (own_local w t th Hi Ht) as Hl. unfold local_ok in Hl. rewrite Hp in Hl.
    destruct (is_main t); [by destruct Hl|done]. }
  assert (holdings w t = Some (mkHolding (args th) true None)) as Hh
    by (rewrite (own_holding w t th Ht); unfold memory_view; by rewrite Hp, Hm).
  destruct (own_block w t Hi _ Hh) as (D & HD & Hpl & Hbm & Hs). cbn [h_args] in *.
  assert (writable (pages w) (align_16 (stack_addr (args th)) - 8) 8 = true) as Hw.
  { rewrite align_16_bounds, Hs. eapply block_writable; [done..| | |];
      destruct Hpl; unfold PAGE_SIZE, sizeof_dthread in *; lia. }
  eexists _, _, _, D. split.
  { cbn. rewrite Ht. cbn. unfold thread_step. rewrite Hp. unfold entry_jump. by rewrite Hw. }
  split; [apply fn_lookup_insert|]. split_and!; try done; cbn; rewrite align_16_bounds, Hs;
    destruct Hpl; unfold PAGE_SIZE in *; lia.
Qed.

(** ** Failures that are not looked at *)

(** The result of [pthread_create] is not looked at: when it fails, nobody releases the creator, and
    it stays in the loop whatever the other threads do. *)
Theorem failed_creation_hangs w0 w c r w' :
  booted w0 → rtc legal w0 w → counters w c = Some (Spinning r None) → rtc legal w w' →
  counters w' c = Some (Spinning r None).
Proof.
  intros Hb Hr Hc Hr'. pose proof (reachable_inv _ _ Hb Hr) as Hi.
  enough (inv w' ∧ counters w' c = Some (Spinning r None)) as [] by done.
  eapply (rtc_invariant legal (fun w => inv w ∧ counters w c = Some (Spinning r None))); [exact Hr'|done|].
  clear. intros w w' (ev & He & Hs) [Hi Hc]. pose proof (step_safe w ev Hi He) as Hi'. rewrite Hs in Hi'.
  split; [done|]. destruct (actor ev) as [t|] eqn:Ha.
  2: { destruct ev; try done. cbn in Hs. by simplify_eq. }
  destruct (step_effect _ _ _ _ Hs Ha) as (th & Ht & _ & Hoth & _).
  destruct (decide (c = t)) as [->|Hct].
  - rewrite (own_counter w t th Ht) in Hc.
    assert (counters w t = Some (Spinning r None)) as Hk by (rewrite (own_counter w t th Ht); congruence).
    destruct (ha_spin _ _ (in_hand w Hi) _ _ _ Hk) as (f & Hf & Hrel).
    assert (pc th = Spinning r None) as Hp by congruence.
    destruct ev; cbn in Ha, Hs; simplify_eq; rewrite Ht in Hs; cbn in Hs; unfold thread_step in Hs;
      rewrite Hp in Hs; try done.
    unfold create_spin in Hs. rewrite Hf in Hs. cbn in Hs.
    destruct (Z.eqb_spec (pth f) 0) as [E|]; cbn in Hs; [|by simplify_eq].
    destruct (Hrel E) as (? & ? & ? & _). done.
  - destruct (Hoth c Hct) as [E|(Hn & _)].
    + unfold counters in *. by rewrite E.
    + unfold counters in Hc. by rewrite Hn in Hc.
Qed.

(** The result of [mmap] is not looked at: when it fails, the structure is placed just below the
    sum of the sizes, an address that is not mapped, and cleared there. *)
Theorem failed_mapping_faults c a new w th :
  allocates a = true → 0 ≤ c_stack_size a < 2 ^ 62 →
  pages w ((c_stack_size a + 4095) / PAGE_SIZE) = None →
  osxie_thread_create c a None new w th = UB.
Proof.
  intros Ha Hs Hp. unfold osxie_thread_create. rewrite Ha. unfold dthread_structure_allocate.
  cbn [from_option id default]. unfold MAP_FAILED, DEFAULT_DTHREAD_GUARD_SIZE.
  replace (u64 (u64 (-1) + c_stack_size a + 0x1000)) with (c_stack_size a + 4095).
  2: { unfold u64. lia. }
  replace (protect_pages _ _ _) with (pages w) by (unfold protect_pages; by vm_compute (_ mod _)).
  assert (writable (pages w) (c_stack_size a + 4095) sizeof_dthread = false) as ->; [|done].
  apply not_true_is_false. intros Hw. rewrite writable_spec in Hw.
  rewrite Hw in Hp; [done|]. page_lia.
Qed.

(** ** Concrete instances *)

Definition rpc_answers : rpc_env := mkRpc libc_1024 libc_1024 5 true 0 true true.

(** A process with the main thread only: its socket is descriptor 1023. *)
Definition boot_world : world :=
  mkWorld (fun _ => None) (fun _ => None) (fun _ => None)
    (fun t => if is_main t then Some (native_thread Running DEFAULT_NATIVE_STACK) else None)
    bitmap_one (<[1023 := true]> (fun _ => false)) 1023.

Lemma boot_world_booted : booted boot_world.
Proof.
  split_and!; cbn; try done.
  - by exists DEFAULT_NATIVE_STACK.
  - apply bitmap_wf_one.
Qed.

(** A work-queue thread with a stack of 16 kB. *)
Definition queue_thread : create_args := mkCreate 16384 0 77 0 1 2 3 4 0.

Lemma rpc_answers_possible : refused rpc_answers bitmap_one = false.
Proof. reflexivity. Qed.

Lemma queue_thread_ok : create_ok boot_world queue_thread (Some 65536).
Proof. intros b [= <-]. split_and!; [done..|by vm_compute]. Qed.

Lemma legal_run_rtc evs w w' : legal_run evs w w' → rtc legal w w'.
Proof. induction 1; [done|]. eapply rtc_l; [|done]. by eexists. Qed.

(** The main thread has called [__osxie_thread_create]. *)
Lemma creation_reachable :
  ∃ w th, rtc legal boot_world w ∧ threads w 1%nat = Some th ∧ pc th = Born 0 ∧
    bitmap w = bitmap_one.
Proof.
  assert (env_ok boot_world (Create 0 queue_thread (Some 65536) (Some 1%nat))) as He by (split; [apply queue_thread_ok|done]).
  assert (step (Create 0 queue_thread (Some 65536) (Some 1%nat)) boot_world =
    osxie_thread_create 0 queue_thread (Some 65536) (Some 1%nat) boot_world
      (native_thread Running DEFAULT_NATIVE_STACK)) as Hs by done.
  destruct (allocate_ok boot_world queue_thread 65536) as (_ & _ & Hal);
    [apply booted_inv, boot_world_booted|by vm_compute..|].
  unfold osxie_thread_create in Hs. rewrite Hal in Hs. cbn [allocates queue_thread c_pth c_real_entry_point Z.eqb orb] in Hs.
  rewrite bind_Ok in Hs. cbv zeta in Hs.
  match type of Hs with _ = match ?x with Some _ => _ | None => _ end => change x with (@None thread) in Hs end.
  eexists _, _. split_and!; [apply rtc_once; eexists; split; [exact He|exact Hs]|..]; done.
Qed.

(** The thread has entered the program. *)
Lemma running_reachable :
  ∃ w th, rtc legal boot_world w ∧ threads w 1%nat = Some th ∧ pc th = Running.
Proof.
  destruct creation_reachable as (w & th & Hr & Ht & Hp & Hbm).
  pose proof (reachable_inv _ _ boot_world_booted Hr) as Hi.
  assert (creator (pc th) = Some 0%nat) as Hc by (by rewrite Hp).
  destruct (entering_frame w 1 th Hi Ht 0 Hc) as (f & Hf & _ & Hk).
  destruct (entering_finishes rpc_answers 99 1 0 (pth f) _ w th Hi
    (reachable_copy _ _ boot_world_booted Hr) Hk Ht Hc
    ltac:(rewrite Hbm; intros _; apply rpc_answers_possible) eq_refl)
    as (w1 & Hrun & _ & _ & (th1 & Ht1 & Hp1 & _) & _).
  apply legal_run_rtc in Hrun.
  destruct (entry_registers boot_world w1 1 th1 boot_world_booted ltac:(by etrans) Ht1 Hp1)
    as (w2 & th2 & _ & _ & Hs & Ht2 & Hp2 & _).
  exists w2, th2. split_and!; [|done..]. etrans; [exact Hr|]. eapply rtc_r; [exact Hrun|].
  by eexists (Jump 1).
Qed.

Lemma threads_safe_witness :
  ∃ w th D, rtc legal boot_world w ∧ threads w 1%nat = Some th ∧ pc th = Running ∧
    dthreads w (pth (args th)) = Some D ∧
    writable (pages w) (stackbottom D) (stackaddr D - stackbottom D) = true.
Proof.
  destruct running_reachable as (w & th & Hr & Ht & Hp).
  destruct (threads_safe boot_world w boot_world_booted Hr) as (_ & _ & _ & Hb).
  destruct (Hb 1%nat th Ht Hp eq_refl) as (D & HD & _ & _ & Hw & _).
  exists w, th, D. done.
Defined.

Lemma creator_returns_witness :
  ∃ w th w', threads w 1%nat = Some th ∧ pc th = Born 0 ∧
    legal_run (entry_events rpc_answers 99 1 (pc th) ++ [Spin 0]) w w' ∧
    counters w' 0%nat = Some Running.
Proof.
  destruct creation_reachable as (w & th & Hr & Ht & Hp & Hbm).
  destruct (creator_returns boot_world w 1 th 0 rpc_answers 99 boot_world_booted Hr Ht
    ltac:(by rewrite Hp)) as (r & _ & _ & Hret).
  destruct Hret as (w' & Hrun & Hc & _); [by rewrite Hbm|].
  exists w, th, w'. done.
Defined.

(** ** Many threads *)

(** Thread [t] is created by the main thread, with its block at [2 ^ 20 * t], and started. *)
Definition start_thread (t : nat) : list event :=
  [Create 0 queue_thread (Some (2 ^ 20 * Z.of_nat t)) (Some t); Enter t; Socket t rpc_answers; Base t;
   CheckIn t true; Self t 99; Release t; Spin 0; Jump t].

(** It ends, as the program does it, with the block of its structure. *)
Definition end_thread (t : nat) : list event :=
  [Terminate t (2 ^ 20 * Z.of_nat t) (4096 + 16384 + sizeof_dthread); Close t; Put t libc_1024; Unmap t; Detach t].

(** The defect of the bitmap reaches the program: with fifteen threads next to the main one, the last
    eight of which end, the newest last, the sockets of the other seven and of the main thread are
    forgotten, and the next thread that is created makes [realloc] work on a freed block. *)
Theorem many_threads_fault :
  ∃ w, run (concat (map start_thread (seq 1 15)) ++ concat (map end_thread (seq 8 8))) boot_world = Ok w ∧
    taken (bitmap w) 1 = false ∧ open_fds w 1022 = true ∧
    sockets w 1%nat = Some (1022, true) ∧
    run (start_thread 16) w = UB.
Proof.
  set (evs := concat _ ++ concat _).
  assert (match run evs boot_world with
          | Ok w => negb (taken (bitmap w) 1) && open_fds w 1022 &&
                    bool_decide (sockets w 1%nat = Some (1022, true)) &&
                    match run (start_thread 16) w with UB => true | _ => false end
          | _ => false
          end = true) as H by (vm_compute; reflexivity).
  destruct (run evs boot_world) as [w| | |]; try done. exists w.
  rewrite !andb_true_iff, negb_true_iff, bool_decide_eq_true in H. destruct H as (((? & ?) & ?) & H).
  split_and!; try done. by destruct (run (start_thread 16) w).
Qed.

(** The main thread that ends gives its socket back but stays, waiting for signals, and still
    remembers the descriptor: the next thread that is created gets it, so a signal handler of the main
    thread that asks for its socket ([__osxie_thread_rpc_socket] returns what is remembered) talks on the
    socket of that thread. *)
Theorem suspended_main_socket_reused :
  ∃ w m th, run (start_thread 1 ++
      [RpcSocket 0; Terminate 0 0 0; Close 0; Put 0 libc_1024;
       Create 1 queue_thread (Some (2 ^ 24)) (Some 2%nat); Enter 2; Socket 2 rpc_answers; Base 2])
      boot_world = Ok w ∧
    threads w 0%nat = Some m ∧ pc m = Suspended ∧ threads w 2%nat = Some th ∧
    sockets w 2%nat = Some (t_server_socket m, true) ∧
    osxie_thread_rpc_socket 0 w m = Ok (t_server_socket th, w).
Proof.
  set (evs := start_thread 1 ++ _).
  assert (match run evs boot_world with
          | Ok w => match threads w 0%nat, threads w 2%nat with
                    | Some m, Some th =>
                        match pc m with Suspended => true | _ => false end &&
                        bool_decide (sockets w 2%nat = Some (t_server_socket m, true)) &&
                        (t_server_socket m =? t_server_socket th) && negb (t_server_socket m =? -1)
                    | _, _ => false
                    end
          | _ => false
          end = true) as H by (vm_compute; reflexivity).
  destruct (run evs boot_world) as [w| | |]; try done.
  destruct (threads w 0%nat) as [m|] eqn:Hm; [|done]. destruct (threads w 2%nat) as [th|] eqn:Hth; [|done].
  rewrite !andb_true_iff, negb_true_iff, bool_decide_eq_true, Z.eqb_eq in H.
  destruct H as (((Hp & Hs) & E) & Hne). exists w, m, th. split_and!; try done.
  - by destruct (pc m).
  - unfold osxie_thread_rpc_socket. by rewrite Hne, E.
Qed.
