(* ===== verification/LaunchChannel.v ===== *)
(** * A connection to launchd, end to end
    ([src/src/launchd/liblaunch/liblaunch.c])

    The two ends of a connection ([launchd_msg_send] with its retries, as
    [launch_msg_internal] makes them, and [launchd_msg_recv]) and the stream socket between
    them.  The kernel takes any part of what is offered beyond the header, keeps the bytes in
    order, and hands descriptors over with the byte they were sent with. *)

From stdpp Require Import relations.
From S2P Require Import Machine Prelude LaunchData LaunchMsg.

(** A byte in the socket with the descriptors that arrive with it. *)
Notation tbyte := (Z * list Z)%type.

(** The bytes of one [sendmsg]: the first carries the descriptors. *)
Definition tag (bs fds : list Z) : list tbyte :=
  match bs with [] => [] | b :: bs => (b, fds) :: ((fun b => (b, [])) <$> bs) end.

Definition bytes_of (l : list tbyte) : list Z := l.*1.
Definition fds_of (l : list tbyte) : list Z := concat (l.*2).

(** The two ends, the bytes in transit, the messages given to [launchd_msg_send] and those
    handed to the callback of [launchd_msg_recv]. *)
Record channel := mkChannel {
  c_send : launch; c_recv : launch; c_wire : list tbyte; c_sent : list ldata; c_got : list ldata;
}.

(** What a message needs to be packed: the two buffers, and room in them. *)
Definition send_room (e : send_env) (d : ldata) (sz : nat) : Prop :=
  sd_alloc_buf e = true ∧ sd_alloc_fds e = true ∧ Z.of_nat (length (sd_fresh e)) = good_enough_size ∧
  packable d sz ∧ Z.of_nat sz ≤ good_enough_size ∧ (length (fd_list d) ≤ fd_slots)%nat.

(** What the code needs of the kernel besides: a first [sendmsg] that takes at least the
    16 bytes of the header.  The code does not keep the header for a retry, and
    [channel_delivers] says what happens when less is taken. *)
Definition send_ready (e : send_env) (d : ldata) (sz : nat) : Prop :=
  send_room e d sz ∧ 16 ≤ sd_sendmsg e ≤ 16 + Z.of_nat sz ∧ sd_ctrl_same e = true.

(** What [recvmsg] gives of the first [k] bytes in transit. *)
Definition recv_of (k : nat) (c : channel) : recv_env :=
  mkRecvEnv (Some (bytes_of (take k (c_wire c)))) Other false (fds_of (take k (c_wire c))).

Inductive channel_step : channel → channel → Prop :=
  | ch_send c e d sz r :
      l_sendlen (c_send c) = 0 → send_ready e d sz → launchd_msg_send e (c_send c) (Some d) = Ok r →
      channel_step c (mkChannel (sr_launch r) (c_recv c) (c_wire c ++ tag (sr_wire r) (sr_fds r)) (c_sent c ++ [d]) (c_got c))
  | ch_retry c e r :
      0 < sd_sendmsg e ≤ l_sendlen (c_send c) → sd_ctrl_same e = true → launchd_msg_send e (c_send c) None = Ok r →
      channel_step c (mkChannel (sr_launch r) (c_recv c) (c_wire c ++ tag (sr_wire r) (sr_fds r)) (c_sent c) (c_got c))
  | ch_full c e r :
      l_sendlen (c_send c) ≠ 0 → sd_sendmsg e = -1 → launchd_msg_send e (c_send c) None = Ok r →
      channel_step c (mkChannel (sr_launch r) (c_recv c) (c_wire c ++ tag (sr_wire r) (sr_fds r)) (c_sent c) (c_got c))
  | ch_empty c e r :
      rv_bytes e = None → launchd_msg_recv e (fun _ => false) (c_recv c) = Ok r →
      channel_step c (mkChannel (c_send c) (rr_launch r) (c_wire c) (c_sent c) (c_got c ++ rr_msgs r))
  | ch_recv c k r :
      (0 < k ≤ length (c_wire c))%nat → (k ≤ 8 * 1024)%nat →
      launchd_msg_recv (recv_of k c) (fun _ => false) (c_recv c) = Ok r →
      channel_step c (mkChannel (c_send c) (rr_launch r) (drop k (c_wire c)) (c_sent c) (c_got c ++ rr_msgs r)).

(** The three kinds of partial transfer: a retry that takes part of what is pending
    ([ch_retry]), one that finds the socket full ([ch_full]), and a receive that finds it
    empty ([ch_empty]) or takes any part of what is there ([ch_recv]). *)

(** Both ends are new connections, as [launchd_fdopen] makes them. *)
Definition channel_init (l l' : launch) : channel := mkChannel l l' [] [] [].

(** ** Streams of messages *)

Inductive tframes : list ldata → list tbyte → Prop :=
  | tframes_nil : tframes [] []
  | tframes_cons d ds bs rest :
      frame d bs → Z.of_nat (length bs) ≤ 2 ^ 30 → tframes ds rest → tframes (d :: ds) (tag bs (fd_list d) ++ rest).

Lemma bytes_tag bs fds : bytes_of (tag bs fds) = bs.
Proof. destruct bs as [|b bs]; [done|]. cbn. f_equal. induction bs as [|x bs IH]; [done|]. cbn. by f_equal. Qed.

Lemma fds_untagged bs : concat (((fun b : Z => (b, [])) <$> bs : list tbyte).*2) = [].
Proof. induction bs; [done|]. cbn. done. Qed.

Lemma fds_tag bs fds : bs ≠ [] → fds_of (tag bs fds) = fds.
Proof. destruct bs as [|b bs]; [done|]. intros _. unfold fds_of. cbn. rewrite fds_untagged. apply app_nil_r. Qed.

Lemma bytes_app l l' : bytes_of (l ++ l') = bytes_of l ++ bytes_of l'.
Proof. apply fmap_app. Qed.
Lemma fds_app l l' : fds_of (l ++ l') = fds_of l ++ fds_of l'.
Proof. unfold fds_of. by rewrite fmap_app, concat_app. Qed.
Lemma length_bytes l : length (bytes_of l) = length l.
Proof. apply length_fmap. Qed.
Lemma length_tag bs fds : length (tag bs fds) = length bs.
Proof. by rewrite <- length_bytes, bytes_tag. Qed.

Lemma tag_app a b fds : a ≠ [] → tag (a ++ b) fds = tag a fds ++ tag b [].
Proof. destruct a as [|x a]; [done|]. intros _. cbn. f_equal. rewrite fmap_app. f_equal. by destruct b. Qed.

Lemma frame_nonempty d bs : frame d bs → bs ≠ [].
Proof. intros (body & _ & ->) H. apply (f_equal length) in H. rewrite length_app, length_msg_header in H. cbn in H. lia. Qed.

Lemma tframes_frames ds l : tframes ds l → frames ds (bytes_of l) ∧ fds_of l = fd_all ds.
Proof.
  induction 1 as [|d ds bs rest Hf Hl _ [IH1 IH2]]; [split; [constructor|done]|].
  rewrite bytes_app, fds_app, bytes_tag, fds_tag, IH2 by (by eapply frame_nonempty). split; [by constructor|done].
Qed.

Lemma tframes_app ds ds' l l' : tframes ds l → tframes ds' l' → tframes (ds ++ ds') (l ++ l').
Proof.
  induction 1 as [|d ds bs rest Hf Hl _ IH]; intros H'; [done|]. rewrite <- app_assoc. cbn. constructor; auto.
Qed.

(** A proper part of a message is not a message. *)
Lemma frame_prefix_incomplete d bs n :
  frame d bs → Z.of_nat (length bs) ≤ 2 ^ 30 → (n < length bs)%nat → incomplete (take n bs).
Proof.
  intros (body & Hw & ->) Hl Hn. rewrite length_app, length_msg_header in *.
  destruct (Nat.lt_ge_cases n 16) as [Hlt|Hge]; [left; rewrite length_take; lia|]. right.
  exists (16 + Z.of_nat (length body)), (take (n - 16) body). pose proof (proj1 wire_size _ _ Hw).
  rewrite take_app_ge, length_msg_header by (rewrite length_msg_header; lia). split_and!; [done|lia|lia|].
  rewrite length_app, length_msg_header, length_take. lia.
Qed.

(** Any cut of a stream: whole messages, then an incomplete one. *)
Lemma tframes_split ds C D :
  tframes ds (C ++ D) →
  ∃ ds1 ds2 T P, ds = ds1 ++ ds2 ∧ C = T ++ P ∧ tframes ds1 T ∧ tframes ds2 (P ++ D) ∧ incomplete (bytes_of P) ∧
    Z.of_nat (length P) ≤ 2 ^ 30.
Proof.
  remember (C ++ D) as L eqn:E. intros H. revert C E. induction H as [|d ds bs rest Hf Hl Hr IH]; intros C E.
  - symmetry in E. apply app_eq_nil in E as [-> ->]. exists [], [], [], []. split_and!; try done; [constructor|constructor|left; cbn; lia].
  - destruct (Nat.lt_ge_cases (length C) (length (tag bs (fd_list d)))) as [Hlt|Hge].
    + exists [], (d :: ds), [], C. split_and!; [done|done|constructor|rewrite <- E; by constructor| |rewrite length_tag in Hlt; lia].
      assert (C = take (length C) (tag bs (fd_list d))) as HC.
      { apply (f_equal (take (length C))) in E. by rewrite take_app_length, take_app_le in E by lia. }
      rewrite HC. unfold bytes_of. rewrite <- firstn_map. change (map fst) with (@bytes_of). rewrite bytes_tag.
      rewrite length_tag in Hlt. by eapply frame_prefix_incomplete.
    + assert (C = tag bs (fd_list d) ++ drop (length (tag bs (fd_list d))) C) as HC.
      { pose proof (f_equal (take (length (tag bs (fd_list d)))) E) as Et. rewrite take_app_length, take_app_le in Et by lia.
        rewrite Et at 1. by rewrite take_drop. }
      set (C' := drop (length (tag bs (fd_list d))) C) in *. rewrite HC, <- app_assoc in E. apply app_inv_head in E.
      destruct (IH C' E) as (ds1 & ds2 & T & P & -> & HC' & H1 & H2 & H3 & H4).
      exists (d :: ds1), ds2, (tag bs (fd_list d) ++ T), P. split_and!; [done| |by constructor|done|done|done].
      rewrite HC, HC'. apply app_assoc.
Qed.

(** ** The invariant *)

Record sender_ok (l : launch) : Prop := mkSenderOk {
  so_fd : launchd_getfd l ≠ -1;
  so_len : 0 ≤ l_sendlen l ≤ Z.of_nat (length (l_sendbuf l)) ∧ Z.of_nat (length (l_sendbuf l)) < 2 ^ 30;
  so_fds : l_sendfds l = [];
}.

(** The receiver has the messages before [ds] and the first bytes [P] of those; the rest of
    [ds] is in transit or pending at the sender. *)
Record channel_inv (c : channel) (ds : list ldata) (P : list tbyte) : Prop := mkChannelInv {
  ci_sent : c_sent c = c_got c ++ ds;
  ci_stream : tframes ds (P ++ c_wire c ++ tag (pending (c_send c)) []);
  ci_buf : l_recvbuf (c_recv c) = bytes_of P;
  ci_fds : l_recvfds (c_recv c) = fds_of P;
  ci_tail : incomplete (bytes_of P) ∧ Z.of_nat (length P) ≤ 2 ^ 30;
  ci_sender : sender_ok (c_send c);
  ci_receiver : launchd_getfd (c_recv c) ≠ -1;
}.

Lemma length_pending l : sender_ok l → Z.of_nat (length (pending l)) = l_sendlen l.
Proof. intros [_ H _]. unfold pending. rewrite length_take. lia. Qed.

(** One [sendmsg] of a new message. *)
Lemma send_new l e d sz :
  sender_ok l → l_sendlen l = 0 → send_ready e d sz →
  ∃ r bs, launchd_msg_send e l (Some d) = Ok r ∧ frame d bs ∧ Z.of_nat (length bs) ≤ 2 ^ 30 ∧ sender_ok (sr_launch r) ∧ sr_fds r = fd_list d ∧
    sr_wire r ≠ [] ∧ sr_wire r ++ pending (sr_launch r) = bs ∧
    sr_errno r = (if sd_sendmsg e =? 16 + Z.of_nat sz then None else Some EAGAIN) ∧
    l_sendlen (sr_launch r) = 16 + Z.of_nat sz - sd_sendmsg e.
Proof.
  intros [Hfd Hlen Hfds] Hz ((H1 & H2 & H3 & H4 & H5 & H6) & H7 & H8).
  destruct (msg_send_new e l d sz) as (bs & Hw & Hl & Hrun); [done..|]. unfold good_enough_size in *.
  destruct (send_pending_spec e (with_send l (bs ++ drop sz (sd_fresh e)) (Z.of_nat sz) (fd_list d))
              (msg_header (Z.of_nat sz + 16))) as (l' & Hs & Hpend & Hlen' & Hle & Hf & Hg);
    try done; rewrite ?length_msg_header; cbn [with_send l_sendlen l_sendbuf];
    try (rewrite length_app, length_drop; lia); try lia.
  assert (pending (with_send l (bs ++ drop sz (sd_fresh e)) (Z.of_nat sz) (fd_list d)) = bs) as Hb.
  { unfold pending. cbn. rewrite Nat2Z.id, <- Hl. apply take_app_length. }
  rewrite Hb in *. rewrite Hs in Hrun. cbn [lift_ub] in Hrun.
  eexists _, (msg_header (Z.of_nat sz + 16) ++ bs). split; [exact Hrun|]. cbn [sr_launch sr_fds sr_wire]. split_and!.
  - exists bs. split; [done|]. rewrite Hl. f_equal. f_equal. lia.
  - rewrite length_app, length_msg_header. lia.
  - split; [by rewrite Hg| |done]. split; [|lia]. split; [lia|lia].
  - done.
  - intros He. apply (f_equal length) in He. rewrite length_take in He. rewrite length_app, length_msg_header in He. cbn in He. lia.
  - by rewrite Hpend, take_drop.
  - done.
  - rewrite Hlen', Hpend, length_drop, length_app, length_msg_header, Hl. lia.
Qed.

(** One [sendmsg] of a retry. *)
Lemma send_retry l e :
  sender_ok l → 0 < sd_sendmsg e ≤ l_sendlen l → sd_ctrl_same e = true →
  ∃ r, launchd_msg_send e l None = Ok r ∧ sender_ok (sr_launch r) ∧ sr_fds r = [] ∧ sr_wire r ≠ [] ∧ sr_wire r ++ pending (sr_launch r) = pending l ∧
    sr_errno r = (if sd_sendmsg e =? l_sendlen l then None else Some EAGAIN) ∧
    l_sendlen (sr_launch r) = l_sendlen l - sd_sendmsg e.
Proof.
  intros Hok Hs Hc. pose proof (length_pending l Hok) as Hlp. destruct Hok as [Hfd Hlen Hfds].
  destruct (send_pending_spec e l []) as (l2 & E2 & Hp2 & Hl2 & Hle2 & Hf2 & Hg2); try done; cbn [length]; try lia.
  unfold launchd_msg_send. rewrite (proj2 (Z.eqb_neq _ _) Hfd), (proj2 (Z.eqb_neq (l_sendlen l) 0)) by lia. rewrite E2.
  cbn [lift_ub]. eexists. split; [reflexivity|]. cbn [sr_launch sr_fds sr_wire app]. split_and!.
  - split; [by rewrite Hg2| |done]. lia.
  - done.
  - intros He. apply (f_equal length) in He. rewrite length_take in He. cbn in He. lia.
  - by rewrite Hp2, take_drop.
  - done.
  - rewrite Hl2, Hp2, length_drop. cbn [app]. lia.
Qed.

(** A retry that finds the socket full, and a receive that finds it empty, change nothing. *)
Lemma retry_full l e : launchd_getfd l ≠ -1 → l_sendlen l ≠ 0 → sd_sendmsg e = -1 →
  launchd_msg_send e l None = Ok (mkSent (Some (sd_errno e)) l [] []).
Proof.
  intros Hfd Hl Hs. unfold launchd_msg_send, send_pending.
  by rewrite (proj2 (Z.eqb_neq _ _) Hfd), (proj2 (Z.eqb_neq _ _) Hl), Hs.
Qed.

Lemma recv_empty l e closes : launchd_getfd l ≠ -1 → rv_bytes e = None →
  launchd_msg_recv e closes l = Ok (mkRecv (Some (rv_errno e)) l []).
Proof. intros Hfd He. unfold launchd_msg_recv. by rewrite (proj2 (Z.eqb_neq _ _) Hfd), He. Qed.

(** One [recvmsg] of a part [X] of the stream, after [P] was kept: the messages that are
    complete are delivered, and the rest is kept. *)
Lemma recv_chunk l ds P X Y :
  launchd_getfd l ≠ -1 → l_recvbuf l = bytes_of P → l_recvfds l = fds_of P → Z.of_nat (length P) ≤ 2 ^ 30 →
  tframes ds (P ++ X ++ Y) → X ≠ [] → (length X ≤ 8 * 1024)%nat →
  ∃ ds1 ds2 P',
    launchd_msg_recv (mkRecvEnv (Some (bytes_of X)) Other false (fds_of X)) (fun _ => false) l =
      Ok (mkRecv (if bool_decide (P' = []) then None else Some EAGAIN) (with_recv l (bytes_of P') (fds_of P')) ds1) ∧
    ds = ds1 ++ ds2 ∧ tframes ds2 (P' ++ Y) ∧ incomplete (bytes_of P') ∧ Z.of_nat (length P') ≤ 2 ^ 30.
Proof.
  intros Hfd Hb Hf Hl Hst Hx Hx8. rewrite app_assoc in Hst.
  destruct (tframes_split _ _ _ Hst) as (ds1 & ds2 & T & P' & -> & HPX & H1 & H2 & H3 & H4).
  destruct (tframes_frames _ _ H1) as [Hfr Hfds]. exists ds1, ds2, P'. split_and!; [|done..].
  assert (bool_decide (P' = []) = bool_decide (bytes_of P' = [])) as -> by (apply bool_decide_ext; by destruct P').
  apply (recv_stream _ (fun _ => false) l (bytes_of X) ds1 (bytes_of T) (bytes_of P') (fds_of P')); try done.
  - by destruct X.
  - by rewrite Hb, <- !bytes_app, HPX.
  - cbn. by rewrite Hf, <- fds_app, HPX, fds_app, Hfds.
  - rewrite <- bytes_app, length_bytes, <- HPX, length_app. lia.
  - by apply Forall_true.
Qed.

(** Receiving what is there never fails. *)
Lemma recv_step c ds P k :
  channel_inv c ds P → (0 < k ≤ length (c_wire c))%nat → (k ≤ 8 * 1024)%nat →
  ∃ r ds1 ds2 P', launchd_msg_recv (recv_of k c) (fun _ => false) (c_recv c) = Ok r ∧
    rr_errno r = (if bool_decide (P' = []) then None else Some EAGAIN) ∧ rr_msgs r = ds1 ∧ ds = ds1 ++ ds2 ∧
    channel_inv (mkChannel (c_send c) (rr_launch r) (drop k (c_wire c)) (c_sent c) (c_got c ++ ds1)) ds2 P'.
Proof.
  intros [Hs Hst Hb Hf [Ht Hl] Hso Hre] Hk Hk8. rewrite <- (take_drop k (c_wire c)), <- app_assoc in Hst.
  destruct (recv_chunk _ _ _ _ _ Hre Hb Hf Hl Hst) as (ds1 & ds2 & P' & Hr & -> & H2 & H3 & H4).
  - intros He. apply (f_equal length) in He. rewrite length_take in He. cbn in He. lia.
  - rewrite length_take. lia.
  - eexists _, ds1, ds2, P'. split_and!; [exact Hr|done..|].
    split; cbn; [by rewrite Hs, app_assoc|done..].
Qed.

Lemma channel_inv_step c c' : channel_step c c' → (∃ ds P, channel_inv c ds P) → ∃ ds P, channel_inv c' ds P.
Proof.
  intros Hst (ds & P & Hi). destruct Hst as [c e d sz r Hz Hre Hr|c e r Hs Hc Hr|c e r Hz Hs Hr|c e r He Hr|c k r Hk Hk8 Hr].
  - destruct Hi as [H1 H2 H3 H4 H5 H6 H7]. destruct (send_new _ _ _ _ H6 Hz Hre) as (r' & bs & Hr' & Hf & Hl & Hso & Hfd & Hne & Hbs & _ & _).
    rewrite Hr' in Hr. injection Hr as <-. exists (ds ++ [d]), P. split; cbn; [by rewrite H1, app_assoc| |done|done|done|done|done].
    assert (pending (c_send c) = []) as Hp by (unfold pending; rewrite Hz; apply take_0).
    rewrite Hp in H2. cbn in H2. rewrite app_nil_r in H2. rewrite <- app_assoc, app_assoc. apply tframes_app; [done|].
    rewrite Hfd, <- tag_app, Hbs by done. rewrite <- (app_nil_r (tag _ _)). constructor; [done|done|constructor].
  - destruct Hi as [H1 H2 H3 H4 H5 H6 H7]. destruct (send_retry _ _ H6 Hs Hc) as (r' & Hr' & Hso & Hfd & Hne & Hbs & _ & _).
    rewrite Hr' in Hr. injection Hr as <-. exists ds, P. split; cbn; [done| |done|done|done|done|done]. rewrite <- Hbs, tag_app in H2 by done. by rewrite Hfd, <- app_assoc.
  - rewrite retry_full in Hr by (done || apply Hi). injection Hr as <-. exists ds, P. cbn. rewrite app_nil_r.
    by destruct c, Hi.
  - rewrite recv_empty in Hr by (done || apply Hi). injection Hr as <-. exists ds, P. cbn. rewrite app_nil_r.
    by destruct c, Hi.
  - destruct (recv_step _ _ _ _ Hi Hk Hk8) as (r' & ds1 & ds2 & P' & Hr' & _ & Hm & -> & Hi').
    rewrite Hr' in Hr. injection Hr as <-. rewrite Hm. by exists ds2, P'.
Qed.

Lemma channel_inv_reachable l l' c :
  sender_ok l → l_sendlen l = 0 → launchd_getfd l' ≠ -1 → l_recvbuf l' = [] → l_recvfds l' = [] →
  rtc channel_step (channel_init l l') c → ∃ ds P, channel_inv c ds P.
Proof.
  intros Hl Hz Hl' Hb Hf Hr. apply (rtc_invariant _ (fun c => ∃ ds P, channel_inv c ds P) _ _ Hr).
  - exists [], []. split; cbn; [done| |done|done| |done|done].
    + unfold pending. rewrite Hz, take_0. constructor.
    + split; [left; cbn; lia|done].
  - intros a b Hab Ha. by eapply channel_inv_step.
Qed.

(** C12: the connection delivers what it puts on the wire, and loses a message exactly when
    the kernel takes less than its header first.  Take any interleaving of sends, retries and
    receives in which the first [sendmsg] of each message took at least the 16 bytes of the
    header ([send_ready]); every other [sendmsg] and every [recvmsg] may take any part of what
    is there, or find the socket full or empty.  Then the messages the receiver's callback has
    seen are a prefix of those sent, each equal to the one sent and with its descriptors;
    sending a message that fits, retrying and receiving bytes that are there never fail; and
    when nothing is pending at the sender, in transit, or incomplete in the receiver's buffer,
    all were delivered.  The condition on the first [sendmsg] is needed, in every one of these
    states: when it finds the socket full (EAGAIN), the retry puts the packed bytes and the
    descriptors on the wire without the header and reports success; when it takes 1 to 15
    bytes, the buffer is moved from before its start, which is undefined. *)
Theorem channel_delivers l l' c :
  sender_ok l → l_sendlen l = 0 → launchd_getfd l' ≠ -1 → l_recvbuf l' = [] → l_recvfds l' = [] →
  rtc channel_step (channel_init l l') c →
  (∃ ds, c_sent c = c_got c ++ ds) ∧
  (∀ e d sz, l_sendlen (c_send c) = 0 → send_ready e d sz → ∃ r, launchd_msg_send e (c_send c) (Some d) = Ok r) ∧
  (∀ e, 0 < sd_sendmsg e ≤ l_sendlen (c_send c) → sd_ctrl_same e = true →
     ∃ r, launchd_msg_send e (c_send c) None = Ok r) ∧
  (∀ k, (0 < k ≤ length (c_wire c))%nat → (k ≤ 8 * 1024)%nat →
     ∃ r, launchd_msg_recv (recv_of k c) (fun _ => false) (c_recv c) = Ok r ∧ (rr_errno r = None ∨ rr_errno r = Some EAGAIN)) ∧
  (l_sendlen (c_send c) = 0 → c_wire c = [] → l_recvbuf (c_recv c) = [] → c_got c = c_sent c) ∧
  (∀ e d sz, l_sendlen (c_send c) = 0 → send_room e d sz →
     (sd_sendmsg e = -1 → sd_errno e = EAGAIN →
        ∃ l1 bs, wire d bs ∧ launchd_msg_send e (c_send c) (Some d) = Ok (mkSent (Some EAGAIN) l1 [] []) ∧
          ∀ e2, sd_sendmsg e2 = Z.of_nat sz → sd_ctrl_same e2 = true →
            ∃ l2, launchd_msg_send e2 l1 None = Ok (mkSent None l2 bs (fd_list d))) ∧
     (0 < sd_sendmsg e < 16 → sd_ctrl_same e = true → launchd_msg_send e (c_send c) (Some d) = UB)).
Proof.
  intros Hl Hz Hl' Hb Hf Hr. destruct (channel_inv_reachable l l' c) as (ds & P & Hi); [done..|]. split_and!.
  - exists ds. apply Hi.
  - intros e d sz Hs He. destruct (send_new _ _ _ _ (ci_sender _ _ _ Hi) Hs He) as (r & _ & Hrun & _). by exists r.
  - intros e Hs Hc. destruct (send_retry _ _ (ci_sender _ _ _ Hi) Hs Hc) as (r & Hrun & _). by exists r.
  - intros k Hk Hk8. destruct (recv_step _ _ _ _ Hi Hk Hk8) as (r & ds1 & ds2 & P' & Hrun & He & _). exists r. split; [done|].
    rewrite He. case_bool_decide; auto.
  - intros Hs Hw Hrb. destruct Hi as [H1 H2 H3 _ _ _ _]. rewrite Hrb in H3. symmetry in H3. apply fmap_nil_inv in H3 as ->.
    unfold pending in H2. rewrite Hw, Hs, take_0 in H2. cbn in H2. rewrite H1.
    inversion H2 as [|d ds' bs rest Hfr _ _]; subst; [by rewrite app_nil_r|].
    exfalso. apply (frame_nonempty _ _ Hfr). match goal with He : tag _ _ ++ _ = [] |- _ => apply app_eq_nil in He as [He _] end.
    by destruct bs.
  - intros e d sz Hs (H1 & H2 & H3 & H4 & H5 & H6). apply msg_send_header_lost; try done. apply Hi.
Qed.

Lemma nonempty_length (l : list Z) : l ≠ [] → (0 < 1 ≤ length l)%nat.
Proof. destruct l; [done|cbn; lia]. Qed.

Lemma example_ready : send_ready (example_send 20) example_msg 96.
Proof.
  split; [|split; [split; by apply Z.leb_le|done]].
  split; [done|]. split; [done|]. split; [apply example_send_fresh|]. split; [exact example_msg_packable|].
  split; [done|apply Nat.leb_le; reflexivity].
Qed.

Lemma channel_delivers_witness :
  ∃ c, rtc channel_step (channel_init example_launch example_launch) c ∧ c_sent c = [example_msg] ∧
    ∃ r, launchd_msg_recv (recv_of 1 c) (fun _ => false) (c_recv c) = Ok r.
Proof.
  assert (sender_ok example_launch) as Hok by (split; [done|cbn; lia|done]).
  destruct (send_new _ _ _ _ Hok eq_refl example_ready) as (r & bs & Hr & _ & _ & _ & _ & Hne & _).
  pose proof (rtc_once _ _ (ch_send (channel_init example_launch example_launch) _ _ _ _ eq_refl example_ready Hr)) as Hrtc.
  eexists. split; [exact Hrtc|]. split; [reflexivity|].
  destruct (channel_delivers example_launch example_launch _ Hok eq_refl ltac:(done) eq_refl eq_refl Hrtc)
    as (_ & _ & _ & H & _).
  destruct (H 1%nat) as (r' & Hr' & _); [|lia|by exists r'].
  cbn [c_wire channel_init app]. rewrite length_tag. exact (nonempty_length _ Hne).
Defined.
