(* ===== verification/LaunchClient.v ===== *)
(** * The client of launchd ([src/src/launchd/liblaunch/liblaunch.c])

    What a process does to talk to launchd: [launch_client_init] opens the connection,
    [launch_msg_internal] sends a request and waits for its reply (queueing asynchronous
    messages and setting up security sessions for submitted jobs), [launch_msg] checks in the
    Mach services of the reply.  Sockets, [vproc], [bootstrap_check_in] and the UUID library
    are answers of the system. *)

From stdpp Require Import relations.
From S2P Require Import Machine Prelude LaunchData LaunchTypes LaunchMsg LaunchChannel.

(** ** Opening the connection *)

(** What the process globals hold of the client. *)
Record client := mkClient {
  g_l : option launch;
  g_async_resp : ldata;
  g_am_embedded_god : bool;
}.

Inductive init_call :=
  | DupFd (fd dfd : Z) | OpenSocket (fd : Z) | CloseFd (fd : Z) | CloseOnExec (fd : Z) | UnsetTrustedFd
  | ConnectTo (fd : Z) (sun_path : list Z).

(** [trusted] is the number in the environment; [getsocket] what [_vprocmgr_getsocket]
    stores, [connects] whether [connect] succeeds, [alloc] the outcomes of the allocations
    (five of [launchd_fdopen], then the array). *)
Record init_env := mkInitEnv {
  e_socket_env : option (list Z);
  e_trusted : option Z;
  e_dup : Z → Z;
  e_getsocket : option (list Z);
  e_sudo : bool;
  e_use_system : bool;
  e_euid : Z;
  e_socket : Z;
  e_connects : bool;
  e_alloc : nat → bool;
}.

Definition sun_path_size : nat := 104.
Definition name_t_size : nat := 128.

(** [strncpy] into the zeroed [sun_path]. *)
Definition strncpy (s : list Z) (n : nat) : list Z :=
  take n s ++ replicate (sun_path_size - length (take n s)) 0.

Definition client_path (e : init_env) : list Z :=
  match e_socket_env e with
  | Some (c :: where_) => strncpy (c :: where_) sun_path_size
  | _ =>
      match e_getsocket e with
      | Some spath =>
          if (e_sudo e || e_use_system e) && (e_euid e =? 0)
          then strncpy (cstr "/var/tmp/launchd/sock") sun_path_size
          else strncpy spath (if (sun_path_size <? name_t_size)%nat then sun_path_size else name_t_size)
      | None => replicate sun_path_size 0
      end
  end.

Definition close_on_exec (fd : Z) : list init_call := if 0 <=? fd then [CloseOnExec fd] else [].

Definition init_trusted (e : init_env) : Z * list init_call :=
  match e_trusted e with
  | None => (-1, [])
  | Some cifd =>
      let dfd := e_dup e cifd in
      if 0 <=? dfd then (cifd, [DupFd cifd dfd; CloseFd dfd] ++ close_on_exec cifd ++ [UnsetTrustedFd])
      else (-1, [DupFd cifd dfd; UnsetTrustedFd])
  end.

(** [launchd_close(globals->l, close)] *)
Definition launchd_close (l : launch) : list init_call := [CloseFd (l_fd l); CloseFd (l_cifd l)].

(** The label [out_bad]. *)
Definition init_bad (c : client) (lfd cifd : Z) : client * list init_call :=
  (mkClient None (g_async_resp c) (g_am_embedded_god c),
   match g_l c with
   | Some l => launchd_close l
   | None => if negb (lfd =? -1) then [CloseFd lfd] else []
   end ++ (if negb (cifd =? -1) then [CloseFd cifd] else [])).

Definition launch_client_init (e : init_env) (c : client) : client * list init_call :=
  let '(cifd, t0) := init_trusted e in
  let path := client_path e in
  let lfd := e_socket e in
  let t1 := t0 ++ [OpenSocket lfd] ++ close_on_exec lfd in
  if lfd =? -1 then let '(c, t) := init_bad c lfd cifd in (c, t1 ++ t) else
  let t2 := t1 ++ [ConnectTo lfd path] in
  if negb (e_connects e) && negb (negb (cifd =? -1) || g_am_embedded_god c)
  then let '(c, t) := init_bad c lfd cifd in (c, t2 ++ t) else
  let t3 := t2 ++ (if e_connects e then [] else [CloseFd lfd]) in
  let lfd := if e_connects e then lfd else -1 in
  match launchd_fdopen (e_alloc e) lfd cifd with
  | (None, _) => let '(c, t) := init_bad c lfd cifd in (c, t3 ++ t)
  | (Some l, _) =>
      let c := mkClient (Some l) (g_async_resp c) (g_am_embedded_god c) in
      if e_alloc e 5%nat then (mkClient (Some l) (LArray []) (g_am_embedded_god c), t3)
      else let '(c, t) := init_bad c lfd cifd in (c, t3 ++ t)
  end.

(** [ENOTCONN], or an error of the message layer. *)
Inductive client_errno := ENOTCONN | MsgErrno (e : msg_errno).

Definition launch_get_fd (c : client) : client_errno + Z :=
  match g_l c with None => inl ENOTCONN | Some l => inr (l_fd l) end.

(** ** Security sessions *)

Definition ENEEDAUTH : Z := 81.
Definition LAUNCH_KEY_SUBMITJOB : list Z := cstr "SubmitJob".
Definition LAUNCH_KEY_GETJOBS : list Z := cstr "GetJobs".
Definition LAUNCH_KEY_CHECKIN : list Z := cstr "CheckIn".
Definition LAUNCH_JOBKEY_SECURITYSESSIONUUID : list Z := cstr "SecuritySessionUUID".
Definition LAUNCH_JOBKEY_MACHSERVICES : list Z := cstr "MachServices".
Definition LAUNCHD_ASYNC_MSG_KEY : list Z := cstr "_AsyncMessage".

Definition uuid_is_null (u : list Z) : bool := forallb (fun b => b =? 0) u.

Definition uuid_data_is_null (d : ldata) : bool :=
  match d with
  | LOpaque o => (length o =? 16)%nat && uuid_is_null o
  | _ => false
  end.

(** One element of the array of submitted jobs: the job afterwards, and whether it needs a
    session. *)
Definition session_of_job (uuid : list Z) (ji : ldata) : res Empty_set (ldata * nat) :=
  if negb (launch_data_get_type ji =? LAUNCH_DATA_DICTIONARY) then Ok (ji, 0%nat) else
  existing ← launch_data_dict_lookup ji LAUNCH_JOBKEY_SECURITYSESSIONUUID;
  match existing with
  | None =>
      '(ji, _) ← launch_data_dict_insert ji (launch_data_new_opaque uuid) LAUNCH_JOBKEY_SECURITYSESSIONUUID;
      Ok (ji, 1%nat)
  | Some v =>
      Ok (ji, if launch_data_get_type v =? LAUNCH_DATA_OPAQUE then (if uuid_data_is_null v then 0 else 1)%nat else 0%nat)
  end.

Fixpoint sessions_of_jobs (uuid : list Z) (jobs : list (option ldata)) : res Empty_set (list (option ldata) * nat) :=
  match jobs with
  | [] => Ok ([], 0%nat)
  | None :: _ => UB
  | Some ji :: jobs =>
      '(ji, n) ← session_of_job uuid ji;
      '(jobs, m) ← sessions_of_jobs uuid jobs;
      Ok (Some ji :: jobs, (n + m)%nat)
  end.

(** The value under [key] of a dictionary, changed in place. *)
Definition dict_set_value (d : ldata) (key : list Z) (v : ldata) : res Empty_set ldata :=
  l ← ld_elems d; '(_, i) ← find_key key l 0; Ok (ld_with_elems d (<[(i + 1)%nat := Some v]> l)).

(** The part of [launch_msg_internal] before the request is sent: the message afterwards, the
    contents of [uuid] ([stale] is what the uninitialised array holds) and the number of jobs
    that need a session. *)
Definition submit_sessions (uuid stale : list Z) (d : ldata) : res Empty_set (ldata * list Z * nat) :=
  if negb (launch_data_get_type d =? LAUNCH_DATA_DICTIONARY) then Ok (d, stale, 0%nat) else
  v ← launch_data_dict_lookup d LAUNCH_KEY_SUBMITJOB;
  match v with
  | Some (LArray jobs) =>
      '(jobs, n) ← sessions_of_jobs uuid jobs;
      d ← dict_set_value d LAUNCH_KEY_SUBMITJOB (LArray jobs);
      Ok (d, uuid, n)
  | Some (LDict kvs) =>
      existing ← launch_data_dict_lookup (LDict kvs) LAUNCH_JOBKEY_SECURITYSESSIONUUID;
      match existing with
      | None =>
          '(job, _) ← launch_data_dict_insert (LDict kvs) (launch_data_new_opaque uuid) LAUNCH_JOBKEY_SECURITYSESSIONUUID;
          d ← dict_set_value d LAUNCH_KEY_SUBMITJOB job;
          Ok (d, uuid, 1%nat)
      | Some v => Ok (d, stale, if uuid_data_is_null v then 0 else 1)%nat
      end
  | _ => Ok (d, stale, 0%nat)
  end.

(** An element of the reply to an array of jobs. *)
Definition clear_needauth (ri : option ldata) : res Empty_set (option ldata) :=
  match ri with
  | None => UB
  | Some ri =>
      if negb (launch_data_get_type ri =? LAUNCH_DATA_ERRNO) then Ok (Some ri) else
      recvd_err ← launch_data_get_errno ri;
      if recvd_err =? 0 then Ok (Some ri) else
      ri ← launch_data_set_errno ri (if recvd_err =? ENEEDAUTH then 0 else recvd_err);
      Ok (Some ri)
  end.

(** The part after the reply: the reply, and the UUID a session was asked for.
    [set_session u] is whether [vproc_mig_set_security_session] succeeds. *)
Definition finish_sessions (set_session : list Z → bool) (uuid : list Z) (jobs : nat) (resp : option ldata) :
    res Empty_set (option ldata * option (list Z)) :=
  match resp with
  | Some r =>
      if uuid_is_null uuid || (jobs =? 0)%nat then Ok (resp, None) else
      asks ← (if launch_data_get_type r =? LAUNCH_DATA_ERRNO
              then e ← launch_data_get_errno r; Ok (e =? ENEEDAUTH)
              else Ok (launch_data_get_type r =? LAUNCH_DATA_ARRAY));
      if negb asks then Ok (resp, None) else
      if negb (set_session uuid) then Ok (resp, Some uuid) else
      match r with
      | LArray l => l ← mapM clear_needauth l; Ok (Some (LArray l), Some uuid)
      | r => r ← launch_data_set_errno r 0; Ok (Some r, Some uuid)
      end
  | None => Ok (None, None)
  end.

(** ** The transaction *)

(** The payload of an asynchronous message; [None] is a synchronous one. *)
Definition async_message (m : ldata) : res Empty_set (option ldata) :=
  if launch_data_get_type m =? LAUNCH_DATA_DICTIONARY then launch_data_dict_lookup m LAUNCHD_ASYNC_MSG_KEY else Ok None.

(** [launch_msg_getmsgs]: the asynchronous queue and the synchronous response after a
    message. *)
Definition launch_msg_getmsgs (m : ldata) (async : ldata) (sync : option ldata) :
    res Empty_set (ldata * option ldata) :=
  a ← async_message m;
  match a with
  | Some a =>
      a ← launch_data_copy a;
      '(async, _) ← array_set_nth async (Some a) (launch_data_array_get_count async);
      Ok (async, sync)
  | None => m ← launch_data_copy m; Ok (async, Some m)
  end.

Fixpoint getmsgs_all (ms : list ldata) (async : ldata) (sync : option ldata) :
    res Empty_set (ldata * option ldata) :=
  match ms with
  | [] => Ok (async, sync)
  | m :: ms => '(async, sync) ← launch_msg_getmsgs m async sync; getmsgs_all ms async sync
  end.

(** What was sent: the error, if any, the connection, the bytes and the descriptors. *)
Record sent := mkSentAll { s_errno : option msg_errno; s_launch : launch; s_wire : list Z; s_fds : list Z }.

(** [launchd_msg_send] until the message is out; one element of [es] per call. *)
Fixpoint send_all (es : list send_env) (l : launch) (d : option ldata) : res unit sent :=
  match es with
  | [] => NoFuel
  | e :: es =>
      r ← launchd_msg_send e l d;
      match sr_errno r with
      | None => Ok (mkSentAll None (sr_launch r) (sr_wire r) (sr_fds r))
      | Some EAGAIN =>
          s ← send_all es (sr_launch r) None;
          Ok (mkSentAll (s_errno s) (s_launch s) (sr_wire r ++ s_wire s) (sr_fds r ++ s_fds s))
      | Some err => Ok (mkSentAll (Some err) (sr_launch r) (sr_wire r) (sr_fds r))
      end
  end.

(** What was received; [w_waits] counts the calls of [select]. *)
Record waited := mkWaited {
  w_errno : option msg_errno;
  w_launch : launch;
  w_async : ldata;
  w_resp : option ldata;
  w_waits : nat;
}.

(** The loop on [resp == NULL]; [null] is [d == NULL], one element of [rs] per
    [launchd_msg_recv]. *)
Fixpoint wait_reply (null : bool) (rs : list recv_env) (l : launch) (async : ldata) (resp : option ldata)
    (waits : nat) : res Empty_set waited :=
  match resp with
  | Some _ => Ok (mkWaited None l async resp waits)
  | None =>
      if null && (0 <? launch_data_array_get_count async)%nat
      then '(resp, async) ← launch_data_array_pop_first async; Ok (mkWaited None l async resp waits)
      else
        match rs with
        | [] => NoFuel
        | e :: rs =>
            r ← launchd_msg_recv e (fun _ => false) l;
            '(async, resp) ← getmsgs_all (rr_msgs r) async resp;
            match rr_errno r with
            | None => wait_reply null rs (rr_launch r) async resp waits
            | Some EAGAIN =>
                if null then Ok (mkWaited None (rr_launch r) async resp waits)
                else wait_reply null rs (rr_launch r) async resp (S waits)
            | Some err => Ok (mkWaited (Some err) (rr_launch r) async resp waits)
            end
        end
  end.

(** The answers of the system during a transaction. *)
Record answers := mkAnswers {
  a_alljobs : option ldata;
  a_uuid : list Z;
  a_stale : list Z;
  a_sends : list send_env;
  a_recvs : list recv_env;
  a_set_session : list Z → bool;
}.

Record msg_result := mkMsgResult {
  m_resp : option ldata;
  m_errno : option client_errno;
  m_client : client;
  m_msg : option ldata;
  m_wire : list Z;
  m_session : option (list Z);
}.

(** [launch_data_get_type(d) == LAUNCH_DATA_STRING && strcmp(launch_data_get_string(d), s) == 0] *)
Definition is_request (s : list Z) (d : ldata) : res Empty_set bool :=
  if launch_data_get_type d =? LAUNCH_DATA_STRING then t ← key_string (Some d); Ok (bytes_eqb t s) else Ok false.

Definition with_which (w : which_fd) (l : launch) : launch :=
  mkLaunch (l_sendbuf l) (l_sendlen l) (l_sendfds l) (l_recvbuf l) (l_recvfds l) w (l_cifd l) (l_fd l).

(** The transaction proper, between the lock and the unlock of [lc_mtx]. *)
Definition transact (a : answers) (c : client) (l : launch) (d : ldata) (uuid : list Z) (jobs : nat) : res unit msg_result :=
  let done_ resp errno l async wire :=
    '(resp, session) ← lift_ub (finish_sessions (a_set_session a) uuid jobs resp);
    Ok (mkMsgResult resp errno (mkClient (Some l) async (g_am_embedded_god c)) (Some d) wire session) in
  s ← send_all (a_sends a) l (Some d);
  match s_errno s with
  | Some err => done_ None (Some (MsgErrno err)) (s_launch s) (g_async_resp c) (s_wire s)
  | None =>
      w ← lift_ub (wait_reply false (a_recvs a) (s_launch s) (g_async_resp c) None 0%nat);
      done_ (w_resp w) (MsgErrno <$> w_errno w) (w_launch w) (w_async w) (s_wire s)
  end.

(** [launch_msg_internal]; [Err] is a failed assertion of [launchd_msg_send].  A null message
    is looked at without a test once there is a connection. *)
Definition launch_msg_internal (a : answers) (c : client) (d : option ldata) : res unit msg_result :=
  getjobs ← lift_ub (match d with Some d => is_request LAUNCH_KEY_GETJOBS d | None => Ok false end);
  match getjobs, a_alljobs a with
  | true, Some resp => Ok (mkMsgResult (Some resp) None c d [] None)
  | _, _ =>
      match g_l c with
      | None => Ok (mkMsgResult None (Some ENOTCONN) c d [] None)
      | Some l =>
          match d with
          | None => UB
          | Some d =>
              checkin ← lift_ub (is_request LAUNCH_KEY_CHECKIN d);
              let l := with_which (if checkin || g_am_embedded_god c then LAUNCHD_USE_CHECKIN_FD else LAUNCHD_USE_OTHER_FD) l in
              let c := mkClient (Some l) (g_async_resp c) (g_am_embedded_god c) in
              if launchd_getfd l =? -1 then Ok (mkMsgResult None (Some (MsgErrno EPERM)) c (Some d) [] None) else
              '(d, uuid, jobs) ← lift_ub (submit_sessions (a_uuid a) (a_stale a) d);
              transact a c l d uuid jobs
          end
      end
  end.

(** ** Checking in *)

(** [launch_mach_checkin_service]: the service under its name cut to [name_t];
    [check_in] is [bootstrap_check_in]. *)
Definition launch_mach_checkin_service (check_in : list Z → option Z) (key : list Z) (obj : ldata) : res Empty_set ldata :=
  match check_in (take (name_t_size - 1) key) with
  | Some p => launch_data_set_machport obj p
  | None => Ok obj
  end.

Fixpoint checkin_services (check_in : list Z → option Z) (l : list (option ldata)) : res Empty_set (list (option ldata)) :=
  match l with
  | [] => Ok []
  | k :: v :: l =>
      s ← key_string k;
      v ← (match v with
           | Some v => v ← launch_mach_checkin_service check_in s v; Ok (Some v)
           | None => match check_in (take (name_t_size - 1) s) with Some _ => UB | None => Ok None end
           end);
      l ← checkin_services check_in l;
      Ok (k :: v :: l)
  | _ :: [] => UB
  end.

Definition launch_msg (a : answers) (check_in : list Z → option Z) (c : client) (d : option ldata) : res unit msg_result :=
  r ← launch_msg_internal a c d;
  match d with
  | None => UB
  | Some d =>
      checkin ← lift_ub (is_request LAUNCH_KEY_CHECKIN d);
      match m_resp r with
      | Some resp =>
          if negb checkin || negb (launch_data_get_type resp =? LAUNCH_DATA_DICTIONARY) then Ok r else
          mps ← lift_ub (launch_data_dict_lookup resp LAUNCH_JOBKEY_MACHSERVICES);
          match mps with
          | Some (LDict l) =>
              l ← lift_ub (checkin_services check_in l);
              resp ← lift_ub (dict_set_value resp LAUNCH_JOBKEY_MACHSERVICES (LDict l));
              Ok (mkMsgResult (Some resp) (m_errno r) (m_client r) (m_msg r) (m_wire r) (m_session r))
          | _ => Ok r
          end
      | None => Ok r
      end
  end.

(** ** The descriptors of the connection *)

(** The open descriptors after a call; a failed call opens nothing. *)
Definition fd_effect (s : gset Z) (x : init_call) : gset Z :=
  match x with
  | DupFd _ n | OpenSocket n => if 0 <=? n then {[n]} ∪ s else s
  | CloseFd n => s ∖ {[n]}
  | _ => s
  end.

Definition open_fds (t : list init_call) (s : gset Z) : gset Z := foldl fd_effect s t.

Lemma open_fds_app t t' s : open_fds (t ++ t') s = open_fds t' (open_fds t s).
Proof. apply foldl_app. Qed.

Lemma open_fds_cloexec fd s : open_fds (close_on_exec fd) s = s.
Proof. unfold close_on_exec. by case_match. Qed.

Lemma open_fds_socket fd s :
  open_fds (OpenSocket fd :: close_on_exec fd) s = if 0 <=? fd then {[fd]} ∪ s else s.
Proof. rewrite <- (open_fds_cloexec fd (if 0 <=? fd then {[fd]} ∪ s else s)). reflexivity. Qed.

Lemma init_trusted_fds e (s : gset Z) :
  (∀ k, e_trusted e = Some k → e_dup e k ∉ s) → open_fds (init_trusted e).2 s = s.
Proof.
  intros Hd. unfold init_trusted. destruct (e_trusted e) as [k|]; [|done]. specialize (Hd k eq_refl).
  destruct (0 <=? e_dup e k) eqn:E; cbn [snd].
  - rewrite !open_fds_app, open_fds_cloexec. cbn. rewrite E. set_solver.
  - cbn. by rewrite E.
Qed.

Lemma fdopen_fds alloc fd cifd l fds : launchd_fdopen alloc fd cifd = (Some l, fds) → l_fd l = fd ∧ l_cifd l = cifd.
Proof. unfold launchd_fdopen. intros H. repeat (case_match; simplify_eq; try done). Qed.

(** What [launch_client_init] leaves open.  When it succeeds, the connection has the
    trusted descriptor and the new socket, or only the former when [connect] failed, and
    nothing else was opened or closed.  When it fails, on whichever path, there is no
    connection, the socket is closed and so is the trusted descriptor. *)
Theorem client_init_descriptors e c s c' t :
  g_l c = None → Forall (fun fd => 0 ≤ fd) (elements s) →
  (∀ k, e_trusted e = Some k → e_dup e k ∉ s) → -1 ≤ e_socket e → e_socket e ∉ s →
  launch_client_init e c = (c', t) →
  let cifd := (init_trusted e).1 in
  match g_l c' with
  | Some l => l_cifd l = cifd ∧ l_fd l = (if e_connects e then e_socket e else -1) ∧
              open_fds t s = (if e_connects e then {[e_socket e]} ∪ s else s)
  | None => open_fds t s = s ∖ {[cifd]}
  end.
Proof.
  intros Hl Hs Hd Hsk Hfresh. pose proof (init_trusted_fds e s Hd) as Ht. unfold launch_client_init.
  destruct (init_trusted e) as [cifd t0]. cbn [fst snd] in *. set (lfd := e_socket e) in *.
  set (t1 := t0 ++ _ ++ _). assert (open_fds t1 s = if 0 <=? lfd then {[lfd]} ∪ s else s) as Ht1.
  { subst t1. rewrite open_fds_app, Ht. cbn [app]. apply open_fds_socket. }
  clearbody t1. assert (-1 ∉ s) as Hm.
  { intros Hin. apply elem_of_elements in Hin. rewrite Forall_forall in Hs. specialize (Hs _ Hin). lia. }
  assert (∀ s', open_fds (if negb (cifd =? -1) then [CloseFd cifd] else []) s' = if cifd =? -1 then s' else s' ∖ {[cifd]}) as Hcl.
  { intros s'. by destruct (cifd =? -1). }
  destruct (Z.eqb_spec lfd (-1)) as [E|E].
  { intros [= <- <-]. cbn [g_l]. rewrite !open_fds_app, Ht1, Hl, Hcl, E. cbn. destruct (Z.eqb_spec cifd (-1)) as [->|]; set_solver. }
  rewrite (proj2 (Z.leb_le 0 lfd)) in Ht1 by lia.
  destruct (negb (e_connects e) && _).
  { intros [= <- <-]. cbn [g_l]. rewrite !open_fds_app, Ht1, Hl, Hcl. rewrite (proj2 (Z.eqb_neq _ _) E). cbn.
    destruct (Z.eqb_spec cifd (-1)) as [->|]; set_solver. }
  set (t3 := (t1 ++ _) ++ _). assert (open_fds t3 s = if e_connects e then {[lfd]} ∪ s else s) as Ht3.
  { subst t3. rewrite !open_fds_app, Ht1. destruct (e_connects e); cbn; set_solver. }
  clearbody t3. destruct (launchd_fdopen _ _ _) as [[l|] fds] eqn:Ho.
  - apply fdopen_fds in Ho as [Hf Hc]. destruct (e_alloc e 5%nat); intros [= <- <-]; [by rewrite Ht3|].
    cbn [g_l]. rewrite open_fds_app, Ht3. destruct (Z.eqb_spec cifd (-1)) as [->|]; cbn; rewrite Hf, Hc; destruct (e_connects e); set_solver.
  - intros [= <- <-]. cbn [g_l]. rewrite !open_fds_app, Ht3, Hl, Hcl. destruct (e_connects e); [rewrite (proj2 (Z.eqb_neq _ _) E)|]; cbn;
      destruct (Z.eqb_spec cifd (-1)) as [->|]; set_solver.
Qed.

(** ** Sending a request *)

Definition recv_part (l : launch) := (l_recvbuf l, l_recvfds l, l_which l, l_cifd l, l_fd l).

Lemma send_pending_keeps_recv e l h r : send_pending e l h = Ok r → recv_part (sr_launch r) = recv_part l.
Proof.
  unfold send_pending. intros H. repeat case_match; simplify_eq; try done; inv_bind H; by simplify_eq.
Qed.

Lemma lift_ub_inv {E A} (m : res Empty_set A) (a : A) : lift_ub (E := E) m = Ok a → m = Ok a.
Proof. destruct m as [|[]| |]; cbn; congruence. Qed.

(** Sending leaves the receiving side alone. *)
Lemma send_keeps_recv e l d r : launchd_msg_send e l d = Ok r → recv_part (sr_launch r) = recv_part l.
Proof.
  unfold launchd_msg_send. intros H. repeat (case_match; simplify_eq; try done).
  - inv_bind H. destruct v as [[n buf] fds]. case_match; simplify_eq; try done.
    apply lift_ub_inv, send_pending_keeps_recv in H. done.
  - by apply lift_ub_inv, send_pending_keeps_recv in H.
Qed.

Lemma recv_part_getfd l l' : recv_part l' = recv_part l → launchd_getfd l' = launchd_getfd l.
Proof. unfold recv_part, launchd_getfd. intros [= _ _ -> -> ->]. done. Qed.

Fixpoint total_sent (es : list send_env) : Z :=
  match es with [] => 0 | e :: es => sd_sendmsg e + total_sent es end.

(** A [sendmsg] that takes something. *)
Definition takes_some (e : send_env) : Prop := 0 < sd_sendmsg e ∧ sd_ctrl_same e = true.

Lemma total_sent_nonneg es : Forall takes_some es → 0 ≤ total_sent es.
Proof. induction 1 as [|e es [He _] _ IH]; cbn; lia. Qed.

Lemma pending_nil l : l_sendlen l = 0 → pending l = [].
Proof. intros H. unfold pending. rewrite H. apply take_0. Qed.

(** The retries: in whatever pieces the socket takes them, the pending bytes go out. *)
Lemma send_rest es : ∀ l,
  sender_ok l → 0 < l_sendlen l → Forall takes_some es → total_sent es = l_sendlen l →
  ∃ l', send_all es l None = Ok (mkSentAll None l' (pending l) []) ∧ sender_ok l' ∧ l_sendlen l' = 0 ∧
        recv_part l' = recv_part l.
Proof.
  induction es as [|e es IH]; cbn [total_sent send_all]; intros l Hok Hpos Hes Htot; [lia|].
  apply Forall_cons in Hes as [[He Hc] Hes]. pose proof (total_sent_nonneg _ Hes).
  destruct (send_retry l e Hok) as (r & Hr & Hok' & Hfds & _ & Hwire & Herr & Hlen); [lia|done|].
  pose proof (send_keeps_recv _ _ _ _ Hr) as Hk. rewrite Hr, bind_Ok, Herr.
  destruct (Z.eqb_spec (sd_sendmsg e) (l_sendlen l)).
  - rewrite pending_nil, app_nil_r in Hwire by lia. exists (sr_launch r). rewrite Hwire, Hfds. split_and!; [done..|lia|done].
  - destruct (IH (sr_launch r)) as (l' & -> & Hok2 & Hz & Hk2); [done|lia|done|lia|].
    rewrite bind_Ok. cbn [s_errno s_launch s_wire s_fds]. exists l'. rewrite Hfds, Hwire. split_and!; [done..|congruence].
Qed.

(** A request goes out whole. *)
Lemma send_whole e es l d sz :
  sender_ok l → l_sendlen l = 0 → send_ready e d sz → Forall takes_some es → total_sent (e :: es) = 16 + Z.of_nat sz →
  ∃ l' bs, send_all (e :: es) l (Some d) = Ok (mkSentAll None l' bs (fd_list d)) ∧ frame d bs ∧ sender_ok l' ∧
           l_sendlen l' = 0 ∧ recv_part l' = recv_part l.
Proof.
  intros Hok Hz He Hes Htot. cbn [total_sent send_all] in *. pose proof (total_sent_nonneg _ Hes).
  destruct (send_new l e d sz Hok Hz He) as (r & bs & Hr & Hf & _ & Hok' & Hfds & _ & Hwire & Herr & Hlen).
  pose proof (send_keeps_recv _ _ _ _ Hr) as Hk. rewrite Hr, bind_Ok, Herr.
  destruct (Z.eqb_spec (sd_sendmsg e) (16 + Z.of_nat sz)).
  - rewrite pending_nil, app_nil_r in Hwire by lia. exists (sr_launch r), bs. rewrite Hwire, Hfds. split_and!; [done..|lia|done].
  - destruct (send_rest es (sr_launch r)) as (l' & -> & Hok2 & Hz2 & Hk2); [done|lia|done|lia|].
    rewrite bind_Ok. cbn [s_errno s_launch s_wire s_fds]. exists l', bs. rewrite Hfds, Hwire, app_nil_r.
    split_and!; [done..|congruence].
Qed.

(** ** Waiting for the reply *)

(** What a [recvmsg] gives: a part of the stream, or [EAGAIN]. *)
Definition chunk_env (x : option (list tbyte)) : recv_env :=
  match x with
  | Some X => mkRecvEnv (Some (bytes_of X)) Other false (fds_of X)
  | None => mkRecvEnv None EAGAIN false []
  end.

Definition chunk_ok (x : option (list tbyte)) : Prop :=
  match x with Some X => X ≠ [] ∧ (length X ≤ 8 * 1024)%nat | None => True end.

Definition chunks (xs : list (option (list tbyte))) : list tbyte := concat (omap id xs).

Definition async_of (m p : ldata) : Prop := async_message m = Ok (Some p) ∧ typed p.

Lemma getmsgs_async ms ps : Forall2 async_of ms ps →
  ∀ q sync, getmsgs_all ms (LArray q) sync = Ok (LArray (q ++ (Some <$> ps)), sync).
Proof.
  induction 1 as [|m p ms ps [Hm Hp] _ IH]; intros q sync; cbn [getmsgs_all fmap list_fmap]; [by rewrite app_nil_r|].
  unfold launch_msg_getmsgs. rewrite Hm, bind_Ok, copy_typed, bind_Ok by done.
  unfold array_set_nth. cbn [ld_elems launch_data_array_get_count]. rewrite bind_Ok, array_set_end, !bind_Ok.
  cbn [ld_with_elems]. by rewrite IH, <- app_assoc.
Qed.

Lemma getmsgs_all_app ms ms' async sync :
  getmsgs_all (ms ++ ms') async sync = '(async, sync) ← getmsgs_all ms async sync; getmsgs_all ms' async sync.
Proof.
  revert async sync. induction ms as [|m ms IH]; intros async sync; [done|]. cbn.
  destruct (launch_msg_getmsgs m async sync) as [[a s]| | |]; cbn; [by apply IH|done..].
Qed.

(** A complete message is not incomplete. *)
Lemma tframes_complete d ds P : tframes (d :: ds) P → incomplete (bytes_of P) → False.
Proof.
  intros H. inversion H as [|? ? bs rest (body & Hw & Hbs) Hl _]; subst. rewrite bytes_app, bytes_tag.
  pose proof (proj1 wire_size _ _ Hw). intros [Hs|(n & r & Hb & Hn & Hlt)].
  - rewrite !length_app, length_msg_header in Hs. lia.
  - assert (16 + Z.of_nat (length body) = n) as <-.
    { destruct (header_words n r) as [_ H2]; [lia|]. rewrite <- Hb, <- app_assoc in H2.
      rewrite length_app, length_msg_header in Hl.
      destruct (header_words (16 + Z.of_nat (length body)) (body ++ bytes_of rest)) as [_ H3]; [lia|]. congruence. }
    rewrite Hb, length_app, length_msg_header in Hlt. apply (f_equal length) in Hb.
    rewrite !length_app, !length_msg_header in Hb. lia.
Qed.

Lemma snoc_split {A} (ms : list A) x ds1 ds2 :
  ms ++ [x] = ds1 ++ ds2 → (ds2 = [] ∧ ds1 = ms ++ [x]) ∨ ∃ ms2, ds2 = ms2 ++ [x] ∧ ms = ds1 ++ ms2.
Proof.
  destruct ds2 as [|y ds2 _] using rev_ind; intros H; [left; by rewrite app_nil_r in H|right].
  rewrite app_assoc in H. apply app_inj_tail in H as [-> ->]. by exists ds2.
Qed.

Section Reply.
Context (reply : ldata).
Hypothesis reply_sync : async_message reply = Ok None.
Hypothesis reply_typed : typed reply.

Lemma wait_stream xs : ∀ l q P ms ps waits,
  launchd_getfd l ≠ -1 → l_recvbuf l = bytes_of P → l_recvfds l = fds_of P →
  incomplete (bytes_of P) → Z.of_nat (length P) ≤ 2 ^ 30 →
  Forall chunk_ok xs → Forall2 async_of ms ps → tframes (ms ++ [reply]) (P ++ chunks xs) →
  ∃ n, wait_reply false (chunk_env <$> xs) l (LArray q) None waits =
         Ok (mkWaited None (with_recv l [] []) (LArray (q ++ (Some <$> ps))) (Some reply) n).
Proof.
  induction xs as [|x xs IH]; intros l q P ms ps waits Hfd Hb Hf Hi Hl Hxs Hms Hst.
  - exfalso. cbn in Hst. rewrite app_nil_r in Hst. destruct ms; by eapply tframes_complete.
  - apply Forall_cons in Hxs as [Hx Hxs]. cbn [wait_reply fmap list_fmap andb].
    destruct x as [X|]; cbn [chunk_env].
    + destruct Hx as [Hx Hx8]. unfold chunks in Hst. cbn [omap list_omap id concat] in Hst. fold (chunks xs) in Hst.
      destruct (recv_chunk l (ms ++ [reply]) P X (chunks xs)) as (ds1 & ds2 & P' & -> & Hds & Hst' & Hi' & Hl'); [done..|].
      rewrite bind_Ok. cbn [rr_msgs rr_errno rr_launch]. apply snoc_split in Hds as [[-> ->]|(ms2 & -> & ->)].
      * assert (P' ++ chunks xs = []) as HP by (by inversion Hst'). apply app_eq_nil in HP as [-> _].
        rewrite getmsgs_all_app, (getmsgs_async _ _ Hms), bind_Ok. cbn [getmsgs_all]. unfold launch_msg_getmsgs.
        rewrite reply_sync, bind_Ok, copy_typed, !bind_Ok by done. rewrite bool_decide_true by done.
        exists waits. by destruct (chunk_env <$> xs).
      * apply Forall2_app_inv_l in Hms as (p1 & p2 & H1 & H2 & ->). rewrite (getmsgs_async _ _ H1), bind_Ok.
        destruct (IH (with_recv l (bytes_of P') (fds_of P')) (q ++ (Some <$> p1)) P' ms2 p2
                     (if bool_decide (P' = []) then waits else S waits)) as (n & Hn); [done..|].
        exists n. rewrite fmap_app, app_assoc. by case_bool_decide.
    + unfold launchd_msg_recv. rewrite (proj2 (Z.eqb_neq _ _) Hfd). cbn [rv_bytes rv_errno]. rewrite bind_Ok. cbn [rr_msgs getmsgs_all].
      rewrite bind_Ok. cbn [rr_errno rr_launch]. by eapply IH.
Qed.
End Reply.

(** ** Requests and replies *)

Definition chosen_fd (checkin : bool) (c : client) (l : launch) : launch :=
  with_which (if checkin || g_am_embedded_god c then LAUNCHD_USE_CHECKIN_FD else LAUNCHD_USE_OTHER_FD) l.

(** A connection between two transactions. *)
Record idle (l : launch) : Prop := mkIdle {
  idle_sender : sender_ok l;
  idle_sent : l_sendlen l = 0;
  idle_recv : l_recvbuf l = [] ∧ l_recvfds l = [];
}.

(** Two synchronous messages in one [recvmsg]: the second overwrites the first. *)
Lemma wait_overwrites l q X other reply :
  launchd_getfd l ≠ -1 → l_recvbuf l = [] → l_recvfds l = [] → chunk_ok (Some X) → tframes [other; reply] X →
  async_message other = Ok None → typed other → async_message reply = Ok None → typed reply →
  wait_reply false [chunk_env (Some X)] l (LArray q) None 0%nat = Ok (mkWaited None (with_recv l [] []) (LArray q) (Some reply) 0).
Proof.
  intros Hfd Hb Hf [Hx Hx8] Hst Ho To Hr Tr. cbn [wait_reply andb chunk_env].
  destruct (recv_chunk l [other; reply] [] X []) as (ds1 & ds2 & P' & -> & Hds & Hst' & Hi' & _); try done; [by rewrite app_nil_r|].
  rewrite app_nil_r in Hst'. rewrite bind_Ok. cbn [rr_msgs rr_errno rr_launch].
  destruct ds2 as [|d ds2]; [|by destruct (tframes_complete _ _ _ Hst' Hi')].
  inversion Hst'; subst. rewrite app_nil_r in Hds. subst ds1. cbn [getmsgs_all]. unfold launch_msg_getmsgs.
  rewrite Ho, Hr, !bind_Ok, !copy_typed, !bind_Ok by done. done.
Qed.

(** C13: a transaction with launchd.  The conditions: the request fits the buffers, the first
    [sendmsg] takes at least its 16-byte header (the others any part of the rest; see
    [channel_delivers] for what happens otherwise), and the stream the socket then delivers is
    asynchronous messages followed by exactly one synchronous message, the reply, cut anywhere
    and with any number of [EAGAIN]s in between.  Then the bytes of the request go out exactly
    once and in order, the call ends with the reply, the payloads of the asynchronous messages
    are queued in order behind those already there, and the connection is idle again.  The
    condition on the reply is needed: when two synchronous messages arrive in one [recvmsg],
    the second overwrites the first, which is lost. *)
Theorem launch_msg_transaction a c l q d d' checkin uuid jobs e es sz xs ms ps reply resp session :
  g_l c = Some l → g_async_resp c = LArray q → idle (chosen_fd checkin c l) →
  is_request LAUNCH_KEY_GETJOBS d = Ok false → is_request LAUNCH_KEY_CHECKIN d = Ok checkin →
  submit_sessions (a_uuid a) (a_stale a) d = Ok (d', uuid, jobs) →
  a_sends a = e :: es → send_ready e d' sz → Forall takes_some es → total_sent (e :: es) = 16 + Z.of_nat sz →
  a_recvs a = chunk_env <$> xs → Forall chunk_ok xs → tframes (ms ++ [reply]) (chunks xs) →
  Forall2 async_of ms ps → async_message reply = Ok None → typed reply →
  finish_sessions (a_set_session a) uuid jobs (Some reply) = Ok (resp, session) →
  ∃ l' bs, launch_msg_internal a c (Some d) =
      Ok (mkMsgResult resp None (mkClient (Some l') (LArray (q ++ (Some <$> ps))) (g_am_embedded_god c)) (Some d') bs session) ∧
    frame d' bs ∧ idle l' ∧
    (∀ X other, chunk_ok (Some X) → tframes [other; reply] X → async_message other = Ok None → typed other →
       wait_reply false [chunk_env (Some X)] l' (LArray q) None 0%nat =
         Ok (mkWaited None (with_recv l' [] []) (LArray q) (Some reply) 0)).
Proof.
  intros Hl Hq [Hok Hz [Hrb Hrf]] Hg Hc Hsub Hs Hr Hes Htot Hrs Hxs Hst Hms Hsync Hty Hfin.
  destruct (send_whole e es (chosen_fd checkin c l) d' sz) as (l1 & bs & Hsend & Hf & Hok1 & Hz1 & Hk); [done..|].
  pose proof (recv_part_getfd _ _ Hk) as Hfd. unfold recv_part in Hk. injection Hk as Hrb1 Hrf1 _ _ _.
  destruct (wait_stream reply Hsync Hty xs l1 q [] ms ps 0%nat) as (n & Hw); try done.
  { rewrite Hfd. apply Hok. } { by rewrite Hrb1. } { by rewrite Hrf1. } { left. cbn. lia. }
  exists (with_recv l1 [] []), bs. split; [|split; [done|split]].
  - unfold launch_msg_internal. rewrite Hg. cbn [lift_ub]. rewrite bind_Ok, Hl, Hc. cbn [lift_ub]. rewrite bind_Ok.
    fold (chosen_fd checkin c l). rewrite (proj2 (Z.eqb_neq _ _) (so_fd _ Hok)), Hsub. cbn [lift_ub]. rewrite bind_Ok.
    unfold transact. rewrite Hs, Hsend, bind_Ok. cbn [s_errno s_launch s_wire g_async_resp g_am_embedded_god].
    rewrite Hrs, Hq, Hw. cbn [lift_ub]. rewrite bind_Ok. cbn [w_resp w_errno w_launch w_async]. rewrite Hfin. done.
  - destruct Hok1 as [H1 H2 H3]. split; [split; done|done|done].
  - intros X other HX HXs Ho To. apply (wait_overwrites _ _ _ other); try done. apply Hok1.
Qed.

(** ** Sessions of submitted jobs *)

(** Replacing the value of a key that is there. *)
Lemma dict_set_value_refines kvs key v w :
  dict_ok kvs → dict_map kvs !! lower key = Some v →
  ∃ kvs', dict_set_value (LDict (dict_elems kvs)) key w = Ok (LDict (dict_elems kvs')) ∧ dict_ok kvs' ∧
          dict_map kvs' = <[lower key := w]> (dict_map kvs).
Proof.
  intros Hok Hv. unfold dict_set_value. cbn [ld_elems ld_with_elems]. rewrite bind_Ok.
  destruct (find_key_spec key kvs 0 (dict_keys _ Hok)) as [(pre & k & v' & post & -> & Hl & Hn & ->)|[Hn ->]].
  - rewrite bind_Ok. exists (pre ++ (k, w) :: post). split_and!.
    + rewrite !dict_elems_app, !dict_elems_cons, Nat.add_0_l, <- (length_dict_elems pre).
      by rewrite insert_app_r, insert_cons_0 || rewrite (insert_app_r (dict_elems pre) _ 1).
    + destruct Hok as [Hnd Hks]. split.
      * rewrite lower_keys_app in *. exact Hnd.
      * apply Forall_app in Hks as [Ha Hb]. apply Forall_app. split; [done|]. apply Forall_cons in Hb as [Hb1 Hb2]. by constructor.
    + rewrite <- (insert_entry_found k w pre k v' post) by (done || by rewrite Hl). by rewrite dict_map_insert_entry, Hl.
  - by rewrite dict_map_not_in in Hv.
Qed.

Notation session_key := (lower LAUNCH_JOBKEY_SECURITYSESSIONUUID).

Lemma literal_no_nul s : forallb (fun c => negb (c =? 0)) (cstr s) = true → Forall (fun c => c ≠ 0) (cstr s).
Proof. intros H. apply Forall_forall. intros x Hx. rewrite forallb_forall in H. apply list_elem_of_In in Hx. specialize (H x Hx). by destruct (Z.eqb_spec x 0). Qed.

(** The job with a session, and whether it needs one. *)
Definition with_session (uuid : list Z) (m : gmap (list Z) ldata) : gmap (list Z) ldata :=
  match m !! session_key with None => <[session_key := LOpaque uuid]> m | Some _ => m end.

Definition needs_session (m : gmap (list Z) ldata) : nat :=
  match m !! session_key with
  | None => 1
  | Some (LOpaque o) => if uuid_data_is_null (LOpaque o) then 0 else 1
  | Some _ => 0
  end.

Definition job_data (kvs : list (list Z * ldata)) : ldata := LDict (dict_elems kvs).

Lemma session_insert uuid kvs :
  dict_ok kvs → dict_map kvs !! session_key = None →
  ∃ kvs' fr, launch_data_dict_insert (job_data kvs) (LOpaque uuid) LAUNCH_JOBKEY_SECURITYSESSIONUUID = Ok (job_data kvs', fr) ∧
    dict_ok kvs' ∧ dict_map kvs' = with_session uuid (dict_map kvs).
Proof.
  intros Hok Hn. destruct (dict_insert_elems kvs (LOpaque uuid) LAUNCH_JOBKEY_SECURITYSESSIONUUID (dict_keys _ Hok)) as (fr & H & _).
  exists (insert_entry LAUNCH_JOBKEY_SECURITYSESSIONUUID (LOpaque uuid) kvs), fr. split; [done|].
  split; [apply insert_entry_ok; [by apply literal_no_nul|done]|]. unfold with_session. rewrite Hn. apply dict_map_insert_entry.
Qed.

Lemma session_of_job_spec uuid kvs :
  dict_ok kvs →
  ∃ kvs', session_of_job uuid (job_data kvs) = Ok (job_data kvs', needs_session (dict_map kvs)) ∧ dict_ok kvs' ∧
          dict_map kvs' = with_session uuid (dict_map kvs).
Proof.
  intros Hok. unfold session_of_job, job_data. cbn [launch_data_get_type]. rewrite Z.eqb_refl. cbn [negb].
  destruct (dict_lookup_refines kvs LAUNCH_JOBKEY_SECURITYSESSIONUUID Hok) as [-> _]. rewrite bind_Ok.
  unfold needs_session. destruct (dict_map kvs !! session_key) as [v|] eqn:Hv.
  - exists kvs. split_and!; [|done|unfold with_session; by rewrite Hv]. by destruct v.
  - destruct (session_insert uuid kvs Hok Hv) as (kvs' & fr & Hi & Hok' & Hm). exists kvs'.
    unfold launch_data_new_opaque, job_data in *. rewrite Hi. done.
Qed.

Lemma sessions_of_jobs_spec uuid jobs :
  Forall dict_ok jobs →
  ∃ jobs', sessions_of_jobs uuid (Some <$> (job_data <$> jobs)) =
             Ok (Some <$> (job_data <$> jobs'), sum_list ((fun kvs => needs_session (dict_map kvs)) <$> jobs)) ∧
           Forall2 (fun kvs kvs' => dict_ok kvs' ∧ dict_map kvs' = with_session uuid (dict_map kvs)) jobs jobs'.
Proof.
  induction 1 as [|kvs jobs Hok _ (jobs' & IH & Hf)]; [by exists []|].
  destruct (session_of_job_spec uuid kvs Hok) as (kvs' & H & Hok' & Hm). exists (kvs' :: jobs').
  rewrite !fmap_cons. cbn [sessions_of_jobs sum_list]. rewrite H, bind_Ok, IH. split; [done|by constructor].
Qed.

Notation submit_key := (lower LAUNCH_KEY_SUBMITJOB).

(** C14: submitting an array of jobs.  Every job without a session gets the fresh UUID, the
    others and the rest of the message are left alone, and the jobs that need a session are
    counted.  When launchd then answers an array and the session is created for that same
    UUID, every [ENEEDAUTH] of the answer is cleared and nothing else changes. *)
Theorem submitted_sessions uuid stale top jobs errs set_session :
  dict_ok top → Forall dict_ok jobs → dict_map top !! submit_key = Some (LArray (Some <$> (job_data <$> jobs))) →
  uuid_is_null uuid = false → (0 < sum_list ((fun kvs => needs_session (dict_map kvs)) <$> jobs))%nat →
  set_session uuid = true → Forall (fun e => 0 ≤ e < 2 ^ 31) errs →
  ∃ top' jobs' n,
    submit_sessions uuid stale (LDict (dict_elems top)) = Ok (LDict (dict_elems top'), uuid, n) ∧
    n = sum_list ((fun kvs => needs_session (dict_map kvs)) <$> jobs) ∧
    dict_map top' = <[submit_key := LArray (Some <$> (job_data <$> jobs'))]> (dict_map top) ∧
    Forall2 (fun kvs kvs' => dict_ok kvs' ∧ dict_map kvs' = with_session uuid (dict_map kvs)) jobs jobs' ∧
    finish_sessions set_session uuid n (Some (LArray ((fun e => Some (LErrno e)) <$> errs))) =
      Ok (Some (LArray ((fun e => Some (LErrno (if e =? ENEEDAUTH then 0 else e))) <$> errs)), Some uuid).
Proof.
  intros Hok Hjobs Hsub Hu Hn Hset Herrs. destruct (sessions_of_jobs_spec uuid jobs Hjobs) as (jobs' & Hs & Hf).
  destruct (dict_set_value_refines top LAUNCH_KEY_SUBMITJOB _ (LArray (Some <$> (job_data <$> jobs'))) Hok Hsub) as (top' & Hd & _ & Hm).
  eexists top', jobs', _. split_and!; [|reflexivity|done|done|].
  - unfold submit_sessions. cbn [launch_data_get_type]. rewrite Z.eqb_refl. cbn [negb].
    destruct (dict_lookup_refines top LAUNCH_KEY_SUBMITJOB Hok) as [-> _]. by rewrite bind_Ok, Hsub, Hs, bind_Ok, Hd.
  - unfold finish_sessions. rewrite Hu, (proj2 (Nat.eqb_neq _ 0)) by lia. cbn [orb launch_data_get_type].
    change (LAUNCH_DATA_ARRAY =? LAUNCH_DATA_ERRNO) with false. cbv iota. rewrite bind_Ok, Z.eqb_refl, Hset. cbn [negb].
    match goal with |- mbind _ ?m = _ => assert (m = Ok ((fun e => Some (LErrno (if e =? ENEEDAUTH then 0 else e))) <$> errs)) as -> end; [|done].
    clear -Herrs. induction Herrs as [|e errs He _ IH]; [done|]. rewrite !fmap_cons. cbn [mapM]. rewrite IH.
    unfold clear_needauth. cbn [launch_data_get_type]. rewrite Z.eqb_refl. cbn [negb launch_data_get_errno]. rewrite bind_Ok, i32_small by lia.
    destruct (Z.eqb_spec e 0) as [->|]; [done|]. cbn [launch_data_set_errno]. rewrite !bind_Ok. unfold launch_data_new_errno.
    destruct (Z.eqb_spec e ENEEDAUTH); rewrite ?i32_small, ?u64_small by lia; done.
Qed.

(** An error of the code: a single submitted job that brings its own session is counted as
    needing one, but the UUID array was never written, so the session is created for
    whatever the stack held. *)
Theorem stale_session_uuid uuid stale top job o set_session :
  dict_ok top → dict_ok job → dict_map top !! submit_key = Some (job_data job) →
  dict_map job !! session_key = Some (LOpaque o) → uuid_data_is_null (LOpaque o) = false → uuid_is_null stale = false →
  submit_sessions uuid stale (LDict (dict_elems top)) = Ok (LDict (dict_elems top), stale, 1%nat) ∧
  ∃ r, finish_sessions set_session stale 1 (Some (LErrno ENEEDAUTH)) = Ok (r, Some stale).
Proof.
  intros Hok Hj Hsub Hs Ho Hst. split.
  - unfold submit_sessions. cbn [launch_data_get_type]. rewrite Z.eqb_refl. cbn [negb].
    destruct (dict_lookup_refines top LAUNCH_KEY_SUBMITJOB Hok) as [-> _]. rewrite bind_Ok, Hsub. unfold job_data.
    destruct (dict_lookup_refines job LAUNCH_JOBKEY_SECURITYSESSIONUUID Hj) as [-> _]. by rewrite bind_Ok, Hs, Ho.
  - unfold finish_sessions. rewrite Hst. cbn. change (i32 ENEEDAUTH =? ENEEDAUTH) with true. cbn.
    destruct (set_session stale); eexists; reflexivity.
Qed.

(** An error of the code: [launch_msg(NULL)], the only way to the queued asynchronous
    messages, dereferences the null message. *)
Theorem launch_msg_null a check_in c : a_alljobs a = None → launch_msg a check_in c None = UB.
Proof.
  intros H. unfold launch_msg, launch_msg_internal. cbn [lift_ub]. rewrite bind_Ok. by destruct (g_l c).
Qed.

(** ** Checking in *)

(** The ports of the services that could be checked in. *)
Definition checked_in (check_in : list Z → option Z) (kv : list Z * ldata) : list Z * ldata :=
  (kv.1, match check_in (take (name_t_size - 1) kv.1) with Some p => launch_data_new_machport p | None => kv.2 end).

Lemma checkin_services_spec check_in svcs :
  dict_ok svcs → Forall (fun kv => ∃ p, kv.2 = LMachPort p) svcs →
  checkin_services check_in (dict_elems svcs) = Ok (dict_elems (checked_in check_in <$> svcs)).
Proof.
  intros [_ Hk]. induction Hk as [|[k v] svcs Hk _ IH]; intros Hp; [done|]. apply Forall_cons in Hp as [[p Hp] Hps].
  cbn [fst snd] in *. subst v. rewrite dict_elems_cons. cbn [checkin_services]. rewrite key_string_new, bind_Ok by done.
  unfold launch_mach_checkin_service. rewrite fmap_cons. unfold checked_in at 1. cbn [fst snd]. rewrite dict_elems_cons.
  destruct (check_in _); cbn [launch_data_set_machport]; rewrite !bind_Ok, IH by done; done.
Qed.

(** Checking in.  When the transaction of a check-in request ends with a dictionary of Mach
    services, [launch_msg] returns that dictionary with the port of every service that
    [bootstrap_check_in] knows under its name, cut to 127 characters; everything else in it
    is unchanged. *)
Theorem launch_msg_checkin a check_in c r kvs svcs :
  launch_msg_internal a c (Some (launch_data_new_string LAUNCH_KEY_CHECKIN)) = Ok r →
  m_resp r = Some (LDict (dict_elems kvs)) → dict_ok kvs →
  dict_map kvs !! lower LAUNCH_JOBKEY_MACHSERVICES = Some (LDict (dict_elems svcs)) →
  dict_ok svcs → Forall (fun kv => ∃ p, kv.2 = LMachPort p) svcs →
  ∃ kvs', launch_msg a check_in c (Some (launch_data_new_string LAUNCH_KEY_CHECKIN)) =
      Ok (mkMsgResult (Some (LDict (dict_elems kvs'))) (m_errno r) (m_client r) (m_msg r) (m_wire r) (m_session r)) ∧
    dict_ok kvs' ∧
    dict_map kvs' = <[lower LAUNCH_JOBKEY_MACHSERVICES := LDict (dict_elems (checked_in check_in <$> svcs))]> (dict_map kvs).
Proof.
  intros Hr Hresp Hok Hms Hsok Hp.
  destruct (dict_set_value_refines kvs LAUNCH_JOBKEY_MACHSERVICES _ (LDict (dict_elems (checked_in check_in <$> svcs))) Hok Hms) as (kvs' & Hd & Hok' & Hm).
  exists kvs'. split; [|done]. unfold launch_msg. rewrite Hr, bind_Ok.
  change (is_request LAUNCH_KEY_CHECKIN (launch_data_new_string LAUNCH_KEY_CHECKIN)) with (Ok (E := Empty_set) true).
  cbn [lift_ub]. rewrite bind_Ok, Hresp. cbn [launch_data_get_type]. rewrite Z.eqb_refl. cbn [negb orb].
  destruct (dict_lookup_refines kvs LAUNCH_JOBKEY_MACHSERVICES Hok) as [-> _]. cbn [lift_ub]. rewrite bind_Ok, Hms.
  rewrite checkin_services_spec by done. cbn [lift_ub]. rewrite bind_Ok, Hd. done.
Qed.

(** ** Witnesses *)

Definition example_client : client := mkClient (Some example_launch) (LArray []) false.

(** The request is taken in two pieces and the reply arrives after an [EAGAIN]. *)
Definition example_reply_chunks : list (option (list tbyte)) := [None; Some (tag (integer_frame 5) [])].
Definition example_answers : answers :=
  mkAnswers None (replicate 16 7) (replicate 16 9) [example_send 20; example_send 92] (chunk_env <$> example_reply_chunks) (fun _ => true).

Lemma launch_msg_transaction_witness :
  ∃ r bs, launch_msg_internal example_answers example_client (Some example_msg) = Ok r ∧
    m_resp r = Some (LInteger 5) ∧ m_wire r = bs ∧ frame example_msg bs.
Proof.
  destruct (launch_msg_transaction example_answers example_client example_launch [] example_msg example_msg false (replicate 16 9) 0
              (example_send 20) [example_send 92] 96 example_reply_chunks [] [] (LInteger 5) (Some (LInteger 5)) None)
    as (l' & bs & Hr & Hf & _); try reflexivity.
  - split; [split; [done|cbn; lia|done]|done|done].
  - exact example_ready.
  - by repeat constructor.
  - constructor; [done|]. constructor; [|constructor]. split; [done|]. apply Nat.leb_le. reflexivity.
  - cbn [app chunks example_reply_chunks omap list_omap id concat]. apply tframes_cons; [by apply integer_frame_ok|done|constructor].
  - constructor.
  - constructor. lia.
  - eexists _, bs. split; [exact Hr|]. cbn [m_resp m_wire]. exact (conj eq_refl (conj eq_refl Hf)).
Defined.

Definition example_job : list (list Z * ldata) := [(cstr "Label", launch_data_new_string (cstr "a"))].
Definition example_submit : list (list Z * ldata) := [(LAUNCH_KEY_SUBMITJOB, LArray (Some <$> (job_data <$> [example_job])))].

Lemma example_dicts : dict_ok example_job ∧ dict_ok example_submit.
Proof. split; (split; [by apply NoDup_singleton|constructor; [by apply literal_no_nul|constructor]]). Qed.

Lemma submitted_sessions_witness :
  ∃ top' n, submit_sessions (replicate 16 7) (replicate 16 0) (LDict (dict_elems example_submit)) =
              Ok (LDict (dict_elems top'), replicate 16 7, n).
Proof.
  destruct (submitted_sessions (replicate 16 7) (replicate 16 0) example_submit [example_job] [ENEEDAUTH; 0] (fun _ => true)
              (proj2 example_dicts) (proj2 (Forall_singleton _ _) (proj1 example_dicts)) eq_refl eq_refl)
    as (top' & jobs' & n & H & _).
  - by apply Nat.ltb_lt.
  - done.
  - repeat constructor; by apply Z.leb_le || by apply Z.ltb_lt.
  - by exists top', n.
Defined.

Definition example_services : list (list Z * ldata) := [(cstr "svc", LMachPort 0)].
Definition example_checkin_reply : list (list Z * ldata) := [(LAUNCH_JOBKEY_MACHSERVICES, LDict (dict_elems example_services))].

Lemma example_services_ok : dict_ok example_services ∧ dict_ok example_checkin_reply.
Proof. split; (split; [by apply NoDup_singleton|constructor; [by apply literal_no_nul|constructor]]). Qed.

Definition example_checkin_frame : list Z :=
  match launch_data_pack (LDict (dict_elems example_checkin_reply)) (replicate 300 0) 0 300 None with
  | Ok (n, buf, _) => msg_header (n + 16) ++ take (Z.to_nat n) buf
  | _ => []
  end.

Definition example_checkin_answers : answers :=
  mkAnswers None (replicate 16 7) (replicate 16 9) [mkSend true true (replicate 300 0) 48 EAGAIN true]
    [mkRecvEnv (Some example_checkin_frame) Other false []] (fun _ => true).

Definition example_checkin_client : client :=
  mkClient (launchd_fdopen (fun _ => true) (-1) 4).1 (LArray []) false.

Definition example_checkin_result : msg_result :=
  match launch_msg_internal example_checkin_answers example_checkin_client (Some (launch_data_new_string LAUNCH_KEY_CHECKIN)) with
  | Ok r => r
  | _ => mkMsgResult None None example_checkin_client None [] None
  end.

Lemma launch_msg_checkin_witness :
  ∃ r kvs, launch_msg example_checkin_answers (fun _ => Some 9) example_checkin_client (Some (launch_data_new_string LAUNCH_KEY_CHECKIN)) = Ok r ∧
    m_resp r = Some (LDict (dict_elems kvs)) ∧
    dict_map kvs !! lower LAUNCH_JOBKEY_MACHSERVICES = Some (LDict (dict_elems [(cstr "svc", LMachPort 9)])).
Proof.
  destruct (launch_msg_checkin example_checkin_answers (fun _ => Some 9) example_checkin_client example_checkin_result
              example_checkin_reply example_services) as (kvs & Hr & _ & Hm).
  - vm_compute. reflexivity.
  - vm_compute. reflexivity.
  - apply example_services_ok.
  - reflexivity.
  - apply example_services_ok.
  - constructor; [by exists 0|constructor].
  - eexists _, kvs. split; [exact Hr|]. split; [reflexivity|]. rewrite Hm. by rewrite lookup_insert_eq.
Defined.

Lemma client_init_descriptors_witness :
  ∃ c t, launch_client_init (mkInitEnv None (Some 5) (fun _ => 6) None false false 0 6 false (fun _ => true)) (mkClient None (LArray []) false) = (c, t) ∧
    open_fds t {[5; 0]} = {[5; 0]}.
Proof.
  eexists _, _. split; [reflexivity|].
  refine (proj2 (proj2 (client_init_descriptors (mkInitEnv None (Some 5) (fun _ => 6) None false false 0 6 false (fun _ => true))
           (mkClient None (LArray []) false) {[5; 0]} _ _ eq_refl _ _ _ _ eq_refl))).
  - apply Forall_forall. intros x Hx. apply elem_of_elements in Hx. apply elem_of_union in Hx as [Hx|Hx]; apply elem_of_singleton in Hx; lia.
  - intros k _. cbn. intros Hx. apply elem_of_union in Hx as [Hx|Hx]; apply elem_of_singleton in Hx; lia.
  - cbn. lia.
  - cbn. intros Hx. apply elem_of_union in Hx as [Hx|Hx]; apply elem_of_singleton in Hx; lia.
Defined.
