(* ===== verification/FutexLock.v ===== *)
(** * The futex lock and condition variable ([src/src/libsimple/src/lock.c])

    [libsimple_lock] and [libsimple_condvar] as a machine of threads that share two
    32-bit words, the state of a lock and the state of a condition variable used with
    it.  Every step of a thread performs at most one access to a shared word, which
    is atomic; a futex call is one step.  The waiters of a futex are the threads whose
    program counter is asleep on it.  The kernel may wake a sleeper at any time (a
    signal), and [FUTEX_WAKE] chooses the sleeper it wakes. *)

From S2P Require Import Machine Prelude.

Definition libsimple_lock_state_unlocked : Z := 0.
Definition libsimple_lock_state_locked_uncontended : Z := 1.
Definition libsimple_lock_state_locked_contended : Z := 2.

Definition libsimple_condvar_bit_need_to_wake_one : Z := 1.
Definition libsimple_condvar_bit_need_to_wake_all : Z := 2.
Definition libsimple_condvar_bit_increment : Z := 4.

(** The compare-and-exchange: the value it found and the new value of the word. *)
Definition cmpxchg_wrapper_u32 (word expected desired : Z) : Z * Z :=
  (word, if word =? expected then desired else word).

(** ** Program counters *)

(** Where [libsimple_lock_unlock] returns to: the client, or the rest of
    [libsimple_condvar_wait] with the value it will wait for. *)
Inductive unlock_ret := ToClient | ToWait (state2 : Z).

(** [Idle] and [Crit] are the client without and with the lock.  The [bool] of a
    notifying thread tells whether it holds the lock meanwhile. *)
Inductive lock_pc :=
  | Idle
  | Crit
  | LockStart
  | LockTest (prev : Z)
  | LockWait
  | LockAsleep
  | LockRetry
  | SlowXchg
  | SlowWait
  | SlowAsleep
  | TryStart
  | UnlockXchg (ret : unlock_ret)
  | UnlockWake (ret : unlock_ret)
  | CvRegister
  | CvWait (state2 : Z)
  | CvAsleep
  | CvRequeued
  | OneAdd (h : bool)
  | OneClear (h : bool)
  | OneWake (h : bool)
  | OneRestore (h : bool)
  | AllAdd (h : bool)
  | AllClear (h : bool)
  | AllRequeue (h : bool).

#[export] Instance unlock_ret_eq_dec : EqDecision unlock_ret.
Proof. solve_decision. Defined.
#[export] Instance lock_pc_eq_dec : EqDecision lock_pc.
Proof. solve_decision. Defined.

Definition client (h : bool) : lock_pc := if h then Crit else Idle.

(** ** The functions, one atomic action at a time

    Each takes the program counter and the word and gives the next ones; [None] is a
    counter of another function, or a futex call that acts on other threads. *)

(** [libsimple_lock_lock] *)
Definition libsimple_lock_lock (p : lock_pc) (lk : Z) : option (lock_pc * Z) :=
  match p with
  | LockStart =>
      let '(prev, lk) := cmpxchg_wrapper_u32 lk libsimple_lock_state_unlocked
                           libsimple_lock_state_locked_uncontended in
      Some (if prev =? libsimple_lock_state_unlocked then Crit else LockTest prev, lk)
  | LockTest prev =>
      if prev =? libsimple_lock_state_locked_contended then Some (LockWait, lk)
      else
        let '(prev, lk) := cmpxchg_wrapper_u32 lk libsimple_lock_state_locked_uncontended
                             libsimple_lock_state_locked_contended in
        Some (if prev =? libsimple_lock_state_unlocked then LockRetry else LockWait, lk)
  | LockWait =>
      Some (if lk =? libsimple_lock_state_locked_contended then LockAsleep else LockRetry, lk)
  | LockRetry =>
      let '(prev, lk) := cmpxchg_wrapper_u32 lk libsimple_lock_state_unlocked
                           libsimple_lock_state_locked_contended in
      Some (if prev =? libsimple_lock_state_unlocked then Crit else LockTest prev, lk)
  | _ => None
  end.

(** [libsimple_lock_lock_slow] *)
Definition libsimple_lock_lock_slow (p : lock_pc) (lk : Z) : option (lock_pc * Z) :=
  match p with
  | SlowXchg =>
      Some (if lk =? libsimple_lock_state_unlocked then Crit else SlowWait,
            libsimple_lock_state_locked_contended)
  | SlowWait =>
      Some (if lk =? libsimple_lock_state_locked_contended then SlowAsleep else SlowXchg, lk)
  | _ => None
  end.

Definition unlock_next (ret : unlock_ret) : lock_pc :=
  match ret with ToClient => Idle | ToWait state2 => CvWait state2 end.

(** [libsimple_lock_unlock] *)
Definition libsimple_lock_unlock (p : lock_pc) (lk : Z) : option (lock_pc * Z) :=
  match p with
  | UnlockXchg ret =>
      Some (if lk =? libsimple_lock_state_locked_contended then UnlockWake ret
            else unlock_next ret, libsimple_lock_state_unlocked)
  | _ => None
  end.

(** [libsimple_lock_try_lock] *)
Definition libsimple_lock_try_lock (p : lock_pc) (lk : Z) : option (lock_pc * Z) :=
  match p with
  | TryStart =>
      let '(prev, lk) := cmpxchg_wrapper_u32 lk libsimple_lock_state_unlocked
                           libsimple_lock_state_locked_uncontended in
      Some (if prev =? libsimple_lock_state_unlocked then Crit else Idle, lk)
  | _ => None
  end.

Definition need_to_wake_both : Z :=
  Z.lor libsimple_condvar_bit_need_to_wake_all libsimple_condvar_bit_need_to_wake_one.

(** [libsimple_condvar_wait]; it calls the unlock and the slow lock above. *)
Definition libsimple_condvar_wait (p : lock_pc) (cv : Z) : option (lock_pc * Z) :=
  match p with
  | CvRegister =>
      let state2 := Z.lor cv need_to_wake_both in Some (UnlockXchg (ToWait state2), state2)
  | CvWait state2 => Some (if cv =? state2 then CvAsleep else SlowXchg, cv)
  | _ => None
  end.

(** [libsimple_condvar_notify_one], up to its futex call. *)
Definition libsimple_condvar_notify_one (p : lock_pc) (cv : Z) : option (lock_pc * Z) :=
  match p with
  | OneAdd h =>
      let state2 := u32 (cv + libsimple_condvar_bit_increment) in
      Some (if Z.land state2 libsimple_condvar_bit_need_to_wake_one =? 0 then client h
            else OneClear h, state2)
  | OneClear h =>
      Some (if Z.land cv libsimple_condvar_bit_need_to_wake_one =? 0 then client h
            else OneWake h,
            Z.land cv (Z.lnot libsimple_condvar_bit_need_to_wake_one))
  | OneRestore h => Some (client h, Z.lor cv libsimple_condvar_bit_need_to_wake_one)
  | _ => None
  end.

(** [libsimple_condvar_notify_all], up to its futex call. *)
Definition libsimple_condvar_notify_all (p : lock_pc) (cv : Z) : option (lock_pc * Z) :=
  match p with
  | AllAdd h =>
      let state2 := u32 (cv + libsimple_condvar_bit_increment) in
      Some (if Z.land state2 libsimple_condvar_bit_need_to_wake_all =? 0 then client h
            else AllClear h, state2)
  | AllClear h => Some (AllRequeue h, Z.land cv (Z.lnot need_to_wake_both))
  | _ => None
  end.

(** ** The machine *)

Record lock_world := mkWorld {
  w_lock : Z;
  w_cv : Z;
  w_threads : nat → lock_pc;
}.

Definition lock_init : lock_world := mkWorld 0 0 (fun _ => Idle).

(** One action of a thread on the shared words. *)
Definition thread_step (p : lock_pc) (lk cv : Z) : option (lock_pc * Z * Z) :=
  let on_lock r := (fun '(p, lk) => (p, lk, cv)) <$> r in
  let on_cv r := (fun '(p, cv) => (p, lk, cv)) <$> r in
  on_lock (libsimple_lock_lock p lk) ∪ on_lock (libsimple_lock_lock_slow p lk) ∪
  on_lock (libsimple_lock_unlock p lk) ∪ on_lock (libsimple_lock_try_lock p lk) ∪
  on_cv (libsimple_condvar_wait p cv) ∪ on_cv (libsimple_condvar_notify_one p cv) ∪
  on_cv (libsimple_condvar_notify_all p cv).

(** The sleepers of the two futexes, and where a sleeper goes on. *)
Definition asleep_lock (p : lock_pc) : bool :=
  match p with LockAsleep | SlowAsleep | CvRequeued => true | _ => false end.
Definition asleep_cv (p : lock_pc) : bool :=
  match p with CvAsleep => true | _ => false end.
Definition woken (p : lock_pc) : lock_pc :=
  match p with LockAsleep => LockRetry | _ => SlowXchg end.

(** [FUTEX_REQUEUE] with one thread to wake: the chosen sleeper runs, the others
    sleep on the lock. *)
Definition requeue (c : nat) (th : nat → lock_pc) : nat → lock_pc :=
  fun u => if asleep_cv (th u) then (if decide (u = c) then SlowXchg else CvRequeued) else th u.

(** The calls a client makes; [unlocked] allows a notification by a thread that does
    not hold the lock. *)
Definition client_call (unlocked : bool) (p p' : lock_pc) : bool :=
  match p, p' with
  | Idle, (LockStart | TryStart) => true
  | Idle, (OneAdd false | AllAdd false) => unlocked
  | Crit, (UnlockXchg ToClient | CvRegister | OneAdd true | AllAdd true) => true
  | _, _ => false
  end.

Inductive lock_step (unlocked : bool) : lock_world → lock_world → Prop :=
  | ls_call lk cv th t p : client_call unlocked (th t) p = true →
      lock_step unlocked (mkWorld lk cv th) (mkWorld lk cv (<[t := p]> th))
  | ls_thread lk cv th t p lk' cv' : thread_step (th t) lk cv = Some (p, lk', cv') →
      lock_step unlocked (mkWorld lk cv th) (mkWorld lk' cv' (<[t := p]> th))
  | ls_signal lk cv th u : asleep_lock (th u) || asleep_cv (th u) = true →
      lock_step unlocked (mkWorld lk cv th) (mkWorld lk cv (<[u := woken (th u)]> th))
  | ls_wake lk cv th t ret u : th t = UnlockWake ret → asleep_lock (th u) = true →
      lock_step unlocked (mkWorld lk cv th)
        (mkWorld lk cv (<[t := unlock_next ret]> (<[u := woken (th u)]> th)))
  | ls_wake_none lk cv th t ret : th t = UnlockWake ret → (∀ u, asleep_lock (th u) = false) →
      lock_step unlocked (mkWorld lk cv th) (mkWorld lk cv (<[t := unlock_next ret]> th))
  | ls_one lk cv th t h u : th t = OneWake h → asleep_cv (th u) = true →
      lock_step unlocked (mkWorld lk cv th)
        (mkWorld lk cv (<[t := OneRestore h]> (<[u := woken (th u)]> th)))
  | ls_one_none lk cv th t h : th t = OneWake h → (∀ u, asleep_cv (th u) = false) →
      lock_step unlocked (mkWorld lk cv th) (mkWorld lk cv (<[t := client h]> th))
  | ls_all lk cv th t h c : th t = AllRequeue h → asleep_cv (th c) = true →
      lock_step unlocked (mkWorld lk cv th) (mkWorld lk cv (<[t := client h]> (requeue c th)))
  | ls_all_none lk cv th t h : th t = AllRequeue h → (∀ u, asleep_cv (th u) = false) →
      lock_step unlocked (mkWorld lk cv th) (mkWorld lk cv (<[t := client h]> th)).

Definition lock_reachable (unlocked : bool) : lock_world → Prop :=
  rtc (lock_step unlocked) lock_init.

(** ** Mutual exclusion *)

(** A thread that has the lock. *)
Definition holds (p : lock_pc) : bool :=
  match p with
  | Crit | UnlockXchg _ | CvRegister => true
  | OneAdd h | OneClear h | OneWake h | OneRestore h | AllAdd h | AllClear h | AllRequeue h => h
  | _ => false
  end.

Record exclusive (lk : Z) (th : nat → lock_pc) : Prop := mkExclusive {
  ex_state : lk = 0 ∨ lk = 1 ∨ lk = 2;
  ex_unique : ∀ t u, holds (th t) = true → holds (th u) = true → t = u;
  ex_free : lk = 0 → ∀ t, holds (th t) = false;
  ex_held : lk ≠ 0 → ∃ t, holds (th t) = true;
}.

(** Effect of one thread's step on the lock. *)
Definition lock_change (lk : Z) (p : lock_pc) (lk' : Z) (p' : lock_pc) : Prop :=
  (lk' = 0 ∨ lk' = 1 ∨ lk' = 2) ∧
  if holds p' then lk' ≠ 0 ∧ (holds p = true ∨ lk = 0)
  else (holds p = true ∧ lk' = 0) ∨ (holds p = false ∧ (lk = 0 ↔ lk' = 0)).

Lemma exclusive_update lk th t lk' p' :
  exclusive lk th → lock_change lk (th t) lk' p' → exclusive lk' (<[t := p']> th).
Proof.
  intros [Hs Hu Hf Hh] [Hs' Hc]. split; [done| | |].
  - intros u v. rewrite !fn_lookup_insert_ext.
    destruct (decide (t = u)) as [<-|Hne], (decide (t = v)) as [<-|Hnv]; intros H1 H2; [done|..].
    + rewrite H1 in Hc. destruct Hc as [_ [Hc|Hc]]; [by apply Hu|]. by rewrite (Hf Hc) in H2.
    + rewrite H2 in Hc. destruct Hc as [_ [Hc|Hc]]; [by apply Hu|]. by rewrite (Hf Hc) in H1.
    + by apply Hu.
  - intros H0 u. rewrite fn_lookup_insert_ext.
    destruct (holds p') eqn:Hp; [by destruct Hc|].
    destruct (decide (t = u)) as [<-|Hne]; [done|].
    destruct Hc as [[Hc _]|[Hc Hlk]]; [|by apply Hf, Hlk].
    destruct (holds (th u)) eqn:Hu'; [|done]. by destruct Hne; apply Hu.
  - intros Hne. destruct (holds p') eqn:Hp.
    + exists t. by rewrite fn_lookup_insert.
    + destruct Hc as [[_ Hc]|[Hc Hlk]]; [done|]. destruct Hh as [u Hu']; [naive_solver|].
      exists u. rewrite fn_lookup_insert_ne; [done|]. congruence.
Qed.

Lemma exclusive_ext lk th th' :
  (∀ u, holds (th' u) = holds (th u)) → exclusive lk th → exclusive lk th'.
Proof.
  intros He [Hs Hu Hf Hh]. split; [done| | |].
  - intros t u. rewrite !He. apply Hu.
  - intros H0 t. rewrite He. by apply Hf.
  - intros H0. destruct (Hh H0) as [t Ht]. exists t. by rewrite He.
Qed.

Lemma holds_same (th : nat → lock_pc) t p u :
  holds p = holds (th t) → holds ((<[t := p]> th : nat → lock_pc) u) = holds (th u).
Proof. intros H. rewrite fn_lookup_insert_ext. by destruct (decide (t = u)) as [<-|]. Qed.

(** Opens a step that is inside one thread: the counter, the outcome, the tests. *)
Ltac inv_thread_step H :=
  match type of H with
  | thread_step ?p _ _ = Some _ =>
      destruct p; unfold thread_step, libsimple_lock_lock, libsimple_lock_lock_slow,
        libsimple_lock_unlock, libsimple_lock_try_lock, libsimple_condvar_wait,
        libsimple_condvar_notify_one, libsimple_condvar_notify_all, cmpxchg_wrapper_u32,
        libsimple_lock_state_unlocked, libsimple_lock_state_locked_uncontended,
        libsimple_lock_state_locked_contended in H;
      cbn -[Z.land Z.lor Z.lnot u32 Z.eqb] in H; zbool;
      cbn -[Z.land Z.lor Z.lnot u32 Z.eqb] in H; simplify_eq
  end.

Lemma holds_client h : holds (client h) = h.
Proof. by destruct h. Qed.

Lemma holds_unlock_next r : holds (unlock_next r) = false.
Proof. by destruct r. Qed.

Lemma thread_step_change lk cv p lk' cv' p' :
  (lk = 0 ∨ lk = 1 ∨ lk = 2) → (holds p = true → lk ≠ 0) →
  thread_step p lk cv = Some (p', lk', cv') → lock_change lk p lk' p'.
Proof.
  intros Hlk Hp Hs. inv_thread_step Hs.
  all: unfold lock_change; cbn [holds] in *; rewrite ?holds_client, ?holds_unlock_next.
  all: try (destruct h; naive_solver lia).
  all: cbn in *; intuition (congruence || lia).
Qed.

Lemma holds_woken p : holds (woken p) = false.
Proof. by destruct p. Qed.

Lemma holds_asleep p : asleep_lock p || asleep_cv p = true → holds p = false.
Proof. by destruct p. Qed.

Lemma holds_requeue c th u : holds (requeue c th u) = holds (th u).
Proof.
  unfold requeue. destruct (th u) eqn:E; cbn; try done. by destruct (decide (u = c)).
Qed.

Lemma client_call_holds b p p' : client_call b p p' = true → holds p' = holds p.
Proof. destruct p, p'; cbn; try done; by repeat case_match. Qed.

Lemma holds_same2 (th : nat → lock_pc) t p u q x :
  holds p = holds (th t) → holds q = holds (th u) →
  holds ((<[t := p]> (<[u := q]> th) : nat → lock_pc) x) = holds (th x).
Proof.
  intros H1 H2. rewrite !fn_lookup_insert_ext.
  destruct (decide (t = x)) as [<-|]; [done|]. by destruct (decide (u = x)) as [<-|].
Qed.

(** The steps that only move threads keep who holds the lock; the others are those of
    [thread_step]. *)
Lemma exclusive_step b s s' :
  lock_step b s s' → exclusive (w_lock s) (w_threads s) → exclusive (w_lock s') (w_threads s').
Proof.
  intros Hs He. destruct Hs as [lk cv th t p Hc|lk cv th t p lk' cv' Hc|lk cv th u Hu
    |lk cv th t ret u Ht Hu|lk cv th t ret Ht _|lk cv th t h u Ht Hu|lk cv th t h Ht _
    |lk cv th t h c Ht _|lk cv th t h Ht _]; cbn [w_lock w_threads] in *;
    try (eapply exclusive_ext, He; intros x).
  - by eapply holds_same, client_call_holds.
  - eapply exclusive_update; [done|]. eapply thread_step_change; [apply He| |done].
    intros Hh H0. pose proof (ex_free _ _ He H0 t). congruence.
  - apply holds_same. by rewrite holds_woken, holds_asleep.
  - apply holds_same2; [by rewrite Ht, holds_unlock_next|].
    rewrite holds_woken, holds_asleep; [done|]. by rewrite Hu.
  - apply holds_same. by rewrite Ht, holds_unlock_next.
  - apply holds_same2; [by rewrite Ht|].
    rewrite holds_woken, holds_asleep; [done|]. by rewrite Hu, orb_true_r.
  - apply holds_same. by rewrite Ht, holds_client.
  - rewrite holds_same; [apply holds_requeue|]. by rewrite holds_requeue, Ht, holds_client.
  - apply holds_same. by rewrite Ht, holds_client.
Qed.

Lemma exclusive_reachable b s :
  lock_reachable b s → exclusive (w_lock s) (w_threads s).
Proof.
  intros Hr. eapply (rtc_invariant _ (fun s => exclusive (w_lock s) (w_threads s))); [done| |].
  - split; [by left|done|done|done].
  - apply exclusive_step.
Qed.

(** Mutual exclusion.  Whatever the interleaving of lock, try-lock, unlock,
    condition waits, notifications and spurious wake-ups, two threads never hold the
    lock at the same time, and the lock word says whether one does. *)
Theorem lock_mutual_exclusion b s :
  lock_reachable b s →
  (∀ t u, holds (w_threads s t) = true → holds (w_threads s u) = true → t = u) ∧
  (w_lock s = 0 ↔ ∀ t, holds (w_threads s t) = false) ∧
  0 ≤ w_lock s ≤ 2.
Proof.
  intros Hr. destruct (exclusive_reachable b s Hr) as [Hs Hu Hf Hh].
  split; [exact Hu|]. split; [|lia]. split; [exact Hf|]. intros Hall.
  destruct (decide (w_lock s = 0)) as [|Hne]; [done|]. destruct (Hh Hne) as [t Ht].
  by rewrite Hall in Ht.
Qed.

(** ** No lost wake-up *)

(** A thread on its way to make the lock contended or to take it so, and one about to
    wake a sleeper. *)
Definition in_transit (p : lock_pc) : bool :=
  match p with LockRetry | SlowXchg => true | LockTest prev => prev =? 1 | _ => false end.
Definition about_to_wake (p : lock_pc) : bool :=
  match p with UnlockWake _ => true | _ => false end.

Definition attended (lk : Z) (th : nat → lock_pc) : Prop :=
  lk = 2 ∨ ∃ t, about_to_wake (th t) || in_transit (th t) = true.

Definition no_lost (lk : Z) (th : nat → lock_pc) : Prop :=
  (∃ u, asleep_lock (th u) = true) → attended lk th.

Lemma attended_update lk th t lk' p' :
  (lk' = 2 ∨ about_to_wake p' || in_transit p' = true ∨
   (about_to_wake (th t) || in_transit (th t) = false ∧ lk ≠ 2)) →
  attended lk th → attended lk' (<[t := p']> th).
Proof.
  intros [->|[Hp|[Hp Hlk]]] Ha; [by left| |].
  - right. exists t. by rewrite fn_lookup_insert.
  - destruct Ha as [->|(u & Hu)]; [done|]. right. exists u.
    rewrite fn_lookup_insert_ne; [done|]. congruence.
Qed.

Lemma thread_step_attend lk cv p lk' cv' p' :
  (lk = 0 ∨ lk = 1 ∨ lk = 2) → thread_step p lk cv = Some (p', lk', cv') →
  (asleep_lock p' = true → lk' = 2) ∧
  (lk' = 2 ∨ about_to_wake p' || in_transit p' = true ∨
   (about_to_wake p || in_transit p = false ∧ lk ≠ 2)).
Proof.
  intros Hlk Hs. inv_thread_step Hs; cbn in *.
  all: try (destruct ret; cbn in * ). all: try (destruct h; cbn in * ).
  all: try (destruct (Z.eqb_spec prev 1)). all: intuition (congruence || lia).
Qed.

Lemma no_lost_update lk th t lk' p' :
  (asleep_lock p' = true → lk' = 2) →
  (lk' = 2 ∨ about_to_wake p' || in_transit p' = true ∨
   (about_to_wake (th t) || in_transit (th t) = false ∧ lk ≠ 2)) →
  no_lost lk th → no_lost lk' (<[t := p']> th).
Proof.
  intros H1 H2 Hn [u Hu]. rewrite fn_lookup_insert_ext in Hu.
  destruct (decide (t = u)) as [<-|Hne]; [left; auto|].
  eapply attended_update; [done|]. apply Hn. by exists u.
Qed.

(** A step that neither touches the lock word nor leaves a thread asleep. *)
Lemma no_lost_move lk th t p' :
  asleep_lock p' = false → about_to_wake (th t) || in_transit (th t) = false →
  no_lost lk th → no_lost lk (<[t := p']> th).
Proof.
  intros H1 H2 Hn. apply (no_lost_update lk); [congruence| |done].
  destruct (decide (lk = 2)); [by left|by right; right].
Qed.

Lemma attended_by lk th u : in_transit (th u) = true → attended lk th.
Proof. intros H. right. exists u. by rewrite H, orb_true_r. Qed.

Lemma woken_transit p : in_transit (woken p) = true.
Proof. by destruct p. Qed.

Lemma client_call_quiet b p p' :
  client_call b p p' = true →
  asleep_lock p' = false ∧ asleep_cv p' = false ∧ about_to_wake p || in_transit p = false.
Proof. by destruct p, p'. Qed.

Lemma client_quiet h : asleep_lock (client h) = false ∧ asleep_cv (client h) = false.
Proof. by destruct h. Qed.

Lemma no_lost_step b s s' :
  lock_step b s s' → exclusive (w_lock s) (w_threads s) →
  no_lost (w_lock s) (w_threads s) → no_lost (w_lock s') (w_threads s').
Proof.
  intros Hs He Hn. destruct Hs as [lk cv th t p Hc|lk cv th t p lk' cv' Hc|lk cv th u Hu
    |lk cv th t ret u Ht Hu|lk cv th t ret Ht Hnone|lk cv th t h u Ht Hu|lk cv th t h Ht _
    |lk cv th t h c Ht Hc|lk cv th t h Ht _]; cbn [w_lock w_threads] in *.
  - apply client_call_quiet in Hc as (? & _ & ?). by apply no_lost_move.
  - eapply thread_step_attend in Hc as [? ?]; [|apply He]. by eapply no_lost_update.
  - intros _. apply (attended_by _ _ u). rewrite fn_lookup_insert. apply woken_transit.
  - intros _. apply (attended_by _ _ u). rewrite fn_lookup_insert_ne, fn_lookup_insert.
    + apply woken_transit.
    + intros ->. by rewrite Ht in Hu.
  - intros [u Hu]. rewrite fn_lookup_insert_ext in Hu.
    destruct (decide (t = u)); [by destruct ret|]. by rewrite Hnone in Hu.
  - intros _. apply (attended_by _ _ u). rewrite fn_lookup_insert_ne, fn_lookup_insert.
    + apply woken_transit.
    + intros ->. by rewrite Ht in Hu.
  - apply no_lost_move; [apply client_quiet|by rewrite Ht|done].
  - intros _. apply (attended_by _ _ c). rewrite fn_lookup_insert_ne.
    + unfold requeue. by rewrite Hc, decide_True.
    + intros ->. by rewrite Ht in Hc.
  - apply no_lost_move; [apply client_quiet|by rewrite Ht|done].
Qed.

(** C24: no wake-up is lost.  When a thread sleeps on the lock (after a failed lock, or
    moved there by [libsimple_condvar_notify_all]), the lock is held and marked
    contended, so that its holder will wake a sleeper when it unlocks, or a thread is
    about to wake one, or a thread is on its way to take the lock as contended.  In
    particular the sleepers are never left alone. *)
Theorem lock_no_lost_wakeup b s u :
  lock_reachable b s → asleep_lock (w_threads s u) = true →
  (w_lock s = 2 ∧ ∃ t, holds (w_threads s t) = true) ∨
  ∃ t, about_to_wake (w_threads s t) || in_transit (w_threads s t) = true.
Proof.
  intros Hr Hu.
  assert (exclusive (w_lock s) (w_threads s) ∧ no_lost (w_lock s) (w_threads s)) as [He Hn].
  { eapply (rtc_invariant _ (fun s => exclusive (w_lock s) (w_threads s) ∧
                                      no_lost (w_lock s) (w_threads s))); [done| |].
    - split; [split; [by left|done|done|done]|]. by intros [? ?].
    - intros a c Hst [He Hn]. split; [by eapply exclusive_step|by eapply no_lost_step]. }
  destruct Hn as [H2|Ht]; [by exists u| |by right]. left. split; [done|].
  apply (ex_held _ _ He). lia.
Qed.

(** ** Notifications *)

(** A notifier between clearing the mark for one waiter (for all) and having woken and
    restored it. *)
Definition finishing_all (p : lock_pc) : bool :=
  match p with AllRequeue _ => true | _ => false end.
Definition finishing_one (p : lock_pc) : bool :=
  match p with OneWake _ | OneRestore _ | AllRequeue _ => true | _ => false end.

(** The value a waiter registered with has both marks. *)
Definition registered (p : lock_pc) : Prop :=
  match p with
  | UnlockXchg (ToWait v) | UnlockWake (ToWait v) | CvWait v =>
      Z.testbit v 0 = true ∧ Z.testbit v 1 = true
  | _ => True
  end.

(** Mark [i] is set or [fin]ishing. *)
Definition marked (i : Z) (fin : lock_pc → bool) (cv : Z) (th : nat → lock_pc) : Prop :=
  (∃ u, asleep_cv (th u) = true) → Z.testbit cv i = true ∨ ∃ t, fin (th t) = true.

Record cv_marks (cv : Z) (th : nat → lock_pc) : Prop := mkMarks {
  mk_registered : ∀ t, registered (th t);
  mk_one : marked 0 finishing_one cv th;
  mk_all : marked 1 finishing_all cv th;
}.

Lemma testbit_u32_add4 cv i :
  0 ≤ i < 2 → Z.testbit (u32 (cv + libsimple_condvar_bit_increment)) i = Z.testbit cv i.
Proof.
  intros Hi. unfold u32, libsimple_condvar_bit_increment.
  rewrite <- (Z.mod_pow2_bits_low _ 2 i), <- (Z.mod_pow2_bits_low cv 2 i) by lia. f_equal. lia.
Qed.

Definition mark_kept (i : Z) (fin : lock_pc → bool) (cv : Z) (p : lock_pc) (cv' : Z)
    (p' : lock_pc) : bool :=
  Z.testbit cv' i || fin p' || (negb (Z.testbit cv i) && negb (fin p)).

Lemma marked_update i fin cv th t cv' p' :
  (asleep_cv p' = true → Z.testbit cv' i = true) → mark_kept i fin cv (th t) cv' p' = true →
  marked i fin cv th → marked i fin cv' (<[t := p']> th).
Proof.
  intros H1 H2 Hm [u Hu]. rewrite fn_lookup_insert_ext in Hu.
  destruct (decide (t = u)) as [<-|Hne]; [left; auto|].
  unfold mark_kept in H2. destruct (Z.testbit cv' i); [by left|].
  destruct (fin p') eqn:Hp; [right; exists t; by rewrite fn_lookup_insert|].
  apply andb_true_iff in H2 as [Hb%negb_true_iff Hf%negb_true_iff].
  destruct Hm as [?|[v Hv]]; [by exists u|congruence|]. right. exists v.
  rewrite fn_lookup_insert_ne; [done|]. congruence.
Qed.

Lemma land_1_testbit x : (Z.land x 1 =? 0) = negb (Z.testbit x 0).
Proof. apply (land_bit_zero x 0). lia. Qed.

Lemma land_2_testbit x : (Z.land x 2 =? 0) = negb (Z.testbit x 1).
Proof. apply (land_bit_zero x 1). lia. Qed.

Lemma testbit_lor_both x : Z.testbit (Z.lor x need_to_wake_both) 0 = true ∧
  Z.testbit (Z.lor x need_to_wake_both) 1 = true.
Proof. by rewrite !Z.lor_spec, !orb_true_iff; auto. Qed.

Lemma thread_step_marks lk cv p lk' cv' p' :
  registered p → thread_step p lk cv = Some (p', lk', cv') →
  registered p' ∧
  (asleep_cv p' = true → Z.testbit cv' 0 = true ∧ Z.testbit cv' 1 = true) ∧
  mark_kept 0 finishing_one cv p cv' p' = true ∧ mark_kept 1 finishing_all cv p cv' p' = true.
Proof.
  intros Hr Hs. inv_thread_step Hs; unfold mark_kept; cbn [registered finishing_one finishing_all] in *.
  all: repeat match goal with
       | H : Z.land _ libsimple_condvar_bit_need_to_wake_one = 0 |- _ =>
           apply Z.eqb_eq in H; unfold libsimple_condvar_bit_need_to_wake_one in H;
           rewrite land_1_testbit, ?testbit_u32_add4 in H by lia
       | H : Z.land _ libsimple_condvar_bit_need_to_wake_all = 0 |- _ =>
           apply Z.eqb_eq in H; unfold libsimple_condvar_bit_need_to_wake_all in H;
           rewrite land_2_testbit, ?testbit_u32_add4 in H by lia
       end.
  all: rewrite ?testbit_u32_add4 by lia.
  all: try (destruct ret). all: try (destruct h).
  all: cbn [registered asleep_cv client unlock_next finishing_one finishing_all] in *.
  all: unfold libsimple_condvar_bit_need_to_wake_one, need_to_wake_both,
         libsimple_condvar_bit_need_to_wake_all in *.
  all: rewrite ?Z.land_spec, ?Z.lor_spec, ?Z.lnot_spec by lia.
  all: change (Z.testbit 1 0) with true; change (Z.testbit 1 1) with false;
       change (Z.testbit (Z.lor 2 1) 0) with true; change (Z.testbit (Z.lor 2 1) 1) with true.
  all: rewrite ?orb_true_r, ?orb_false_r, ?andb_true_r, ?andb_false_r; cbn [negb].
  all: try (destruct Hr as [Hr1 Hr2]; rewrite Hr1, Hr2). all: split_and!; try done.
  all: try (destruct (Z.testbit cv' 0), (Z.testbit cv' 1); done).
  all: try (destruct (Z.testbit cv 0), (Z.testbit cv 1); done).
Qed.

Lemma registered_update th t p' :
  (∀ u, registered (th u)) → registered p' → ∀ u, registered ((<[t := p']> th : nat → lock_pc) u).
Proof. intros Hr Hp u. rewrite fn_lookup_insert_ext. by destruct (decide (t = u)). Qed.

(** A step that leaves the condition variable alone. *)
Lemma cv_marks_move cv th t p' :
  asleep_cv p' = false → registered p' → finishing_all (th t) = false →
  (finishing_one (th t) = true → finishing_one p' = true) →
  cv_marks cv th → cv_marks cv (<[t := p']> th).
Proof.
  intros H1 H2 H3 H4 [Hr Ho Ha]. split; [by apply registered_update| |].
  - eapply marked_update, Ho; [congruence|]. unfold mark_kept.
    destruct (finishing_one (th t)); [rewrite H4 by done|];
      by destruct (Z.testbit cv 0); cbn; rewrite ?orb_true_r.
  - eapply marked_update, Ha; [congruence|]. unfold mark_kept. rewrite H3.
    by destruct (Z.testbit cv 1); cbn; rewrite ?orb_true_r.
Qed.

(** A step after which nobody sleeps on the condition variable. *)
Lemma cv_marks_empty cv th :
  (∀ u, registered (th u)) → (∀ u, asleep_cv (th u) = false) → cv_marks cv th.
Proof. intros Hr Hn. split; [done|..]; intros [u Hu]; by rewrite Hn in Hu. Qed.

Lemma requeue_quiet c th u : asleep_cv (requeue c th u) = false.
Proof.
  unfold requeue. destruct (asleep_cv (th u)) eqn:E; [by case_decide|done].
Qed.

Lemma requeue_registered c th u : registered (th u) → registered (requeue c th u).
Proof. intros Hr. unfold requeue. by repeat case_match. Qed.

Lemma quiet_update th t h :
  (∀ u, asleep_cv (th u) = false) → ∀ u, asleep_cv ((<[t := client h]> th : nat → lock_pc) u) = false.
Proof.
  intros Hn u. rewrite fn_lookup_insert_ext. destruct (decide (t = u)); [apply client_quiet|done].
Qed.

Lemma registered_client h : registered (client h).
Proof. by destruct h. Qed.

Lemma registered_woken p : registered (woken p).
Proof. by destruct p. Qed.

Lemma asleep_not_finishing p :
  asleep_lock p || asleep_cv p = true → finishing_one p = false ∧ finishing_all p = false.
Proof. by destruct p. Qed.

Lemma cv_marks_woken cv th u :
  asleep_lock (th u) || asleep_cv (th u) = true → cv_marks cv th →
  cv_marks cv (<[u := woken (th u)]> th).
Proof.
  intros Hu. apply asleep_not_finishing in Hu as [H1 H2].
  apply cv_marks_move; [by destruct (th u)|apply registered_woken|done|congruence].
Qed.

Lemma cv_marks_step b s s' :
  lock_step b s s' → cv_marks (w_cv s) (w_threads s) → cv_marks (w_cv s') (w_threads s').
Proof.
  intros Hs Hm. destruct Hs as [lk cv th t p Hc|lk cv th t p lk' cv' Hc|lk cv th u Hu
    |lk cv th t ret u Ht Hu|lk cv th t ret Ht Hnone|lk cv th t h u Ht Hu|lk cv th t h Ht Hnone
    |lk cv th t h c Ht Hc|lk cv th t h Ht Hnone]; cbn [w_cv w_threads] in *;
    pose proof (mk_registered _ _ Hm) as Hr.
  - apply cv_marks_move; [by eapply client_call_quiet|..|done]; destruct (th t), p; try done;
      by destruct ret.
  - eapply thread_step_marks in Hc as (H1 & H2 & H3 & H4); [|apply Hr]. destruct Hm as [_ Ho Ha].
    split; [by apply registered_update|eapply marked_update, Ho|eapply marked_update, Ha]; naive_solver.
  - by apply cv_marks_woken.
  - assert (t ≠ u) by (intros ->; by rewrite Ht in Hu).
    apply cv_marks_move; [by destruct ret| | | |apply cv_marks_woken; [by rewrite Hu|done]];
      rewrite ?fn_lookup_insert_ne, ?Ht by done; try done.
    specialize (Hr t). rewrite Ht in Hr. by destruct ret.
  - specialize (Hr t). rewrite Ht in Hr.
    apply cv_marks_move; [by destruct ret|by destruct ret|by rewrite Ht|by rewrite Ht|done].
  - assert (t ≠ u) by (intros ->; by rewrite Ht in Hu).
    apply cv_marks_move; [done|done| |done|apply cv_marks_woken; [by rewrite Hu, orb_true_r|done]].
    by rewrite fn_lookup_insert_ne, Ht.
  - apply cv_marks_empty; [|by apply quiet_update].
    apply registered_update; [done|apply registered_client].
  - apply cv_marks_empty; [|apply quiet_update, requeue_quiet].
    apply registered_update; [|apply registered_client]. intros u. by apply requeue_registered.
  - apply cv_marks_empty; [|by apply quiet_update].
    apply registered_update; [done|apply registered_client].
Qed.

(** Notifications by threads that hold the lock. *)
Definition notifies_unlocked (p : lock_pc) : bool :=
  match p with
  | OneAdd h | OneClear h | OneWake h | OneRestore h | AllAdd h | AllClear h | AllRequeue h =>
      negb h
  | _ => false
  end.

Lemma locked_step s s' :
  lock_step false s s' → (∀ t, notifies_unlocked (w_threads s t) = false) →
  ∀ t, notifies_unlocked (w_threads s' t) = false.
Proof.
  intros Hs Hn v.
  assert (∀ (th : nat → lock_pc) t p, notifies_unlocked (th v) = false → notifies_unlocked p = false →
            notifies_unlocked ((<[t := p]> th : nat → lock_pc) v) = false) as Hup.
  { intros th t p H1 H2. rewrite fn_lookup_insert_ext. by destruct (decide (t = v)). }
  destruct Hs as [lk cv th t p Hc|lk cv th t p lk' cv' Hc|lk cv th u Hu
    |lk cv th t ret u Ht Hu|lk cv th t ret Ht Hnone|lk cv th t h u Ht Hu|lk cv th t h Ht Hnone
    |lk cv th t h c Ht Hc|lk cv th t h Ht Hnone]; cbn [w_threads] in *;
    try specialize (Hn t) as Ht'; try (rewrite Ht in Ht'); try (destruct h; [|done]);
    repeat apply Hup; try done; try apply Hn.
  - destruct (th t), p; try done; by destruct h.
  - clear Hup Hn. inv_thread_step Hc; try done; try (by destruct ret); by destruct h.
  - by destruct (th u).
  - by destruct (th u).
  - by destruct ret.
  - by destruct ret.
  - by destruct (th u).
  - unfold requeue. case_match; [by case_decide|apply Hn].
Qed.

Lemma notifier_alone s t u :
  exclusive (w_lock s) (w_threads s) → (∀ v, notifies_unlocked (w_threads s v) = false) →
  holds (w_threads s t) = true → finishing_one (w_threads s t) = false →
  finishing_one (w_threads s u) = false ∧ finishing_all (w_threads s u) = false.
Proof.
  intros He Hn Ht Hf.
  assert (finishing_one (w_threads s u) = true → False) as Hone.
  { intros Hu. assert (t = u) as ->; [|congruence]. apply (ex_unique _ _ He); [done|].
    specialize (Hn u). by destruct (w_threads s u) as [| | | | | | | | | | | | | | | | | | |[]|[]| | |[]]. }
  destruct (w_threads s u); cbn in *; try done; by exfalso; auto.
Qed.

Lemma one_wake_wakes b s s' t h :
  w_threads s t = OneWake h → lock_step b s s' → w_threads s' t ≠ OneWake h →
  (∃ v, asleep_cv (w_threads s v) = true) →
  ∃ v, asleep_cv (w_threads s v) = true ∧ w_threads s' v = SlowXchg.
Proof.
  intros Ht Hs Hne [u Hu].
  assert (∀ (th : nat → lock_pc) x p, th t = OneWake h →
            (<[x := p]> th : nat → lock_pc) t ≠ OneWake h → x = t) as Hx.
  { intros th x p H1 H2. destruct (decide (x = t)); [done|]. by rewrite fn_lookup_insert_ne in H2. }
  destruct Hs as [lk cv th x p Hc|lk cv th x p lk' cv' Hc|lk cv th x Hc
    |lk cv th x ret y Hc Hy|lk cv th x ret Hc _|lk cv th x h' y Hc Hy|lk cv th x h' Hc Hnone
    |lk cv th x h' c Hc Hy|lk cv th x h' Hc _]; cbn [w_threads] in *.
  6: { exists y. split; [done|]. rewrite fn_lookup_insert_ne, fn_lookup_insert;
         [by destruct (th y)|]. intros ->. by rewrite Hc in Hy. }
  6: { by rewrite Hnone in Hu. }
  all: exfalso; apply Hx in Hne; try done; subst; rewrite ?Ht in Hc; try done.
  - rewrite fn_lookup_insert_ne; [done|]. intros ->. by rewrite Ht in Hy.
  - unfold requeue. by rewrite Ht.
Qed.

(** When notifications are made by threads that hold the lock, none is lost.  A
    notifier that starts while a thread sleeps on the condition variable goes through
    to its futex call, and the wake of [libsimple_condvar_notify_one] then wakes a
    sleeper. *)
Theorem condvar_notify_reaches s t u h :
  lock_reachable false s → asleep_cv (w_threads s u) = true →
  let run := thread_step (w_threads s t) (w_lock s) (w_cv s) in
  (w_threads s t = OneAdd h → ∃ cv, run = Some (OneClear h, w_lock s, cv)) ∧
  (w_threads s t = OneClear h → ∃ cv, run = Some (OneWake h, w_lock s, cv)) ∧
  (w_threads s t = OneWake h → ∀ s', lock_step false s s' → w_threads s' t ≠ OneWake h →
     ∃ v, asleep_cv (w_threads s v) = true ∧ w_threads s' v = SlowXchg) ∧
  (w_threads s t = AllAdd h → ∃ cv, run = Some (AllClear h, w_lock s, cv)).
Proof.
  intros Hr Hu run.
  pose proof (exclusive_reachable _ _ Hr) as He.
  assert (∀ v, notifies_unlocked (w_threads s v) = false) as Hl.
  { eapply (rtc_invariant _ (fun s => ∀ v, notifies_unlocked (w_threads s v) = false)); [done|done|].
    apply locked_step. }
  assert (cv_marks (w_cv s) (w_threads s)) as Hm.
  { eapply (rtc_invariant _ (fun s => cv_marks (w_cv s) (w_threads s))); [done| |apply cv_marks_step].
    by apply cv_marks_empty. }
  assert (∀ p, w_threads s t = p → finishing_one p = false → holds p = negb (notifies_unlocked p) →
            Z.testbit (w_cv s) 0 = true ∧ Z.testbit (w_cv s) 1 = true) as Hbits.
  { intros p Hp Hf Hh. pose proof (Hl t) as Hlt. rewrite Hp in Hlt. rewrite Hlt in Hh.
    assert (∀ v, finishing_one (w_threads s v) = false ∧ finishing_all (w_threads s v) = false) as Hal.
    { intros v. apply (notifier_alone s t v); [done|done|by rewrite Hp|by rewrite Hp]. }
    split; [destruct (mk_one _ _ Hm) as [?|[v Hv]]|destruct (mk_all _ _ Hm) as [?|[v Hv]]];
      try done; try (by exists u); destruct (Hal v); congruence. }
  subst run. split_and!.
  - intros Ht. destruct (Hbits _ Ht) as [H0 _]; [done|by destruct h|]. rewrite Ht. eexists.
    unfold thread_step. cbn -[Z.land u32 Z.eqb]. unfold libsimple_condvar_bit_need_to_wake_one.
    rewrite land_1_testbit, testbit_u32_add4, H0 by lia. reflexivity.
  - intros Ht. destruct (Hbits _ Ht) as [H0 _]; [done|by destruct h|]. rewrite Ht. eexists.
    unfold thread_step. cbn -[Z.land u32 Z.eqb]. unfold libsimple_condvar_bit_need_to_wake_one.
    rewrite land_1_testbit, H0. reflexivity.
  - intros Ht s' Hs Hne. eapply one_wake_wakes; eauto.
  - intros Ht. destruct (Hbits _ Ht) as [_ H1]; [done|by destruct h|]. rewrite Ht. eexists.
    unfold thread_step. cbn -[Z.land u32 Z.eqb]. unfold libsimple_condvar_bit_need_to_wake_all.
    rewrite land_2_testbit, testbit_u32_add4, H1 by lia. reflexivity.
Qed.

(** ** Runs *)

Ltac run_call t p := eapply rtc_l; [apply (ls_call _ _ _ _ t p); reflexivity|].
Ltac run_step t := eapply rtc_l; [eapply (ls_thread _ _ _ _ t); reflexivity|].
(** A thread takes the lock, registers on the condition variable and falls asleep. *)
Ltac run_wait t :=
  run_call t LockStart; run_step t; run_call t CvRegister; do 3 run_step t.

(** Notifications made without the lock can be lost.  Two threads sleep on the
    condition variable and two others each run [libsimple_condvar_notify_one]; the
    second finds the mark that the first has cleared and not yet restored and returns,
    and one of the sleepers is left asleep. *)
Theorem condvar_unlocked_notify_lost :
  ∃ s s', lock_reachable true s ∧ rtc (lock_step true) s s' ∧
    w_threads s 0%nat = CvAsleep ∧ w_threads s 1%nat = CvAsleep ∧
    w_threads s 2%nat = OneAdd false ∧ w_threads s 3%nat = OneAdd false ∧
    w_threads s' 1%nat = CvAsleep ∧
    w_threads s' 2%nat = Idle ∧ w_threads s' 3%nat = Idle.
Proof.
  eexists _, _. split; [|split].
  - run_wait 0%nat. run_wait 1%nat. run_call 2%nat (OneAdd false). run_call 3%nat (OneAdd false).
    apply rtc_refl.
  - do 2 run_step 2%nat. run_step 3%nat.
    eapply rtc_l; [apply (ls_one _ _ _ _ 2%nat false 0%nat); reflexivity|]. run_step 2%nat.
    apply rtc_refl.
  - split_and!; reflexivity.
Qed.

(** ** Witnesses *)

(** Thread 0 holds the lock, thread 1 sleeps on it. *)
Lemma lock_mutual_exclusion_witness :
  ∃ s, lock_reachable false s ∧ w_lock s = 2 ∧ holds (w_threads s 0%nat) = true ∧
       holds (w_threads s 1%nat) = false.
Proof.
  eexists. split; [run_call 0%nat LockStart; run_step 0%nat; run_call 1%nat LockStart;
    do 3 run_step 1%nat; apply rtc_refl|].
  match goal with |- w_lock ?s = 2 ∧ _ => set (s0 := s) end.
  assert (lock_reachable false s0) as Hr.
  { run_call 0%nat LockStart. run_step 0%nat. run_call 1%nat LockStart. do 3 run_step 1%nat.
    apply rtc_refl. }
  destruct (lock_mutual_exclusion false s0 Hr) as [Hu _].
  split; [reflexivity|]. split; [reflexivity|].
  destruct (holds (w_threads s0 1%nat)) eqn:H1; [|reflexivity].
  discriminate (Hu 0%nat 1%nat eq_refl H1).
Defined.

Lemma lock_no_lost_wakeup_witness :
  ∃ s, asleep_lock (w_threads s 1%nat) = true ∧
    ((w_lock s = 2 ∧ ∃ t, holds (w_threads s t) = true) ∨
     ∃ t, about_to_wake (w_threads s t) || in_transit (w_threads s t) = true).
Proof.
  assert (∃ s, lock_reachable false s ∧ asleep_lock (w_threads s 1%nat) = true) as (s & Hr & Hs).
  { eexists. split; [run_call 0%nat LockStart; run_step 0%nat; run_call 1%nat LockStart;
      do 3 run_step 1%nat; apply rtc_refl|reflexivity]. }
  exists s. split; [exact Hs|]. exact (lock_no_lost_wakeup false s 1%nat Hr Hs).
Defined.

Lemma condvar_notify_reaches_witness :
  ∃ s cv, w_threads s 1%nat = OneAdd true ∧
    thread_step (w_threads s 1%nat) (w_lock s) (w_cv s) = Some (OneClear true, w_lock s, cv).
Proof.
  assert (∃ s, lock_reachable false s ∧ asleep_cv (w_threads s 0%nat) = true ∧
               w_threads s 1%nat = OneAdd true) as (s & Hr & Hs & H1).
  { eexists. split; [run_wait 0%nat; run_call 1%nat LockStart; run_step 1%nat;
      run_call 1%nat (OneAdd true); apply rtc_refl|split; reflexivity]. }
  destruct (condvar_notify_reaches s 1%nat 0%nat true Hr Hs) as (H & _).
  destruct (H H1) as [cv Hcv]. exists s, cv. split; [exact H1|exact Hcv].
Defined.
