(* ===== verification/FutexOnce.v ===== *)
(** * One-time initialisation ([libsimple_once], [src/src/libsimple/src/lock.c])

    The same kind of machine as for the lock, with the state word of one
    [libsimple_once_t]; the beginnings and the ends of the callback are counted. *)

From S2P Require Import Machine Prelude.

Definition libsimple_once_state_untriggered : Z := 0.
Definition libsimple_once_state_triggered_uncontended : Z := 1.
Definition libsimple_once_state_triggered_contended : Z := 2.
Definition libsimple_once_state_completed : Z := 3.

(** [OnceCaller] is a client before the call, [OnceReturned] after it. *)
Inductive once_pc :=
  | OnceCaller
  | OnceStart
  | OnceCallback
  | OnceInside
  | OnceFinish
  | OnceWakeAll
  | OnceSwitch (prev : Z)
  | OnceWait (prev : Z)
  | OnceAsleep
  | OnceReload
  | OnceReturned.

Record once_world := mkOnce {
  o_state : Z;
  o_begun : nat;
  o_ended : nat;
  o_threads : nat → once_pc;
}.

Definition once_init : once_world := mkOnce 0 0 0 (fun _ => OnceCaller).

(** A step outside the callback: the counters of its beginnings and ends are kept. *)
Definition quiet (p : once_pc) (w : Z) : once_pc * Z * nat * nat := (p, w, 0%nat, 0%nat).

(** [libsimple_once]: the next program counter, the state word and what to add to the
    two counters. *)
Definition libsimple_once (p : once_pc) (w : Z) : option (once_pc * Z * nat * nat) :=
  match p with
  | OnceStart =>
      Some (if w =? libsimple_once_state_untriggered
            then quiet OnceCallback libsimple_once_state_triggered_uncontended
            else quiet (OnceSwitch w) w)
  | OnceCallback => Some (OnceInside, w, 1%nat, 0%nat)
  | OnceInside => Some (OnceFinish, w, 0%nat, 1%nat)
  | OnceFinish =>
      Some (quiet (if w =? libsimple_once_state_triggered_contended then OnceWakeAll
                   else OnceReturned) libsimple_once_state_completed)
  | OnceSwitch prev =>
      Some (if prev =? libsimple_once_state_completed then quiet OnceReturned w
            else if prev =? libsimple_once_state_triggered_uncontended then
              (if w =? prev
               then quiet (OnceWait libsimple_once_state_triggered_contended)
                          libsimple_once_state_triggered_contended
               else quiet (OnceSwitch w) w)
            else if prev =? libsimple_once_state_triggered_contended then
              quiet (OnceWait prev) w
            else quiet (OnceSwitch prev) w)
  | OnceWait prev => Some (quiet (if w =? prev then OnceAsleep else OnceReload) w)
  | OnceReload => Some (quiet (OnceSwitch w) w)
  | _ => None
  end.

Definition once_asleep (p : once_pc) : bool := match p with OnceAsleep => true | _ => false end.

(** [FUTEX_WAKE] of all the sleepers. *)
Definition once_wake_all (th : nat → once_pc) : nat → once_pc :=
  fun u => if once_asleep (th u) then OnceReload else th u.

Inductive once_step : once_world → once_world → Prop :=
  | os_call w b e th t : th t = OnceCaller →
      once_step (mkOnce w b e th) (mkOnce w b e (<[t := OnceStart]> th))
  | os_thread w b e th t p w' db de : libsimple_once (th t) w = Some (p, w', db, de) →
      once_step (mkOnce w b e th) (mkOnce w' (b + db) (e + de) (<[t := p]> th))
  | os_signal w b e th u : th u = OnceAsleep →
      once_step (mkOnce w b e th) (mkOnce w b e (<[u := OnceReload]> th))
  | os_wake w b e th t : th t = OnceWakeAll →
      once_step (mkOnce w b e th) (mkOnce w b e (<[t := OnceReturned]> (once_wake_all th))).

Definition once_reachable : once_world → Prop := rtc once_step once_init.

(** ** The invariant *)

(** The thread that runs the callback. *)
Definition once_runner (p : once_pc) : bool :=
  match p with OnceCallback | OnceInside | OnceFinish => true | _ => false end.

(** What a thread knows of the state word: it only grows. *)
Definition once_knows (p : once_pc) (w : Z) : Prop :=
  match p with
  | OnceCaller | OnceStart => True
  | OnceSwitch prev => 1 ≤ prev ≤ w
  | OnceWait prev => prev = 2 ∧ 2 ≤ w
  | OnceAsleep => 2 ≤ w
  | OnceReturned | OnceWakeAll => w = 3
  | _ => 1 ≤ w
  end.

(** The counters of the callback, seen from its runner. *)
Definition once_counts (p : once_pc) (b e : nat) : Prop :=
  match p with
  | OnceCallback => b = 0%nat ∧ e = 0%nat
  | OnceInside => b = 1%nat ∧ e = 0%nat
  | _ => b = 1%nat ∧ e = 1%nat
  end.

Record once_inv (s : once_world) : Prop := mkOnceInv {
  oi_range : 0 ≤ o_state s ≤ 3;
  oi_knows : ∀ t, once_knows (o_threads s t) (o_state s);
  oi_idle : o_state s = 0 → o_begun s = 0%nat ∧ o_ended s = 0%nat;
  oi_running : o_state s = 1 ∨ o_state s = 2 →
    ∃ t, once_runner (o_threads s t) = true ∧
         once_counts (o_threads s t) (o_begun s) (o_ended s) ∧
         ∀ u, once_runner (o_threads s u) = true → u = t;
  oi_done : o_state s = 3 →
    o_begun s = 1%nat ∧ o_ended s = 1%nat ∧ ∀ u, once_runner (o_threads s u) = false;
  oi_attended : o_state s = 3 → (∃ u, o_threads s u = OnceAsleep) →
    ∃ t, o_threads s t = OnceWakeAll;
}.

Lemma once_knows_mono p w w' : once_knows p w → w ≤ w' ≤ 3 → once_knows p w'.
Proof. destruct p; cbn; lia. Qed.

Lemma knows_update (th : nat → once_pc) w t p w' :
  (∀ u, once_knows (th u) w) → once_knows p w' → w ≤ w' ≤ 3 →
  ∀ u, once_knows ((<[t := p]> th : nat → once_pc) u) w'.
Proof.
  intros Hk Hp Hw u. rewrite fn_lookup_insert_ext. destruct (decide (t = u)); [done|].
  by eapply once_knows_mono.
Qed.

(** A thread that is not the runner moves, and the word stays. *)
Lemma once_inv_move w b e th t p :
  once_inv (mkOnce w b e th) → once_runner (th t) = false → once_runner p = false →
  once_knows p w → (p = OnceAsleep → w ≠ 3) → th t ≠ OnceWakeAll →
  once_inv (mkOnce w b e (<[t := p]> th)).
Proof.
  intros [Hr Hk Hi Hu Hd Ha] Hold Hnew Hkn Hs Hw. cbn in *. split; cbn; try done.
  - eapply knows_update; [done|done|lia].
  - intros H. destruct (Hu H) as (r & H1 & H2 & H3). exists r.
    assert (t ≠ r) by congruence. rewrite fn_lookup_insert_ne by done. split_and!; try done.
    intros u. rewrite fn_lookup_insert_ext. case_decide; [congruence|auto].
  - intros H. destruct (Hd H) as (H1 & H2 & H3). split_and!; try done.
    intros u. rewrite fn_lookup_insert_ext. by case_decide.
  - intros H [u Hasl]. rewrite fn_lookup_insert_ext in Hasl. case_decide; [by destruct Hs|].
    destruct (Ha H) as [r Hr']; [by exists u|]. exists r.
    rewrite fn_lookup_insert_ne by congruence. done.
Qed.

(** The runner goes on inside the callback. *)
Lemma once_inv_run w b e th t p b' e' :
  once_inv (mkOnce w b e th) → once_runner (th t) = true → once_runner p = true →
  (once_counts (th t) b e → once_counts p b' e') →
  once_inv (mkOnce w b' e' (<[t := p]> th)).
Proof.
  intros [Hr Hk Hi Hu Hd Ha] Hold Hnew Hc. cbn in *.
  assert (w = 1 ∨ w = 2) as Hw.
  { pose proof (Hk t) as Hkt. destruct (Z.eq_dec w 3) as [->|].
    - destruct Hd as (_ & _ & Hd); [done|]. by rewrite Hd in Hold.
    - destruct (th t); cbn in *; try done; lia. }
  destruct (Hu Hw) as (r & H1 & H2 & H3). assert (t = r) as -> by auto.
  split; cbn; try lia.
  - eapply knows_update; [done| |lia]. destruct p; cbn in *; try done; lia.
  - intros _. exists r. rewrite fn_lookup_insert. split_and!; try done; [by apply Hc|].
    intros u. rewrite fn_lookup_insert_ext. case_decide; [done|auto].
Qed.

Ltac inv_once H :=
  unfold libsimple_once, quiet, libsimple_once_state_untriggered,
    libsimple_once_state_triggered_uncontended, libsimple_once_state_triggered_contended,
    libsimple_once_state_completed in H; zbool; simplify_eq.

Lemma once_inv_thread w b e th t p w' db de :
  libsimple_once (th t) w = Some (p, w', db, de) → once_inv (mkOnce w b e th) →
  once_inv (mkOnce w' (b + db) (e + de) (<[t := p]> th)).
Proof.
  intros Hs Hinv. pose proof Hinv as [Hr Hk Hi Hu Hd Ha]. cbn in *.
  pose proof (Hk t) as Hkt. destruct (th t) eqn:Ht; try done; cbn in Hkt.
  - inv_once Hs; rewrite !Nat.add_0_r.
    + split; cbn; try lia.
      * eapply knows_update; [done|cbn; lia|lia].
      * intros _. exists t. rewrite fn_lookup_insert. split_and!; try done; [by apply Hi|..].
        intros u. rewrite fn_lookup_insert_ext. case_decide; [done|].
        specialize (Hk u). intros Hru. destruct (th u); cbn in *; try done; lia.
    + apply once_inv_move; try done; [by rewrite Ht| |by rewrite Ht]. cbn. lia.
  - injection Hs as <- <- <- <-. eapply once_inv_run; [done|by rewrite Ht|done|].
    rewrite Ht. cbn. lia.
  - injection Hs as <- <- <- <-. eapply once_inv_run; [done|by rewrite Ht|done|].
    rewrite Ht. cbn. lia.
  - assert (w = 1 ∨ w = 2) as Hw.
    { destruct (Z.eq_dec w 3) as [->|]; [|lia].
      destruct Hd as (_ & _ & Hd'); [done|]. specialize (Hd' t). by rewrite Ht in Hd'. }
    destruct (Hu Hw) as (r & H1 & H2 & H3).
    assert (t = r) as <- by (apply H3; by rewrite Ht). rewrite Ht in H2. cbn in H2.
    inv_once Hs; split; cbn; try lia; try (eapply knows_update; [done|done|lia]);
      try (intros _; split_and!; [lia|lia|intros u; rewrite fn_lookup_insert_ext; case_decide;
             [done|]; destruct (once_runner (th u)) eqn:Hru; [|done]; by apply H3 in Hru as ->]).
    + intros _ _. exists t. by rewrite fn_lookup_insert.
    + intros _ [u Hasl]. rewrite fn_lookup_insert_ext in Hasl. case_decide; [done|].
      specialize (Hk u). rewrite Hasl in Hk. cbn in Hk. lia.
  - inv_once Hs; rewrite ?Nat.add_0_r;
      try (apply once_inv_move; try done; rewrite ?Ht; try done; cbn; lia).
    split; cbn; try lia.
    + eapply knows_update; [done|cbn; lia|lia].
    + intros _. destruct Hu as (r & H1 & H2 & H3); [lia|]. exists r.
      assert (t ≠ r) by (intros ->; by rewrite Ht in H1).
      rewrite fn_lookup_insert_ne by done. split_and!; try done.
      intros u. rewrite fn_lookup_insert_ext. case_decide; [done|auto].
  - inv_once Hs; rewrite ?Nat.add_0_r; apply once_inv_move; try done; rewrite ?Ht; try done;
      cbn; lia.
  - inv_once Hs; rewrite ?Nat.add_0_r; apply once_inv_move; try done; rewrite ?Ht; try done;
      cbn; lia.
Qed.

Lemma wake_all_runner th u : once_runner (once_wake_all th u) = once_runner (th u).
Proof. unfold once_wake_all. by destruct (th u). Qed.

(** The wake of all sleepers happens when the callback has ended. *)
Lemma once_inv_wake w b e th t :
  th t = OnceWakeAll → once_inv (mkOnce w b e th) →
  once_inv (mkOnce w b e (<[t := OnceReturned]> (once_wake_all th))).
Proof.
  intros Ht [Hr Hk Hi Hu Hd Ha]. cbn in *. pose proof (Hk t) as Hkt. rewrite Ht in Hkt.
  cbn in Hkt. subst w. split; cbn; try lia.
  - intros u. rewrite fn_lookup_insert_ext. case_decide; [done|]. unfold once_wake_all.
    specialize (Hk u). by destruct (th u).
  - intros _. destruct Hd as (H1 & H2 & H3); [done|]. split_and!; try done. intros u.
    rewrite fn_lookup_insert_ext. case_decide; [done|]. by rewrite wake_all_runner.
  - intros _ [u Hasl]. rewrite fn_lookup_insert_ext in Hasl. case_decide; [done|].
    unfold once_wake_all in Hasl. by destruct (th u).
Qed.

Lemma once_inv_step s s' : once_step s s' → once_inv s → once_inv s'.
Proof.
  intros [w b e th t Ht|w b e th t p w' db de Hs|w b e th u Hu|w b e th t Ht] Hi.
  - by apply once_inv_move; rewrite ?Ht.
  - by eapply once_inv_thread.
  - pose proof (oi_knows _ Hi u) as Hk. cbn in Hk. rewrite Hu in Hk. cbn in Hk.
    apply once_inv_move; rewrite ?Hu; try done. cbn. lia.
  - by apply once_inv_wake.
Qed.

Lemma once_inv_reachable s : once_reachable s → once_inv s.
Proof.
  intros Hr. eapply (rtc_invariant _ once_inv); [done| |apply once_inv_step].
  split; cbn; try done; lia.
Qed.

(** C30: the callback of [libsimple_once] runs exactly once.  It is never begun twice;
    a call returns only after the callback has begun and ended; and a thread that sleeps
    waiting for it is never forgotten: the callback is still to be finished by the thread
    that runs it, which will find the word contended, or a thread is about to wake all
    sleepers. *)
Theorem once_exactly_once s :
  once_reachable s →
  (o_begun s ≤ 1)%nat ∧
  (∀ t, o_threads s t = OnceReturned → o_begun s = 1%nat ∧ o_ended s = 1%nat) ∧
  (∀ u, o_threads s u = OnceAsleep →
     (o_state s = libsimple_once_state_triggered_contended ∧
      ∃ t, once_runner (o_threads s t) = true) ∨
     ∃ t, o_threads s t = OnceWakeAll).
Proof.
  intros Hr%once_inv_reachable. destruct Hr as [Hr Hk Hi Hu Hd Ha]. split_and!.
  - destruct (Z.eq_dec (o_state s) 0); [lia|]. destruct (Z.eq_dec (o_state s) 3); [lia|].
    destruct Hu as (t & H1 & H2 & _); [lia|]. destruct (o_threads s t); cbn in *; try done; lia.
  - intros t Ht. specialize (Hk t). rewrite Ht in Hk. cbn in Hk. destruct Hd; [done|]. naive_solver.
  - intros u Hs. specialize (Hk u). rewrite Hs in Hk. cbn in Hk.
    destruct (Z.eq_dec (o_state s) 3); [right; eauto|]. left.
    assert (o_state s = 2) as H2 by lia. split; [done|].
    destruct Hu as (t & H1 & _); [by right|]. by exists t.
Qed.

(** Two threads call; the second sleeps until the first has finished. *)
Ltac once_run t := eapply rtc_l; [eapply (os_thread _ _ _ _ t); reflexivity|].
Ltac once_call t := eapply rtc_l; [apply (os_call _ _ _ _ t); reflexivity|].

Lemma once_exactly_once_witness :
  ∃ s, o_threads s 0%nat = OnceReturned ∧ o_threads s 1%nat = OnceReturned ∧
       o_begun s = 1%nat ∧ o_ended s = 1%nat.
Proof.
  assert (∃ s, once_reachable s ∧ o_threads s 0%nat = OnceReturned ∧
               o_threads s 1%nat = OnceReturned) as (s & Hr & H0 & H1).
  { eexists. split; [once_call 0%nat; once_call 1%nat; once_run 0%nat; do 3 once_run 1%nat;
      do 3 once_run 0%nat; eapply rtc_l; [apply (os_wake _ _ _ _ 0%nat); reflexivity|];
      do 2 once_run 1%nat; apply rtc_refl|split; reflexivity]. }
  destruct (once_exactly_once s Hr) as (_ & H & _). exists s.
  split; [exact H0|]. split; [exact H1|exact (H 0%nat H0)].
Defined.
