(* ===== verification/FutexRwlock.v ===== *)
(** * The futex reader-writer lock ([libsimple_rwlock], [src/src/libsimple/src/lock.c])

    A machine of [n] threads that share the state word of one [libsimple_rwlock_t]: the
    number of readers in the low bits, bit 30 for a writer, bit 31 for waiters.  A step
    performs at most one atomic access; a weak compare-and-exchange may fail without a
    reason; a futex call wakes sleepers of its bit set; a signal may wake any sleeper. *)

From S2P Require Import Machine Prelude.

Definition libsimple_rwlock_bit_locked_write : Z := Z.shiftl 1 30.
Definition libsimple_rwlock_bit_need_to_wake : Z := Z.shiftl 1 31.
Definition write_and_wake : Z :=
  Z.lor libsimple_rwlock_bit_locked_write libsimple_rwlock_bit_need_to_wake.

(** [RdHeld] and [WrHeld] are the client with the lock. *)
Inductive rw_pc :=
  | RwIdle
  | RdLoad
  | RdLoop (state2 : Z)
  | RdWait (state2 : Z)
  | RdAsleep
  | RdHeld
  | RdUnlock
  | RdFix
  | RdWake
  | TryRdLoad
  | TryRdCas (state2 : Z)
  | WrFast
  | WrLoop (state2 : Z)
  | WrWait (state2 : Z)
  | WrAsleep
  | WrHeld
  | WrUnlock
  | WrWakeReaders
  | WrWakeWriter
  | TryWr.

(** ** The functions, one atomic action at a time

    [weak] tells whether a weak compare-and-exchange fails although the value is the
    expected one. *)

Definition libsimple_rwlock_lock_read (weak : bool) (p : rw_pc) (w : Z) : option (rw_pc * Z) :=
  match p with
  | RdLoad => Some (RdLoop w, w)
  | RdLoop state2 =>
      Some (if Z.land state2 write_and_wake =? 0 then
              if w =? state2 then (RdHeld, u32 (state2 + 1)) else (RdLoop w, w)
            else if Z.land state2 libsimple_rwlock_bit_need_to_wake =? 0 then
              if (w =? state2) && negb weak then (RdWait write_and_wake, write_and_wake)
              else (RdLoop w, w)
            else (RdWait state2, w))
  | RdWait state2 => Some (if w =? state2 then RdAsleep else RdLoop 0, w)
  | _ => None
  end.

Definition libsimple_rwlock_try_lock_read (p : rw_pc) (w : Z) : option (rw_pc * Z) :=
  match p with
  | TryRdLoad => Some (TryRdCas w, w)
  | TryRdCas state2 =>
      Some (if negb (Z.land state2 write_and_wake =? 0) then (RwIdle, w)
            else if w =? state2 then (RdHeld, u32 (state2 + 1)) else (RwIdle, w))
  | _ => None
  end.

Definition libsimple_rwlock_unlock_read (weak : bool) (p : rw_pc) (w : Z) :
    option (rw_pc * Z) :=
  match p with
  | RdUnlock =>
      let count := Z.land w (u32 (Z.lnot libsimple_rwlock_bit_need_to_wake)) in
      Some (if (count =? 1) && negb (Z.land w libsimple_rwlock_bit_need_to_wake =? 0)
            then RdFix else RwIdle, u32 (w - 1))
  | RdFix =>
      Some (RdWake, if (w =? libsimple_rwlock_bit_need_to_wake) && negb weak then 0 else w)
  | _ => None
  end.

Definition libsimple_rwlock_lock_write (p : rw_pc) (w : Z) : option (rw_pc * Z) :=
  match p with
  | WrFast =>
      Some (if w =? 0 then (WrHeld, libsimple_rwlock_bit_locked_write) else (WrLoop w, w))
  | WrLoop state2 =>
      Some (if Z.land state2 (u32 (Z.lnot libsimple_rwlock_bit_need_to_wake)) =? 0 then
              if w =? state2 then (WrHeld, write_and_wake) else (WrLoop w, w)
            else if Z.land state2 libsimple_rwlock_bit_need_to_wake =? 0 then
              if w =? state2
              then (WrWait (Z.lor state2 libsimple_rwlock_bit_need_to_wake),
                    Z.lor state2 libsimple_rwlock_bit_need_to_wake)
              else (WrLoop w, w)
            else (WrWait state2, w))
  | WrWait state2 => Some (if w =? state2 then WrAsleep else WrLoop 0, w)
  | _ => None
  end.

Definition libsimple_rwlock_try_lock_write (p : rw_pc) (w : Z) : option (rw_pc * Z) :=
  match p with
  | TryWr => Some (if w =? 0 then (WrHeld, libsimple_rwlock_bit_locked_write) else (RwIdle, w))
  | _ => None
  end.

Definition libsimple_rwlock_unlock_write (p : rw_pc) (w : Z) : option (rw_pc * Z) :=
  match p with
  | WrUnlock =>
      Some (if Z.land w libsimple_rwlock_bit_need_to_wake =? 0 then RwIdle else WrWakeReaders, 0)
  | _ => None
  end.

(** ** The machine *)

Definition rw_thread_step (weak : bool) (p : rw_pc) (w : Z) : option (rw_pc * Z) :=
  libsimple_rwlock_lock_read weak p w ∪ libsimple_rwlock_try_lock_read p w ∪
  libsimple_rwlock_unlock_read weak p w ∪ libsimple_rwlock_lock_write p w ∪
  libsimple_rwlock_try_lock_write p w ∪ libsimple_rwlock_unlock_write p w.

Definition rw_call (p p' : rw_pc) : bool :=
  match p, p' with
  | RwIdle, (RdLoad | TryRdLoad | WrFast | TryWr) | RdHeld, RdUnlock | WrHeld, WrUnlock => true
  | _, _ => false
  end.

Record rw_world := mkRw {
  rw_state : Z;
  rw_threads : nat → rw_pc;
}.

Definition rw_init : rw_world := mkRw 0 (fun _ => RwIdle).

(** Where a sleeper goes on. *)
Definition rw_woken (p : rw_pc) : rw_pc :=
  match p with RdAsleep => RdLoop 0 | WrAsleep => WrLoop 0 | p => p end.

(** [FUTEX_WAKE_BITSET] of all readers. *)
Definition wake_readers (th : nat → rw_pc) : nat → rw_pc :=
  fun u => match th u with RdAsleep => RdLoop 0 | p => p end.

(** After waking one writer. *)
Definition wake_next (p : rw_pc) : option rw_pc :=
  match p with RdWake | WrWakeWriter => Some RwIdle | _ => None end.

Inductive rw_step (n : nat) : rw_world → rw_world → Prop :=
  | rs_call w th t p : (t < n)%nat → rw_call (th t) p = true →
      rw_step n (mkRw w th) (mkRw w (<[t := p]> th))
  | rs_thread weak w th t p w' : (t < n)%nat → rw_thread_step weak (th t) w = Some (p, w') →
      rw_step n (mkRw w th) (mkRw w' (<[t := p]> th))
  | rs_signal w th u : th u = RdAsleep ∨ th u = WrAsleep →
      rw_step n (mkRw w th) (mkRw w (<[u := rw_woken (th u)]> th))
  | rs_wake_readers w th t : th t = WrWakeReaders →
      rw_step n (mkRw w th) (mkRw w (<[t := WrWakeWriter]> (wake_readers th)))
  | rs_wake_writer w th t p u : wake_next (th t) = Some p → th u = WrAsleep →
      rw_step n (mkRw w th) (mkRw w (<[t := p]> (<[u := WrLoop 0]> th)))
  | rs_wake_none w th t p : wake_next (th t) = Some p → (∀ u, th u ≠ WrAsleep) →
      rw_step n (mkRw w th) (mkRw w (<[t := p]> th)).

Definition rw_reachable (n : nat) : rw_world → Prop := rtc (rw_step n) rw_init.

(** ** The state word *)

Lemma land_need_to_wake w : 0 ≤ w < 2 ^ 32 →
  (Z.land w libsimple_rwlock_bit_need_to_wake =? 0) = (w <? 2 ^ 31).
Proof.
  intros Hw. unfold libsimple_rwlock_bit_need_to_wake. rewrite land_bit_zero by lia.
  destruct (Z.ltb_spec w (2 ^ 31)) as [Hlt|Hge].
  - apply negb_true_iff, Z.testbit_false; [lia|]. rewrite Z.div_small; lia.
  - apply negb_false_iff, Z.testbit_true; [lia|]. lia.
Qed.

Lemma land_count w : 0 ≤ w →
  Z.land w (u32 (Z.lnot libsimple_rwlock_bit_need_to_wake)) = w mod 2 ^ 31.
Proof. intros Hw. apply (Z.land_ones w 31). lia. Qed.

Lemma land_write_and_wake w : 0 ≤ w < 2 ^ 32 →
  (Z.land w write_and_wake =? 0) = (w <? 2 ^ 30).
Proof.
  intros Hw. unfold write_and_wake.
  rewrite Z.land_lor_distr_r. destruct (Z.ltb_spec w (2 ^ 30)) as [Hlt|Hge].
  - apply Z.eqb_eq, Z.lor_eq_0_iff. split; apply Z.eqb_eq.
    + unfold libsimple_rwlock_bit_locked_write. rewrite land_bit_zero by lia.
      apply negb_true_iff, Z.testbit_false; [lia|]. rewrite Z.div_small; lia.
    + rewrite land_need_to_wake by done. apply Z.ltb_lt. lia.
  - apply Z.eqb_neq. intros [H1%Z.eqb_eq H2%Z.eqb_eq]%Z.lor_eq_0_iff.
    rewrite land_need_to_wake in H2 by done. apply Z.ltb_lt in H2.
    unfold libsimple_rwlock_bit_locked_write in H1. rewrite land_bit_zero in H1 by lia.
    apply negb_true_iff, Z.testbit_false in H1; [lia|]. lia.
Qed.

Lemma lor_need_to_wake w : 0 ≤ w < 2 ^ 31 →
  Z.lor w libsimple_rwlock_bit_need_to_wake = w + 2 ^ 31.
Proof.
  intros Hw. unfold libsimple_rwlock_bit_need_to_wake. rewrite Z.shiftl_1_l.
  rewrite <- Z.add_lor_land. replace (Z.land w (2 ^ 31)) with 0; [lia|]. symmetry.
  apply Z.eqb_eq. rewrite <- Z.shiftl_1_l. rewrite land_need_to_wake by lia. apply Z.ltb_lt. lia.
Qed.

(** ** Exclusion *)

Definition rd_holds (p : rw_pc) : bool := match p with RdHeld | RdUnlock => true | _ => false end.
Definition wr_holds (p : rw_pc) : bool := match p with WrHeld | WrUnlock => true | _ => false end.

(** The values threads keep are 32-bit; a thread that waits saw the waiters' bit, and
    a writer also a holder. *)
Definition rw_stored (p : rw_pc) : Prop :=
  match p with
  | RdLoop v | TryRdCas v | WrLoop v => 0 ≤ v < 2 ^ 32
  | RdWait v => 2 ^ 31 ≤ v < 2 ^ 32
  | WrWait v => 2 ^ 31 < v < 2 ^ 32
  | _ => True
  end.

(** [holders w th]: what the word says of the threads, in the two situations. *)
Definition write_locked (w : Z) (th : nat → rw_pc) : Prop :=
  w mod 2 ^ 31 = 2 ^ 30 ∧ (∀ t, rd_holds (th t) = false) ∧
  ∃ t, wr_holds (th t) = true ∧ ∀ u, wr_holds (th u) = true → u = t.

Definition read_locked (n : nat) (w : Z) (th : nat → rw_pc) : Prop :=
  (∀ t, wr_holds (th t) = false) ∧
  ∃ R : gset nat, (∀ t, rd_holds (th t) = true ↔ t ∈ R) ∧ (∀ t, t ∈ R → (t < n)%nat) ∧
                  w mod 2 ^ 31 = Z.of_nat (size R).

Record rw_inv (n : nat) (w : Z) (th : nat → rw_pc) : Prop := mkRwInv {
  ri_range : 0 ≤ w < 2 ^ 32;
  ri_stored : ∀ t, rw_stored (th t);
  ri_holders : write_locked w th ∨ read_locked n w th;
}.

(** The kinds of steps of one thread. *)
Inductive rw_change (w : Z) (p : rw_pc) (w' : Z) (p' : rw_pc) : Prop :=
  | rc_keep : rd_holds p' = rd_holds p → wr_holds p' = wr_holds p →
      w' mod 2 ^ 31 = w mod 2 ^ 31 → rw_change w p w' p'
  | rc_read : rd_holds p = false → wr_holds p = false → rd_holds p' = true →
      wr_holds p' = false → w < 2 ^ 30 → w' = w + 1 → rw_change w p w' p'
  | rc_unread : rd_holds p = true → rd_holds p' = false → wr_holds p' = false →
      w' = u32 (w - 1) → rw_change w p w' p'
  | rc_write : rd_holds p = false → wr_holds p = false → wr_holds p' = true →
      rd_holds p' = false → w mod 2 ^ 31 = 0 → w' mod 2 ^ 31 = 2 ^ 30 → rw_change w p w' p'
  | rc_unwrite : wr_holds p = true → rd_holds p' = false → wr_holds p' = false → w' = 0 →
      rw_change w p w' p'.

Ltac inv_rw_step H :=
  match type of H with
  | rw_thread_step _ ?p _ = Some _ =>
      destruct p; unfold rw_thread_step, libsimple_rwlock_lock_read,
        libsimple_rwlock_try_lock_read, libsimple_rwlock_unlock_read,
        libsimple_rwlock_lock_write, libsimple_rwlock_try_lock_write,
        libsimple_rwlock_unlock_write in H; cbn [union option_union union_with option_union_with] in H;
      try discriminate H
  end.

Lemma rw_thread_change weak w p w' p' :
  0 ≤ w < 2 ^ 32 → w mod 2 ^ 31 ≤ 2 ^ 30 → rw_stored p →
  rw_thread_step weak p w = Some (p', w') →
  0 ≤ w' < 2 ^ 32 ∧ rw_stored p' ∧ rw_change w p w' p'.
Proof.
  intros Hw Hm Hp Hs. inv_rw_step Hs; cbn [rw_stored] in Hp.
  all: rewrite ?land_write_and_wake, ?land_need_to_wake, ?land_count in Hs by lia.
  all: try (destruct weak). all: rewrite ?andb_true_r, ?andb_false_r in Hs.
  all: zbool; cbn [negb andb] in Hs; simplify_eq.
  all: change write_and_wake with (2 ^ 30 + 2 ^ 31) in *;
       change libsimple_rwlock_bit_locked_write with (2 ^ 30) in *;
       rewrite ?lor_need_to_wake by lia; change libsimple_rwlock_bit_need_to_wake with (2 ^ 31) in *.
  all: unfold u32; split; [lia|]; split; [cbn; lia|].
  all: first [ by apply rc_keep; (done || lia) | by apply rc_read; (done || lia)
             | by apply rc_unread | by apply rc_write; (done || lia) | by apply rc_unwrite ].
Qed.

Lemma size_below (R : gset nat) n : (∀ t, t ∈ R → (t < n)%nat) → (size R ≤ n)%nat.
Proof.
  intros H. assert (R ⊆ set_seq 0 n) as Hs by (intros t Ht; apply elem_of_set_seq; auto with lia).
  apply subseteq_size in Hs. by rewrite size_set_seq in Hs.
Qed.

Lemma rw_inv_count n w th : (Z.of_nat n < 2 ^ 30) → rw_inv n w th → w mod 2 ^ 31 ≤ 2 ^ 30.
Proof.
  intros Hn [_ _ [(H & _)|(_ & R & _ & HR & H)]]; [lia|]. apply size_below in HR. lia.
Qed.

Lemma rw_inv_change n w th t w' p' :
  rw_inv n w th → (t < n)%nat → 0 ≤ w' < 2 ^ 32 → rw_stored p' →
  rw_change w (th t) w' p' → rw_inv n w' (<[t := p']> th).
Proof.
  intros [Hr Hst Hh] Ht Hw' Hp' Hc. split; [done| |].
  { intros u. rewrite fn_lookup_insert_ext. by case_decide. }
  assert (∀ f : rw_pc → bool, f p' = f (th t) →
            ∀ u, f ((<[t := p']> th : nat → rw_pc) u) = f (th u)) as Hsame.
  { intros f Hf u. rewrite fn_lookup_insert_ext. by case_decide; subst. }
  destruct Hc as [H1 H2 H3|H1 H2 H3 H4 H5 H6|H1 H2 H3 H4|H1 H2 H3 H4 H5 H6|H1 H2 H3 H4].
  - destruct Hh as [(Ha & Hb & x & Hx & Hu)|(Ha & R & HR & Hn & Hs)].
    + left. split; [lia|]. split; [intros u; by rewrite Hsame|].
      exists x. split; [by rewrite Hsame|]. intros u. rewrite Hsame by done. apply Hu.
    + right. split; [intros u; by rewrite Hsame|]. exists R. split_and!; try done; [|lia].
      intros u. rewrite Hsame by done. apply HR.
  - destruct Hh as [(Ha & _)|(Ha & R & HR & Hn & Hs)]; [lia|]. right.
    split; [intros u; rewrite Hsame; [done|congruence]|].
    assert (t ∉ R) as HtR by (rewrite <- HR; congruence).
    exists (R ∪ {[t]}). split_and!.
    + intros u. rewrite fn_lookup_insert_ext, elem_of_union, elem_of_singleton, <- HR.
      case_decide; subst; split; auto. by intros [?|?].
    + intros u [Hu|Hu]%elem_of_union; [auto|]. apply elem_of_singleton in Hu. by subst.
    + rewrite size_union, size_singleton by (by apply disjoint_singleton_r). lia.
  - destruct Hh as [(Ha & Hb & _)|(Ha & R & HR & Hn & Hs)]; [by rewrite Hb in H1|]. right.
    split; [intros u; rewrite Hsame; [done|by rewrite Ha]|].
    assert (t ∈ R) as HtR by (by apply HR).
    exists (R ∖ {[t]}). split_and!.
    + intros u. rewrite fn_lookup_insert_ext, elem_of_difference, elem_of_singleton, <- HR.
      case_decide; subst; split; [congruence|by intros [? ?]|auto|by intros [? ?]].
    + intros u [Hu _]%elem_of_difference. auto.
    + clear Hsame. assert (size R ≠ 0)%nat by (intros HR0%size_empty_inv; set_solver).
      rewrite size_difference, size_singleton by set_solver. subst w'. unfold u32. lia.
  - destruct Hh as [(Ha & _)|(Ha & R & HR & Hn & Hs)]; [lia|]. left.
    assert (size R = 0%nat) as HR0%size_empty_inv by lia. split; [done|].
    split; [|exists t; rewrite fn_lookup_insert; split; [done|]].
    + intros u. rewrite fn_lookup_insert_ext. case_decide; [done|].
      apply not_true_iff_false. rewrite HR. set_solver.
    + intros u. rewrite fn_lookup_insert_ext. case_decide; [done|]. by rewrite Ha.
  - destruct Hh as [(Ha & Hb & x & Hx & Hu)|(Ha & _)]; [|by rewrite Ha in H1].
    right. rewrite (Hu t H1) in *. split.
    + intros u. rewrite fn_lookup_insert_ext. case_decide; [done|].
      apply not_true_iff_false. intros Hu'%Hu. done.
    + exists ∅. subst w'. split; [|split; [by intros ? ?%elem_of_empty|done]].
      intros u. rewrite fn_lookup_insert_ext. rewrite elem_of_empty.
      case_decide; rewrite ?H2, ?Hb; by split.
Qed.

(** Steps that move threads without changing who holds the lock. *)
Lemma rw_inv_ext n w th th' :
  (∀ u, rd_holds (th' u) = rd_holds (th u)) → (∀ u, wr_holds (th' u) = wr_holds (th u)) →
  (∀ u, rw_stored (th' u)) → rw_inv n w th → rw_inv n w th'.
Proof.
  intros H1 H2 H3 [Hr Hst Hh]. split; [done|done|].
  destruct Hh as [(Ha & Hb & x & Hx & Hu)|(Ha & R & HR & Hn & Hs)].
  - left. split; [done|]. split; [intros u; by rewrite H1|]. exists x.
    split; [by rewrite H2|]. intros u. rewrite H2. apply Hu.
  - right. split; [intros u; by rewrite H2|]. exists R. split; [|by split].
    intros u. rewrite H1. apply HR.
Qed.

(** A thread moved between two counters of the same kind. *)
Lemma rw_inv_move n w th t p :
  rd_holds p = rd_holds (th t) → wr_holds p = wr_holds (th t) → rw_stored p →
  rw_inv n w th → rw_inv n w (<[t := p]> th).
Proof.
  intros H1 H2 H3 Hi. eapply rw_inv_ext, Hi; intros u; rewrite fn_lookup_insert_ext;
    case_decide; subst; try done. apply Hi.
Qed.

Lemma wake_readers_same th u :
  rd_holds (wake_readers th u) = rd_holds (th u) ∧ wr_holds (wake_readers th u) = wr_holds (th u).
Proof. unfold wake_readers. by destruct (th u). Qed.

Lemma rw_inv_wake_readers n w th : rw_inv n w th → rw_inv n w (wake_readers th).
Proof.
  intros Hi. eapply rw_inv_ext, Hi; intros u; try apply wake_readers_same.
  unfold wake_readers. pose proof (ri_stored _ _ _ Hi u). destruct (th u); cbn in *; try done; lia.
Qed.

Lemma wake_next_inv p q : wake_next p = Some q → q = RwIdle ∧ (p = RdWake ∨ p = WrWakeWriter).
Proof. destruct p; cbn; naive_solver. Qed.

Lemma rw_inv_step n s s' :
  Z.of_nat n < 2 ^ 30 → rw_step n s s' → rw_inv n (rw_state s) (rw_threads s) →
  rw_inv n (rw_state s') (rw_threads s').
Proof.
  intros Hn [w th t p Ht Hc|weak w th t p w' Ht Hc|w th u Hu|w th t Ht|w th t p u Ht Hu
    |w th t p Ht Hnone] Hi; cbn [rw_state rw_threads] in *.
  - by apply rw_inv_move; destruct (th t), p.
  - apply rw_thread_change in Hc as (H1 & H2 & H3).
    + by eapply rw_inv_change.
    + apply Hi.
    + by eapply rw_inv_count.
    + apply Hi.
  - apply rw_inv_move; [..|done]; destruct Hu as [-> | ->]; cbn; done || lia.
  - apply rw_inv_move; [| |done|by apply rw_inv_wake_readers];
      destruct (wake_readers_same th t) as [H1 H2]; by rewrite ?H1, ?H2, Ht.
  - apply wake_next_inv in Ht as [-> Ht].
    assert (t ≠ u) by (intros ->; rewrite Hu in Ht; naive_solver).
    apply rw_inv_move; [..|apply rw_inv_move; [by rewrite Hu|by rewrite Hu|cbn; lia|done]];
      rewrite ?fn_lookup_insert_ne by done; destruct Ht as [Ht|Ht]; by rewrite ?Ht.
  - apply wake_next_inv in Ht as [-> Ht]. apply rw_inv_move; [..|done]; destruct Ht as [Ht|Ht]; by rewrite ?Ht.
Qed.

Lemma rw_inv_reachable n s :
  Z.of_nat n < 2 ^ 30 → rw_reachable n s → rw_inv n (rw_state s) (rw_threads s).
Proof.
  intros Hn Hr. eapply (rtc_invariant _ (fun s => rw_inv n (rw_state s) (rw_threads s))); [done| |].
  - split; cbn; [lia|done|]. right. split; [done|]. exists ∅. split; [|split; [set_solver|done]].
    intros t. set_solver.
  - intros a c. by apply rw_inv_step.
Qed.

(** C25: the reader-writer lock excludes.  With fewer than 2^30 threads, a thread that
    holds the lock for writing is the only holder, and otherwise the low bits of the
    state word are exactly the number of readers. *)
Theorem rwlock_exclusion n s :
  Z.of_nat n < 2 ^ 30 → rw_reachable n s →
  (∀ t u, wr_holds (rw_threads s t) = true →
          rd_holds (rw_threads s u) || wr_holds (rw_threads s u) = true → t = u) ∧
  (∀ R : gset nat, (∀ t, rd_holds (rw_threads s t) = true ↔ t ∈ R) →
     (∀ t, wr_holds (rw_threads s t) = false) →
     rw_state s mod 2 ^ 31 = Z.of_nat (size R)).
Proof.
  intros Hn Hr. destruct (rw_inv_reachable n s Hn Hr) as [_ _ [(H1 & H2 & x & Hx & Hu)|(H1 & R & HR & _ & Hs)]].
  - split.
    + intros t u Ht [Hr'|Hw]%orb_true_iff; [by rewrite H2 in Hr'|]. by rewrite (Hu t), (Hu u).
    + intros R _ Hall. by rewrite Hall in Hx.
  - split; [intros t u Ht; by rewrite H1 in Ht|]. intros R' HR' _.
    rewrite Hs. do 2 f_equal. apply leibniz_equiv. intros t. by rewrite <- HR, <- HR'.
Qed.

(** ** No lost wake-up *)

(** A writer in the slow path of [libsimple_rwlock_lock_write], one that is not asleep,
    and a thread that is about to wake a writer (readers). *)
Definition slow_writer (p : rw_pc) : bool :=
  match p with WrLoop _ | WrWait _ | WrAsleep => true | _ => false end.
Definition moving_writer (p : rw_pc) : bool :=
  match p with WrLoop _ | WrWait _ => true | _ => false end.
Definition wakes_writer (p : rw_pc) : bool :=
  match p with RdFix | RdWake | WrWakeReaders | WrWakeWriter => true | _ => false end.
Definition wakes_readers (p : rw_pc) : bool :=
  match p with WrWakeReaders => true | _ => false end.

Definition marks (p : rw_pc) : bool := wr_holds p || slow_writer p.
Definition helps_writer (p : rw_pc) : bool := moving_writer p || wakes_writer p.
Definition helps_reader (p : rw_pc) : bool := wakes_readers p || slow_writer p.

Record rw_live (w : Z) (th : nat → rw_pc) : Prop := mkRwLive {
  rl_marked : 2 ^ 31 ≤ w → ∃ t, marks (th t) = true;
  rl_writer : (∃ u, th u = WrAsleep) → 2 ^ 31 < w ∨ ∃ t, helps_writer (th t) = true;
  rl_reader : (∃ u, th u = RdAsleep) →
    (2 ^ 31 ≤ w ∧ ∃ t, wr_holds (th t) = true) ∨ ∃ t, helps_reader (th t) = true;
}.

Lemma rw_thread_live weak w p w' p' :
  0 ≤ w < 2 ^ 32 → w mod 2 ^ 31 ≤ 2 ^ 30 → rw_stored p →
  (rd_holds p = true → 1 ≤ w mod 2 ^ 31 < 2 ^ 30) →
  rw_thread_step weak p w = Some (p', w') →
  (2 ^ 31 ≤ w' → marks p' = true ∨ (2 ^ 31 ≤ w ∧ marks p = false) ∨ w' mod 2 ^ 31 = 2 ^ 30) ∧
  (p' = WrAsleep → 2 ^ 31 < w') ∧
  (2 ^ 31 < w' ∨ helps_writer p' = true ∨ (w ≤ 2 ^ 31 ∧ helps_writer p = false)) ∧
  (p' = RdAsleep → 2 ^ 31 ≤ w') ∧
  ((2 ^ 31 ≤ w' ∧ wr_holds p' = true) ∨ helps_reader p' = true ∨
   (helps_reader p = false ∧
    (2 ^ 31 ≤ w → w mod 2 ^ 31 = 2 ^ 30 → 2 ^ 31 ≤ w' ∧ wr_holds p = false))).
Proof.
  intros Hw Hm Hp Hrd Hs. inv_rw_step Hs; cbn [rw_stored rd_holds] in *.
  all: rewrite ?land_write_and_wake, ?land_need_to_wake, ?land_count in Hs by lia.
  all: try (destruct weak). all: rewrite ?andb_true_r, ?andb_false_r in Hs.
  all: zbool; cbn [negb andb] in Hs; simplify_eq.
  all: change write_and_wake with (2 ^ 30 + 2 ^ 31) in *;
       change libsimple_rwlock_bit_locked_write with (2 ^ 30) in *;
       rewrite ?lor_need_to_wake by lia; change libsimple_rwlock_bit_need_to_wake with (2 ^ 31) in *.
  all: unfold marks, helps_writer, helps_reader;
       cbn [wr_holds slow_writer moving_writer wakes_writer wakes_readers orb].
  all: try specialize (Hrd eq_refl).
  all: unfold u32; split_and!; try done; try (intros; lia); try lia.
Qed.

(** The word of a held lock. *)
Lemma write_word n w th :
  Z.of_nat n < 2 ^ 30 → rw_inv n w th →
  (w mod 2 ^ 31 = 2 ^ 30 → ∃ t, wr_holds (th t) = true) ∧
  ((∃ t, wr_holds (th t) = true) → w mod 2 ^ 31 = 2 ^ 30) ∧
  (∀ t, rd_holds (th t) = true → 1 ≤ w mod 2 ^ 31 < 2 ^ 30).
Proof.
  intros Hn [_ _ [(H1 & H2 & x & Hx & _)|(H1 & R & HR & Hlt & Hs)]].
  - split_and!; [by exists x|done|]. intros t Ht. by rewrite H2 in Ht.
  - pose proof (size_below R n Hlt). split_and!; [lia| |].
    + intros [t Ht]. by rewrite H1 in Ht.
    + intros t Ht%HR. assert (size R ≠ 0)%nat by (intros HR0%size_empty_inv; set_solver). lia.
Qed.

(** One thread moves. *)
Lemma rw_live_change n w th t w' p' :
  Z.of_nat n < 2 ^ 30 → rw_inv n w th → rw_inv n w' (<[t := p']> th) →
  (2 ^ 31 ≤ w' → marks p' = true ∨ (2 ^ 31 ≤ w ∧ marks (th t) = false) ∨
                 w' mod 2 ^ 31 = 2 ^ 30) →
  (p' = WrAsleep → 2 ^ 31 < w') →
  (2 ^ 31 < w' ∨ helps_writer p' = true ∨ (w ≤ 2 ^ 31 ∧ helps_writer (th t) = false)) →
  (p' = RdAsleep → 2 ^ 31 ≤ w') →
  ((2 ^ 31 ≤ w' ∧ wr_holds p' = true) ∨ helps_reader p' = true ∨
   (helps_reader (th t) = false ∧
    (2 ^ 31 ≤ w → w mod 2 ^ 31 = 2 ^ 30 → 2 ^ 31 ≤ w' ∧ wr_holds (th t) = false))) →
  rw_live w th → rw_live w' (<[t := p']> th).
Proof.
  intros Hn Hi Hi' H1 H2 H3 H4 H5 [Lm Lw Lr].
  assert (2 ^ 31 ≤ w' → ∃ u, marks ((<[t := p']> th : nat → rw_pc) u) = true) as Lm'.
  { intros Hw. destruct (H1 Hw) as [Hp|[[Hw0 Hp]|Hp]].
    - by apply some_thread_here.
    - apply some_thread_update; [auto|congruence].
    - destruct (proj1 (write_word n _ _ Hn Hi') Hp) as [u Hu]. exists u. unfold marks. by rewrite Hu. }
  split; [done| |].
  - intros [u Hu]. rewrite fn_lookup_insert_ext in Hu.
    destruct H3 as [?|[Hp|[Hw Hp]]]; [by left|right; by apply some_thread_here|].
    case_decide; [by left; apply H2|]. right. apply some_thread_update; [|congruence].
    destruct Lw as [?|?]; [by exists u|lia|done].
  - intros [u Hu]. rewrite fn_lookup_insert_ext in Hu.
    case_decide as Htu.
    { specialize (H4 Hu). destruct (Lm' H4) as [v Hv]. unfold marks in Hv.
      apply orb_true_iff in Hv as [Hv|Hv]; [left; split; [done|by exists v]|right].
      exists v. unfold helps_reader. by rewrite Hv, orb_true_r. }
    destruct H5 as [[Hw Hp]|[Hp|[Hp Hw]]]; [left; split; [done|by apply some_thread_here]
      |right; by apply some_thread_here|].
    destruct Lr as [[Hw0 Hh]|Hh]; [by exists u| |right; apply some_thread_update; [done|congruence]].
    left. destruct Hw as [Hw Hp']; [done|by apply (write_word n w th Hn Hi)|].
    split; [done|]. apply some_thread_update; [done|congruence].
Qed.

(** A thread moves without the word, keeping what it does for others. *)
Lemma rw_live_move w th t p :
  (marks (th t) = true → marks p = true) → (helps_writer (th t) = true → helps_writer p = true) →
  (helps_reader (th t) = true → helps_reader p = true) →
  (wr_holds (th t) = true → wr_holds p = true) →
  p ≠ WrAsleep → p ≠ RdAsleep → rw_live w th → rw_live w (<[t := p]> th).
Proof.
  intros H1 H2 H3 H4 H5 H6 [Lm Lw Lr]. split.
  - intros Hw. by apply some_thread_update; [apply Lm|].
  - intros [u Hu]. rewrite fn_lookup_insert_ext in Hu. case_decide; [done|].
    destruct Lw as [?|?]; [by exists u|by left|right; by apply some_thread_update].
  - intros [u Hu]. rewrite fn_lookup_insert_ext in Hu. case_decide; [done|].
    destruct Lr as [[Hw Hh]|Hh]; [by exists u| |right; by apply some_thread_update].
    left. split; [done|]. by apply some_thread_update.
Qed.

(** All readers are awake. *)
Lemma rw_live_wake_readers w th t :
  th t = WrWakeReaders → rw_live w th →
  rw_live w (<[t := WrWakeWriter]> (wake_readers th)).
Proof.
  intros Ht [Lm Lw Lr].
  assert (∀ u, marks (wake_readers th u) = marks (th u)) as Hm
    by (intros u; unfold wake_readers; by destruct (th u)).
  split.
  - intros Hw. apply some_thread_update; [|by rewrite Hm, Ht].
    destruct (Lm Hw) as [u Hu]. exists u. by rewrite Hm.
  - intros _. right. by apply some_thread_here.
  - intros [u Hu]. rewrite fn_lookup_insert_ext in Hu. case_decide; [done|].
    unfold wake_readers in Hu. by destruct (th u).
Qed.

(** One writer is woken by a thread that has nothing else to do. *)
Lemma rw_live_wake_writer w th t u :
  th t = RdWake ∨ th t = WrWakeWriter → th u = WrAsleep → rw_live w th →
  rw_live w (<[t := RwIdle]> (<[u := WrLoop 0]> th)).
Proof.
  intros Ht Hu [Lm Lw Lr]. assert (t ≠ u) by (intros ->; rewrite Hu in Ht; naive_solver).
  assert (∀ f : rw_pc → bool, f (WrLoop 0) = true →
            ∃ v, f ((<[t := RwIdle]> (<[u := WrLoop 0]> th) : nat → rw_pc) v) = true) as Hex.
  { intros f Hf. exists u. by rewrite fn_lookup_insert_ne, fn_lookup_insert. }
  split; intros; [|right|right]; by apply Hex.
Qed.

Lemma rw_live_step n s s' :
  Z.of_nat n < 2 ^ 30 → rw_step n s s' → rw_inv n (rw_state s) (rw_threads s) →
  rw_live (rw_state s) (rw_threads s) → rw_live (rw_state s') (rw_threads s').
Proof.
  intros Hn Hs Hi Hl. pose proof (rw_inv_step n s s' Hn Hs Hi) as Hi'.
  destruct Hs as [w th t p Ht Hc|weak w th t p w' Ht Hc|w th u Hu|w th t Ht|w th t p u Ht Hu
    |w th t p Ht Hnone]; cbn [rw_state rw_threads] in *.
  - by apply rw_live_move; destruct (th t), p.
  - apply rw_thread_live in Hc as (H1 & H2 & H3 & H4 & H5).
    + by eapply rw_live_change.
    + apply Hi.
    + by eapply rw_inv_count.
    + apply Hi.
    + apply (write_word n w th Hn Hi).
  - by apply rw_live_move; destruct Hu as [Hu|Hu]; rewrite ?Hu.
  - by apply rw_live_wake_readers.
  - apply wake_next_inv in Ht as [-> Ht]. by apply rw_live_wake_writer.
  - apply wake_next_inv in Ht as [-> Ht]. destruct Hl as [Lm Lw Lr]. split.
    + intros Hw. apply some_thread_update; [auto|]. by destruct Ht as [-> | ->].
    + intros [u Hu]. rewrite fn_lookup_insert_ext in Hu. case_decide; [done|]. by destruct (Hnone u).
    + intros [u Hu]. rewrite fn_lookup_insert_ext in Hu. case_decide; [done|].
      destruct Lr as [[Hw Hh]|Hh]; [by exists u|left; split; [done|]|right];
        apply some_thread_update; try done; by destruct Ht as [-> | ->].
Qed.

(** C26: no wake-up of the reader-writer lock is lost.  When a writer sleeps, the lock
    is held and its waiters' bit set, or another thread is about to wake a writer, or
    another writer is awake in the slow path.  When a reader sleeps, the lock is held
    for writing with its waiters' bit set, or a thread is about to wake all readers, or a
    writer is in the slow path, which takes the lock with that bit set. *)
Theorem rwlock_no_lost_wakeup n s :
  Z.of_nat n < 2 ^ 30 → rw_reachable n s →
  (∀ u, rw_threads s u = WrAsleep →
     (2 ^ 31 < rw_state s ∧ rw_state s mod 2 ^ 31 ≠ 0) ∨
     ∃ t, helps_writer (rw_threads s t) = true) ∧
  (∀ u, rw_threads s u = RdAsleep →
     (2 ^ 31 ≤ rw_state s ∧ ∃ t, wr_holds (rw_threads s t) = true) ∨
     ∃ t, helps_reader (rw_threads s t) = true).
Proof.
  intros Hn Hr.
  assert (rw_inv n (rw_state s) (rw_threads s) ∧ rw_live (rw_state s) (rw_threads s)) as [Hi Hl].
  { eapply (rtc_invariant _ (fun s => rw_inv n (rw_state s) (rw_threads s) ∧
                                      rw_live (rw_state s) (rw_threads s))); [done| |].
    - split; [apply (rw_inv_reachable n rw_init Hn (rtc_refl _ _))|].
      split; cbn; [lia|by intros [? ?]|by intros [? ?]].
    - intros a c Hst [Hi Hl]. split; [by eapply rw_inv_step|by eapply rw_live_step]. }
  pose proof (ri_range _ _ _ Hi). split; intros u Hu.
  - destruct (rl_writer _ _ Hl) as [?|?]; [by exists u|left; lia|by right].
  - apply (rl_reader _ _ Hl). by exists u.
Qed.

(** ** Witnesses *)

Ltac rw_run t := eapply rtc_l; [eapply (rs_thread _ false _ _ t); [lia|reflexivity]|].
Ltac rw_begin t p := eapply rtc_l; [apply (rs_call _ _ _ t p); [lia|reflexivity]|].

(** Thread 0 holds the lock for reading, thread 1 too. *)
Lemma rwlock_exclusion_witness :
  ∃ s, rw_reachable 3 s ∧ rd_holds (rw_threads s 0%nat) = true ∧
       wr_holds (rw_threads s 1%nat) = false.
Proof.
  assert (∃ s, rw_reachable 3 s ∧ rd_holds (rw_threads s 0%nat) = true) as (s & Hr & H0).
  { eexists. split; [rw_begin 0%nat RdLoad; do 2 rw_run 0%nat; rw_begin 1%nat RdLoad;
      do 2 rw_run 1%nat; apply rtc_refl|reflexivity]. }
  exists s. split; [exact Hr|]. split; [exact H0|].
  destruct (wr_holds (rw_threads s 1%nat)) eqn:H1; [|reflexivity].
  destruct (rwlock_exclusion 3 s ltac:(lia) Hr) as [Hx _].
  specialize (Hx 1%nat 0%nat H1). rewrite H0 in Hx. discriminate (Hx eq_refl).
Defined.

(** Thread 0 holds the lock for reading, writer 1 and reader 2 sleep. *)
Lemma rwlock_no_lost_wakeup_witness :
  ∃ s, rw_threads s 1%nat = WrAsleep ∧ rw_threads s 2%nat = RdAsleep ∧
    ((2 ^ 31 ≤ rw_state s ∧ ∃ t, wr_holds (rw_threads s t) = true) ∨
     ∃ t, helps_reader (rw_threads s t) = true).
Proof.
  assert (∃ s, rw_reachable 3 s ∧ rw_threads s 1%nat = WrAsleep ∧ rw_threads s 2%nat = RdAsleep)
    as (s & Hr & H1 & H2).
  { eexists. split; [rw_begin 0%nat RdLoad; do 2 rw_run 0%nat; rw_begin 1%nat WrFast;
      do 3 rw_run 1%nat; rw_begin 2%nat RdLoad; do 3 rw_run 2%nat; apply rtc_refl|].
    split; reflexivity. }
  exists s. split; [exact H1|]. split; [exact H2|].
  exact (proj2 (rwlock_no_lost_wakeup 3 s ltac:(lia) Hr) 2%nat H2).
Defined.
