(* ===== verification/DtapeMutex.v ===== *)
(** * The server's mutex and condition variable
    ([src/src/external/osxieserver/duct-tape/src/locks.c], [condvar.c])

    The lock of the duct-taped kernel code, for microthreads: an owner, a queue of waiting
    microthreads, and a native lock ([libsimple_lock]) that protects both.  A microthread that
    has to wait is suspended by the server, which drops the native lock when it no longer
    runs.  Callers that are not microthreads hold the native lock itself.  The condition
    variable has a queue and a native lock of its own; a microthread has one link, which is in
    at most one queue.  Every step performs at most one access to the owner or to a queue. *)

From S2P Require Import Machine Prelude.

(** ** Program counters *)

(** [Out h] is the client, which owns the mutex if [h].  The [bool] of an unlocking
    microthread tells whether it is inside [dtape_condvar_wait]; [NtCrit] is the client that is
    not a microthread, with the native lock. *)
Inductive dpc :=
  | Out (h : bool)
  | LkAssert | LkTake | LkLook | LkDrop | LkSusp | LkAsleep
  | TryAssert | TryLook | TryStore | TryDrop
  | UnAssert (k : bool) | UnTake (k : bool) | UnClear (k : bool) | UnWake (k : bool) | UnDrop (k : bool)
  | CvTake | CvEnqueue | CvSusp | CvAsleep
  | SgTake (n : nat) (h : bool) | SgLoop (n : nat) (h : bool)
  | NtTake | NtLook | NtRetry | NtTry | NtTryLook | NtTryDrop | NtCrit | NtDrop
  | Panicked.

(** The mutex with its native lock (the thread that has it) and its queue, the condition
    variable with both of its own, the microthreads, and whether the server was asked to
    resume a microthread that is not suspended. *)
Record dworld := mkDworld {
  dtape_owner : option nat;
  dtape_queue_lock : option nat;
  dtape_queue : list nat;
  cv_queue_lock : option nat;
  cv_queue : list nat;
  d_pc : nat → dpc;
  d_bad : bool;
}.

Definition dinit : dworld := mkDworld None None [] None [] (fun _ => Out false) false.

Definition goto (t : nat) (p : dpc) (s : dworld) : dworld :=
  mkDworld (dtape_owner s) (dtape_queue_lock s) (dtape_queue s) (cv_queue_lock s) (cv_queue s)
    (<[t := p]> (d_pc s)) (d_bad s).
Definition set_owner (o : option nat) (s : dworld) : dworld :=
  mkDworld o (dtape_queue_lock s) (dtape_queue s) (cv_queue_lock s) (cv_queue s) (d_pc s) (d_bad s).
Definition set_qlock (o : option nat) (s : dworld) : dworld :=
  mkDworld (dtape_owner s) o (dtape_queue s) (cv_queue_lock s) (cv_queue s) (d_pc s) (d_bad s).
Definition set_queue (l : list nat) (s : dworld) : dworld :=
  mkDworld (dtape_owner s) (dtape_queue_lock s) l (cv_queue_lock s) (cv_queue s) (d_pc s) (d_bad s).
Definition set_cvlock (o : option nat) (s : dworld) : dworld :=
  mkDworld (dtape_owner s) (dtape_queue_lock s) (dtape_queue s) o (cv_queue s) (d_pc s) (d_bad s).
Definition set_cvqueue (l : list nat) (s : dworld) : dworld :=
  mkDworld (dtape_owner s) (dtape_queue_lock s) (dtape_queue s) (cv_queue_lock s) l (d_pc s) (d_bad s).

(** [libsimple_lock_lock] on the queue lock: it waits while another thread has the lock. *)
Definition take_qlock (t : nat) (s : dworld) : option dworld :=
  match dtape_queue_lock s with None => Some (set_qlock (Some t) s) | Some _ => None end.
Definition take_cvlock (t : nat) (s : dworld) : option dworld :=
  match cv_queue_lock s with None => Some (set_cvlock (Some t) s) | Some _ => None end.

(** [dtape_hooks->thread_resume]: a suspended microthread goes on after its call of
    [thread_suspend]. *)
Definition thread_resume (w : nat) (s : dworld) : dworld :=
  match d_pc s w with
  | LkAsleep => goto w LkTake s
  | CvAsleep => goto w LkAssert s
  | _ => mkDworld (dtape_owner s) (dtape_queue_lock s) (dtape_queue s) (cv_queue_lock s) (cv_queue s)
           (d_pc s) true
  end.

(** [dtape_mutex_assert] *)
Definition dtape_mutex_assert (t : nat) (should_be_owned : bool) (ok : dpc) (s : dworld) : dworld :=
  let owned := bool_decide (dtape_owner s = Some t) in
  goto t (if Bool.eqb owned should_be_owned then ok else Panicked) s.

(** ** The functions, one action at a time *)

(** [dtape_mutex_lock] of a microthread and of another thread. *)
Definition dtape_mutex_lock (t : nat) (s : dworld) : option dworld :=
  match d_pc s t with
  | LkAssert => Some (dtape_mutex_assert t false LkTake s)
  | LkTake => goto t LkLook <$> take_qlock t s
  | LkLook =>
      Some (if bool_decide (dtape_owner s = None) || bool_decide (dtape_owner s = Some t)
            then goto t LkDrop (set_owner (Some t) s)
            else goto t LkSusp (set_queue (dtape_queue s ++ [t]) s))
  | LkDrop => Some (goto t (Out true) (set_qlock None s))
  | LkSusp => Some (goto t LkAsleep (set_qlock None s))
  | NtTake => goto t NtLook <$> take_qlock t s
  | NtLook => Some (goto t (if bool_decide (dtape_owner s = None) then NtCrit else NtRetry) s)
  | NtRetry => Some (goto t NtTake (set_qlock None s))
  | _ => None
  end.

(** [dtape_mutex_try_lock] *)
Definition dtape_mutex_try_lock (t : nat) (s : dworld) : option dworld :=
  match d_pc s t with
  | TryAssert => Some (dtape_mutex_assert t false TryLook s)
  | TryLook =>
      Some (goto t (if bool_decide (dtape_owner s = None) || bool_decide (dtape_owner s = Some t)
                    then TryStore else Out false) s)
  | TryStore => Some (goto t TryDrop (set_owner (Some t) s))
  | TryDrop => Some (goto t (Out true) (set_qlock None s))
  | NtTry =>
      Some (match take_qlock t s with Some s => goto t NtTryLook s | None => goto t (Out false) s end)
  | NtTryLook => Some (goto t (if bool_decide (dtape_owner s = None) then NtCrit else NtTryDrop) s)
  | NtTryDrop => Some (goto t (Out false) (set_qlock None s))
  | _ => None
  end.

(** [dtape_mutex_unlock] *)
Definition dtape_mutex_unlock (t : nat) (s : dworld) : option dworld :=
  match d_pc s t with
  | UnAssert k => Some (dtape_mutex_assert t true (UnTake k) s)
  | UnTake k => goto t (UnClear k) <$> take_qlock t s
  | UnClear k => Some (goto t (UnWake k) (set_owner None s))
  | UnWake k =>
      Some (match dtape_queue s with
            | [] => goto t (UnDrop k) s
            | w :: q => goto t (UnDrop k) (thread_resume w (set_queue q s))
            end)
  | UnDrop k => Some (goto t (if k then CvEnqueue else Out false) (set_qlock None s))
  | NtDrop => Some (goto t (Out false) (set_qlock None s))
  | _ => None
  end.

(** [dtape_condvar_wait]; it calls the unlock above and ends in the lock. *)
Definition dtape_condvar_wait (t : nat) (s : dworld) : option dworld :=
  match d_pc s t with
  | CvTake => goto t (UnAssert true) <$> take_cvlock t s
  | CvEnqueue => Some (goto t CvSusp (set_cvqueue (cv_queue s ++ [t]) s))
  | CvSusp => Some (goto t CvAsleep (set_cvlock None s))
  | _ => None
  end.

(** [dtape_condvar_signal] *)
Definition dtape_condvar_signal (t : nat) (s : dworld) : option dworld :=
  match d_pc s t with
  | SgTake n h => goto t (SgLoop n h) <$> take_cvlock t s
  | SgLoop n h =>
      Some (match n, cv_queue s with
            | S n, w :: q => goto t (SgLoop n h) (thread_resume w (set_cvqueue q s))
            | _, _ => goto t (Out h) (set_cvlock None s)
            end)
  | _ => None
  end.

(** ** The machine *)

Definition drun (t : nat) (s : dworld) : option dworld :=
  dtape_mutex_lock t s ∪ dtape_mutex_try_lock t s ∪ dtape_mutex_unlock t s ∪
  dtape_condvar_wait t s ∪ dtape_condvar_signal t s.

(** The calls of a client; [try] allows [dtape_mutex_try_lock] by microthreads. *)
Definition dcall (try : bool) (p p' : dpc) : bool :=
  match p, p' with
  | Out false, (LkAssert | SgTake _ false | NtTake | NtTry) => true
  | Out false, TryAssert => try
  | Out true, (UnAssert false | CvTake | SgTake _ true) => true
  | NtCrit, NtDrop => true
  | _, _ => false
  end.

Inductive dstep (try : bool) : dworld → dworld → Prop :=
  | ds_call s t p : dcall try (d_pc s t) p = true → dstep try s (goto t p s)
  | ds_run s s' t : drun t s = Some s' → dstep try s s'.

Definition dreachable (try : bool) : dworld → Prop := rtc (dstep try) dinit.

(** ** The invariant *)

(** Who owns the mutex, who has the native locks, who is in the queues. *)
Definition owns (p : dpc) : bool :=
  match p with
  | Out h | SgTake _ h | SgLoop _ h => h
  | LkDrop | UnAssert _ | UnTake _ | UnClear _ | CvTake => true
  | _ => false
  end.
Definition has_qlock (p : dpc) : bool :=
  match p with
  | LkLook | LkDrop | LkSusp | UnClear _ | UnWake _ | UnDrop _
  | NtLook | NtRetry | NtTryLook | NtTryDrop | NtCrit | NtDrop => true
  | _ => false
  end.
Definition has_cvlock (p : dpc) : bool :=
  match p with
  | UnAssert k | UnTake k | UnClear k | UnWake k | UnDrop k => k
  | CvEnqueue | CvSusp | SgLoop _ _ => true
  | _ => false
  end.
Definition in_queue (p : dpc) : bool := match p with LkSusp | LkAsleep => true | _ => false end.
Definition in_cvqueue (p : dpc) : bool := match p with CvSusp | CvAsleep => true | _ => false end.

(** A microthread that is on its way to take the mutex. *)
Definition arriving (p : dpc) : bool := match p with LkAssert | LkTake | LkLook => true | _ => false end.

(** Holders outside the microthreads, and the states of [try_lock]. *)
Definition native_holder (p : dpc) : bool := match p with NtCrit | NtDrop => true | _ => false end.
Definition trying (p : dpc) : bool :=
  match p with TryAssert | TryLook | TryStore | TryDrop => true | _ => false end.

(** The threads of a queue are those whose counter says so. *)
Definition queued (l : list nat) (f : dpc → bool) (th : nat → dpc) : Prop :=
  NoDup l ∧ ∀ u, u ∈ l ↔ f (th u) = true.

Record dinv (s : dworld) : Prop := mkDinv {
  di_owner : token (dtape_owner s) owns (d_pc s);
  di_qlock : token (dtape_queue_lock s) has_qlock (d_pc s);
  di_cvlock : token (cv_queue_lock s) has_cvlock (d_pc s);
  di_queue : queued (dtape_queue s) in_queue (d_pc s);
  di_cvqueue : queued (cv_queue s) in_cvqueue (d_pc s);
  di_native : (∃ t, native_holder (d_pc s t) = true) → dtape_owner s = None;
  di_woken : dtape_queue s ≠ [] → dtape_owner s = None → ∃ t, arriving (d_pc s t) = true ∨ (∃ k, d_pc s t = UnWake k);
  di_fine : d_bad s = false ∧ ∀ t, d_pc s t ≠ Panicked ∧ trying (d_pc s t) = false;
}.

(** How a thread's move changes a token. *)
Definition token_move (o : option nat) (t : nat) (b : bool) (o' : option nat) (b' : bool) : Prop :=
  (b' = b ∧ o' = o) ∨ (b = false ∧ b' = true ∧ o = None ∧ o' = Some t) ∨ (b = true ∧ b' = false ∧ o' = None).

Lemma token_update o (f : dpc → bool) th t o' p' :
  token o f th → token_move o t (f (th t)) o' (f p') → token o' f (<[t := p']> th : nat → dpc).
Proof.
  intros Ht Hm u. rewrite fn_lookup_insert_ext. pose proof (Ht t) as Htt. pose proof (Ht u) as Htu.
  destruct Hm as [[Hb ->]|[(Hb & Hb' & -> & ->)|(Hb & Hb' & ->)]], (decide (t = u)) as [<-|Hne].
  - by rewrite Hb.
  - done.
  - by rewrite Hb'.
  - split; [intros ?%Htu; done|congruence].
  - rewrite Hb'. done.
  - apply Htt in Hb. split; [intros H%Htu; congruence|done].
Qed.

Lemma queued_same l f th t p' : queued l f th → f p' = f (th t) → queued l f (<[t := p']> th).
Proof.
  intros [Hn Hl] Hp. split; [done|]. intros u. rewrite fn_lookup_insert_ext, Hl.
  destruct (decide (t = u)) as [<-|]; [by rewrite Hp|done].
Qed.

Lemma queued_push l f th t p' :
  queued l f th → f (th t) = false → f p' = true → queued (l ++ [t]) f (<[t := p']> th).
Proof.
  intros [Hn Hl] Hf Hp. assert (t ∉ l) as Hni by (rewrite Hl, Hf; done). split.
  - apply NoDup_app. split_and!; [done| |apply NoDup_singleton]. intros x Hx ->%list_elem_of_singleton. done.
  - intros u. rewrite fn_lookup_insert_ext, elem_of_app, list_elem_of_singleton, Hl.
    destruct (decide (t = u)) as [<-|Hne]; [rewrite Hp; tauto|]. split; [intros [?| ->]; [done|done]|auto].
Qed.

Lemma queued_pop w q f th p' :
  queued (w :: q) f th → f p' = false → queued q f (<[w := p']> th).
Proof.
  intros [Hn Hl] Hp. apply NoDup_cons in Hn as [Hw Hn]. split; [done|]. intros u.
  rewrite fn_lookup_insert_ext. specialize (Hl u). rewrite elem_of_cons in Hl.
  destruct (decide (w = u)) as [<-|Hne]; [rewrite Hp; split; [done|done]|]. rewrite <- Hl. split; [auto|]. intros [->|?]; done.
Qed.

(** The head of a queue is suspended when the thread that looks has the queue's lock. *)
Lemma queue_asleep s w q t :
  dinv s → dtape_queue s = w :: q → dtape_queue_lock s = Some t → d_pc s t ≠ LkSusp → d_pc s w = LkAsleep.
Proof.
  intros Hi Hq Hl Ht. assert (in_queue (d_pc s w) = true) as Hw by (apply (di_queue _ Hi); rewrite Hq; left).
  destruct (d_pc s w) eqn:E; try done. assert (has_qlock (d_pc s w) = true) as Hh by (by rewrite E).
  apply (di_qlock _ Hi) in Hh. congruence.
Qed.

Lemma cvqueue_asleep s w q t :
  dinv s → cv_queue s = w :: q → cv_queue_lock s = Some t → d_pc s t ≠ CvSusp → d_pc s w = CvAsleep.
Proof.
  intros Hi Hq Hl Ht. assert (in_cvqueue (d_pc s w) = true) as Hw by (apply (di_cvqueue _ Hi); rewrite Hq; left).
  destruct (d_pc s w) eqn:E; try done. assert (has_cvlock (d_pc s w) = true) as Hh by (by rewrite E).
  apply (di_cvlock _ Hi) in Hh. congruence.
Qed.

(** A move of one thread. *)
Definition queue_move (l : list nat) (t : nat) (b : bool) (l' : list nat) (b' : bool) : Prop :=
  (b' = b ∧ l' = l) ∨ (b = false ∧ b' = true ∧ l' = l ++ [t]).

Lemma queued_update l f th t l' p' :
  queued l f th → queue_move l t (f (th t)) l' (f p') → queued l' f (<[t := p']> th).
Proof.
  intros Hq [[Hb ->]|(Hb & Hb' & ->)]; [by apply queued_same|by apply queued_push].
Qed.

Definition wakes (p : dpc) : bool := match p with UnWake _ => true | _ => arriving p end.

Lemma wakes_spec p : wakes p = true ↔ arriving p = true ∨ ∃ k, p = UnWake k.
Proof. destruct p; cbn; naive_solver. Qed.

Lemma dinv_move s t p' o' ql' q' cl' cq' :
  dinv s →
  token_move (dtape_owner s) t (owns (d_pc s t)) o' (owns p') →
  token_move (dtape_queue_lock s) t (has_qlock (d_pc s t)) ql' (has_qlock p') →
  token_move (cv_queue_lock s) t (has_cvlock (d_pc s t)) cl' (has_cvlock p') →
  queue_move (dtape_queue s) t (in_queue (d_pc s t)) q' (in_queue p') →
  queue_move (cv_queue s) t (in_cvqueue (d_pc s t)) cq' (in_cvqueue p') →
  (native_holder p' = true → o' = None) →
  (o' = dtape_owner s ∨ o' = None ∨ has_qlock (d_pc s t) = true) →
  (q' ≠ [] → o' = None → wakes p' = true ∨
     (dtape_owner s = None ∧ dtape_queue s ≠ [] ∧ wakes (d_pc s t) = false) ∨
     ∃ u, u ≠ t ∧ wakes (d_pc s u) = true) →
  p' ≠ Panicked → trying p' = false →
  dinv (mkDworld o' ql' q' cl' cq' (<[t := p']> (d_pc s)) (d_bad s)).
Proof.
  intros [H1 H2 H3 H4 H5 H6 H7 [H8 H9]] M1 M2 M3 M4 M5 Hnat Hown Hwake Hp Htry.
  split; cbn [dtape_owner dtape_queue_lock dtape_queue cv_queue_lock cv_queue d_pc d_bad].
  - by eapply token_update.
  - by eapply token_update.
  - by eapply token_update.
  - by eapply queued_update.
  - by eapply queued_update.
  - intros [u Hu]. rewrite fn_lookup_insert_ext in Hu. destruct (decide (t = u)) as [<-|Hne]; [auto|].
    destruct Hown as [->|[?|Hq]]; [apply H6; eauto|done|].
    assert (has_qlock (d_pc s u) = true) as Hqu by (by destruct (d_pc s u)).
    apply H2 in Hq, Hqu. congruence.
  - intros Hq Ho. destruct (Hwake Hq Ho) as [Hw|[(Ho' & Hq' & Hw)|(u & Hne & Hw)]].
    + exists t. rewrite fn_lookup_insert. by apply wakes_spec.
    + destruct (H7 Hq' Ho') as [u Hu%wakes_spec]. exists u. rewrite fn_lookup_insert_ne by congruence. by apply wakes_spec.
    + exists u. rewrite fn_lookup_insert_ne by congruence. by apply wakes_spec.
  - split; [done|]. intros u. rewrite fn_lookup_insert_ext. destruct (decide (t = u)) as [<-|]; auto.
Qed.

(** The head of a queue is resumed. *)
Lemma dinv_pop s w q t :
  dinv s → dtape_queue s = w :: q → dtape_queue_lock s = Some t → d_pc s t ≠ LkSusp →
  dinv (thread_resume w (set_queue q s)) ∧
  thread_resume w (set_queue q s) = goto w LkTake (set_queue q s) ∧ w ≠ t.
Proof.
  intros Hi Hq Hl Ht. pose proof (queue_asleep _ _ _ _ Hi Hq Hl Ht) as Hw.
  assert (w ≠ t) as Hne.
  { intros ->. assert (has_qlock (d_pc s t) = true) as H by (by apply (di_qlock _ Hi)). by rewrite Hw in H. }
  unfold thread_resume. cbn [set_queue d_pc]. rewrite Hw. split; [|done].
  destruct Hi as [H1 H2 H3 H4 H5 H6 H7 [H8 H9]]. rewrite Hq in H4, H7.
  unfold goto. cbn [dtape_owner dtape_queue_lock dtape_queue cv_queue_lock cv_queue d_pc d_bad set_queue].
  split; cbn [dtape_owner dtape_queue_lock dtape_queue cv_queue_lock cv_queue d_pc d_bad].
  - apply (token_update _ _ _ _ _ _ H1). left. by rewrite Hw.
  - apply (token_update _ _ _ _ _ _ H2). left. by rewrite Hw.
  - apply (token_update _ _ _ _ _ _ H3). left. by rewrite Hw.
  - by eapply queued_pop.
  - apply queued_same; [done|by rewrite Hw].
  - intros [u Hu]. rewrite fn_lookup_insert_ext in Hu. destruct (decide (w = u)); [done|apply H6; eauto].
  - intros _ _. exists w. rewrite fn_lookup_insert. by left.
  - split; [done|]. intros u. rewrite fn_lookup_insert_ext. by destruct (decide (w = u)).
Qed.

Lemma dinv_cvpop s w q t :
  dinv s → cv_queue s = w :: q → cv_queue_lock s = Some t → d_pc s t ≠ CvSusp →
  dinv (thread_resume w (set_cvqueue q s)) ∧
  thread_resume w (set_cvqueue q s) = goto w LkAssert (set_cvqueue q s) ∧ w ≠ t.
Proof.
  intros Hi Hq Hl Ht. pose proof (cvqueue_asleep _ _ _ _ Hi Hq Hl Ht) as Hw.
  assert (w ≠ t) as Hne.
  { intros ->. assert (has_cvlock (d_pc s t) = true) as H by (by apply (di_cvlock _ Hi)). by rewrite Hw in H. }
  unfold thread_resume. cbn [set_cvqueue d_pc]. rewrite Hw. split; [|done].
  destruct Hi as [H1 H2 H3 H4 H5 H6 H7 [H8 H9]]. rewrite Hq in H5.
  unfold goto. cbn [dtape_owner dtape_queue_lock dtape_queue cv_queue_lock cv_queue d_pc d_bad set_cvqueue].
  split; cbn [dtape_owner dtape_queue_lock dtape_queue cv_queue_lock cv_queue d_pc d_bad].
  - apply (token_update _ _ _ _ _ _ H1). left. by rewrite Hw.
  - apply (token_update _ _ _ _ _ _ H2). left. by rewrite Hw.
  - apply (token_update _ _ _ _ _ _ H3). left. by rewrite Hw.
  - apply queued_same; [done|by rewrite Hw].
  - by eapply queued_pop.
  - intros [u Hu]. rewrite fn_lookup_insert_ext in Hu. destruct (decide (w = u)); [done|apply H6; eauto].
  - intros _ _. exists w. rewrite fn_lookup_insert. by left.
  - split; [done|]. intros u. rewrite fn_lookup_insert_ext. by destruct (decide (w = u)).
Qed.

(** Solves the conditions of [dinv_move] for a thread whose counter is known. *)
Ltac dmove E :=
  rewrite ?E; cbn [owns has_qlock has_cvlock in_queue in_cvqueue native_holder wakes arriving trying];
  unfold token_move, queue_move; try solve [auto 6 | congruence | intuition congruence].

Lemma dinv_run s s' t : dinv s → drun t s = Some s' → dinv s'.
Proof.
  intros Hi Hr. unfold drun, dtape_mutex_lock, dtape_mutex_try_lock, dtape_mutex_unlock, dtape_condvar_wait,
    dtape_condvar_signal in Hr.
  pose proof (di_owner _ Hi t) as Ho. pose proof (di_qlock _ Hi t) as Hl. pose proof (di_cvlock _ Hi t) as Hc.
  pose proof (proj2 (di_fine _ Hi) t) as [_ Htry].
  destruct (d_pc s t) eqn:E; cbn -[goto] in Hr; try discriminate; cbn in Ho, Hl, Hc.
  all: unfold take_qlock, take_cvlock, dtape_mutex_assert in Hr.
  all: lazymatch type of E with
    | _ = UnWake _ => idtac
    | _ = SgLoop _ _ => idtac
    | _ =>
      repeat match type of Hr with
      | context [bool_decide ?P] => destruct (bool_decide_reflect P); cbn -[goto] in Hr
      | context [match ?x with _ => _ end] => is_var x; destruct x; cbn -[goto] in Hr
      | context [match dtape_queue_lock ?s with _ => _ end] => destruct (dtape_queue_lock s) eqn:?; cbn -[goto] in Hr
      | context [match cv_queue_lock ?s with _ => _ end] => destruct (cv_queue_lock s) eqn:?; cbn -[goto] in Hr
      end; try discriminate; injection Hr as <-; unfold goto, set_owner, set_qlock, set_queue, set_cvlock, set_cvqueue;
      cbn [dtape_owner dtape_queue_lock dtape_queue cv_queue_lock cv_queue d_pc d_bad];
      try (apply dinv_move; dmove E)
    end.
  - apply proj1 in Hl. specialize (Hl eq_refl). destruct (dtape_queue s) as [|w q] eqn:Hq; injection Hr as <-.
    + unfold goto. rewrite Hq. apply dinv_move; dmove E.
    + destruct (dinv_pop s w q t Hi Hq Hl) as (Hi' & Er & Hne); [by rewrite E|]. rewrite Er in *.
      set (s1 := goto w LkTake (set_queue q s)) in *.
      assert (d_pc s1 t = UnWake k) as E1 by (cbn; by rewrite fn_lookup_insert_ne).
      unfold goto. apply dinv_move; dmove E1. intros _ _. right. right. exists w. cbn.
      by rewrite fn_lookup_insert.
  - apply proj1 in Hc. specialize (Hc eq_refl).
    destruct n as [|n]; [|destruct (cv_queue s) as [|w q] eqn:Hq]; injection Hr as <-.
    1-2: unfold goto, set_cvlock; cbn [dtape_owner dtape_queue_lock dtape_queue cv_queue_lock cv_queue d_pc d_bad];
      apply dinv_move; dmove E.
    destruct (dinv_cvpop s w q t Hi Hq Hc) as (Hi' & Er & Hne); [by rewrite E|]. rewrite Er in *.
    set (s1 := goto w LkAssert (set_cvqueue q s)) in *.
    assert (d_pc s1 t = SgLoop (S n) h) as E1 by (cbn; by rewrite fn_lookup_insert_ne).
    unfold goto. apply dinv_move; dmove E1.
Qed.

Lemma dinv_call s t p : dinv s → dcall false (d_pc s t) p = true → dinv (goto t p s).
Proof.
  intros Hi Hc. pose proof (di_owner _ Hi t) as Ho. unfold dcall in Hc.
  destruct (d_pc s t) as [[]| | | | | | | | | | | | | | | | | | | | | | | | | | | | | |] eqn:E; try done;
    destruct p; try done; repeat (case_match; try done).
  all: unfold goto; apply dinv_move; dmove E.
  all: intros _; apply (di_native _ Hi); exists t; by rewrite E.
Qed.

Lemma dinv_init : dinv dinit.
Proof.
  split; cbn.
  1-3: intros u; by cbn.
  1-2: split; [apply NoDup_nil_2|intros u; rewrite elem_of_nil; by cbn].
  - done.
  - done.
  - split; [done|]. by intros t.
Qed.

Lemma dinv_reachable s : dreachable false s → dinv s.
Proof.
  intros Hr. apply (rtc_invariant _ _ _ _ Hr dinv_init). intros a b [x t p Hc|x x' t Hx] Hi.
  - by apply dinv_call.
  - by eapply dinv_run.
Qed.

(** ** What the lock promises *)

(** A thread that has the mutex, as a microthread or through the native lock. *)
Definition dholds (p : dpc) : bool := owns p || native_holder p.

Lemma dholds_unique s t u :
  dinv s → dholds (d_pc s t) = true → dholds (d_pc s u) = true → t = u.
Proof.
  intros Hi. unfold dholds. rewrite !orb_true_iff. intros [Ht|Ht] [Hu|Hu].
  - apply (di_owner _ Hi) in Ht, Hu. congruence.
  - apply (di_owner _ Hi) in Ht. rewrite (di_native _ Hi) in Ht; [done|eauto].
  - apply (di_owner _ Hi) in Hu. rewrite (di_native _ Hi) in Hu; [done|eauto].
  - assert (∀ p, native_holder p = true → has_qlock p = true) as Hn by (by intros []).
    apply Hn in Ht, Hu. apply (di_qlock _ Hi) in Ht, Hu. congruence.
Qed.

(** The mutex of the server excludes: at most one thread has it, whether it is a
    microthread or a native thread that fell back to the queue lock, under every interleaving of
    locking, unlocking, waiting on a condition variable and signalling.  No assertion of the
    lock panics, and only suspended microthreads are resumed.  ([dtape_mutex_try_lock] by
    microthreads is left out: see [dtape_try_lock_breaks].) *)
Theorem dtape_mutex_exclusion s :
  dreachable false s →
  (∀ t u, dholds (d_pc s t) = true → dholds (d_pc s u) = true → t = u) ∧
  (∀ t, d_pc s t ≠ Panicked) ∧ d_bad s = false.
Proof.
  intros Hi%dinv_reachable. split_and!; [by intros; eapply dholds_unique|apply Hi|apply Hi].
Qed.

(** A thread calls a function, or takes a step. *)
Definition daction (try : bool) (a : nat * option dpc) (s : dworld) : option dworld :=
  match a with
  | (t, Some p) => if dcall try (d_pc s t) p then Some (goto t p s) else None
  | (t, None) => drun t s
  end.

Fixpoint dschedule (try : bool) (l : list (nat * option dpc)) (s : dworld) : option dworld :=
  match l with
  | [] => Some s
  | a :: l => s ← daction try a s; dschedule try l s
  end.

Lemma dschedule_reachable try l s s' : dschedule try l s = Some s' → rtc (dstep try) s s'.
Proof.
  revert s. induction l as [|[t [p|]] l IH]; intros s; cbn.
  - intros [= ->]. apply rtc_refl.
  - destruct (dcall try (d_pc s t) p) eqn:Hc; cbn; [|done]. intros H. eapply rtc_l; [by apply ds_call|by apply IH].
  - destruct (drun t s) as [s1|] eqn:Hr; cbn; [|done]. intros H. eapply rtc_l; [by eapply ds_run|by apply IH].
Qed.

(** A state the schedule reaches, for its last property. *)
Lemma dschedule_state try l (P : dworld → bool) :
  match dschedule try l dinit with Some s => P s | None => false end = true → ∃ s, dreachable try s ∧ P s = true.
Proof.
  destruct (dschedule try l dinit) as [s|] eqn:E; [|done]. intros HP. exists s. split; [by eapply dschedule_reachable|done].
Qed.

Definition steps (t n : nat) : list (nat * option dpc) := replicate n (t, None).

(** [dtape_mutex_try_lock] breaks the mutex: it reads the owner and stores the new one
    without the queue lock, so it can take the mutex together with [dtape_mutex_lock] of
    another thread; and on success it unlocks the queue lock, which it never took, so a third
    thread gets the queue lock while its holder still works on the queue. *)
Theorem dtape_try_lock_breaks :
  (∃ s t u, dreachable true s ∧ t ≠ u ∧ d_pc s t = Out true ∧ d_pc s u = Out true) ∧
  (∃ s t u, dreachable true s ∧ t ≠ u ∧ has_qlock (d_pc s t) = true ∧ has_qlock (d_pc s u) = true).
Proof.
  split.
  - destruct (dschedule_state true ([(0%nat, Some TryAssert)] ++ steps 0 2 ++ [(1%nat, Some LkAssert)] ++ steps 1 4 ++ steps 0 2)
      (fun s => match d_pc s 0%nat, d_pc s 1%nat with Out true, Out true => true | _, _ => false end))
      as (s & Hr & Hs); [reflexivity|].
    exists s, 0%nat, 1%nat. split_and!; [done..| |]; repeat (case_match; try done).
  - destruct (dschedule_state true ([(0%nat, Some TryAssert)] ++ steps 0 3 ++ [(1%nat, Some LkAssert)] ++ steps 1 2 ++
      steps 0 1 ++ [(2%nat, Some LkAssert)] ++ steps 2 2)
      (fun s => has_qlock (d_pc s 1%nat) && has_qlock (d_pc s 2%nat))) as (s & Hr & [H1 H2]%andb_true_iff); [reflexivity|].
    by exists s, 1%nat, 2%nat.
Qed.

(** It also loses a sleeper: the queue lock it unlocks lets its own unlocking resume a
    microthread that is in the queue but not yet suspended, which then sleeps outside the
    queue. *)
Lemma try_lock_loses_sleeper : ∃ s u, dreachable true s ∧ d_pc s u = LkAsleep ∧ u ∉ dtape_queue s.
Proof.
  destruct (dschedule_state true ([(0%nat, Some TryAssert)] ++ steps 0 3 ++ [(1%nat, Some LkAssert)] ++ steps 1 3 ++ steps 0 1 ++
    [(0%nat, Some (UnAssert false))] ++ steps 0 5 ++ steps 1 1)
    (fun s => match d_pc s 1%nat, dtape_queue s with LkAsleep, [] => true | _, _ => false end)) as (s & Hr & Hs); [reflexivity|].
  exists s, 1%nat. destruct (d_pc s 1%nat) eqn:E; try done. destruct (dtape_queue s); [|done]. split_and!; [done|done|apply not_elem_of_nil].
Qed.

(** C28: no wake-up of the mutex is lost, as long as no microthread calls
    [dtape_mutex_try_lock] ([dreachable false]: microthreads lock, unlock, wait and signal;
    native threads also try to lock): when a microthread sleeps on it, some thread owns the
    mutex, or a thread is on its way to take it, or an unlocking thread is about to wake the head
    of the queue; a sleeper is in the queue, and the unlocking thread resumes the one that has
    waited longest.  The restriction is needed: with [dtape_mutex_try_lock] by microthreads a
    state is reached in which a microthread sleeps and is not in the queue. *)
Theorem dtape_mutex_no_lost_wakeup s u :
  dreachable false s → d_pc s u = LkAsleep →
  u ∈ dtape_queue s ∧
  (∃ t, owns (d_pc s t) = true ∨ arriving (d_pc s t) = true ∨ ∃ k, d_pc s t = UnWake k) ∧
  (∀ t k w q, d_pc s t = UnWake k → dtape_queue s = w :: q →
     ∃ s', drun t s = Some s' ∧ d_pc s' w = LkTake ∧ dtape_queue s' = q) ∧
  (∃ s' u', dreachable true s' ∧ d_pc s' u' = LkAsleep ∧ u' ∉ dtape_queue s').
Proof.
  intros Hi%dinv_reachable Hu.
  assert (u ∈ dtape_queue s) as Hin by (apply (di_queue _ Hi); by rewrite Hu). split_and!; [done| | |exact try_lock_loses_sleeper].
  - destruct (dtape_owner s) as [t|] eqn:Ho.
    + exists t. left. by apply (di_owner _ Hi).
    + destruct (di_woken _ Hi) as [t Ht]; [by intros Hq; rewrite Hq in Hin; apply elem_of_nil in Hin|done|]. by exists t; right.
  - intros t k w q Ht Hq. assert (dtape_queue_lock s = Some t) as Hl by (apply (di_qlock _ Hi); by rewrite Ht).
    destruct (dinv_pop s w q t Hi Hq Hl) as (_ & Er & Hne); [by rewrite Ht|].
    eexists. split; [unfold drun, dtape_mutex_lock, dtape_mutex_try_lock, dtape_mutex_unlock, dtape_condvar_wait,
      dtape_condvar_signal; rewrite Ht, Hq, Er; reflexivity|].
    cbn. by rewrite fn_lookup_insert_ne, fn_lookup_insert by done.
Qed.

(** A microthread inside [dtape_condvar_wait] that no longer has the mutex. *)
Definition cv_waiting (p : dpc) : bool :=
  match p with UnWake true | UnDrop true | CvEnqueue | CvSusp | CvAsleep => true | _ => false end.

Lemma cv_waiting_asleep p : cv_waiting p = true → has_cvlock p = false → p = CvAsleep.
Proof. destruct p; cbn; try done; destruct k; done. Qed.

(** C29: no signal misses a waiter: while a thread signals the condition variable, every
    microthread that has given up the mutex in [dtape_condvar_wait] is suspended in the queue
    of the condition variable, so each turn of the signal resumes the one that waited
    longest, until the count or the queue is used up. *)
Theorem dtape_condvar_no_missed_signal s t n h :
  dreachable false s → d_pc s t = SgLoop n h →
  (∀ u, cv_waiting (d_pc s u) = true → d_pc s u = CvAsleep ∧ u ∈ cv_queue s) ∧
  (∀ w q m, n = S m → cv_queue s = w :: q →
     ∃ s', drun t s = Some s' ∧ d_pc s' t = SgLoop m h ∧ d_pc s' w = LkAssert ∧ cv_queue s' = q) ∧
  (n = 0%nat ∨ cv_queue s = [] → ∃ s', drun t s = Some s' ∧ d_pc s' t = Out h ∧ cv_queue_lock s' = None).
Proof.
  intros Hi%dinv_reachable Ht. assert (cv_queue_lock s = Some t) as Hl by (apply (di_cvlock _ Hi); by rewrite Ht).
  assert (Hrun : drun t s = dtape_condvar_signal t s) by (unfold drun, dtape_mutex_lock, dtape_mutex_try_lock,
    dtape_mutex_unlock, dtape_condvar_wait, dtape_condvar_signal; by rewrite Ht).
  split_and!.
  - intros u Hu. destruct (has_cvlock (d_pc s u)) eqn:Hh.
    { apply (di_cvlock _ Hi) in Hh. assert (u = t) as -> by congruence. by rewrite Ht in Hu. }
    assert (d_pc s u = CvAsleep) as E by (by apply cv_waiting_asleep). split; [done|].
    apply (di_cvqueue _ Hi). by rewrite E.
  - intros w q m -> Hq. destruct (dinv_cvpop s w q t Hi Hq Hl) as (_ & Er & Hne); [by rewrite Ht|].
    eexists. rewrite Hrun. unfold dtape_condvar_signal. rewrite Ht, Hq, Er. split; [done|]. cbn.
    by rewrite fn_lookup_insert, fn_lookup_insert_ne, fn_lookup_insert by done.
  - intros Hend. eexists. rewrite Hrun. unfold dtape_condvar_signal. rewrite Ht. split; [done|].
    destruct Hend as [->|Hq]; [|rewrite Hq; destruct n]; cbn; by rewrite fn_lookup_insert.
Qed.

(** ** Schedules *)

(** Thread 1 waits for thread 0; thread 2 is in a wait on the condition variable. *)
Definition busy_schedule : list (nat * option dpc) :=
  [(2%nat, Some LkAssert)] ++ steps 2 4 ++ [(2%nat, Some CvTake)] ++ steps 2 8 ++
  [(0%nat, Some LkAssert)] ++ steps 0 4 ++ [(1%nat, Some LkAssert)] ++ steps 1 4.

Lemma dtape_mutex_exclusion_witness :
  ∃ s, dreachable false s ∧ d_pc s 0%nat = Out true ∧
    ∀ u, dholds (d_pc s u) = true → 0%nat = u.
Proof.
  destruct (dschedule_state false busy_schedule
    (fun s => match d_pc s 0%nat with Out true => true | _ => false end)) as (s & Hr & Hs); [reflexivity|].
  assert (E : d_pc s 0%nat = Out true) by (repeat (case_match; try done)).
  exists s. split; [exact Hr|]. split; [exact E|]. intros u. apply (proj1 (dtape_mutex_exclusion s Hr)). by rewrite E.
Defined.

Lemma dtape_mutex_no_lost_wakeup_witness :
  ∃ s, dreachable false s ∧ d_pc s 1%nat = LkAsleep ∧ 1%nat ∈ dtape_queue s.
Proof.
  destruct (dschedule_state false busy_schedule
    (fun s => match d_pc s 1%nat with LkAsleep => true | _ => false end)) as (s & Hr & Hs); [reflexivity|].
  assert (E : d_pc s 1%nat = LkAsleep) by (repeat (case_match; try done)).
  exists s. split; [exact Hr|]. split; [exact E|]. apply (dtape_mutex_no_lost_wakeup s 1%nat Hr E).
Defined.

Lemma dtape_condvar_no_missed_signal_witness :
  ∃ s, dreachable false s ∧ d_pc s 0%nat = SgLoop 3 true ∧ d_pc s 2%nat = CvAsleep ∧ 2%nat ∈ cv_queue s.
Proof.
  destruct (dschedule_state false (busy_schedule ++ [(0%nat, Some (SgTake 3 true)); (0%nat, None)])
    (fun s => match d_pc s 0%nat, d_pc s 2%nat with SgLoop 3 true, CvAsleep => true | _, _ => false end))
    as (s & Hr & Hs); [reflexivity|].
  assert (d_pc s 0%nat = SgLoop 3 true ∧ d_pc s 2%nat = CvAsleep) as [E1 E2] by (repeat (case_match; try done)).
  exists s. split; [exact Hr|]. split; [exact E1|].
  apply (proj1 (dtape_condvar_no_missed_signal s 0%nat 3 true Hr E1) 2%nat). by rewrite E2.
Defined.
