(* ===== verification/LockRefinement.v ===== *)
(** * Both locks refine the specification of a lock

    [libsimple_lock] (the futex lock) and the mutex of the server, which uses a
    [libsimple_lock] for its queue, are machines of very different steps; both refine
    [lock_spec]. *)

From S2P Require Import Machine Prelude FutexLock DtapeMutex.

(** In one step at most one thread changes whether it holds the lock; a machine with a
    single holder in each state then moves its token as the specification says. *)
Lemma token_step {A} (f : A → bool) (th th' : nat → A) o t :
  token o f th → (∀ u, u ≠ t → f (th' u) = f (th u)) →
  (∀ u v, f (th' u) = true → f (th' v) = true → u = v) →
  ∃ o', token o' f th' ∧ lock_spec o o'.
Proof.
  intros Ho Hs Hu. destruct (f (th' t)) eqn:Ht.
  - exists (Some t). split; [intros u; split; [intros H; f_equal; by apply Hu|intros [= <-]; done]|].
    destruct o as [v|]; [|constructor]. assert (v = t) as ->; [|constructor].
    destruct (decide (v = t)) as [|Hne]; [done|]. apply Hu; [|done]. rewrite Hs by done. by apply Ho.
  - destruct o as [v|]; [destruct (decide (v = t)) as [->|Hne]|].
    + exists None. split; [|constructor]. intros u. split; [|done]. intros H.
      destruct (decide (u = t)) as [->|Hne]; [congruence|]. rewrite Hs in H by done. apply Ho in H. congruence.
    + exists (Some v). split; [|constructor]. intros u. destruct (decide (u = t)) as [->|Hnu]; [|rewrite Hs by done; apply Ho].
      rewrite Ht. split; [done|congruence].
    + exists None. split; [|constructor]. intros u. destruct (decide (u = t)) as [->|Hnu]; [by rewrite Ht|]. rewrite Hs by done. apply Ho.
Qed.

(** ** The futex lock *)

Lemma futex_step_one b s s' :
  FutexLock.lock_step b s s' →
  ∃ t, ∀ u, u ≠ t → FutexLock.holds (w_threads s' u) = FutexLock.holds (w_threads s u).
Proof.
  destruct 1 as [lk cv th t p Hc|lk cv th t p lk' cv' Hc|lk cv th t Hu
    |lk cv th t ret u Ht Hu|lk cv th t ret Ht _|lk cv th t h u Ht Hu|lk cv th t h Ht _
    |lk cv th t h c Ht _|lk cv th t h Ht _]; exists t; intros x Hx; cbn [w_threads];
    rewrite fn_lookup_insert_ne by done; try done.
  - rewrite fn_lookup_insert_ext. destruct (decide (u = x)) as [<-|]; [|done].
    rewrite holds_woken, holds_asleep; [done|]. by rewrite Hu.
  - rewrite fn_lookup_insert_ext. destruct (decide (u = x)) as [<-|]; [|done].
    rewrite holds_woken, holds_asleep; [done|]. by rewrite Hu, orb_true_r.
  - apply holds_requeue.
Qed.

#[export] Instance libsimple_lock_spec b : RefinesLock lock_init (FutexLock.lock_step b) w_threads FutexLock.holds.
Proof.
  split; [by intros u|]. intros s s' o Hr Ho Hs. destruct (futex_step_one b s s' Hs) as [t Ht].
  apply (token_step _ _ _ _ t Ho Ht). apply (ex_unique (w_lock s')). apply (exclusive_reachable b).
  eapply rtc_r; [exact Hr|exact Hs].
Qed.

(** ** The mutex of the server *)

Lemma dtape_step_one s s' :
  dinv s → dstep false s s' → ∃ t, ∀ u, u ≠ t → dholds (d_pc s' u) = dholds (d_pc s u).
Proof.
  intros Hi [x t p Hc|x x' t Hr]; exists t; intros u Hu.
  - cbn. by rewrite fn_lookup_insert_ne.
  - unfold drun, dtape_mutex_lock, dtape_mutex_try_lock, dtape_mutex_unlock, dtape_condvar_wait,
      dtape_condvar_signal, take_qlock, take_cvlock in Hr.
    destruct (d_pc x t) eqn:E; cbn -[goto thread_resume] in Hr; try done.
    all: repeat (case_match; cbn -[goto thread_resume] in Hr; try done); simplify_eq.
    all: cbn -[thread_resume]; rewrite ?fn_lookup_insert_ne by done; try done.
    all: unfold thread_resume; case_match; cbn; rewrite ?fn_lookup_insert_ne by done; try done.
    all: rewrite fn_lookup_insert_ext; case_decide; subst; try done.
    all: cbn in *; match goal with H : d_pc _ _ = _ |- _ => by rewrite H end.
Qed.

#[export] Instance dtape_mutex_spec : RefinesLock dinit (dstep false) d_pc dholds.
Proof.
  split; [by intros u|]. intros s s' o Hr Ho Hs.
  assert (dinv s' ∧ dinv s) as [Hi' Hi] by (split; apply dinv_reachable; [eapply rtc_r; [exact Hr|exact Hs]|exact Hr]).
  destruct (dtape_step_one s s' Hi Hs) as [t Ht]. apply (token_step _ _ _ _ t Ho Ht).
  intros u v. by apply dholds_unique.
Qed.

(** ** What a client sees *)

(** The state of the specification is determined by the threads. *)
Lemma token_unique {A} (f : A → bool) th o o' : token o f th → token o' f th → o = o'.
Proof.
  intros H H'. destruct o as [t|], o' as [u|]; try done.
  - symmetry. by apply (H' t), (H t).
  - symmetry. by apply (H' t), (H t).
  - by apply (H u), (H' u).
Qed.

(** The threads of [s] determine a state of the specification, and every step from [s] is one
    of the specification or leaves it. *)
Definition simulates {W A} (step : W → W → Prop) (threads : W → nat → A) (f : A → bool) (s : W) : Prop :=
  exists! o, token o f (threads s) ∧ ∀ s', step s s' → ∃ o', token o' f (threads s') ∧ lock_spec o o'.

Lemma refines_lock_steps {W A} (init : W) step (threads : W → nat → A) f `{!RefinesLock init step threads f} s :
  rtc step init s → simulates step threads f s.
Proof.
  intros Hr. destruct (refines_holder init step threads f s Hr) as [o Ho]. exists o.
  split; [|intros o' [Ho' _]; by eapply token_unique].
  split; [done|]. intros s' Hs. by eapply refines_step.
Qed.

(** With [dtape_mutex_try_lock] the threads of the server's mutex need not determine a
    state. *)
Lemma try_lock_no_refinement : ∃ d, dreachable true d ∧ ¬ simulates (dstep true) d_pc dholds d.
Proof.
  destruct dtape_try_lock_breaks as [(d & t & u & Hr & Hne & Ht & Hu) _]. exists d. split; [done|].
  intros (o & [Ho _] & _). assert (o = Some t ∧ o = Some u) as [-> [= ->]]; [|done].
  split; apply Ho; unfold dholds; [by rewrite Ht|by rewrite Hu].
Qed.

(** C27: both locks refine the specification of a lock, the server's mutex as long as no
    microthread calls [dtape_mutex_try_lock].  In every reachable state of the machine of
    [libsimple_lock] (with its condition variable), and of the machine of the server's mutex
    with its condition variable ([dreachable false]: microthreads lock, unlock, wait and
    signal; native threads also try to lock), the threads determine one state of the
    specification, free or held by one thread, and every step of a thread is an acquisition
    of the free lock, a release by the holder, or leaves that state.  With
    [dtape_mutex_try_lock] by microthreads this fails: a state is reached that two threads
    hold. *)
Theorem locks_refine_spec b s d :
  rtc (FutexLock.lock_step b) lock_init s → dreachable false d →
  simulates (FutexLock.lock_step b) w_threads FutexLock.holds s ∧ simulates (dstep false) d_pc dholds d ∧
  (∃ d', dreachable true d' ∧ ¬ simulates (dstep true) d_pc dholds d').
Proof.
  intros Hs Hd. split_and!.
  - exact (refines_lock_steps lock_init (FutexLock.lock_step b) w_threads FutexLock.holds s Hs).
  - exact (refines_lock_steps dinit (dstep false) d_pc dholds d Hd).
  - exact try_lock_no_refinement.
Qed.

Lemma locks_refine_spec_witness :
  ∃ d, dreachable false d ∧ dtape_queue d ≠ [] ∧ ∃ o, token o dholds (d_pc d).
Proof.
  destruct (dschedule_state false busy_schedule
    (fun s => match dtape_queue s with [] => false | _ => true end)) as (d & Hr & Hs); [reflexivity|].
  exists d. split; [exact Hr|]. split; [by destruct (dtape_queue d)|].
  destruct (locks_refine_spec true lock_init d (rtc_refl _ _) Hr) as (_ & (o & (Ho & _) & _) & _). by exists o.
Defined.
