(* ===== verification/DtapeHooks.v ===== *)
(** * What the duct tape asks of the server
    ([src/src/external/osxieserver/duct-tape/include/osxieserver/duct-tape/hooks.h],
    [src/src/external/osxieserver/duct-tape/src/memory.c])

    The memory functions of the duct tape work on the address spaces of the tasks, which they
    reach through the hooks of the server, and on the server's own, through the C library.
    Here is that interface: what can be observed of the address spaces ([view]), the
    operations ([Hooks]), their documented behaviour ([HooksLaws]), and a small host that has
    it.  The functions of [memory.c] are verified against the interface in [DtapeMemory] and
    [DtapeShared]. *)

From S2P Require Import Prelude.

(** The page size of the x86_64 build. *)
Notation PAGE := 4096 (only parsing).

Inductive vm_map := kernel_map | task_map (t : nat).

#[export] Instance vm_map_eq_dec : EqDecision vm_map.
Proof. solve_decision. Defined.

(** ** Address spaces

    A page of a map is backed by a page of an object: the anonymous memory of one
    allocation, or a memory file.  Two pages backed by the same page are shared memory. *)
Record view := mkView {
  v_page : vm_map → Z → option (nat * Z);
  v_data : nat → Z → Z;
  v_fd : Z → option nat;
}.

#[export] Instance view_equiv : Equiv view := fun v v' =>
  (∀ m p, v_page v m p = v_page v' m p) ∧ (∀ o i, v_data v o i = v_data v' o i) ∧ (∀ fd, v_fd v fd = v_fd v' fd).

#[export] Instance view_equivalence : Equivalence (≡@{view}).
Proof.
  split.
  - by intros v.
  - intros v v' (H1 & H2 & H3). by split_and!.
  - intros v1 v2 v3 (H1 & H2 & H3) (H1' & H2' & H3'). split_and!; intros.
    + by rewrite H1.
    + by rewrite H2.
    + by rewrite H3.
Qed.

(** The place of a byte, and the byte. *)
Definition loc (v : view) (m : vm_map) (a : Z) : option (nat * Z) :=
  match v_page v m (a / PAGE) with Some (o, k) => Some (o, k * PAGE + a mod PAGE) | None => None end.
Definition byte_at (v : view) (m : vm_map) (a : Z) : option Z :=
  match loc v m a with Some (o, i) => Some (v_data v o i) | None => None end.

(** The bytes [l] are those from address [a] on. *)
Definition reads (v : view) (m : vm_map) (a : Z) (l : list Z) : Prop :=
  ∀ i b, l !! i = Some b → byte_at v m (a + Z.of_nat i) = Some b.

Definition in_range (p n q : Z) : bool := (p <=? q) && (q <? p + n).

Definition unmapped (v : view) (m : vm_map) (p n : Z) : Prop :=
  ∀ q, in_range p n q = true → v_page v m q = None.

(** No page and no descriptor refers to the object. *)
Definition fresh_obj (v : view) (o : nat) : Prop :=
  (∀ m p o' k, v_page v m p = Some (o', k) → o' ≠ o) ∧ (∀ fd, v_fd v fd ≠ Some o).

(** The pages of a mapping. *)
Definition good_range (addr n : Z) : Prop :=
  0 < addr ∧ addr mod PAGE = 0 ∧ 0 < n ∧ addr + n * PAGE ≤ 2 ^ 63.

(** ** What the operations do to a view *)

Definition v_map (m : vm_map) (p n : Z) (o : nat) (k : Z) (v : view) : view :=
  mkView (fun m' q => if bool_decide (m' = m) && in_range p n q then Some (o, k + (q - p)) else v_page v m' q)
    (v_data v) (v_fd v).
Definition v_unmap (m : vm_map) (p n : Z) (v : view) : view :=
  mkView (fun m' q => if bool_decide (m' = m) && in_range p n q then None else v_page v m' q) (v_data v) (v_fd v).
Definition v_clear (o : nat) (v : view) : view :=
  mkView (v_page v) (fun o' i => if bool_decide (o' = o) then 0 else v_data v o' i) (v_fd v).
Definition v_open (fd : Z) (o : nat) (v : view) : view :=
  mkView (v_page v) (v_data v) (fun fd' => if bool_decide (fd' = fd) then Some o else v_fd v fd').
Definition v_close (fd : Z) (v : view) : view :=
  mkView (v_page v) (v_data v) (fun fd' => if bool_decide (fd' = fd) then None else v_fd v fd').

Definition v_store (m : vm_map) (a b : Z) (v : view) : view :=
  match loc v m a with
  | Some (o, i) =>
      mkView (v_page v) (fun o' i' => if bool_decide (o' = o ∧ i' = i) then b else v_data v o' i') (v_fd v)
  | None => v
  end.
Fixpoint v_write (m : vm_map) (a : Z) (l : list Z) (v : view) : view :=
  match l with
  | [] => v
  | b :: l => v_write m (a + 1) l (v_store m a b v)
  end.

#[export] Instance loc_proper : Proper ((≡@{view}) ==> (=) ==> (=) ==> (=)) loc.
Proof. intros v v' (H & _ & _) m _ <- a _ <-. unfold loc. by rewrite H. Qed.

#[export] Instance byte_at_proper : Proper ((≡@{view}) ==> (=) ==> (=) ==> (=)) byte_at.
Proof.
  intros v v' Hv m _ <- a _ <-. unfold byte_at. rewrite (loc_proper v v' Hv m m eq_refl a a eq_refl).
  destruct (loc v' m a) as [[o i]|]; [|done]. by rewrite (proj1 (proj2 Hv)).
Qed.

#[export] Instance reads_proper : Proper ((≡@{view}) ==> (=) ==> (=) ==> (=) ==> iff) reads.
Proof.
  intros v v' Hv m _ <- a _ <- l _ <-. unfold reads. by setoid_rewrite Hv.
Qed.

#[export] Instance unmapped_proper : Proper ((≡@{view}) ==> (=) ==> (=) ==> (=) ==> iff) unmapped.
Proof. intros v v' (H & _ & _) m _ <- p _ <- n _ <-. unfold unmapped. by setoid_rewrite H. Qed.

#[export] Instance fresh_obj_proper : Proper ((≡@{view}) ==> (=) ==> iff) fresh_obj.
Proof. intros v v' (H & _ & H') o _ <-. unfold fresh_obj. setoid_rewrite H. by setoid_rewrite H'. Qed.

#[export] Instance v_map_proper m p n o k : Proper ((≡@{view}) ==> (≡@{view})) (v_map m p n o k).
Proof. intros v v' (H1 & H2 & H3). split_and!; [|done|done]. intros m' q. cbn. by rewrite H1. Qed.
#[export] Instance v_unmap_proper m p n : Proper ((≡@{view}) ==> (≡@{view})) (v_unmap m p n).
Proof. intros v v' (H1 & H2 & H3). split_and!; [|done|done]. intros m' q. cbn. by rewrite H1. Qed.
#[export] Instance v_clear_proper o : Proper ((≡@{view}) ==> (≡@{view})) (v_clear o).
Proof. intros v v' (H1 & H2 & H3). split_and!; [done| |done]. intros o' i. cbn. by rewrite H2. Qed.
#[export] Instance v_open_proper fd o : Proper ((≡@{view}) ==> (≡@{view})) (v_open fd o).
Proof. intros v v' (H1 & H2 & H3). split_and!; [done|done|]. intros fd'. cbn. by rewrite H3. Qed.
#[export] Instance v_close_proper fd : Proper ((≡@{view}) ==> (≡@{view})) (v_close fd).
Proof. intros v v' (H1 & H2 & H3). split_and!; [done|done|]. intros fd'. cbn. by rewrite H3. Qed.
#[export] Instance v_store_proper m a b : Proper ((≡@{view}) ==> (≡@{view})) (v_store m a b).
Proof.
  intros v v' Hv. unfold v_store. rewrite (loc_proper v v' Hv m m eq_refl a a eq_refl).
  destruct (loc v' m a) as [[o i]|]; [|done]. destruct Hv as (H1 & H2 & H3). split_and!; [done| |done].
  intros o' i'. cbn. by rewrite H2.
Qed.
#[export] Instance v_write_proper m a l : Proper ((≡@{view}) ==> (≡@{view})) (v_write m a l).
Proof. revert a. induction l as [|b l IH]; intros a v v' Hv; cbn; [done|]. apply IH. by rewrite Hv. Qed.

(** ** Writing *)

Lemma v_store_page m a b v : v_page (v_store m a b v) = v_page v.
Proof. unfold v_store. by destruct (loc v m a) as [[o i]|]. Qed.
Lemma v_store_fd m a b v : v_fd (v_store m a b v) = v_fd v.
Proof. unfold v_store. by destruct (loc v m a) as [[o i]|]. Qed.
Lemma v_write_page m a l v : v_page (v_write m a l v) = v_page v.
Proof. revert a v. induction l as [|b l IH]; intros a v; cbn; [done|]. by rewrite IH, v_store_page. Qed.
Lemma v_write_fd m a l v : v_fd (v_write m a l v) = v_fd v.
Proof. revert a v. induction l as [|b l IH]; intros a v; cbn; [done|]. by rewrite IH, v_store_fd. Qed.

Lemma loc_page v v' m a : v_page v' m = v_page v m → loc v' m a = loc v m a.
Proof. intros H. unfold loc. by rewrite H. Qed.

Lemma loc_write m a l v m' a' : loc (v_write m a l v) m' a' = loc v m' a'.
Proof. apply loc_page. by rewrite v_write_page. Qed.
Lemma loc_store m a b v m' a' : loc (v_store m a b v) m' a' = loc v m' a'.
Proof. apply loc_page. by rewrite v_store_page. Qed.

Lemma v_store_data_ne m a b v o i : loc v m a ≠ Some (o, i) → v_data (v_store m a b v) o i = v_data v o i.
Proof.
  intros H. unfold v_store. destruct (loc v m a) as [[o' i']|]; [|done]. cbn.
  rewrite bool_decide_eq_false_2; [done|]. intros [-> ->]. done.
Qed.

(** A byte that no address of the range refers to keeps its value. *)
Lemma v_write_data_ne m a l v o i :
  (∀ j, (j < length l)%nat → loc v m (a + Z.of_nat j) ≠ Some (o, i)) → v_data (v_write m a l v) o i = v_data v o i.
Proof.
  revert a v. induction l as [|b l IH]; intros a v H; cbn; [done|]. rewrite IH.
  - apply v_store_data_ne. specialize (H 0%nat). rewrite Z.add_0_r in H. apply H. cbn. lia.
  - intros j Hj. rewrite loc_store. replace (a + 1 + Z.of_nat j) with (a + Z.of_nat (S j)) by lia. apply H. cbn. lia.
Qed.

(** The addresses of a range refer to different bytes. *)
Definition separate (v : view) (m : vm_map) (a : Z) (n : nat) : Prop :=
  ∀ i j x, (i < n)%nat → (j < n)%nat → loc v m (a + Z.of_nat i) = Some x → loc v m (a + Z.of_nat j) = Some x → i = j.

(** What was written is read back, through this map and every other address of the same
    byte. *)
Lemma v_write_data m a l v j b o i :
  separate v m a (length l) → l !! j = Some b → loc v m (a + Z.of_nat j) = Some (o, i) →
  v_data (v_write m a l v) o i = b.
Proof.
  revert a v j. induction l as [|c l IH]; intros a v j Hs Hj Hl; [done|]. cbn. destruct j as [|j]; cbn in Hj.
  - simplify_eq. rewrite Z.add_0_r in Hl. rewrite v_write_data_ne.
    + unfold v_store. rewrite Hl. cbn. by rewrite bool_decide_eq_true_2.
    + intros k Hk Hx. rewrite loc_store in Hx.
      enough (S k = 0%nat) by lia. eapply (Hs _ _ (o, i)); [cbn; lia|cbn; lia| |by rewrite Z.add_0_r].
      by replace (a + Z.of_nat (S k)) with (a + 1 + Z.of_nat k) by lia.
  - apply (IH _ _ j); [|done|].
    + intros i' j' x Hi Hj' H1 H2. rewrite loc_store in H1, H2. enough (S i' = S j') by lia.
      eapply (Hs _ _ x); [cbn; lia|cbn; lia| |].
      * by replace (a + Z.of_nat (S i')) with (a + 1 + Z.of_nat i') by lia.
      * by replace (a + Z.of_nat (S j')) with (a + 1 + Z.of_nat j') by lia.
    + rewrite loc_store. by replace (a + 1 + Z.of_nat j) with (a + Z.of_nat (S j)) by lia.
Qed.

Lemma reads_write m a l v :
  separate v m a (length l) → (∀ j, (j < length l)%nat → is_Some (loc v m (a + Z.of_nat j))) →
  reads (v_write m a l v) m a l.
Proof.
  intros Hs Hm i b Hi. unfold byte_at. rewrite loc_write.
  destruct (Hm i) as [[o x] Ho]; [by eapply lookup_lt_Some|]. rewrite Ho. f_equal. by eapply v_write_data.
Qed.

(** Bytes that are not in the range of the write are read as before. *)
Lemma byte_at_write_ne m a l v m' a' :
  (∀ j, (j < length l)%nat → loc v m' a' ≠ None → loc v m (a + Z.of_nat j) ≠ loc v m' a') →
  byte_at (v_write m a l v) m' a' = byte_at v m' a'.
Proof.
  intros H. unfold byte_at. rewrite loc_write. destruct (loc v m' a') as [[o i]|] eqn:E; [|done].
  f_equal. apply v_write_data_ne. intros j Hj. by apply H.
Qed.

(** The two ranges of a fresh object's mapping: its places are those of the object. *)
Lemma in_range_spec p n q : in_range p n q = true ↔ p ≤ q < p + n.
Proof. unfold in_range. rewrite andb_true_iff, Z.leb_le, Z.ltb_lt. lia. Qed.

Lemma page_of a p : a mod PAGE = 0 → 0 ≤ p → (a + p) / PAGE = a / PAGE + p / PAGE ∧ (a + p) mod PAGE = p mod PAGE.
Proof. intros H Hp. lia. Qed.

Lemma loc_map v m addr n o k i :
  addr mod PAGE = 0 → 0 ≤ i < n * PAGE → loc (v_map m (addr / PAGE) n o k v) m (addr + i) = Some (o, k * PAGE + i).
Proof.
  intros Ha Hi. unfold loc. cbn. destruct (page_of addr i Ha) as [-> ->]; [lia|].
  rewrite bool_decide_eq_true_2 by done. replace (in_range _ _ _) with true; cbn.
  - f_equal. f_equal. lia.
  - symmetry. apply in_range_spec. lia.
Qed.

Lemma separate_map v m addr n o k len :
  addr mod PAGE = 0 → Z.of_nat len ≤ n * PAGE → separate (v_map m (addr / PAGE) n o k v) m addr len.
Proof. intros Ha Hl i j x Hi Hj. rewrite !loc_map by lia. intros <- [= E]. lia. Qed.

(** Outside the pages of a new mapping nothing changes. *)
Lemma loc_map_ne v m p n o k m' a :
  bool_decide (m' = m) && in_range p n (a / PAGE) = false → loc (v_map m p n o k v) m' a = loc v m' a.
Proof. intros H. unfold loc. cbn. by rewrite H. Qed.

Lemma byte_at_map_fresh v m addr n o l m' a :
  fresh_obj v o → addr mod PAGE = 0 → Z.of_nat (length l) ≤ n * PAGE →
  bool_decide (m' = m) && in_range (addr / PAGE) n (a / PAGE) = false →
  byte_at (v_write m addr l (v_map m (addr / PAGE) n o 0 (v_clear o v))) m' a = byte_at v m' a.
Proof.
  intros [Hf _] Ha Hl Hout. unfold byte_at. rewrite loc_write, loc_map_ne by done. change (loc (v_clear o v) m' a) with (loc v m' a).
  destruct (loc v m' a) as [[o' i]|] eqn:E; [|done]. f_equal.
  assert (o' ≠ o) as Hne. { unfold loc in E. destruct (v_page v m' (a / PAGE)) as [[x k]|] eqn:Ep; [|done]. simplify_eq. by eapply Hf. }
  rewrite v_write_data_ne; [cbn; by rewrite bool_decide_eq_false_2|]. intros j Hj. rewrite loc_map by lia. congruence.
Qed.

(** Unmapping what was mapped where nothing was. *)
Lemma byte_at_unmap_map v m p n o k m' a (l : list Z) addr :
  unmapped v m p n → fresh_obj v o → addr mod PAGE = 0 → p = addr / PAGE → Z.of_nat (length l) ≤ n * PAGE →
  byte_at (v_unmap m p n (v_write m addr l (v_map m p n o k (v_clear o v)))) m' a = byte_at v m' a.
Proof.
  intros Hu [Hf _] Ha -> Hl. unfold byte_at, loc. cbn [v_unmap v_page v_data]. rewrite v_write_page. cbn [v_map v_page v_clear].
  destruct (bool_decide (m' = m) && in_range (addr / PAGE) n (a / PAGE)) eqn:E.
  - apply andb_true_iff in E as [->%bool_decide_eq_true E]. by rewrite (Hu _ E).
  - destruct (v_page v m' (a / PAGE)) as [[o' x]|] eqn:Ep; [|done]. f_equal. apply Hf in Ep.
    rewrite v_write_data_ne; [cbn; by rewrite bool_decide_eq_false_2|]. intros j Hj. rewrite loc_map by lia. congruence.
Qed.

(** ** The operations *)

(** [dtape_memory_region_info] *)
Record region_info := mkRegion {
  start_address : Z; page_count : Z; map_offset : Z; protection : Z; shared : bool;
}.

(** [dtape_memory_flags] *)
Definition dtape_memory_flag_none : Z := 0.
Definition dtape_memory_flag_fixed : Z := 1.
Definition dtape_memory_flag_overwrite : Z := 2.

(** The memory hooks of [dtape_hooks], the calls of the C library that [memory.c] makes, and
    the server's accesses to its own memory.  [prot_of] is the protection of a page of a task,
    [stale] what the next block of a size holds before anything is written to it.  A read
    gives the bytes it stored into the buffer, also when it failed; an access of the server to
    memory it does not have is a fault ([None]). *)
Class Hooks (W : Type) := {
  view_of : W → view;
  prot_of : W → nat → Z → Z;
  task_read_memory : nat → Z → Z → W → bool * list Z * W;
  task_write_memory : nat → Z → list Z → W → bool * W;
  task_allocate_pages : nat → Z → Z → Z → Z → W → Z * W;
  task_free_pages : nat → Z → Z → W → Z * W;
  task_map_file : nat → Z → Z → Z → Z → Z → Z → W → Z * W;
  task_get_memory_region_info : nat → Z → W → option region_info * W;
  task_get_next_region : nat → Z → W → Z * W;
  task_change_protection : nat → Z → Z → Z → W → bool * W;
  task_sync_memory : nat → Z → Z → Z → W → bool * W;
  server_load : Z → Z → W → option (list Z);
  server_store : Z → list Z → W → option W;
  malloc : Z → W → bool * W;
  stale : Z → W → list Z;
  mmap_anonymous : Z → W → option Z * W;
  mmap_shared : Z → Z → W → option Z * W;
  munmap : Z → Z → W → bool * W;
  memfd_create : W → Z * W;
  ftruncate : Z → Z → W → bool * W;
  close : Z → W → W;
}.

(** A mapping that was made: where, and that nothing was there unless overwriting. *)
Definition placed (v : view) (m : vm_map) (addr n hint flags : Z) : Prop :=
  good_range addr n ∧ (Z.testbit flags 1 = false → unmapped v m (addr / PAGE) n) ∧
  (Z.testbit flags 0 = true → addr = hint).

(** The pages of a byte count. *)
Definition pages (size : Z) : Z := (size + 4095) / PAGE.

(** What a task allows at an address. *)
Definition readable `{!Hooks W} (w : W) (t : nat) (a : Z) : Prop :=
  is_Some (loc (view_of w) (task_map t) a) ∧ Z.testbit (prot_of w t (a / PAGE)) 0 = true.
Definition writable `{!Hooks W} (w : W) (t : nat) (a : Z) : Prop :=
  is_Some (loc (view_of w) (task_map t) a) ∧ Z.testbit (prot_of w t (a / PAGE)) 1 = true.
Definition readable_range `{!Hooks W} (w : W) (t : nat) (a n : Z) : Prop := ∀ i, 0 ≤ i < n → readable w t (a + i).
Definition writable_range `{!Hooks W} (w : W) (t : nat) (a n : Z) : Prop := ∀ i, 0 ≤ i < n → writable w t (a + i).

(** The pages of a range have at least the protection [prot]. *)
Definition grants (prot p n : Z) (pr : Z → Z) : Prop :=
  ∀ q i, in_range p n q = true → 0 ≤ i ≤ 2 → Z.testbit prot i = true → Z.testbit (pr q) i = true.

(** The most bytes one [process_vm_readv] or [process_vm_writev] moves. *)
Definition MAX_RW_COUNT : Z := 2147479552.

(** The behaviour of the server's hooks and of the system calls behind them.
    [Process::_readOrWriteMemory] reports success for every result of [process_vm_readv] or
    [process_vm_writev] that is not negative, so a success may be a partial transfer: it is
    complete only when the whole range can be accessed and is not longer than
    [MAX_RW_COUNT].  The rest is [mmap], [munmap] and [memfd_create] in the task and in the
    server.  Every call may fail, and nothing else changes the memory meanwhile. *)
Class HooksLaws (W : Type) `{!Hooks W} : Prop := {
  read_law t a n w ok l w' :
    task_read_memory t a n w = (ok, l, w') →
    view_of w' ≡ view_of w ∧ reads (view_of w) (task_map t) a l ∧ Z.of_nat (length l) ≤ Z.max 0 n ∧
    (∀ u p, prot_of w' u p = prot_of w u p) ∧
    (ok = true → 0 ≤ n ≤ MAX_RW_COUNT → readable_range w t a n → Z.of_nat (length l) = n);
  write_law t a l w ok w' :
    task_write_memory t a l w = (ok, w') →
    ∃ k, view_of w' ≡ v_write (task_map t) a (take k l) (view_of w) ∧
      (∀ j, (j < length (take k l))%nat → is_Some (loc (view_of w) (task_map t) (a + Z.of_nat j))) ∧
      (ok = true → Z.of_nat (length l) ≤ MAX_RW_COUNT → writable_range w t a (Z.of_nat (length l)) → take k l = l);
  allocate_law t n prot hint flags w addr w' :
    task_allocate_pages t n prot hint flags w = (addr, w') →
    (addr = 0 ∧ view_of w' ≡ view_of w) ∨
    (placed (view_of w) (task_map t) addr n hint flags ∧ grants prot (addr / PAGE) n (prot_of w' t) ∧
       ∃ o, fresh_obj (view_of w) o ∧
       view_of w' ≡ v_map (task_map t) (addr / PAGE) n o 0 (v_clear o (view_of w)));
  free_law t addr n w r w' :
    0 ≤ n < 2 ^ 52 → task_free_pages t addr n w = (r, w') →
    (r < 0 ∧ view_of w' ≡ view_of w) ∨ (0 ≤ r ∧ view_of w' ≡ v_unmap (task_map t) (addr / PAGE) n (view_of w));
  map_file_law t fd n prot hint k flags w addr w' :
    task_map_file t fd n prot hint k flags w = (addr, w') →
    (addr = 0 ∧ view_of w' ≡ view_of w) ∨
    (placed (view_of w) (task_map t) addr n hint flags ∧ ∃ o, v_fd (view_of w) fd = Some o ∧
       view_of w' ≡ v_map (task_map t) (addr / PAGE) n o k (view_of w));
  region_law t a w r w' :
    task_get_memory_region_info t a w = (r, w') →
    view_of w' ≡ view_of w ∧ (∀ u p, prot_of w' u p = prot_of w u p) ∧
    ∀ i, r = Some i → start_address i mod PAGE = 0 ∧ start_address i ≤ a < start_address i + page_count i * PAGE ∧
      ∀ p, in_range (start_address i / PAGE) (page_count i) p = true → is_Some (v_page (view_of w) (task_map t) p);
  next_region_law t a w r w' :
    task_get_next_region t a w = (r, w') → view_of w' ≡ view_of w ∧ (r = 0 ∨ a < r);
  change_law t a n prot w ok w' : task_change_protection t a n prot w = (ok, w') → view_of w' ≡ view_of w;
  sync_law t a n fl w ok w' : task_sync_memory t a n fl w = (ok, w') → view_of w' ≡ view_of w;
  load_law a n w :
    match server_load a n w with
    | Some l => reads (view_of w) kernel_map a l ∧ Z.of_nat (length l) = Z.max 0 n
    | None => ∃ i, 0 ≤ i < n ∧ loc (view_of w) kernel_map (a + i) = None
    end;
  store_law a l w :
    match server_store a l w with
    | Some w' => view_of w' ≡ v_write kernel_map a l (view_of w)
    | None => ∃ i, (i < length l)%nat ∧ loc (view_of w) kernel_map (a + Z.of_nat i) = None
    end;
  malloc_law n w ok w' : malloc n w = (ok, w') → view_of w' ≡ view_of w ∧ ∀ u p, prot_of w' u p = prot_of w u p;
  stale_law n w : length (stale n w) = Z.to_nat n;
  mmap_anonymous_law n w r w' :
    mmap_anonymous n w = (r, w') →
    match r with
    | None => view_of w' ≡ view_of w
    | Some addr => placed (view_of w) kernel_map addr (pages n) 0 0 ∧ ∃ o, fresh_obj (view_of w) o ∧
        view_of w' ≡ v_map kernel_map (addr / PAGE) (pages n) o 0 (v_clear o (view_of w))
    end;
  mmap_shared_law n fd w r w' :
    mmap_shared n fd w = (r, w') → (∀ u p, prot_of w' u p = prot_of w u p) ∧
    match r with
    | None => view_of w' ≡ view_of w
    | Some addr => placed (view_of w) kernel_map addr (pages n) 0 0 ∧ ∃ o, v_fd (view_of w) fd = Some o ∧
        view_of w' ≡ v_map kernel_map (addr / PAGE) (pages n) o 0 (view_of w)
    end;
  munmap_law addr n w ok w' :
    munmap addr n w = (ok, w') →
    view_of w' ≡ (if ok then v_unmap kernel_map (addr / PAGE) (pages n) (view_of w) else view_of w);
  memfd_law w fd w' :
    memfd_create w = (fd, w') → (∀ u p, prot_of w' u p = prot_of w u p) ∧
    ((fd < 0 ∧ view_of w' ≡ view_of w) ∨
    (0 ≤ fd ∧ v_fd (view_of w) fd = None ∧ ∃ o, fresh_obj (view_of w) o ∧
       view_of w' ≡ v_open fd o (v_clear o (view_of w))));
  ftruncate_law fd n w ok w' : ftruncate fd n w = (ok, w') → view_of w' ≡ view_of w ∧ ∀ u p, prot_of w' u p = prot_of w u p;
  close_law fd w : view_of (close fd w) ≡ v_close fd (view_of w);
}.

(** ** A host

    Finite maps of pages, bytes and descriptors, and the answers to the calls: a call whose
    answer is [false] fails. *)

Record host := mkHost {
  h_pages : gmap (nat * Z) (nat * Z);
  h_data : gmap (nat * Z) Z;
  h_fds : gmap Z nat;
  h_answers : list bool;
}.

Definition space_id (m : vm_map) : nat := match m with kernel_map => 0%nat | task_map t => S t end.

Lemma space_id_inj m m' : space_id m = space_id m' → m = m'.
Proof. destruct m, m'; cbn; congruence. Qed.

Definition host_view (h : host) : view :=
  mkView (fun m p => h_pages h !! (space_id m, p)) (fun o i => default 0 (h_data h !! (o, i))) (fun fd => h_fds h !! fd).

(** The next answer. *)
Definition host_answer (h : host) : bool * host :=
  match h_answers h with
  | [] => (true, h)
  | b :: l => (b, mkHost (h_pages h) (h_data h) (h_fds h) l)
  end.

Lemma host_answer_view h b h' : host_answer h = (b, h') → host_view h' ≡ host_view h.
Proof. unfold host_answer. destruct (h_answers h); intros [= <- <-]; done. Qed.

(** The bytes of a range up to the first one that is not mapped. *)
Fixpoint host_bytes (v : view) (m : vm_map) (a : Z) (n : nat) : list Z :=
  match n with
  | O => []
  | S n => match byte_at v m a with Some b => b :: host_bytes v m (a + 1) n | None => [] end
  end.

Lemma host_bytes_reads v m a n : reads v m a (host_bytes v m a n).
Proof.
  revert a. induction n as [|n IH]; intros a i b; cbn; [done|]. destruct (byte_at v m a) as [c|] eqn:E; [|done].
  destruct i as [|i]; cbn; [intros [= <-]; by rewrite Z.add_0_r|]. intros H%IH. by replace (a + Z.of_nat (S i)) with (a + 1 + Z.of_nat i) by lia.
Qed.

Lemma host_bytes_length v m a n : (length (host_bytes v m a n) ≤ n)%nat.
Proof. revert a. induction n as [|n IH]; intros a; cbn; [lia|]. destruct (byte_at v m a); cbn; [|lia]. specialize (IH (a + 1)). lia. Qed.

Lemma host_bytes_full v m a n j :
  length (host_bytes v m a n) = n → (j < n)%nat → is_Some (loc v m (a + Z.of_nat j)).
Proof.
  intros Hn Hj. destruct (lookup_lt_is_Some_2 (host_bytes v m a n) j) as [b Hb]; [lia|].
  apply host_bytes_reads in Hb. unfold byte_at in Hb. by destruct (loc v m (a + Z.of_nat j)).
Qed.

Lemma host_bytes_short v m a n :
  length (host_bytes v m a n) ≠ n → loc v m (a + Z.of_nat (length (host_bytes v m a n))) = None.
Proof.
  revert a. induction n as [|n IH]; intros a; cbn; [done|]. unfold byte_at. destruct (loc v m a) as [[o i]|] eqn:E; cbn.
  - intros H. replace (a + Z.of_nat (S (length (host_bytes v m (a + 1) n)))) with (a + 1 + Z.of_nat (length (host_bytes v m (a + 1) n))) by lia.
    apply IH. lia.
  - intros _. by rewrite Z.add_0_r.
Qed.

Definition host_store (m : vm_map) (a b : Z) (h : host) : host :=
  match loc (host_view h) m a with
  | Some oi => mkHost (h_pages h) (<[oi := b]> (h_data h)) (h_fds h) (h_answers h)
  | None => h
  end.
Fixpoint host_write (m : vm_map) (a : Z) (l : list Z) (h : host) : host :=
  match l with [] => h | b :: l => host_write m (a + 1) l (host_store m a b h) end.

Lemma host_store_view m a b h : host_view (host_store m a b h) ≡ v_store m a b (host_view h).
Proof.
  unfold host_store, v_store. destruct (loc (host_view h) m a) as [[o i]|]; [|done].
  split_and!; [done| |done]. intros o' i'. cbn. destruct (decide (o' = o ∧ i' = i)) as [[-> ->]|Hne].
  - rewrite lookup_insert_eq, bool_decide_eq_true_2 by done. done.
  - rewrite lookup_insert_ne, bool_decide_eq_false_2 by (done || congruence || (intros [= -> ->]; by apply Hne)). done.
Qed.

Lemma host_write_view m a l h : host_view (host_write m a l h) ≡ v_write m a l (host_view h).
Proof.
  revert a h. induction l as [|b l IH]; intros a h; cbn; [done|]. by rewrite IH, host_store_view.
Qed.

(** Mapping and unmapping pages. *)
Fixpoint map_pages (s : nat) (p : Z) (o : nat) (k : Z) (n : nat) (g : gmap (nat * Z) (nat * Z)) : gmap (nat * Z) (nat * Z) :=
  match n with O => g | S n => <[(s, p) := (o, k)]> (map_pages s (p + 1) o (k + 1) n g) end.

Lemma lookup_map_pages s p o k n g s' q :
  map_pages s p o k n g !! (s', q) =
    if bool_decide (s' = s) && in_range p (Z.of_nat n) q then Some (o, k + (q - p)) else g !! (s', q).
Proof.
  revert p k. induction n as [|n IH]; intros p k; cbn [map_pages].
  - replace (in_range p (Z.of_nat 0) q) with false; [by rewrite andb_false_r|]. symmetry. apply not_true_iff_false. rewrite in_range_spec. lia.
  - destruct (decide ((s', q) = (s, p))) as [[= -> ->]|Hne].
    + rewrite lookup_insert_eq, bool_decide_eq_true_2 by done. replace (in_range p _ p) with true.
      * cbn. f_equal. f_equal. lia.
      * symmetry. apply in_range_spec. lia.
    + rewrite lookup_insert_ne, IH by congruence. destruct (decide (s' = s)) as [->|]; [|by rewrite !bool_decide_eq_false_2].
      rewrite !bool_decide_eq_true_2 by done. cbn.
      replace (in_range p (Z.of_nat (S n)) q) with (in_range (p + 1) (Z.of_nat n) q).
      * destruct (in_range _ _ _); [|done]. f_equal. f_equal. lia.
      * apply eq_true_iff_eq. rewrite !in_range_spec. assert (q ≠ p) by congruence. lia.
Qed.

Definition host_map (m : vm_map) (p n : Z) (o : nat) (k : Z) (h : host) : host :=
  mkHost (map_pages (space_id m) p o k (Z.to_nat n) (h_pages h)) (h_data h) (h_fds h) (h_answers h).

Lemma host_map_view m p n o k h : 0 ≤ n → host_view (host_map m p n o k h) ≡ v_map m p n o k (host_view h).
Proof.
  intros Hn. split_and!; [|done|done]. intros m' q. cbn. rewrite lookup_map_pages, Z2Nat.id by done.
  destruct (decide (m' = m)) as [->|Hne]; [by rewrite !bool_decide_eq_true_2|].
  rewrite !bool_decide_eq_false_2; [done|done|]. intros H. by apply Hne, space_id_inj.
Qed.

(** Whether a page is one of a range of a map. *)
Definition page_in (m : vm_map) (p n : Z) (kv : nat * Z) : bool := bool_decide (kv.1 = space_id m) && in_range p n kv.2.

Definition host_unmap (m : vm_map) (p n : Z) (h : host) : host :=
  mkHost (filter (fun kv => page_in m p n kv.1 = false) (h_pages h)) (h_data h) (h_fds h) (h_answers h).

Lemma host_unmap_view m p n h : host_view (host_unmap m p n h) ≡ v_unmap m p n (host_view h).
Proof.
  split_and!; [|done|done]. intros m' q. cbn. rewrite map_lookup_filter. unfold page_in. cbn [fst snd].
  assert (bool_decide (space_id m' = space_id m) = bool_decide (m' = m)) as ->.
  { apply bool_decide_ext. split; [apply space_id_inj|congruence]. }
  destruct (bool_decide (m' = m) && in_range p n q), (h_pages h !! (space_id m', q)); done.
Qed.

Definition host_clear (o : nat) (h : host) : host :=
  mkHost (h_pages h) (filter (fun kv => kv.1.1 ≠ o) (h_data h)) (h_fds h) (h_answers h).

Lemma host_clear_view o h : host_view (host_clear o h) ≡ v_clear o (host_view h).
Proof.
  split_and!; [done| |done]. intros o' i. cbn. rewrite map_lookup_filter. cbn. destruct (decide (o' = o)) as [->|Hne].
  - rewrite bool_decide_eq_true_2 by done. destruct (h_data h !! (o, i)); cbn; [|done]. by case_guard.
  - rewrite bool_decide_eq_false_2 by done. destruct (h_data h !! (o', i)); cbn; [|done]. by case_guard.
Qed.

(** An object nothing refers to. *)
Definition host_fresh (h : host) : nat := fresh ((fst ∘ snd <$> map_to_list (h_pages h)) ++ (snd <$> map_to_list (h_fds h))).

Lemma host_fresh_obj h : fresh_obj (host_view h) (host_fresh h).
Proof.
  unfold host_fresh. set (l := _ ++ _). pose proof (infinite_is_fresh l) as Hf. split.
  - intros m p o k Hp Ho. apply Hf. rewrite <- Ho. apply elem_of_app. left. apply list_elem_of_fmap.
    exists ((space_id m, p), (o, k)). split; [done|]. by apply elem_of_map_to_list.
  - intros fd Hfd. apply Hf. apply elem_of_app. right. apply list_elem_of_fmap. exists (fd, fresh l). split; [done|].
    by apply elem_of_map_to_list.
Qed.

(** The place of a new mapping: the hint when it is fixed, else above every page. *)
Definition host_place (m : vm_map) (n hint flags : Z) (h : host) : option Z :=
  let p := if Z.testbit flags 0 then hint / PAGE else fresh ((fun kv => kv.1.2) <$> map_to_list (h_pages h)) in
  if (0 <? p) && (0 <? n) && (p + n <=? 2 ^ 51) && (negb (Z.testbit flags 0) || (hint mod PAGE =? 0)) &&
     (Z.testbit flags 1 || forallb (fun kv => negb (page_in m p n kv.1)) (map_to_list (h_pages h)))
  then Some p else None.

Lemma host_place_spec m n hint flags h p :
  host_place m n hint flags h = Some p → placed (host_view h) m (p * PAGE) n hint flags ∧ p * PAGE / PAGE = p.
Proof.
  unfold host_place. set (q := if Z.testbit flags 0 then _ else _). case_match eqn:H; [|done].
  intros [= <-]. rewrite !andb_true_iff, Z.ltb_lt, Z.leb_le in H.
  destruct H as ((((Hq & Hn) & Hr) & Hf) & Ho). split; [|lia]. split_and!.
  - unfold good_range. lia.
  - intros Hw. rewrite Hw in Ho. cbn in Ho. rewrite forallb_forall in Ho. intros x Hx. replace (q * PAGE / PAGE) with q in Hx by lia.
    cbn. destruct (h_pages h !! (space_id m, x)) as [[o k]|] eqn:E; [|done]. apply elem_of_map_to_list in E.
    apply list_elem_of_In in E. apply Ho in E. unfold page_in in E. cbn in E. by rewrite bool_decide_eq_true_2, Hx in E.
  - intros Hf'. unfold q. rewrite Hf' in *. cbn in Hf. lia.
Qed.

Definition host_alloc (m : vm_map) (n hint flags : Z) (h : host) : Z * host :=
  let '(ok, h) := host_answer h in
  match host_place m n hint flags h with
  | Some p => if ok then let o := host_fresh h in (p * PAGE, host_map m p n o 0 (host_clear o h)) else (0, h)
  | None => (0, h)
  end.

Definition host_map_file (m : vm_map) (fd n hint k flags : Z) (h : host) : Z * host :=
  let '(ok, h) := host_answer h in
  match h_fds h !! fd, host_place m n hint flags h with
  | Some o, Some p => if ok then (p * PAGE, host_map m p n o k h) else (0, h)
  | _, _ => (0, h)
  end.

(** What one transfer moves; it succeeds if it moves something. *)
Definition host_moves (t : nat) (a n : Z) (h : host) : list Z :=
  host_bytes (host_view h) (task_map t) a (Z.to_nat (Z.min n MAX_RW_COUNT)).

Definition host_read (t : nat) (a n : Z) (h : host) : bool * list Z * host :=
  let '(ok, h) := host_answer h in
  if ok then let l := host_moves t a n h in ((n <=? 0) || (0 <? length l)%nat, l, h) else (false, [], h).

Definition host_write_task (t : nat) (a : Z) (l : list Z) (h : host) : bool * host :=
  let '(ok, h) := host_answer h in
  if ok
  then let k := length (host_moves t a (Z.of_nat (length l)) h) in
       ((length l =? 0)%nat || (0 <? k)%nat, host_write (task_map t) a (take k l) h)
  else (false, h).

(** A region is a page here. *)
Definition host_region (t : nat) (a : Z) (h : host) : option region_info * host :=
  let '(ok, h) := host_answer h in
  match h_pages h !! (S t, a / PAGE) with
  | Some _ => (if ok then Some (mkRegion (a / PAGE * PAGE) 1 0 3 false) else None, h)
  | None => (None, h)
  end.

Definition host_after (t : nat) (a : Z) (h : host) : list Z :=
  filter (fun x => a < x) ((fun kv => kv.1.2 * PAGE) <$> filter (fun kv => kv.1.1 = S t) (map_to_list (h_pages h))).
Definition host_next (t : nat) (a : Z) (h : host) : Z * host :=
  (match host_after t a h with [] => 0 | x :: l => foldr Z.min x l end, h).

Definition host_munmap (m : vm_map) (addr n : Z) (h : host) : bool * host :=
  let '(ok, h) := host_answer h in if ok then (true, host_unmap m (addr / PAGE) n h) else (false, h).

Definition host_memfd (h : host) : Z * host :=
  let '(ok, h) := host_answer h in
  let fd := fresh ((map_to_list (h_fds h)).*1) in
  if ok && (0 <=? fd)
  then let o := host_fresh h in
       let h := host_clear o h in (fd, mkHost (h_pages h) (h_data h) (<[fd := o]> (h_fds h)) (h_answers h))
  else (-1, h).

#[export] Instance host_hooks : Hooks host := {
  view_of := host_view;
  prot_of _ _ _ := 7;
  task_read_memory := host_read;
  task_write_memory := host_write_task;
  task_allocate_pages t n _ hint flags := host_alloc (task_map t) n hint flags;
  task_free_pages t addr n h := let '(ok, h) := host_munmap (task_map t) addr n h in (if ok then 0 else -1, h);
  task_map_file t fd n _ hint k flags := host_map_file (task_map t) fd n hint k flags;
  task_get_memory_region_info := host_region;
  task_get_next_region := host_next;
  task_change_protection _ _ _ _ := host_answer;
  task_sync_memory _ _ _ _ := host_answer;
  server_load a n h :=
    let l := host_bytes (host_view h) kernel_map a (Z.to_nat n) in
    if Z.of_nat (length l) =? Z.max 0 n then Some l else None;
  server_store a l h :=
    if (length (host_bytes (host_view h) kernel_map a (length l)) =? length l)%nat then Some (host_write kernel_map a l h) else None;
  malloc _ := host_answer;
  stale n _ := replicate (Z.to_nat n) 170;
  mmap_anonymous n h := let '(a, h) := host_alloc kernel_map (pages n) 0 0 h in (if a =? 0 then None else Some a, h);
  mmap_shared n fd h := let '(a, h) := host_map_file kernel_map fd (pages n) 0 0 0 h in (if a =? 0 then None else Some a, h);
  munmap addr n := host_munmap kernel_map addr (pages n);
  memfd_create := host_memfd;
  ftruncate _ _ := host_answer;
  close fd h := mkHost (h_pages h) (h_data h) (delete fd (h_fds h)) (h_answers h);
}.

Lemma placed_proper v v' m addr n hint flags : v ≡ v' → placed v m addr n hint flags → placed v' m addr n hint flags.
Proof. intros Hv (H1 & H2 & H3). split_and!; [done| |done]. by rewrite <- Hv. Qed.

Lemma host_alloc_spec m n hint flags h addr h' :
  host_alloc m n hint flags h = (addr, h') →
  (addr = 0 ∧ host_view h' ≡ host_view h) ∨
  (placed (host_view h) m addr n hint flags ∧ ∃ o, fresh_obj (host_view h) o ∧
     host_view h' ≡ v_map m (addr / PAGE) n o 0 (v_clear o (host_view h))).
Proof.
  unfold host_alloc. destruct (host_answer h) as [ok h1] eqn:E. apply host_answer_view in E.
  destruct (host_place m n hint flags h1) as [p|] eqn:Hp; [|intros [= <- <-]; by left].
  destruct ok; intros [= <- <-]; [right|by left]. apply host_place_spec in Hp as [Hp Hd]. split; [by apply (placed_proper (host_view h1))|].
  exists (host_fresh h1). split; [rewrite <- E; apply host_fresh_obj|].
  rewrite Hd, host_map_view, host_clear_view, E; [done|]. destruct Hp as ((_ & _ & Hn & _) & _). lia.
Qed.

Lemma host_map_file_spec m fd n hint k flags h addr h' :
  host_map_file m fd n hint k flags h = (addr, h') →
  (addr = 0 ∧ host_view h' ≡ host_view h) ∨
  (placed (host_view h) m addr n hint flags ∧ ∃ o, v_fd (host_view h) fd = Some o ∧
     host_view h' ≡ v_map m (addr / PAGE) n o k (host_view h)).
Proof.
  unfold host_map_file. destruct (host_answer h) as [ok h1] eqn:E. apply host_answer_view in E.
  destruct (h_fds h1 !! fd) as [o|] eqn:Ho; [|intros [= <- <-]; by left].
  destruct (host_place m n hint flags h1) as [p|] eqn:Hp; [|intros [= <- <-]; by left].
  destruct ok; intros [= <- <-]; [right|by left]. apply host_place_spec in Hp as [Hp Hd]. split; [by apply (placed_proper (host_view h1))|].
  exists o. split; [rewrite <- (proj2 (proj2 E)); done|].
  rewrite Hd, host_map_view, E; [done|]. destruct Hp as ((_ & _ & Hn & _) & _). lia.
Qed.

Lemma placed_nonzero v m addr n hint flags : placed v m addr n hint flags → addr ≠ 0.
Proof. intros ((H & _) & _). lia. Qed.

Lemma host_munmap_spec m addr n h ok h' :
  host_munmap m addr n h = (ok, h') →
  host_view h' ≡ (if ok then v_unmap m (addr / PAGE) n (host_view h) else host_view h).
Proof.
  unfold host_munmap. destruct (host_answer h) as [b h1] eqn:E. apply host_answer_view in E.
  destruct b; intros [= <- <-]; [|done]. by rewrite host_unmap_view, E.
Qed.

(** A transfer is complete when the range is mapped and not too long. *)
Lemma host_bytes_mapped v m a n :
  (∀ i, 0 ≤ i < Z.of_nat n → is_Some (loc v m (a + i))) → length (host_bytes v m a n) = n.
Proof.
  intros H. destruct (decide (length (host_bytes v m a n) = n)) as [|Hne]; [done|].
  pose proof (host_bytes_short _ _ _ _ Hne) as Hs. pose proof (host_bytes_length v m a n).
  destruct (H (Z.of_nat (length (host_bytes v m a n)))) as [x Hx]; [lia|congruence].
Qed.

Lemma host_read_spec t a n h ok l h' :
  host_read t a n h = (ok, l, h') →
  host_view h' ≡ host_view h ∧ reads (host_view h) (task_map t) a l ∧ Z.of_nat (length l) ≤ Z.max 0 n ∧
  (∀ (u : nat) (p : Z), 7 = 7) ∧
  (ok = true → 0 ≤ n ≤ MAX_RW_COUNT → readable_range h t a n → Z.of_nat (length l) = n).
Proof.
  unfold host_read, host_moves. destruct (host_answer h) as [b h1] eqn:E. apply host_answer_view in E.
  destruct b; intros [= <- <- <-].
  - split_and!; [done| | |done|].
    + rewrite <- E. apply host_bytes_reads.
    + pose proof (host_bytes_length (host_view h1) (task_map t) a (Z.to_nat (Z.min n MAX_RW_COUNT))). lia.
    + intros _ Hn Hr. rewrite Z.min_l, host_bytes_mapped by (try lia; intros i Hi; rewrite E; apply Hr; lia). lia.
  - split_and!; [done|by intros i c|cbn; lia|done|done].
Qed.

Lemma host_write_spec t a l h ok h' :
  host_write_task t a l h = (ok, h') →
  ∃ k, host_view h' ≡ v_write (task_map t) a (take k l) (host_view h) ∧
    (∀ j, (j < length (take k l))%nat → is_Some (loc (host_view h) (task_map t) (a + Z.of_nat j))) ∧
    (ok = true → Z.of_nat (length l) ≤ MAX_RW_COUNT → writable_range h t a (Z.of_nat (length l)) → take k l = l).
Proof.
  unfold host_write_task. destruct (host_answer h) as [b h1] eqn:E. apply host_answer_view in E.
  destruct b; intros [= <- <-]; [|exists 0%nat; rewrite take_0; split_and!; [done|cbn; lia|done]].
  set (k := length (host_moves _ _ _ _)). exists k. split_and!; [rewrite host_write_view; by apply v_write_proper| |].
  - intros j Hj. rewrite length_take in Hj. rewrite <- E.
    destruct (lookup_lt_is_Some_2 (host_moves t a (Z.of_nat (length l)) h1) j) as [c Hc]; [fold k; lia|].
    apply host_bytes_reads in Hc. unfold byte_at in Hc. by destruct (loc _ _ _).
  - intros _ Hl Hw. unfold k, host_moves. apply take_ge.
    rewrite Z.min_l, host_bytes_mapped by (try lia; intros i Hi; rewrite E; apply Hw; lia). lia.
Qed.

Lemma host_region_spec t a h r h' :
  host_region t a h = (r, h') →
  host_view h' ≡ host_view h ∧ (∀ (u : nat) (p : Z), 7 = 7) ∧
  ∀ i, r = Some i → start_address i mod PAGE = 0 ∧ start_address i ≤ a < start_address i + page_count i * PAGE ∧
    ∀ p, in_range (start_address i / PAGE) (page_count i) p = true → is_Some (v_page (host_view h) (task_map t) p).
Proof.
  unfold host_region. destruct (host_answer h) as [b h1] eqn:E. apply host_answer_view in E.
  destruct (h_pages h1 !! (S t, a / PAGE)) eqn:Hp; intros [= <- <-]; (split; [done|split; [done|]]); intros i; [|done].
  destruct b; [|done]. intros [= <-]. cbn. split_and!; [lia|lia|lia|].
  intros q Hr%in_range_spec. assert (q = a / PAGE) as -> by lia.
  change (is_Some (v_page (host_view h) (task_map t) (a / PAGE))). rewrite <- (proj1 E). by eexists.
Qed.

Lemma host_next_spec t a h : (host_next t a h).1 = 0 ∨ a < (host_next t a h).1.
Proof.
  unfold host_next. cbn [fst]. assert (∀ x, x ∈ host_after t a h → a < x) as Hl by (intros x [? _]%list_elem_of_filter; done).
  destruct (host_after t a h) as [|x l]; [by left|right].
  assert (Hx : a < x) by (apply Hl; left). assert (∀ y, y ∈ l → a < y) as Hl' by (intros y Hy; apply Hl; by right).
  clear Hl. induction l as [|y l IH]; [done|]. cbn. assert (a < y) by (apply Hl'; left).
  ospecialize* IH; [intros z Hz; apply Hl'; by right|]. lia.
Qed.

Lemma host_memfd_spec h fd h' :
  host_memfd h = (fd, h') →
  (fd < 0 ∧ host_view h' ≡ host_view h) ∨
  (0 ≤ fd ∧ v_fd (host_view h) fd = None ∧ ∃ o, fresh_obj (host_view h) o ∧
     host_view h' ≡ v_open fd o (v_clear o (host_view h))).
Proof.
  unfold host_memfd. destruct (host_answer h) as [b h1] eqn:E. apply host_answer_view in E.
  set (f := fresh _). destruct (b && (0 <=? f)) eqn:Hb; intros [= <- <-]; [right|left; by split].
  rewrite andb_true_iff, Z.leb_le in Hb. split_and!; [lia| |].
  - rewrite <- (proj2 (proj2 E)). cbn. destruct (h_fds h1 !! f) as [o|] eqn:Ho; [|done]. exfalso.
    apply (infinite_is_fresh ((map_to_list (h_fds h1)).*1)). apply list_elem_of_fmap. exists (f, o). split; [done|]. by apply elem_of_map_to_list.
  - exists (host_fresh h1). split; [rewrite <- E; apply host_fresh_obj|]. rewrite <- E, <- host_clear_view.
    split_and!; [done|done|]. intros fd'. cbn. case_bool_decide; subst; [by rewrite lookup_insert_eq|]. by rewrite lookup_insert_ne.
Qed.

#[export] Instance host_laws : HooksLaws host.
Proof.
  split; cbn [view_of task_read_memory task_write_memory task_allocate_pages task_free_pages task_map_file
    task_get_memory_region_info task_get_next_region task_change_protection task_sync_memory server_load server_store
    malloc mmap_anonymous mmap_shared munmap memfd_create ftruncate close host_hooks].
  - apply host_read_spec.
  - apply host_write_spec.
  - intros t n prot hint flags w addr w' H. apply host_alloc_spec in H as [?|(H1 & H2)]; [by left|right]. split_and!; [done| |done].
    intros q i _ Hi _. assert (i = 0 ∨ i = 1 ∨ i = 2) as [-> | [-> | ->]] by lia; done.
  - intros t addr n w r w' _. destruct (host_munmap _ _ _ _) as [ok h] eqn:E. intros [= <- <-].
    apply host_munmap_spec in E. destruct ok; [right|left]; (split; [lia|done]).
  - intros t fd n _. apply host_map_file_spec.
  - apply host_region_spec.
  - intros t a w r w' E. pose proof (host_next_spec t a w) as H. rewrite E in H. split; [|exact H].
    by injection E as _ <-.
  - intros _ _ _ _. apply host_answer_view.
  - intros _ _ _ _. apply host_answer_view.
  - intros a n w. destruct (Z.eqb_spec (Z.of_nat (length (host_bytes (host_view w) kernel_map a (Z.to_nat n)))) (Z.max 0 n)) as [E|E].
    + split; [apply host_bytes_reads|done].
    + pose proof (host_bytes_length (host_view w) kernel_map a (Z.to_nat n)) as Hl.
      eexists. split; [|apply (host_bytes_short _ _ _ (Z.to_nat n)); lia]. lia.
  - intros a l w. destruct (Nat.eqb_spec (length (host_bytes (host_view w) kernel_map a (length l))) (length l)) as [E|E].
    + apply host_write_view.
    + pose proof (host_bytes_length (host_view w) kernel_map a (length l)) as Hl.
      eexists. split; [|apply (host_bytes_short _ _ _ (length l)); done]. lia.
  - intros _ w ok w' H. split; [by eapply host_answer_view|done].
  - intros n w. apply length_replicate.
  - intros n w r w'. destruct (host_alloc _ _ _ _ _) as [a h] eqn:E. intros [= <- <-].
    apply host_alloc_spec in E as [[-> E]|E]; [done|]. destruct (Z.eqb_spec a 0) as [->|]; [|done].
    by destruct E as [?%placed_nonzero _].
  - intros n fd w r w'. destruct (host_map_file _ _ _ _ _ _ _) as [a h] eqn:E. intros [= <- <-]. split; [done|].
    apply host_map_file_spec in E as [[-> E]|E]; [done|]. destruct (Z.eqb_spec a 0) as [->|]; [|done].
    by destruct E as [?%placed_nonzero _].
  - intros addr n w ok w'. apply host_munmap_spec.
  - intros w fd w' H. split; [done|]. by apply host_memfd_spec.
  - intros _ _ w ok w' H. split; [by eapply host_answer_view|done].
  - intros fd w. split_and!; [done|done|]. intros fd'. cbn. case_bool_decide; subst; [by rewrite lookup_delete_eq|].
    by rewrite lookup_delete_ne.
Qed.
