(* ===== verification/DtapeMemory.v ===== *)
(** * The server's memory functions
    ([src/src/external/osxieserver/duct-tape/src/memory.c])

    Copying memory in and out of tasks with kernel-buffer copies, allocation and
    deallocation, the [mach_vm] calls and their page arithmetic, verified against the
    interface of [DtapeHooks].  Shared remapping, which uses the same state, is in
    [DtapeShared]. *)

From S2P Require Import Prelude DtapeHooks.

(** ** State *)

(** [struct vm_map_copy]; [sizeof] of its fixed part is 32. *)
Record vm_map_copy := mkCopy {
  copy_type : Z; copy_offset : Z; copy_size : Z; cpy_kdata : list Z;
}.
Definition VM_MAP_COPY_KERNEL_BUFFER : Z := 3.
Definition sizeof_copy : Z := 32.

(** [dtape_map_shared_descriptor_t] and [dtape_map_shared_entry_t] *)
Record shared_descriptor := mkDesc { refcount : Z; memfd : Z; d_size : Z }.
Record shared_entry := mkEntry { e_address : Z; e_size : Z; e_page_offset : Z; e_descriptor : nat }.

(** [struct _vm_map] of a task: its references and its shared entries, a red-black tree
    ordered by address, as the list of its nodes in order. *)
Record dmap := mkDmap { map_refcnt : Z; shared_entries : list nat }.

(** The world behind the hooks and the server's heap: copies, descriptors and entries by
    their addresses, the maps of the tasks. *)
Record kstate (W : Type) := mkK {
  k_w : W;
  k_copies : gmap nat vm_map_copy;
  k_descs : gmap nat shared_descriptor;
  k_entries : gmap nat shared_entry;
  k_maps : gmap nat dmap;
  k_next : nat;
}.
Arguments mkK {W} k_w k_copies k_descs k_entries k_maps k_next.
Arguments k_w {W} k.
Arguments k_copies {W} k.
Arguments k_descs {W} k.
Arguments k_entries {W} k.
Arguments k_maps {W} k.
Arguments k_next {W} k.

Definition set_w {W} (w : W) (s : kstate W) : kstate W :=
  mkK w (k_copies s) (k_descs s) (k_entries s) (k_maps s) (k_next s).
Definition set_copies {W} (g : gmap nat vm_map_copy) (s : kstate W) : kstate W :=
  mkK (k_w s) g (k_descs s) (k_entries s) (k_maps s) (k_next s).

(** A function of the server: [None] is a fault (an access to memory that is not there, a
    second [free]). *)
Definition M (W A : Type) : Type := kstate W → option (A * kstate W).
#[export] Instance M_ret W : MRet (M W) := fun A a s => Some (a, s).
#[export] Instance M_bind W : MBind (M W) := fun A B f m s =>
  match m s with Some (a, s) => f a s | None => None end.

#[export] Instance M_fmap W : FMap (M W) := fun A B f m s =>
  match m s with Some (a, s) => Some (f a, s) | None => None end.

Definition fault {W A} : M W A := fun _ => None.

(** [KERN_*] *)
Definition KERN_SUCCESS : Z := 0.
Definition KERN_INVALID_ADDRESS : Z := 1.
Definition KERN_PROTECTION_FAILURE : Z := 2.
Definition KERN_NO_SPACE : Z := 3.
Definition KERN_INVALID_ARGUMENT : Z := 4.
Definition KERN_FAILURE : Z := 5.
Definition KERN_RESOURCE_SHORTAGE : Z := 6.

Definition PROT_READ : Z := 1.
Definition PROT_WRITE : Z := 2.
Definition PROT_EXEC : Z := 4.

(** ** Pages *)

Definition dtape_byte_count_to_page_count_round_up (n : Z) : Z := u64 (n + 4095) / PAGE.
Definition dtape_byte_count_to_page_count_round_down (n : Z) : Z := n / PAGE.

(** [vm_map_trunc_page], [mach_vm_trunc_page] and their counterparts for rounding up. *)
Definition trunc_page (x : Z) : Z := Z.land x (Z.lnot 4095).
Definition round_page (x : Z) : Z := Z.land (u64 (x + 4095)) (Z.lnot 4095).

Section memory.
Context {W : Type} `{!Hooks W}.

(** A call through the interface. *)
Definition hook {A} (f : W → A * W) : M W A := fun s => let '(a, w) := f (k_w s) in Some (a, set_w w s).

(** ** Kernel memory *)

Definition kernel_memory_allocate (size : Z) : M W (Z * option Z) :=
  r ← hook (mmap_anonymous size);
  mret match r with None => (KERN_FAILURE, None) | Some a => (KERN_SUCCESS, Some a) end.

Definition vm_deallocate (start size : Z) : M W Z :=
  ok ← hook (munmap start size);
  mret (if ok : bool then 1 else 0).

Definition kmem_alloc (size : Z) : M W (Z * option Z) := kernel_memory_allocate size.

Definition kmem_free (addr size : Z) : M W unit := _ ← vm_deallocate addr size; mret tt.

Definition mach_vm_allocate_kernel (m : vm_map) (size : Z) : M W (Z * option Z) :=
  match m with
  | kernel_map => kernel_memory_allocate size
  | task_map t =>
      tmp ← hook (task_allocate_pages t (dtape_byte_count_to_page_count_round_up size) (Z.lor PROT_READ PROT_WRITE) 0 0);
      if tmp =? 0 then mret (KERN_RESOURCE_SHORTAGE, None) else mret (KERN_SUCCESS, Some tmp)
  end.

Definition vm_allocate_kernel (m : vm_map) (size : Z) : M W (Z * option Z) := mach_vm_allocate_kernel m size.

(** ** Copying between maps and buffers *)

(** [copyoutmap]; the buffer is given by its bytes. *)
Definition copyoutmap (m : vm_map) (fromdata : list Z) (toaddr : Z) : M W Z :=
  match m with
  | kernel_map => fun s =>
      match server_store toaddr fromdata (k_w s) with Some w => Some (KERN_SUCCESS, set_w w s) | None => None end
  | task_map t => ok ← hook (task_write_memory t toaddr fromdata); mret (if ok : bool then KERN_SUCCESS else KERN_FAILURE)
  end.

(** [copyinmap]; it gives the bytes it stored into the buffer. *)
Definition copyinmap (m : vm_map) (fromaddr length : Z) : M W (Z * list Z) :=
  match m with
  | kernel_map => fun s =>
      match server_load fromaddr length (k_w s) with Some l => Some ((KERN_SUCCESS, l), s) | None => None end
  | task_map t =>
      '(ok, l) ← hook (task_read_memory t fromaddr length);
      mret (if ok : bool then KERN_SUCCESS else KERN_FAILURE, l)
  end.

(** [copyin] and [copyout], with the current map. *)
Definition copyin (current_map : vm_map) (user_addr nbytes : Z) : M W (Z * list Z) :=
  '(kr, l) ← copyinmap current_map user_addr nbytes;
  mret (if kr =? KERN_SUCCESS then 0 else 1, l).
Definition copyout (current_map : vm_map) (kernel : list Z) (user_addr : Z) : M W Z :=
  kr ← copyoutmap current_map kernel user_addr;
  mret (if kr =? KERN_SUCCESS then 0 else 1).

Definition vm_map_remove (m : vm_map) (start end_ : Z) : M W Z :=
  match m with
  | kernel_map =>
      ok ← hook (munmap start (u64 (end_ - start)));
      mret (if ok : bool then KERN_SUCCESS else KERN_FAILURE)
  | task_map t =>
      r ← hook (task_free_pages t start (dtape_byte_count_to_page_count_round_down (u64 (end_ - start))));
      mret (if r <? 0 then KERN_FAILURE else KERN_SUCCESS)
  end.

(** ** Copies *)

(** [malloc] of a copy with room for [len] bytes; [None] if it fails.  The four fields are
    stored after it, so a block smaller than they are is overrun.  The buffer holds what the
    block held. *)
Definition new_copy (len : Z) : M W (option nat) :=
  ok ← hook (malloc (u64 (sizeof_copy + len)));
  if negb ok then mret None else
  if u64 (sizeof_copy + len) <? sizeof_copy then fault else
  fun s => Some (Some (k_next s),
    mkK (k_w s) (<[k_next s := mkCopy VM_MAP_COPY_KERNEL_BUFFER 0 len (stale len (k_w s))]> (k_copies s)) (k_descs s) (k_entries s) (k_maps s) (S (k_next s))).
Definition get_copy (c : nat) : M W vm_map_copy := fun s =>
  match k_copies s !! c with Some x => Some (x, s) | None => None end.
Definition set_copy (c : nat) (x : vm_map_copy) : M W unit := fun s =>
  match k_copies s !! c with Some _ => Some (tt, set_copies (<[c := x]> (k_copies s)) s) | None => None end.
(** The bytes of a copy-in over the start of the buffer. *)
Definition fill_copy (c : nat) (l : list Z) : M W unit :=
  x ← get_copy c;
  if copy_size x <? Z.of_nat (length l) then fault
  else set_copy c (mkCopy (copy_type x) (copy_offset x) (copy_size x) (l ++ drop (length l) (cpy_kdata x))).
Definition free_copy (c : nat) : M W unit := fun s =>
  match k_copies s !! c with Some _ => Some (tt, set_copies (delete c (k_copies s)) s) | None => None end.

Definition vm_map_copy_discard (copy : option nat) : M W unit :=
  match copy with None => mret tt | Some c => free_copy c end.

Definition vm_map_copyin_common (src_map : vm_map) (src_addr len : Z) (src_destroy : bool) : M W (Z * option nat) :=
  r ← new_copy len;
  match r with
  | None => mret (KERN_RESOURCE_SHORTAGE, None)
  | Some copy =>
      '(kr, l) ← copyinmap src_map src_addr len;
      _ ← fill_copy copy l;
      if negb (kr =? KERN_SUCCESS) then _ ← free_copy copy; mret (kr, None) else
      _ ← (if src_destroy
           then vm_map_remove src_map (trunc_page src_addr) (round_page (u64 (src_addr + len)))
           else mret KERN_SUCCESS);
      mret (KERN_SUCCESS, Some copy)
  end.

(** The first [n] bytes of the buffer of a copy. *)
Definition copy_bytes (copy : nat) (n : Z) : M W (list Z) :=
  c ← get_copy copy;
  if Z.of_nat (length (cpy_kdata c)) <? n then fault else mret (take (Z.to_nat n) (cpy_kdata c)).

(** [vm_map_copyout_kernel_buffer]; it gives the result and the address it leaves in
    [*addr]. *)
Definition vm_map_copyout_kernel_buffer (m : vm_map) (addr : Z) (copy : nat) (size : Z)
    (overwrite consume_on_success : bool) : M W (Z * Z) :=
  r ← (if overwrite then mret (inl addr)
       else match m with
            | kernel_map => r ← hook (mmap_anonymous size);
                mret match r with Some a => inl a | None => inr (2 ^ 64 - 1) end
            | task_map t => a ← hook (task_allocate_pages t (dtape_byte_count_to_page_count_round_up size)
                                        (Z.lor PROT_READ PROT_WRITE) 0 0);
                mret (if a =? 0 then inr 0 else inl a)
            end);
  match r with
  | inr bad => mret (KERN_RESOURCE_SHORTAGE, bad)
  | inl addr =>
      l ← copy_bytes copy size;
      kr ← copyoutmap m l addr;
      if negb (kr =? 0)
      then if negb overwrite
           then _ ← vm_map_remove m (trunc_page addr) (round_page (u64 (addr + round_page size)));
                mret (KERN_INVALID_ADDRESS, 0)
           else mret (KERN_INVALID_ADDRESS, addr)
      else _ ← (if consume_on_success then free_copy copy else mret tt);
           mret (KERN_SUCCESS, addr)
  end.

Definition vm_map_copy_overwrite (dst_map : vm_map) (dst_addr : Z) (copy : option nat) : M W Z :=
  match copy with
  | None => mret KERN_SUCCESS
  | Some c => x ← get_copy c; fst <$> vm_map_copyout_kernel_buffer dst_map dst_addr c (copy_size x) true true
  end.

Definition vm_map_copyout_size (dst_map : vm_map) (dst_addr : Z) (copy : option nat) (size : Z) : M W (Z * Z) :=
  match copy with
  | None => mret (KERN_SUCCESS, 0)
  | Some c =>
      x ← get_copy c;
      if negb (copy_size x =? size) then mret (KERN_FAILURE, 0)
      else vm_map_copyout_kernel_buffer dst_map dst_addr c size false true
  end.

Definition vm_map_copyout (dst_map : vm_map) (dst_addr : Z) (copy : option nat) : M W (Z * Z) :=
  size ← match copy with Some c => copy_size <$> get_copy c | None => mret 0 end;
  vm_map_copyout_size dst_map dst_addr copy size.

Definition vm_map_copy_validate_size (copy : option nat) (size : Z) : M W bool :=
  match copy with None => mret false | Some c => x ← get_copy c; mret (size =? copy_size x) end.

(** ** The [mach_vm] calls; [None] for [VM_MAP_NULL] *)

Definition mach_vm_deallocate (map : option vm_map) (start size : Z) : M W Z :=
  match map with
  | None => mret KERN_INVALID_ARGUMENT
  | Some m =>
      if u64 (start + size) <? start then mret KERN_INVALID_ARGUMENT else
      if size =? 0 then mret KERN_SUCCESS else
      vm_map_remove m (trunc_page start) (round_page (u64 (start + size)))
  end.

(** [assertf(copy->size == size)] *)
Definition assert_size (copy : option nat) (size : Z) : M W unit :=
  match copy with
  | None => mret tt
  | Some c => x ← get_copy c; if copy_size x =? size then mret tt else fault
  end.

Definition mach_vm_copy (map : option vm_map) (source_address size dest_address : Z) : M W Z :=
  match map with
  | None => mret KERN_INVALID_ARGUMENT
  | Some m =>
      '(kr, copy) ← vm_map_copyin_common m source_address size false;
      if kr =? KERN_SUCCESS then
        _ ← assert_size copy size;
        kr ← vm_map_copy_overwrite m dest_address copy;
        if negb (kr =? KERN_SUCCESS) then _ ← vm_map_copy_discard copy; mret kr else mret kr
      else mret kr
  end.

(** [mach_vm_read] gives the copy as its data, and the size. *)
Definition mach_vm_read (map : option vm_map) (addr size : Z) : M W (Z * option (option nat * Z)) :=
  match map with
  | None => mret (KERN_INVALID_ARGUMENT, None)
  | Some m =>
      if negb (u32 size =? size) then mret (KERN_INVALID_ARGUMENT, None) else
      '(error, ipc_address) ← vm_map_copyin_common m addr size false;
      mret (error, if error =? KERN_SUCCESS then Some (ipc_address, u32 size) else None)
  end.

Definition mach_vm_read_overwrite (current : vm_map) (map : option vm_map) (address size data : Z) : M W (Z * option Z) :=
  match map with
  | None => mret (KERN_INVALID_ARGUMENT, None)
  | Some m =>
      '(error, copy) ← vm_map_copyin_common m address size false;
      if error =? KERN_SUCCESS then
        _ ← assert_size copy size;
        error ← vm_map_copy_overwrite current data copy;
        if error =? KERN_SUCCESS then mret (error, Some size)
        else _ ← vm_map_copy_discard copy; mret (error, None)
      else mret (error, None)
  end.

Definition mach_vm_write (map : option vm_map) (address : Z) (data : option nat) : M W Z :=
  match map with
  | None => mret KERN_INVALID_ARGUMENT
  | Some m => vm_map_copy_overwrite m address data
  end.

(** [mach_vm_protect]; the protections of Mach and of Linux have the same bits. *)
Definition linux_prot (vm_prot : Z) : Z :=
  Z.lor (if Z.land vm_prot 1 =? 0 then 0 else PROT_READ)
    (Z.lor (if Z.land vm_prot 2 =? 0 then 0 else PROT_WRITE) (if Z.land vm_prot 4 =? 0 then 0 else PROT_EXEC)).

Definition mach_vm_protect (t : nat) (start size new_protection : Z) : M W Z :=
  let end_memaddr := round_page (u64 (start + size)) in
  let start_memaddr := trunc_page start in
  let protect_size := u64 (end_memaddr - start_memaddr) in
  ok ← hook (task_change_protection t start_memaddr (dtape_byte_count_to_page_count_round_up protect_size)
               (linux_prot new_protection));
  mret (if ok : bool then KERN_SUCCESS else KERN_FAILURE).

(** [VM_SYNC_ASYNCHRONOUS], [VM_SYNC_SYNCHRONOUS] and [VM_SYNC_INVALIDATE] are 1, 2 and 4. *)
Definition mach_vm_msync (t : nat) (address size sync_flags : Z) : M W Z :=
  let linux_flags := Z.lor (if Z.land sync_flags 1 =? 0 then 0 else 1)
    (Z.lor (if Z.land sync_flags 2 =? 0 then 0 else 4) (if Z.land sync_flags 4 =? 0 then 0 else 2)) in
  ok ← hook (task_sync_memory t address size linux_flags);
  mret (if ok : bool then KERN_SUCCESS else KERN_FAILURE).

(** ** Regions *)

Definition VM_REGION_BASIC_INFO_64 : Z := 9.
Definition VM_REGION_BASIC_INFO : Z := 10.
Definition VM_REGION_TOP_INFO : Z := 12.

(** The fields of [vm_region_basic_info(_64)] that depend on the region, and the structure
    of [VM_REGION_TOP_INFO], which is all zero. *)
Inductive region_data :=
  | basic_data (protection offset : Z) (shared : bool)
  | top_data.

(** What [mach_vm_region] leaves in its outputs; [None] is an output it does not write. *)
Record region_out := mkOut {
  ro_kr : Z; ro_address : option Z; ro_size : option Z; ro_count : option Z; ro_info : option region_data;
}.

(** The region of an address, or the next one. *)
Definition lookup_region (t : nat) (address : Z) : M W (Z + region_info) :=
  r ← hook (task_get_memory_region_info t address);
  match r with
  | Some i => mret (inr i)
  | None =>
      next ← hook (task_get_next_region t address);
      if next =? 0 then mret (inl KERN_NO_SPACE) else
      r ← hook (task_get_memory_region_info t next);
      mret match r with Some i => inr i | None => inl KERN_FAILURE end
  end.

(** The protection that is reported: an executable region is read and execute. *)
Definition basic_protection (p : Z) : Z :=
  if Z.land p 4 =? 0 then Z.lor (if Z.land p 1 =? 0 then 0 else 1) (if Z.land p 2 =? 0 then 0 else 2) else Z.lor 4 1.

Definition mach_vm_region (t : nat) (address flavor count : Z) : M W region_out :=
  if (flavor =? VM_REGION_BASIC_INFO) || (flavor =? VM_REGION_BASIC_INFO_64) then
    r ← lookup_region t address;
    match r with
    | inl kr => mret (mkOut kr None None None None)
    | inr i =>
        let need := if flavor =? VM_REGION_BASIC_INFO_64 then 9 else 8 in
        let size := u64 (page_count i * PAGE) in
        if count <? need then mret (mkOut KERN_INVALID_ARGUMENT (Some (start_address i)) (Some size) None None)
        else mret (mkOut KERN_SUCCESS (Some (start_address i)) (Some size) (Some need)
               (Some (basic_data (basic_protection (protection i))
                        (if flavor =? VM_REGION_BASIC_INFO_64 then map_offset i else u32 (map_offset i)) (shared i))))
    end
  else if flavor =? VM_REGION_TOP_INFO then
    if count <? 5 then mret (mkOut KERN_INVALID_ARGUMENT None None None None) else
    r ← lookup_region t address;
    mret match r with
         | inl kr => mkOut kr None None (Some 5) None
         | inr i => mkOut KERN_SUCCESS (Some (start_address i)) (Some (u64 (page_count i * PAGE))) (Some 5) (Some top_data)
         end
  else mret (mkOut KERN_INVALID_ARGUMENT None None None None).

(** [mach_vm_region_recurse]: the result, the address and size, and the bytes of the info
    block if they were written.  They are stored as a [vm_region_submap_info_64]: offsets
    0, 4, 12 and 47 hold the protection, the maximum, the offset and the share mode. *)
Definition submap_info (i : region_info) : list Z :=
  let put (m : list Z) (off : nat) (bs : list Z) := take off m ++ bs ++ drop (off + length bs) m in
  put (put (put (put (replicate 76 0)
    0%nat (le_bytes 4 (linux_prot (protection i))))
    12%nat (le_bytes 8 (map_offset i)))
    47%nat [if shared i then 4 else 2])
    4%nat (le_bytes 4 7).

Definition mach_vm_region_recurse (t : nat) (address infoCnt : Z) : M W (Z * option (Z * Z) * option (list Z)) :=
  r ← lookup_region t address;
  match r with
  | inl kr => mret (kr, None, None)
  | inr i =>
      mret (KERN_SUCCESS, Some (start_address i, u64 (page_count i * PAGE)),
            if infoCnt =? 12 then Some (submap_info i) else None)
  end.

End memory.

(** ** Reasoning about the functions

    [wp m Q s]: [m] does not fault in state [s], and its result and final state satisfy
    [Q]. *)

Definition wp {W A} (m : M W A) (Q : A → kstate W → Prop) (s : kstate W) : Prop :=
  match m s with Some (a, s) => Q a s | None => False end.

Lemma wp_ret {W A} (a : A) (Q : A → kstate W → Prop) s : Q a s → wp (mret a) Q s.
Proof. done. Qed.

Lemma wp_bind {W A B} (m : M W A) (f : A → M W B) Q s : wp m (fun a => wp (f a) Q) s → wp (m ≫= f) Q s.
Proof. unfold wp, mbind, M_bind. destruct (m s) as [[a s1]|]; done. Qed.

Lemma wp_fmap {W A B} (m : M W A) (f : A → B) Q s : wp m (fun a => Q (f a)) s → wp (f <$> m) Q s.
Proof. unfold wp, fmap, M_fmap. destruct (m s) as [[a s1]|]; done. Qed.

Lemma wp_mono {W A} (m : M W A) (P Q : A → kstate W → Prop) s :
  wp m P s → (∀ a s', P a s' → Q a s') → wp m Q s.
Proof. unfold wp. destruct (m s) as [[a s1]|]; auto. Qed.

Lemma wp_result {W A} (m : M W A) Q s : wp m Q s → ∃ a s', m s = Some (a, s') ∧ Q a s'.
Proof. unfold wp. destruct (m s) as [[a s1]|]; [|done]. by exists a, s1. Qed.

Lemma wp_run {W A} (m : M W A) (Q : A → kstate W → Prop) s a s' : wp m Q s → m s = Some (a, s') → Q a s'.
Proof. unfold wp. intros H E. by rewrite E in H. Qed.

Lemma wp_hook `{!Hooks W} {A} (f : W → A * W) (Q : A → kstate W → Prop) s :
  (∀ a w, f (k_w s) = (a, w) → Q a (set_w w s)) → wp (hook f) Q s.
Proof. intros H. unfold wp, hook. destruct (f (k_w s)) as [a w]. by apply H. Qed.

(** What the server keeps, apart from the world. *)
Definition heap {W} (s : kstate W) : gmap nat vm_map_copy * gmap nat shared_descriptor * gmap nat shared_entry * gmap nat dmap :=
  (k_copies s, k_descs s, k_entries s, k_maps s).

(** Addresses that were not given out are free. *)
Record heap_ok {W} (s : kstate W) : Prop := mkHeapOk {
  ho_copies c : (k_next s ≤ c)%nat → k_copies s !! c = None;
  ho_descs c : (k_next s ≤ c)%nat → k_descs s !! c = None;
  ho_entries c : (k_next s ≤ c)%nat → k_entries s !! c = None;
}.

Notation vw s := (view_of (k_w s)).

(** ** Pages *)

Lemma land_page x : Z.land x (Z.lnot 4095) = x / PAGE * PAGE.
Proof.
  rewrite <- Z.ldiff_land. change 4095 with (Z.ones 12). rewrite Z.ldiff_ones_r by lia.
  rewrite Z.shiftl_mul_pow2, Z.shiftr_div_pow2 by lia. done.
Qed.

Lemma trunc_page_spec x : trunc_page x = x / PAGE * PAGE.
Proof. apply land_page. Qed.

Lemma round_page_spec x : 0 ≤ x < 2 ^ 64 → round_page x = u64 ((x + 4095) / PAGE * PAGE).
Proof.
  intros Hx. unfold round_page. rewrite land_page. unfold u64.
  destruct (Z.lt_ge_cases (x + 4095) (2 ^ 64)) as [H|H]; [rewrite !Z.mod_small by lia; done|].
  assert ((x + 4095) / PAGE * PAGE = 2 ^ 64) as -> by lia.
  replace ((x + 4095) mod 2 ^ 64) with (x + 4095 - 2 ^ 64) by lia. lia.
Qed.

(** The pages from the one of [start] to the one of the last byte. *)
Lemma page_span start size :
  PAGE ≤ start → 0 < size → start + size ≤ 2 ^ 64 - 1 →
  u64 (round_page (start + size) - trunc_page start) / PAGE = (start + size - 1) / PAGE - start / PAGE + 1.
Proof.
  intros H1 H2 H3. rewrite round_page_spec, trunc_page_spec by lia. unfold u64.
  destruct (Z.lt_ge_cases ((start + size + 4095) / PAGE * PAGE) (2 ^ 64)) as [H|H].
  - rewrite (Z.mod_small ((start + size + 4095) / PAGE * PAGE)), Z.mod_small by lia. lia.
  - assert ((start + size + 4095) / PAGE * PAGE = 2 ^ 64) as -> by lia. rewrite Z.mod_same by lia.
    replace ((0 - start / PAGE * PAGE) mod 2 ^ 64) with (2 ^ 64 - start / PAGE * PAGE) by lia. lia.
Qed.

Section copies.
Context {W : Type} `{!Hooks W, !HooksLaws W}.
Implicit Types s : kstate W.

Lemma heap_set_w w s : heap (set_w w s) = heap s.
Proof. done. Qed.

(** *** The rules of the helpers, for tasks *)

Lemma wp_vm_map_remove t start end_ (Q : Z → kstate W → Prop) s :
  let n := u64 (end_ - start) / PAGE in
  (∀ kr w, view_of w ≡ (if kr =? 0 then v_unmap (task_map t) (start / PAGE) n (vw s) else vw s) → Q kr (set_w w s)) →
  wp (vm_map_remove (task_map t) start end_) Q s.
Proof.
  intros n H. apply wp_bind, wp_hook. intros r w E. unfold dtape_byte_count_to_page_count_round_down in E.
  apply free_law in E; [|pose proof (u64_range (end_ - start)); lia].
  apply wp_ret, H. destruct E as [[Hr E]|[Hr E]]; rewrite E.
  - by destruct (Z.ltb_spec r 0); [|lia].
  - by destruct (Z.ltb_spec r 0); [lia|].
Qed.

(** Copying in: the copy, or an error and nothing else. *)
Definition copied_in (s s' : kstate W) (c : nat) (len : Z) (l : list Z) : Prop :=
  c = k_next s ∧ k_next s' = S (k_next s) ∧
  heap s' = (<[c := mkCopy VM_MAP_COPY_KERNEL_BUFFER 0 len l]> (k_copies s), k_descs s, k_entries s, k_maps s).

(** What a copy-in leaves in a buffer: the bytes of the source as far as the transfer went,
    then what the buffer held.  The transfer is complete when the range can be read and is not
    too long. *)
Definition fetched (w : W) (t : nat) (addr len : Z) (b : list Z) : Prop :=
  Z.of_nat (length b) = len ∧ ∃ l rest, b = l ++ rest ∧ reads (view_of w) (task_map t) addr l ∧
    (len ≤ MAX_RW_COUNT → readable_range w t addr len → rest = []).

Lemma fetched_reads w t addr len b :
  fetched w t addr len b → len ≤ MAX_RW_COUNT → readable_range w t addr len → reads (view_of w) (task_map t) addr b.
Proof. intros (_ & l & rest & -> & Hr & Hf) H1 H2. rewrite Hf, app_nil_r by done. done. Qed.

Lemma reads_prefix v m a l l' : reads v m a (l ++ l') → reads v m a l.
Proof. intros H i b Hi. apply H. by apply lookup_app_l_Some. Qed.

Lemma readable_range_ext (w w' : W) t a n :
  view_of w' ≡ view_of w → (∀ u p, prot_of w' u p = prot_of w u p) → readable_range w t a n → readable_range w' t a n.
Proof. intros Hv Hp H i Hi. destruct (H i Hi) as [H1 H2]. split; [by rewrite Hv|by rewrite Hp]. Qed.
Lemma writable_range_ext (w w' : W) t a n :
  view_of w' ≡ view_of w → (∀ u p, prot_of w' u p = prot_of w u p) → writable_range w t a n → writable_range w' t a n.
Proof. intros Hv Hp H i Hi. destruct (H i Hi) as [H1 H2]. split; [by rewrite Hv|by rewrite Hp]. Qed.

Lemma wp_copyin_common t addr len destroy (Q : Z * option nat → kstate W → Prop) s :
  0 ≤ len < 2 ^ 64 - 32 → heap_ok s →
  (∀ kr s', kr = KERN_RESOURCE_SHORTAGE ∨ kr = KERN_FAILURE → heap s' = heap s → (k_next s ≤ k_next s')%nat →
     vw s' ≡ vw s → Q (kr, None) s') →
  (∀ c s' b, copied_in s s' c len b → fetched (k_w s) t addr len b →
     ((vw s' ≡ vw s ∧ (destroy = false → ∀ u p, prot_of (k_w s') u p = prot_of (k_w s) u p)) ∨ (destroy = true ∧
        vw s' ≡ v_unmap (task_map t) (trunc_page addr / PAGE) (u64 (round_page (u64 (addr + len)) - trunc_page addr) / PAGE) (vw s))) →
     Q (KERN_SUCCESS, Some c) s') →
  wp (vm_map_copyin_common (task_map t) addr len destroy) Q s.
Proof.
  intros Hlen Hok Hfail Hgood. apply wp_bind. apply wp_bind, wp_hook. intros ok w1 [E1 P1]%malloc_law.
  rewrite u64_small by (unfold sizeof_copy; lia).
  destruct ok; cbn [negb]; [|apply wp_ret, wp_ret, Hfail; auto].
  destruct (Z.ltb_spec (sizeof_copy + len) sizeof_copy); [lia|].
  unfold wp at 1. cbn [k_next set_w k_w k_copies k_descs k_entries k_maps].
  apply wp_bind, wp_bind, wp_hook. intros [ok l] w2 (E2 & Hr & Hll & P2 & Hl)%read_law. cbn [k_w] in E2, Hr, Hl, P2.
  apply wp_ret. apply wp_bind, wp_bind. unfold wp at 1, get_copy. cbn [set_w k_copies]. rewrite lookup_insert_eq.
  cbn [copy_size copy_type copy_offset cpy_kdata]. destruct (Z.ltb_spec len (Z.of_nat (length l))); [lia|].
  unfold wp at 1, set_copy. cbn [set_w k_copies]. rewrite lookup_insert_eq.
  set (b := l ++ drop (length l) (stale len w1)).
  assert (Hfet : ok = true → fetched (k_w s) t addr len b).
  { intros ->. pose proof (stale_law len w1) as Hst. split; [unfold b; rewrite length_app, length_drop; lia|].
    exists l, (drop (length l) (stale len w1)). split_and!; [done|by rewrite <- E1|].
    intros Hmax Hrr. apply drop_ge. rewrite Hst, <- (Hl eq_refl), Nat2Z.id; [done|lia|]. by apply (readable_range_ext (k_w s)). }
  destruct ok; cbn -[trunc_page round_page wp].
  - apply wp_bind. destruct destroy.
    + apply wp_vm_map_remove. intros kr w3 E3. apply wp_ret, Hgood with b; [|by apply Hfet|].
      * split_and!; [done|done|]. unfold heap. cbn. by rewrite insert_insert_eq.
      * cbn [k_w set_w set_copies] in E3 |- *. rewrite E3. destruct (kr =? 0); [right|left]; (split; [|done]) || (split; [done|]); by rewrite E2, E1.
    + apply wp_ret, wp_ret, Hgood with b; [|by apply Hfet|].
      * split_and!; [done|done|]. unfold heap. cbn. by rewrite insert_insert_eq.
      * left. cbn. split; [by rewrite E2, E1|]. intros _ u p. by rewrite P2, P1.
  - apply wp_bind. unfold wp at 1, free_copy. cbn -[wp]. rewrite lookup_insert_eq. apply wp_ret, Hfail.
    + by right.
    + unfold heap. cbn. rewrite insert_insert_eq, delete_insert_id; [done|]. by apply (ho_copies s).
    + cbn. lia.
    + cbn. by rewrite E2, E1.
Qed.

(** The copy-out of a copy [x] over memory of a task. *)
Lemma wp_get_copy c x (Q : vm_map_copy → kstate W → Prop) s : k_copies s !! c = Some x → Q x s → wp (get_copy c) Q s.
Proof. intros Hc HQ. unfold wp, get_copy. by rewrite Hc. Qed.

Lemma wp_free_copy c x (Q : unit → kstate W → Prop) s :
  k_copies s !! c = Some x → Q tt (set_copies (delete c (k_copies s)) s) → wp (free_copy c) Q s.
Proof. intros Hc HQ. unfold wp, free_copy. by rewrite Hc. Qed.

(** A copy whose buffer holds what its size says. *)
Definition full_copy (x : vm_map_copy) : Prop := Z.of_nat (length (cpy_kdata x)) = copy_size x.

Lemma wp_copy_bytes c x (Q : list Z → kstate W → Prop) s :
  k_copies s !! c = Some x → full_copy x → Q (cpy_kdata x) s → wp (copy_bytes c (copy_size x)) Q s.
Proof.
  intros Hc Hx HQ. apply wp_bind, (wp_get_copy c x); [done|]. unfold full_copy in Hx.
  destruct (Z.ltb_spec (Z.of_nat (length (cpy_kdata x))) (copy_size x)); [lia|]. apply wp_ret.
  rewrite <- Hx, Nat2Z.id. by rewrite firstn_all.
Qed.

(** The write of a copy-out: a prefix of the bytes, all of them when it succeeds and the
    range can be written. *)
Definition put_out (w : W) (t : nat) (addr : Z) (l l' : list Z) : Prop :=
  (∃ k, l' = take k l) ∧ (∀ j, (j < length l')%nat → is_Some (loc (view_of w) (task_map t) (addr + Z.of_nat j))) ∧
  (Z.of_nat (length l) ≤ MAX_RW_COUNT → writable_range w t addr (Z.of_nat (length l)) → l' = l).

Lemma wp_copyoutmap t l addr (Q : Z → kstate W → Prop) s :
  (∀ k w, view_of w ≡ v_write (task_map t) addr (take k l) (vw s) → Q KERN_FAILURE (set_w w s)) →
  (∀ l' w, view_of w ≡ v_write (task_map t) addr l' (vw s) → put_out (k_w s) t addr l l' → Q KERN_SUCCESS (set_w w s)) →
  wp (copyoutmap (task_map t) l addr) Q s.
Proof.
  intros Hf Hg. apply wp_bind, wp_hook. intros ok w (k & Hw & Hm & Hk)%write_law. apply wp_ret.
  destruct ok; [|by apply Hf with k]. apply (Hg (take k l)); [done|]. split_and!; [by exists k|done|by apply Hk].
Qed.

Lemma wp_copy_overwrite t dst c x (Q : Z → kstate W → Prop) s :
  k_copies s !! c = Some x → full_copy x →
  (∀ k w, view_of w ≡ v_write (task_map t) dst (take k (cpy_kdata x)) (vw s) → Q KERN_INVALID_ADDRESS (set_w w s)) →
  (∀ l' w, view_of w ≡ v_write (task_map t) dst l' (vw s) → put_out (k_w s) t dst (cpy_kdata x) l' →
     Q KERN_SUCCESS (set_copies (delete c (k_copies s)) (set_w w s))) →
  wp (vm_map_copy_overwrite (task_map t) dst (Some c)) Q s.
Proof.
  intros Hc Hx Hf Hg. apply wp_bind, (wp_get_copy c x); [done|]. apply wp_fmap, wp_bind, wp_ret.
  apply wp_bind, (wp_copy_bytes c x); [done..|]. apply wp_bind, wp_copyoutmap.
  - intros k w Hw. by apply wp_ret, Hf with k.
  - intros l' w Hw Hm. apply wp_bind, (wp_free_copy c x); [done|]. by apply wp_ret, (Hg l').
Qed.

(** The whole of a copy between tasks through a kernel buffer, as [mach_vm_copy] and
    [mach_vm_read_overwrite] make it. *)
Definition transfer {A} (from to : nat) (src size dst : Z) (good : A) (bad : Z → A) : M W A :=
  '(kr, copy) ← vm_map_copyin_common (task_map from) src size false;
  if kr =? KERN_SUCCESS then
    _ ← assert_size copy size;
    kr ← vm_map_copy_overwrite (task_map to) dst copy;
    if kr =? KERN_SUCCESS then mret good else _ ← vm_map_copy_discard copy; mret (bad kr)
  else mret (bad kr).

(** What a transfer writes: bytes of the source, as far as it can be read. *)
Definition carried (w : W) (from : nat) (src size : Z) (l : list Z) : Prop :=
  Z.of_nat (length l) ≤ size ∧ (size ≤ MAX_RW_COUNT → readable_range w from src size → reads (view_of w) (task_map from) src l).

Lemma fetched_carried w from src size b k : fetched w from src size b → carried w from src size (take k b).
Proof.
  intros Hb. pose proof (fetched_reads _ _ _ _ _ Hb) as Hr. destruct Hb as [Hl _]. split; [rewrite length_take; lia|].
  intros H1 H2. apply (reads_prefix _ _ _ _ (drop k b)). rewrite take_drop. by apply Hr.
Qed.

Lemma wp_transfer {A} from to src size dst (good : A) bad (Q : A → kstate W → Prop) s :
  0 ≤ size < 2 ^ 64 - 32 → heap_ok s →
  (∀ kr l s', kr ∈ [KERN_INVALID_ADDRESS; KERN_FAILURE; KERN_RESOURCE_SHORTAGE] → heap s' = heap s →
     carried (k_w s) from src size l → vw s' ≡ v_write (task_map to) dst l (vw s) → Q (bad kr) s') →
  (∀ l s', heap s' = heap s → carried (k_w s) from src size l →
     (size ≤ MAX_RW_COUNT → writable_range (k_w s) to dst size → Z.of_nat (length l) = size) →
     vw s' ≡ v_write (task_map to) dst l (vw s) → Q good s') →
  wp (transfer from to src size dst good bad) Q s.
Proof.
  intros Hsize Hok Hf Hg. apply wp_bind, wp_copyin_common; [done|done| |].
  - intros kr s' Hkr Hh Hn Hv. assert (kr =? KERN_SUCCESS = false) as -> by (by destruct Hkr as [-> | ->]).
    apply wp_ret, Hf with []; [|done|split; [cbn; lia|by intros _ _ i b]|done]. destruct Hkr as [-> | ->]; set_solver.
  - intros c s' b (-> & Hn & Hh) Hb Hv. destruct Hv as [[Hv' Hp']|[? _]]; [|done]. specialize (Hp' eq_refl). pose proof (proj1 Hb) as Hl.
    unfold heap in Hh. injection Hh as Hc Hd He Hm.
    assert (k_copies s' !! k_next s = Some (mkCopy VM_MAP_COPY_KERNEL_BUFFER 0 size b)) as Hx by (by rewrite Hc, lookup_insert_eq).
    assert (Hheap : ∀ w, heap (set_copies (delete (k_next s) (k_copies s')) (set_w w s')) = heap s).
    { intros w. unfold heap. cbn. rewrite Hc, delete_insert_id, Hd, He, Hm; [done|]. by apply (ho_copies s). }
    cbn [KERN_SUCCESS Z.eqb]. apply wp_bind, wp_bind, (wp_get_copy _ _ _ _ Hx). cbn [copy_size]. rewrite Z.eqb_refl. apply wp_ret.
    apply wp_bind, (wp_copy_overwrite _ _ _ _ _ _ Hx); [done| |]; cbn [cpy_kdata].
    + intros k w Hw. cbn [KERN_INVALID_ADDRESS KERN_SUCCESS Z.eqb]. apply wp_bind; eapply wp_free_copy; [exact Hx|]. apply wp_ret, (Hf _ (take k b)).
      * set_solver.
      * apply (Hheap w).
      * by apply fetched_carried.
      * cbn [k_w set_copies set_w]. by rewrite Hw, Hv'.
    + intros l' w Hw ((k & ->) & _ & Hfull). cbn [KERN_SUCCESS Z.eqb]. apply wp_ret, (Hg (take k b)).
      * apply Hheap.
      * by apply fetched_carried.
      * intros H1 H2. rewrite Hfull; [done|lia|]. rewrite Hl. by apply (writable_range_ext (k_w s)).
      * cbn [k_w set_copies set_w]. by rewrite Hw, Hv'.
Qed.

(** The copy-out of a copy to new memory of a task: what it leaves when it fails, and when
    it succeeds. *)
Definition copyout_failed (u : nat) (s s' : kstate W) : Prop :=
  heap s' = heap s ∧ ∀ m a b, byte_at (vw s) m a = Some b → byte_at (vw s') m a = Some b.
Definition copyout_done (u : nat) (c : nat) (l : list Z) (addr : Z) (s s' : kstate W) : Prop :=
  heap s' = (delete c (k_copies s), k_descs s, k_entries s, k_maps s) ∧ reads (vw s') (task_map u) addr l ∧
  unmapped (vw s) (task_map u) (addr / PAGE) (pages (Z.of_nat (length l))) ∧
  ∀ m a, bool_decide (m = task_map u) && in_range (addr / PAGE) (pages (Z.of_nat (length l))) (a / PAGE) = false →
    byte_at (vw s') m a = byte_at (vw s) m a.

Lemma pages_round_up n : 0 ≤ n < 2 ^ 63 → dtape_byte_count_to_page_count_round_up n = pages n.
Proof. intros Hn. unfold dtape_byte_count_to_page_count_round_up, pages. by rewrite u64_small by lia. Qed.

(** The cleanup removes the pages that were allocated. *)
Lemma cleanup_span addr n :
  good_range addr (pages n) → 0 ≤ n < 2 ^ 63 →
  trunc_page addr = addr ∧ u64 (round_page (u64 (addr + round_page n)) - addr) / PAGE = pages n.
Proof.
  unfold good_range, pages. intros (H1 & H2 & H3 & H4) Hn. rewrite trunc_page_spec.
  rewrite (round_page_spec n) by lia. rewrite (u64_small ((n + 4095) / PAGE * PAGE)) by lia.
  rewrite (u64_small (addr + _)) by lia. rewrite round_page_spec by lia.
  rewrite (u64_small ((addr + _ + 4095) / PAGE * PAGE)) by lia. rewrite u64_small by lia. lia.
Qed.

Lemma wp_copyout_new u addr0 c x (Q : Z * Z → kstate W → Prop) s :
  k_copies s !! c = Some x → full_copy x → copy_size x ≤ MAX_RW_COUNT →
  (∀ kr s', kr = KERN_INVALID_ADDRESS ∨ kr = KERN_RESOURCE_SHORTAGE → copyout_failed u s s' → Q (kr, 0) s') →
  (∀ addr s', good_range addr (pages (copy_size x)) → copyout_done u c (cpy_kdata x) addr s s' → Q (KERN_SUCCESS, addr) s') →
  wp (vm_map_copyout_size (task_map u) addr0 (Some c) (copy_size x)) Q s.
Proof.
  intros Hc Hx Hmax Hf Hg. pose proof Hx as Hx'. unfold full_copy in Hx'. assert (Hlt : copy_size x < 2 ^ 63) by (unfold MAX_RW_COUNT in Hmax; lia).
  apply wp_bind, (wp_get_copy c x); [done|]. rewrite Z.eqb_refl. cbn [negb].
  apply wp_bind, wp_bind, wp_hook. intros addr w1 E1. rewrite pages_round_up in E1 by lia. apply wp_ret.
  apply allocate_law in E1 as [[-> E1]|((Hgr & Hun & _) & Hgrant & o & Hfr & E1)].
  { apply wp_ret, Hf; [by right|]. split; [done|]. intros m a b Hb. cbn [k_w set_w]. by rewrite E1. }
  destruct (Z.eqb_spec addr 0) as [->|_]; [destruct Hgr as [? _]; lia|].
  destruct (cleanup_span addr (copy_size x) Hgr) as [Htr Hspan]; [lia|].
  specialize (Hun eq_refl). assert (Hfit : Z.of_nat (length (cpy_kdata x)) ≤ pages (copy_size x) * PAGE) by (unfold pages; lia).
  assert (Hal : addr mod PAGE = 0) by apply Hgr.
  apply wp_bind, (wp_copy_bytes c x); [done..|]. apply wp_bind, wp_copyoutmap; cbn [k_w set_w].
  - intros k w2 E2. cbn -[wp trunc_page round_page]. apply wp_bind, wp_vm_map_remove. rewrite Htr, Hspan.
    intros kr w3 E3. apply wp_ret, Hf; [by left|]. split; [done|]. intros m a b Hb. cbn [k_w set_w] in E3 |- *.
    assert (Hlk : Z.of_nat (length (take k (cpy_kdata x))) ≤ pages (copy_size x) * PAGE) by (rewrite length_take; lia).
    rewrite E3. destruct (kr =? 0); rewrite E2, E1.
    + by rewrite byte_at_unmap_map.
    + rewrite byte_at_map_fresh; [done|done|done|done|]. destruct (_ && _) eqn:E; [|done].
      apply andb_true_iff in E as [->%bool_decide_eq_true E]. unfold byte_at, loc in Hb. by rewrite (Hun _ E) in Hb.
  - intros l' w2 E2 (_ & Hm & Hfull). cbn [k_w set_w] in Hm, Hfull.
    assert (l' = cpy_kdata x) as ->.
    { apply Hfull; [lia|]. intros i Hi. split; [rewrite E1, loc_map by lia; done|]. apply Hgrant; [|lia|done].
      apply in_range_spec. destruct (page_of addr i Hal) as [-> _]; lia. }
    cbn -[wp]. apply wp_bind; eapply wp_free_copy; [exact Hc|]. apply wp_ret, Hg; [done|].
    unfold copyout_done. rewrite E1 in E2. rewrite Hx'. split_and!; [done| |done|].
    + cbn [k_w set_w set_copies]. rewrite E2. apply reads_write; [apply separate_map; lia|].
      intros j Hj. rewrite <- E1. by apply Hm.
    + intros m a Ha. cbn [k_w set_w set_copies]. rewrite E2. by apply byte_at_map_fresh.
Qed.

(** *** [mach_vm_copy] and [mach_vm_read_overwrite] *)

Lemma mach_vm_copy_transfer t src size dst s :
  mach_vm_copy (Some (task_map t)) src size dst s = transfer t t src size dst KERN_SUCCESS (fun kr => kr) s.
Proof.
  unfold mach_vm_copy, transfer, mbind, M_bind. destruct (vm_map_copyin_common _ _ _ _ s) as [[[kr c] s1]|]; [|done].
  destruct (kr =? KERN_SUCCESS); [|done]. destruct (assert_size c size s1) as [[_ s2]|]; [|done].
  destruct (vm_map_copy_overwrite _ _ _ s2) as [[kr' s3]|]; [|done]. by destruct (Z.eqb_spec kr' KERN_SUCCESS) as [->|].
Qed.

Lemma mach_vm_read_overwrite_transfer u t src size dst s :
  mach_vm_read_overwrite (task_map u) (Some (task_map t)) src size dst s =
    transfer t u src size dst (KERN_SUCCESS, Some size) (fun kr => (kr, None)) s.
Proof.
  unfold mach_vm_read_overwrite, transfer, mbind, M_bind. destruct (vm_map_copyin_common _ _ _ _ s) as [[[kr c] s1]|]; [|done].
  destruct (kr =? KERN_SUCCESS); [|done]. destruct (assert_size c size s1) as [[_ s2]|]; [|done].
  destruct (vm_map_copy_overwrite _ _ _ s2) as [[kr' s3]|]; [|done]. by destruct (Z.eqb_spec kr' KERN_SUCCESS) as [->|].
Qed.

End copies.

Section theorems.
Context {W : Type} `{!Hooks W, !HooksLaws W}.
Implicit Types s : kstate W.

(** [mach_vm_copy] and [mach_vm_read_overwrite] on tasks never fault for sizes below
    2^64-32, whatever the hooks answer; nothing but the destination changes, and on every path
    the kernel buffer is released.  When the source range can be read, what is written are the
    bytes it had before the call, so overlapping ranges are copied correctly; on success all
    of them are written, when the destination can be written.  (A success says no more: see
    [partial_copy_succeeds].) *)
Theorem mach_vm_copy_spec t u src size dst s :
  0 ≤ size < 2 ^ 64 - 32 → heap_ok s →
  (∃ kr l s', mach_vm_copy (Some (task_map t)) src size dst s = Some (kr, s') ∧ heap s' = heap s ∧
     carried (k_w s) t src size l ∧ vw s' ≡ v_write (task_map t) dst l (vw s) ∧
     kr ∈ [KERN_SUCCESS; KERN_INVALID_ADDRESS; KERN_FAILURE; KERN_RESOURCE_SHORTAGE] ∧
     (kr = KERN_SUCCESS → size ≤ MAX_RW_COUNT → writable_range (k_w s) t dst size → Z.of_nat (length l) = size)) ∧
  (∃ kr out l s', mach_vm_read_overwrite (task_map u) (Some (task_map t)) src size dst s = Some ((kr, out), s') ∧
     heap s' = heap s ∧ carried (k_w s) t src size l ∧ vw s' ≡ v_write (task_map u) dst l (vw s) ∧
     out = (if kr =? KERN_SUCCESS then Some size else None) ∧
     (kr = KERN_SUCCESS → size ≤ MAX_RW_COUNT → writable_range (k_w s) u dst size → Z.of_nat (length l) = size)).
Proof.
  intros Hsize Hok. split.
  - rewrite mach_vm_copy_transfer.
    enough (wp (transfer t t src size dst KERN_SUCCESS (fun kr => kr)) (fun kr s' => ∃ l, heap s' = heap s ∧
      carried (k_w s) t src size l ∧ vw s' ≡ v_write (task_map t) dst l (vw s) ∧
      kr ∈ [KERN_SUCCESS; KERN_INVALID_ADDRESS; KERN_FAILURE; KERN_RESOURCE_SHORTAGE] ∧
      (kr = KERN_SUCCESS → size ≤ MAX_RW_COUNT → writable_range (k_w s) t dst size → Z.of_nat (length l) = size)) s)
      as (kr & s' & Hr & l & H)%wp_result by (by exists kr, l, s').
    apply wp_transfer; [done|done| |].
    + intros kr l s' Hkr Hh Hl Hv. exists l. split_and!; [done..|set_solver|]. intros ->. set_solver.
    + intros l s' Hh Hl Hm Hv. exists l. split_and!; [done|done|done|set_solver|done].
  - rewrite mach_vm_read_overwrite_transfer.
    enough (wp (transfer t u src size dst (KERN_SUCCESS, Some size) (fun kr => (kr, None))) (fun r s' => ∃ l, heap s' = heap s ∧
      carried (k_w s) t src size l ∧ vw s' ≡ v_write (task_map u) dst l (vw s) ∧
      r.2 = (if r.1 =? KERN_SUCCESS then Some size else None) ∧
      (r.1 = KERN_SUCCESS → size ≤ MAX_RW_COUNT → writable_range (k_w s) u dst size → Z.of_nat (length l) = size)) s)
      as ([kr out] & s' & Hr & l & H)%wp_result by (by exists kr, out, l, s').
    apply wp_transfer; [done|done| |].
    + intros kr l s' Hkr Hh Hl Hv. assert (kr ≠ KERN_SUCCESS) by (intros ->; set_solver).
      exists l. split_and!; [done..| |done]. cbn. by destruct (Z.eqb_spec kr KERN_SUCCESS).
    + intros l s' Hh Hl Hm Hv. exists l. by split_and!.
Qed.

(** A size within 32 of 2^64 makes the block of the copy smaller than its header:
    when [malloc] succeeds, [mach_vm_copy] writes outside the block.  [mach_vm_read] is not
    affected, since it refuses sizes above 32 bits. *)
Theorem mach_vm_copy_size_overflow m src size dst s :
  2 ^ 64 - 32 ≤ size < 2 ^ 64 → (malloc (u64 (sizeof_copy + size)) (k_w s)).1 = true →
  mach_vm_copy (Some m) src size dst s = None ∧
  mach_vm_read (Some m) src size s = Some ((KERN_INVALID_ARGUMENT, None), s).
Proof.
  intros Hs Hm. split.
  - unfold mach_vm_copy, vm_map_copyin_common, new_copy, mbind, M_bind, hook.
    destruct (malloc _ _) as [ok w]; cbn [fst] in Hm. subst ok. cbn [negb].
    assert (u64 (sizeof_copy + size) = size - (2 ^ 64 - 32)) as -> by (unfold u64, sizeof_copy; lia).
    by destruct (Z.ltb_spec (size - (2 ^ 64 - 32)) sizeof_copy); [|unfold sizeof_copy in *; lia].
  - unfold mach_vm_read. destruct (Z.eqb_spec (u32 size) size) as [E|]; [unfold u32 in E; lia|done].
Qed.

(** [mach_vm_deallocate] of a task removes exactly the pages from the one of the first
    byte to the one of the last, also when the range ends in the last page of the address
    space, where rounding up wraps to 0; an empty range is a success and one that wraps
    around is refused, both without a call.  If the hook fails nothing is removed. *)
Theorem mach_vm_deallocate_spec t start size s :
  PAGE ≤ start < 2 ^ 64 → 0 ≤ size < 2 ^ 64 →
  ∃ kr s', mach_vm_deallocate (Some (task_map t)) start size s = Some (kr, s') ∧ heap s' = heap s ∧
    (2 ^ 64 ≤ start + size → kr = KERN_INVALID_ARGUMENT ∧ s' = s) ∧
    (size = 0 → kr = KERN_SUCCESS ∧ s' = s) ∧
    (0 < size → start + size < 2 ^ 64 → kr ≠ KERN_SUCCESS → vw s' ≡ vw s) ∧
    (0 < size → start + size < 2 ^ 64 → kr = KERN_SUCCESS → ∀ m p,
       v_page (vw s') m p =
         if bool_decide (m = task_map t) && (start / PAGE <=? p) && (p <=? (start + size - 1) / PAGE) then None else v_page (vw s) m p).
Proof.
  intros Hst Hsz. unfold mach_vm_deallocate.
  destruct (Z.lt_ge_cases (start + size) (2 ^ 64)) as [Hlt|Hge].
  - rewrite u64_small by lia. destruct (Z.ltb_spec (start + size) start); [lia|].
    destruct (Z.eqb_spec size 0) as [->|Hne].
    + exists KERN_SUCCESS, s. split_and!; [done|done|lia|done|lia|lia].
    + enough (wp (vm_map_remove (task_map t) (trunc_page start) (round_page (start + size))) (fun kr s' => heap s' = heap s ∧
        vw s' ≡ (if kr =? 0 then v_unmap (task_map t) (start / PAGE) ((start + size - 1) / PAGE - start / PAGE + 1) (vw s) else vw s)) s)
        as (kr & s' & Hr & Hh & Hv)%wp_result.
      * exists kr, s'. split_and!; [done|done|lia|lia| |].
        -- intros _ _ Hk. rewrite Hv. by destruct (Z.eqb_spec kr 0).
        -- intros _ _ -> m p. cbn [KERN_SUCCESS Z.eqb] in Hv. rewrite (proj1 Hv). cbn [v_unmap v_page]. unfold in_range.
           destruct (bool_decide (m = task_map t)); [|done]. cbn [andb]. zbool; cbn; try done; lia.
      * apply wp_vm_map_remove. intros kr w Hw. rewrite page_span in Hw by lia. split; [done|].
        cbn [k_w set_w]. rewrite Hw. replace (trunc_page start / PAGE) with (start / PAGE); [done|].
        rewrite trunc_page_spec. lia.
  - assert (u64 (start + size) <? start = true) as ->.
    { apply Z.ltb_lt. unfold u64. lia. }
    exists KERN_INVALID_ARGUMENT, s. split_and!; [done|done|done|lia|lia|lia].
Qed.

(** C17: memory sent in a message survives the trip.  When the source range can be read (every
    page of it is mapped and readable) and is not longer than one [process_vm_readv] moves, the
    copy that [vm_map_copyin_common] made of it holds the bytes the sender had, and
    [vm_map_copyout_size] writes them to new pages of another task; nothing else in any map
    changes and the copy is gone.  If the copy-out fails, no byte of any map is lost and the
    copy is kept for the caller, whose [vm_map_copy_discard] leaves the server's heap as it was
    before.  Nothing else touches the memory of the tasks during the two calls.  Without the
    condition on the range this is false: the server's hook reports a partial transfer as a
    success ([partial_copy_succeeds]). *)
Theorem copyin_copyout_roundtrip t u addr len destroy addr0 s c s1 :
  0 ≤ len ≤ MAX_RW_COUNT → heap_ok s → readable_range (k_w s) t addr len →
  vm_map_copyin_common (task_map t) addr len destroy s = Some ((KERN_SUCCESS, Some c), s1) →
  ∃ l, reads (vw s) (task_map t) addr l ∧ Z.of_nat (length l) = len ∧
  ∃ kr a s2, vm_map_copyout_size (task_map u) addr0 (Some c) len s1 = Some ((kr, a), s2) ∧
    (kr = KERN_SUCCESS → heap s2 = heap s ∧ reads (vw s2) (task_map u) a l ∧
       unmapped (vw s1) (task_map u) (a / PAGE) (pages len) ∧
       ∀ m x, bool_decide (m = task_map u) && in_range (a / PAGE) (pages len) (x / PAGE) = false →
         byte_at (vw s2) m x = byte_at (vw s1) m x) ∧
    (kr ≠ KERN_SUCCESS → a = 0 ∧ (∀ m x b, byte_at (vw s1) m x = Some b → byte_at (vw s2) m x = Some b) ∧
       ∃ s3, vm_map_copy_discard (Some c) s2 = Some (tt, s3) ∧ heap s3 = heap s).
Proof.
  intros Hlen Hok Hrange Hin.
  enough (∃ l, reads (vw s) (task_map t) addr l ∧ Z.of_nat (length l) = len ∧ copied_in s s1 c len l) as (l & Hr & Hl & Hc).
  - exists l. split_and!; [done|done|]. destruct Hc as (-> & _ & Hh). unfold heap in Hh. injection Hh as Hcs Hd He Hm.
    set (x := mkCopy VM_MAP_COPY_KERNEL_BUFFER 0 len l) in *.
    assert (k_copies s1 !! k_next s = Some x) as Hx by (by rewrite Hcs, lookup_insert_eq).
    assert (Hdel : delete (k_next s) (k_copies s1) = k_copies s) by (rewrite Hcs, delete_insert_id; [done|by apply (ho_copies s)]).
    enough (wp (vm_map_copyout_size (task_map u) addr0 (Some (k_next s)) (copy_size x))
      (fun r s2 => (r.1 ≠ KERN_SUCCESS ∧ r.2 = 0 ∧ copyout_failed u s1 s2) ∨ (r.1 = KERN_SUCCESS ∧ copyout_done u (k_next s) l r.2 s1 s2)) s1)
      as ([kr a] & s2 & Hrun & H)%wp_result.
    + exists kr, a, s2. split; [done|]. cbn [fst snd] in H. destruct H as [(Hk & Ha & Hh & Hv)|(Hk & Hh & Hrd & Hun & Hv)].
      * split; [done|]. intros _. split_and!; [done|done|]. unfold heap in Hh. injection Hh as Hc2 Hd2 He2 Hm2.
        unfold vm_map_copy_discard, free_copy. rewrite Hc2, Hx. eexists. split; [done|]. unfold heap. cbn.
        by rewrite Hdel, Hd2, He2, Hm2, Hd, He, Hm.
      * split; [intros _|done]. rewrite Hl in *. split_and!; [|done..]. by rewrite Hh, Hdel, Hd, He, Hm.
    + apply (wp_copyout_new u addr0 (k_next s) x); [done|done|apply Hlen| |].
      * intros kr s' [-> | ->] H; left; split_and!; done.
      * intros a s' _ H. by right.
  - refine (wp_run _ (fun r s' => ∀ c', r = (KERN_SUCCESS, Some c') → ∃ l, _ ∧ _ ∧ copied_in s s' c' len l) _ _ _ _ Hin c eq_refl).
    apply wp_copyin_common; [unfold MAX_RW_COUNT in Hlen; lia|done| |]; [by intros kr s' [-> | ->]|].
    intros c' s' l H1 H2 _ c'' [= ->]. exists l. split_and!; [apply (fetched_reads _ _ _ len); [done|lia|done]|apply H2|done].
Qed.

(** What [mach_vm_region] and [mach_vm_region_recurse] report of a task is the region
    the hooks give for the address or, if there is none, for the next region;
    [KERN_NO_SPACE] when there is none after it.  [mach_vm_region_recurse] claims success
    also for a block of a size it does not support, which it leaves unwritten; and in a
    block of the supported size, the short one, the share mode (byte 31) is 0: the code stores
    it at byte 47, its place in the long structure. *)
Theorem mach_vm_region_spec t address infoCnt s :
  ∃ r s', lookup_region t address s = Some (r, s') ∧ heap s' = heap s ∧ vw s' ≡ vw s ∧
    (∀ i, r = inr i → start_address i mod PAGE = 0 ∧
       (address < start_address i + page_count i * PAGE) ∧
       is_Some (v_page (vw s) (task_map t) (start_address i / PAGE))) ∧
    mach_vm_region_recurse t address infoCnt s =
      Some (match r with
            | inl kr => (kr, None, None)
            | inr i => (KERN_SUCCESS, Some (start_address i, u64 (page_count i * PAGE)),
                        if infoCnt =? 12 then Some (submap_info i) else None)
            end, s') ∧
    (∀ i, r = inr i → length (submap_info i) = 76%nat ∧ submap_info i !! 31%nat = Some 0 ∧
       submap_info i !! 47%nat = Some (if shared i then 4 else 2)) ∧
    (∀ flavor count, (flavor = VM_REGION_BASIC_INFO_64 ∧ 9 ≤ count) ∨ (flavor = VM_REGION_BASIC_INFO ∧ 8 ≤ count) →
       ∃ out, mach_vm_region t address flavor count s = Some (out, s') ∧
         match r with
         | inl kr => ro_kr out = kr ∧ ro_info out = None
         | inr i => ro_kr out = KERN_SUCCESS ∧ ro_address out = Some (start_address i) ∧ is_Some (ro_info out)
         end).
Proof.
  enough (wp (lookup_region t address) (fun r s' => heap s' = heap s ∧ vw s' ≡ vw s ∧ ∀ i, r = inr i →
    start_address i mod PAGE = 0 ∧ address < start_address i + page_count i * PAGE ∧
    is_Some (v_page (vw s) (task_map t) (start_address i / PAGE))) s) as (r & s' & Hr & Hh & Hv & Hi)%wp_result.
  - exists r, s'. split_and!; [done|done|done|done| | |].
    + unfold mach_vm_region_recurse, mbind, M_bind. rewrite Hr. by destruct r.
    + intros i _. by destruct i as [? ? ? ? []].
    + intros flavor count Hc. unfold mach_vm_region, mbind, M_bind.
      destruct Hc as [[-> Hc]|[-> Hc]]; cbn [VM_REGION_BASIC_INFO VM_REGION_BASIC_INFO_64 Z.eqb Pos.eqb orb]; rewrite Hr;
        (destruct r as [kr|i]; [eexists; by split|]);
        (zbool; [lia|]); eexists; (split; [done|]); by cbn.
  - apply wp_bind, wp_hook. intros r w (E & _ & Hr)%region_law. destruct r as [i|].
    + apply wp_ret. destruct (Hr i eq_refl) as (H1 & H2 & H3). split_and!; [done|done|]. intros i' [= <-]. split_and!; [done|lia|].
      apply H3, in_range_spec. lia.
    + apply wp_bind, wp_hook. intros nx w2 [E2 Hn]%next_region_law. destruct (Z.eqb_spec nx 0) as [->|Hne].
      { apply wp_ret. split_and!; [done| |done]. cbn. by rewrite E2. }
      apply wp_bind, wp_hook. intros r w3 (E3 & _ & Hr3)%region_law. apply wp_ret. cbn [k_w set_w] in *.
      split_and!; [done|by rewrite E3, E2|]. intros i Hi. destruct r as [i'|]; [|done]. injection Hi as ->.
      destruct (Hr3 i eq_refl) as (H1 & H2 & H3). split_and!; [done|lia|]. rewrite <- (proj1 E), <- (proj1 E2). apply H3, in_range_spec. lia.
Qed.
End theorems.

(** ** Examples on the host *)

(** Task 0 has a page at 65536 that starts with 1, 2, 3; task 1 has one at 81920. *)
Definition example_host (answers : list bool) : host :=
  mkHost {[ (1%nat, 16) := (0%nat, 0); (2%nat, 20) := (1%nat, 0) ]}
    {[ (0%nat, 0) := 1; (0%nat, 1) := 2; (0%nat, 2) := 3 ]} ∅ answers.
Definition example_state (answers : list bool) : kstate host := mkK (example_host answers) ∅ ∅ ∅ ∅ 0.

Lemma example_heap_ok answers : heap_ok (example_state answers).
Proof. by split. Qed.

(** The copy to the next bytes overlaps its source; the copy into task 1 fails in the
    write. *)
Lemma mach_vm_copy_spec_witness :
  fst <$> mach_vm_copy (Some (task_map 0)) 65536 3 65537 (example_state []) = Some KERN_SUCCESS ∧
  (∃ kr l s', mach_vm_copy (Some (task_map 0)) 65536 3 65537 (example_state []) = Some (kr, s') ∧
     heap s' = heap (example_state []) ∧ carried (k_w (example_state [])) 0 65536 3 l) ∧
  fst <$> mach_vm_read_overwrite (task_map 1) (Some (task_map 0)) 65536 3 81920 (example_state [true; true; false]) =
    Some (KERN_INVALID_ADDRESS, None).
Proof.
  split; [reflexivity|]. split; [|reflexivity].
  assert (H : 0 ≤ 3 < 2 ^ 64 - 32) by lia.
  destruct (mach_vm_copy_spec 0 1 65536 3 65537 (example_state []) H (example_heap_ok [])) as [(kr & l & s' & Hr & Hh & Hl & _) _].
  exists kr, l, s'. exact (conj Hr (conj Hh Hl)).
Defined.

Lemma mach_vm_copy_size_overflow_witness :
  mach_vm_copy (Some (task_map 0)) 65536 (2 ^ 64 - 1) 65537 (example_state []) = None.
Proof.
  assert (H : 2 ^ 64 - 32 ≤ 2 ^ 64 - 1 < 2 ^ 64) by lia.
  exact (proj1 (mach_vm_copy_size_overflow (task_map 0) 65536 (2 ^ 64 - 1) 65537 (example_state []) H eq_refl)).
Defined.

Lemma mach_vm_deallocate_spec_witness :
  fst <$> mach_vm_deallocate (Some (task_map 0)) 65539 2 (example_state []) = Some KERN_SUCCESS ∧
  ∃ kr s', mach_vm_deallocate (Some (task_map 0)) 65539 2 (example_state []) = Some (kr, s') ∧
    heap s' = heap (example_state []) ∧ (kr = KERN_SUCCESS → v_page (vw s') (task_map 0) 16 = None).
Proof.
  split; [reflexivity|].
  assert (H1 : PAGE ≤ 65539 < 2 ^ 64) by lia. assert (H2 : 0 ≤ 2 < 2 ^ 64) by lia.
  destruct (mach_vm_deallocate_spec 0 65539 2 (example_state []) H1 H2) as (kr & s' & Hr & Hh & _ & _ & _ & Hp).
  exists kr, s'. split; [exact Hr|]. split; [exact Hh|]. intros Hk.
  assert (Ha : 0 < 2) by lia. assert (Hb : 65539 + 2 < 2 ^ 64) by lia. exact (Hp Ha Hb Hk (task_map 0) 16).
Defined.

Lemma example_readable answers : readable_range (k_w (example_state answers)) 0 65536 3.
Proof. intros i Hi. assert (i = 0 ∨ i = 1 ∨ i = 2) as [-> | [-> | ->]] by lia; (split; [by eexists|done]). Qed.

(** A partial transfer is a success: task 0 has nothing after its page, yet the copy of the
    last byte of the page and the next one succeeds, and so does its copy-out; the receiver
    gets, for the second byte, what the server's heap held. *)
Theorem partial_copy_succeeds :
  byte_at (vw (example_state [])) (task_map 0) 69632 = None ∧
  ∃ c s1 a s2, vm_map_copyin_common (task_map 0) 69631 2 false (example_state []) = Some ((KERN_SUCCESS, Some c), s1) ∧
    vm_map_copyout_size (task_map 1) 0 (Some c) 2 s1 = Some ((KERN_SUCCESS, a), s2) ∧
    byte_at (vw s2) (task_map 1) (a + 1) = Some 170.
Proof.
  split; [reflexivity|].
  assert (Hf : (p ← vm_map_copyin_common (task_map 0) 69631 2 false (example_state []);
    q ← vm_map_copyout_size (task_map 1) 0 p.1.2 2 p.2;
    Some (p.1, q.1.1, byte_at (vw q.2) (task_map 1) (q.1.2 + 1))) = Some ((KERN_SUCCESS, Some 0%nat), KERN_SUCCESS, Some 170))
    by (vm_compute; reflexivity).
  destruct (vm_map_copyin_common (task_map 0) 69631 2 false (example_state [])) as [[[kr c] s1]|]; [|done].
  cbn [mbind option_bind fst snd] in Hf. destruct (vm_map_copyout_size (task_map 1) 0 c 2 s1) as [[[kr2 a] s2]|] eqn:E; [|done].
  cbn [mbind option_bind fst snd] in Hf. injection Hf as -> -> -> Hb. by exists 0%nat, s1, a, s2.
Qed.

Lemma copyin_copyout_roundtrip_witness :
  ∃ c s1, vm_map_copyin_common (task_map 0) 65536 3 true (example_state []) = Some ((KERN_SUCCESS, Some c), s1) ∧
    ∃ kr a s2, vm_map_copyout_size (task_map 1) 0 (Some c) 3 s1 = Some ((kr, a), s2) ∧ kr = KERN_SUCCESS ∧ heap s2 = heap (example_state []).
Proof.
  assert (H : 0 ≤ 3 ≤ MAX_RW_COUNT) by (unfold MAX_RW_COUNT; lia).
  assert (Hf : (fst <$> vm_map_copyin_common (task_map 0) 65536 3 true (example_state [])) = Some (KERN_SUCCESS, Some 0%nat)) by reflexivity.
  assert (Hk : (p ← vm_map_copyin_common (task_map 0) 65536 3 true (example_state []);
    fst ∘ fst <$> vm_map_copyout_size (task_map 1) 0 (Some 0%nat) 3 p.2) = Some KERN_SUCCESS) by reflexivity.
  destruct (vm_map_copyin_common (task_map 0) 65536 3 true (example_state [])) as [[r s1]|] eqn:E; [|discriminate].
  injection Hf as ->. exists 0%nat, s1. split; [reflexivity|].
  destruct (copyin_copyout_roundtrip 0 1 65536 3 true 0 (example_state []) 0%nat s1 H (example_heap_ok []) (example_readable []) E)
    as (l & _ & _ & kr & a & s2 & Hr & Hg & _).
  exists kr, a, s2. split; [exact Hr|].
  assert (Hkr : kr = KERN_SUCCESS) by (cbn [mbind option_bind snd] in Hk; rewrite Hr in Hk; by injection Hk).
  split; [exact Hkr|]. exact (proj1 (Hg Hkr)).
Defined.

Lemma mach_vm_region_spec_witness :
  ∃ r s', lookup_region 0 65540 (example_state []) = Some (r, s') ∧ r = inr (mkRegion 65536 1 0 3 false) ∧
    heap s' = heap (example_state []).
Proof.
  destruct (mach_vm_region_spec 0 65540 12 (example_state [])) as (r & s' & Hr & Hh & _). exists r, s'.
  split; [exact Hr|]. split; [vm_compute in Hr; injection Hr as <- _; reflexivity|exact Hh].
Defined.
