(* ===== verification/DtapeShared.v ===== *)
(** * Shared memory between tasks
    ([src/src/external/osxieserver/duct-tape/src/memory.c])

    [mach_vm_remap] without a copy moves the memory of the source into a memory file that
    both tasks map.  The server keeps, per map, the entries of its shared ranges; an entry
    refers to a counted descriptor, which owns the file.  The functions hold the lock of the
    map's tree (the mutex of [DtapeMutex]) around each access; a call is one step here. *)

From Stdlib Require Import Sorted.
From S2P Require Import Prelude DtapeHooks DtapeMemory.

Section shared.
Context {W : Type} `{!Hooks W}.

Definition set_descs (g : gmap nat shared_descriptor) (s : kstate W) : kstate W :=
  mkK (k_w s) (k_copies s) g (k_entries s) (k_maps s) (k_next s).
Definition set_entries (g : gmap nat shared_entry) (s : kstate W) : kstate W :=
  mkK (k_w s) (k_copies s) (k_descs s) g (k_maps s) (k_next s).
Definition set_maps (g : gmap nat dmap) (s : kstate W) : kstate W :=
  mkK (k_w s) (k_copies s) (k_descs s) (k_entries s) g (k_next s).

(** ** Descriptors and entries *)

Definition add_desc (x : shared_descriptor) : M W nat := fun s => Some (k_next s,
  mkK (k_w s) (k_copies s) (<[k_next s := x]> (k_descs s)) (k_entries s) (k_maps s) (S (k_next s))).

Definition dtape_map_shared_descriptor_create (fd size : Z) : M W (option nat) :=
  ok ← hook (malloc 24);
  if negb ok then mret None else
  d ← add_desc (mkDesc 1 fd size);
  mret (Some d).

Definition get_desc (d : nat) : M W shared_descriptor := fun s =>
  match k_descs s !! d with Some x => Some (x, s) | None => None end.
Definition put_desc (d : nat) (x : shared_descriptor) : M W unit := fun s => Some (tt, set_descs (<[d := x]> (k_descs s)) s).

Definition del_desc (d : nat) : M W unit := fun s => Some (tt, set_descs (delete d (k_descs s)) s).

Definition dtape_map_shared_descriptor_retain (d : nat) : M W unit :=
  x ← get_desc d;
  put_desc d (mkDesc (refcount x + 1) (memfd x) (d_size x)).

Definition dtape_map_shared_descriptor_release (d : nat) : M W unit :=
  x ← get_desc d;
  _ ← put_desc d (mkDesc (refcount x - 1) (memfd x) (d_size x));
  if negb (refcount x - 1 =? 0) then mret tt else
  _ ← hook (fun w => (tt, close (memfd x) w));
  del_desc d.

Definition add_entry (x : shared_entry) : M W nat := fun s => Some (k_next s,
  mkK (k_w s) (k_copies s) (k_descs s) (<[k_next s := x]> (k_entries s)) (k_maps s) (S (k_next s))).

Definition dtape_map_shared_entry_create (address size page_offset : Z) (descriptor : nat) : M W (option nat) :=
  ok ← hook (malloc 64);
  if negb ok then mret None else
  e ← add_entry (mkEntry address size page_offset descriptor);
  _ ← dtape_map_shared_descriptor_retain descriptor;
  mret (Some e).

Definition get_entry (e : nat) : M W shared_entry := fun s =>
  match k_entries s !! e with Some x => Some (x, s) | None => None end.

Definition del_entry (e : nat) : M W unit := fun s => Some (tt, set_entries (delete e (k_entries s)) s).

Definition dtape_map_shared_entry_destroy (e : nat) : M W unit :=
  x ← get_entry e;
  _ ← dtape_map_shared_descriptor_release (e_descriptor x);
  del_entry e.

(** ** The trees *)

Definition entry_address (g : gmap nat shared_entry) (e : nat) : Z :=
  match g !! e with Some x => e_address x | None => 0 end.

Definition dtape_map_shared_entry_compare (g : gmap nat shared_entry) (first second : nat) : Z :=
  if entry_address g first <? entry_address g second then -1
  else if entry_address g second <? entry_address g first then 1 else 0.

(** [RB_INSERT]: a node with the same key stays, and the new one is not inserted. *)
Fixpoint rb_insert (g : gmap nat shared_entry) (e : nat) (l : list nat) : list nat :=
  match l with
  | [] => [e]
  | x :: l' =>
      let c := dtape_map_shared_entry_compare g e x in
      if c <? 0 then e :: x :: l' else if 0 <? c then x :: rb_insert g e l' else x :: l'
  end.

Definition get_map (t : nat) : M W dmap := fun s =>
  match k_maps s !! t with Some m => Some (m, s) | None => None end.
Definition put_map (t : nat) (m : dmap) : M W unit := fun s => Some (tt, set_maps (<[t := m]> (k_maps s)) s).
Definition del_map (t : nat) : M W unit := fun s => Some (tt, set_maps (delete t (k_maps s)) s).
Definition get_entries : M W (gmap nat shared_entry) := fun s => Some (k_entries s, s).

Definition dtape_map_insert_shared_entry (t : nat) (e : nat) : M W unit :=
  m ← get_map t;
  g ← get_entries;
  put_map t (mkDmap (map_refcnt m) (rb_insert g e (shared_entries m))).

(** Whether the loop over the tree skips an entry. *)
Definition entry_skipped (x : shared_entry) (address size : Z) : bool :=
  (u64 (e_address x + e_size x) <? address) || (u64 (address + size) <? e_address x).

Fixpoint find_loop (g : gmap nat shared_entry) (address size : Z) (room : nat) (l : list nat) : list (nat * shared_entry) :=
  match l, room with
  | e :: l, S room' =>
      match g !! e with
      | Some x => if entry_skipped x address size then find_loop g address size room l
                  else (e, x) :: find_loop g address size room' l
      | None => []
      end
  | _, _ => []
  end.

Definition dtape_map_find_shared_entries_locked (t : nat) (address size : Z) (entry_count : nat) : M W (list (nat * shared_entry)) :=
  m ← get_map t;
  g ← get_entries;
  mret (find_loop g address size entry_count (shared_entries m)).

(** ** Maps *)

Definition dtape_vm_map_create (t : nat) : M W bool :=
  ok ← hook (malloc 128);
  if negb ok then mret false else _ ← put_map t (mkDmap 1 []); mret true.

(** The loop of [dtape_vm_map_destroy] removes and destroys the entries in order. *)
Fixpoint destroy_loop (t : nat) (l : list nat) : M W unit :=
  match l with
  | [] => mret tt
  | e :: l =>
      m ← get_map t;
      _ ← put_map t (mkDmap (map_refcnt m) (filter (fun x => x ≠ e) (shared_entries m)));
      _ ← dtape_map_shared_entry_destroy e;
      destroy_loop t l
  end.

Definition dtape_vm_map_destroy (t : nat) : M W unit :=
  m ← get_map t;
  if negb (map_refcnt m - 1 =? 0) then fault else
  _ ← put_map t (mkDmap 0 (shared_entries m));
  _ ← destroy_loop t (shared_entries m);
  del_map t.

Definition vm_map_reference (t : nat) : M W unit :=
  m ← get_map t; put_map t (mkDmap (map_refcnt m + 1) (shared_entries m)).

(** [os_ref_release_live] panics if the last reference is released. *)
Definition vm_map_deallocate (t : nat) : M W unit :=
  m ← get_map t;
  if map_refcnt m - 1 =? 0 then fault else put_map t (mkDmap (map_refcnt m - 1) (shared_entries m)).

(** ** [mach_vm_remap_external_shared] *)

Definition VM_FLAGS_ANYWHERE : Z := 1.
Definition VM_FLAGS_OVERWRITE : Z := 16384.
Definition VM_FLAGS_RETURN_DATA_ADDR : Z := 1048576.
Definition VM_PROT_ALL : Z := 7.

(** The variables the code after [out:] looks at, and the outputs ([address],
    [cur_protection], [max_protection]) if they were written. *)
Record remap_vars := mkVars {
  v_kr : Z; v_memfd : Z; v_mapped : option Z; v_desc : option nat;
  v_src_entry : option nat; v_target_entry : option nat; v_out : option (Z * Z * Z);
}.

(** From [src_setup_done] on: map the file into the target and record the entry. *)
Definition remap_target (target : nat) (map_size prot offset flags : Z) (mapped : option Z) (d : nat) : M W remap_vars :=
  x ← get_desc d;
  target_addr ← hook (task_map_file target (memfd x) (dtape_byte_count_to_page_count_round_up map_size) prot 0 0 dtape_memory_flag_none);
  if target_addr =? 0 then mret (mkVars KERN_FAILURE (-1) mapped (Some d) None None None) else
  e ← dtape_map_shared_entry_create target_addr map_size 0 d;
  match e with
  | None => mret (mkVars KERN_RESOURCE_SHORTAGE (-1) mapped (Some d) None None None)
  | Some e =>
      _ ← dtape_map_insert_shared_entry target e;
      mret (mkVars KERN_SUCCESS (-1) mapped (Some d) None None
        (Some (if Z.land flags VM_FLAGS_RETURN_DATA_ADDR =? 0 then target_addr else u64 (target_addr + offset), prot, VM_PROT_ALL)))
  end.

(** Creating the memory file and mapping it into the server; [None] after an error, with the
    value of [memfd]. *)
Definition remap_file (map_size : Z) : M W (Z * option Z) :=
  fd ← hook memfd_create;
  if fd <? 0 then mret (fd, None) else
  ok ← hook (ftruncate fd map_size);
  if negb ok then mret (fd, None) else
  mapped ← hook (mmap_shared map_size fd);
  mret (fd, mapped).

(** The file takes the place of the source's memory, and an entry records it. *)
Definition remap_replace (src target : nat) (start_memaddr map_size prot offset flags a fd : Z) (d : nat) : M W remap_vars :=
  got ← hook (task_map_file src fd (dtape_byte_count_to_page_count_round_up map_size) prot start_memaddr 0
                (Z.lor dtape_memory_flag_fixed dtape_memory_flag_overwrite));
  if negb (got =? start_memaddr) then mret (mkVars KERN_FAILURE (-1) (Some a) (Some d) None None None) else
  e ← dtape_map_shared_entry_create start_memaddr map_size 0 d;
  match e with
  | None => mret (mkVars KERN_RESOURCE_SHORTAGE (-1) (Some a) (Some d) None None None)
  | Some e =>
      _ ← dtape_map_insert_shared_entry src e;
      remap_target target map_size prot offset flags (Some a) d
  end.

(** The file is filled from the source, which then maps it.  The copy-in writes to the
    server's mapping what it read, also when it fails. *)
Definition remap_source (src target : nat) (start_memaddr map_size prot offset flags : Z) : M W remap_vars :=
  '(fd, mapped) ← remap_file map_size;
  match mapped with
  | None => mret (mkVars KERN_RESOURCE_SHORTAGE fd None None None None None)
  | Some a =>
      d ← dtape_map_shared_descriptor_create fd map_size;
      match d with
      | None => mret (mkVars KERN_RESOURCE_SHORTAGE fd (Some a) None None None None)
      | Some d =>
          '(kr, l) ← copyinmap (task_map src) start_memaddr map_size;
          _ ← copyoutmap kernel_map l a;
          if negb (kr =? KERN_SUCCESS) then mret (mkVars kr (-1) (Some a) (Some d) None None None) else
          remap_replace src target start_memaddr map_size prot offset flags a fd d
      end
  end.

(** From [out] on. *)
Definition remap_out (map_size : Z) (v : remap_vars) : M W (Z * option (Z * Z * Z)) :=
  _ ← match v_mapped v with Some a => hook (munmap a map_size) | None => mret true end;
  _ ← match v_desc v with Some d => dtape_map_shared_descriptor_release d | None => mret tt end;
  _ ← match v_src_entry v with Some e => dtape_map_shared_entry_destroy e | None => mret tt end;
  _ ← match v_target_entry v with Some e => dtape_map_shared_entry_destroy e | None => mret tt end;
  _ ← (if 0 <=? v_memfd v then hook (fun w => (tt, close (v_memfd v) w)) else mret tt);
  mret (v_kr v, v_out v).

Definition mach_vm_remap_external_shared (target src : nat) (size flags memory_address : Z) : M W (Z * option (Z * Z * Z)) :=
  let end_memaddr := round_page (u64 (memory_address + size)) in
  let start_memaddr := trunc_page memory_address in
  let map_size := u64 (end_memaddr - start_memaddr) in
  let offset := memory_address - start_memaddr in
  region ← hook (task_get_memory_region_info src memory_address);
  v ← match region with
      | None => mret (mkVars KERN_FAILURE (-1) None None None None None)
      | Some region_info =>
          let prot := linux_prot (protection region_info) in
          existing ← dtape_map_find_shared_entries_locked src start_memaddr map_size 8;
          match existing with
          | [(_, x)] =>
              if (e_address x =? start_memaddr) && (map_size <=? e_size x)
              then _ ← dtape_map_shared_descriptor_retain (e_descriptor x);
                   remap_target target map_size prot offset flags None (e_descriptor x)
              else remap_source src target start_memaddr map_size prot offset flags
          | _ => remap_source src target start_memaddr map_size prot offset flags
          end
      end;
  remap_out map_size v.

(** [mach_vm_remap_external] *)
Definition mach_vm_remap_external (target src : nat) (address size flags memory_address : Z) (copy : bool) : M W (Z * option (Z * Z * Z)) :=
  if negb copy then mach_vm_remap_external_shared target src size flags memory_address else
  '(kr, mem_copy) ← vm_map_copyin_common (task_map src) memory_address size false;
  if negb (kr =? KERN_SUCCESS) then _ ← vm_map_copy_discard mem_copy; mret (kr, None) else
  let anywhere := negb (Z.land flags VM_FLAGS_ANYWHERE =? 0) in
  let memflags := Z.lor (if anywhere then 0 else dtape_memory_flag_fixed)
                        (if Z.land flags VM_FLAGS_OVERWRITE =? 0 then 0 else dtape_memory_flag_overwrite) in
  addr ← hook (task_allocate_pages target (dtape_byte_count_to_page_count_round_up size)
                 (Z.lor PROT_EXEC (Z.lor PROT_READ PROT_WRITE)) (if anywhere then 0 else address) memflags);
  if addr =? 0 then _ ← vm_map_copy_discard mem_copy; mret (KERN_RESOURCE_SHORTAGE, None) else
  kr ← vm_map_copy_overwrite (task_map target) addr mem_copy;
  if negb (kr =? KERN_SUCCESS) then
    _ ← vm_map_copy_discard mem_copy;
    _ ← hook (task_free_pages target addr (dtape_byte_count_to_page_count_round_up size));
    mret (kr, None)
  else mret (KERN_SUCCESS, Some (addr, Z.lor PROT_READ PROT_WRITE, VM_PROT_ALL)).

End shared.

(** ** The invariant *)

(** How many entries refer to a descriptor. *)
Definition refs (g : gmap nat shared_entry) (d : nat) : Z :=
  Z.of_nat (size (filter (fun kv => e_descriptor kv.2 = d) g)).

Lemma refs_insert g d e x : g !! e = None → refs (<[e := x]> g) d = refs g d + (if decide (e_descriptor x = d) then 1 else 0).
Proof.
  intros He. unfold refs. destruct (decide (e_descriptor x = d)) as [Hd|Hd].
  - rewrite map_filter_insert_True, map_size_insert_None by (done || (apply map_lookup_filter_None_2; by left)). lia.
  - rewrite map_filter_insert_False, delete_id by done. lia.
Qed.

Lemma refs_delete g d e x : g !! e = Some x → refs (delete e g) d = refs g d - (if decide (e_descriptor x = d) then 1 else 0).
Proof.
  intros He. rewrite <- (insert_delete_id g e x He) at 2. rewrite refs_insert; [lia|]. apply lookup_delete_eq.
Qed.

Lemma refs_positive g d e x : g !! e = Some x → e_descriptor x = d → 0 < refs g d.
Proof.
  intros He Hd. rewrite <- (insert_delete_id g e x He), refs_insert; [|apply lookup_delete_eq].
  rewrite decide_True by done. unfold refs. lia.
Qed.

Lemma refs_nonneg g d : 0 ≤ refs g d.
Proof. unfold refs. lia. Qed.

Lemma refs_empty d : refs ∅ d = 0.
Proof. done. Qed.

(** The nodes of a tree, in order. *)
Definition ordered (g : gmap nat shared_entry) (l : list nat) : Prop :=
  StronglySorted (fun a b => entry_address g a < entry_address g b) l.

(** What a map keeps in its tree. *)
Record tree_ok (g : gmap nat shared_entry) (l : list nat) : Prop := mkTreeOk {
  to_live e : e ∈ l → is_Some (g !! e);
  to_ordered : ordered g l;
}.

Section invariant.
Context {W : Type} `{!Hooks W, !HooksLaws W}.
(** The descriptors of the server that are not those of shared memory. *)
Context (F : Z → Prop).
Implicit Types s : kstate W.

(** [loose] is a memory file that has no descriptor object yet; [held] is a descriptor object
    the running function has a reference to.  Otherwise the count of a descriptor object is
    the number of entries that refer to it, it is positive, and the open files are those of
    the descriptor objects, which do not share files. *)
Record shared_inv (loose : option Z) (held : option nat) s : Prop := mkSharedInv {
  si_heap : heap_ok s;
  si_refs d x : k_descs s !! d = Some x → refcount x = refs (k_entries s) d + (if decide (held = Some d) then 1 else 0);
  si_live d x : k_descs s !! d = Some x → 0 < refcount x;
  si_held d : held = Some d → is_Some (k_descs s !! d);
  si_desc e x : k_entries s !! e = Some x → is_Some (k_descs s !! e_descriptor x);
  si_inj d d' x x' : k_descs s !! d = Some x → k_descs s !! d' = Some x' → memfd x = memfd x' → d = d';
  si_fds fd : is_Some (v_fd (view_of (k_w s)) fd) ↔ F fd ∨ loose = Some fd ∨ ∃ d x, k_descs s !! d = Some x ∧ memfd x = fd;
  si_own d x : k_descs s !! d = Some x → ¬ F (memfd x) ∧ loose ≠ Some (memfd x);
  si_loose fd : loose = Some fd → ¬ F fd;
  si_trees t m : k_maps s !! t = Some m → tree_ok (k_entries s) (shared_entries m);
  si_disjoint t t' m m' e : k_maps s !! t = Some m → k_maps s !! t' = Some m' →
    e ∈ shared_entries m → e ∈ shared_entries m' → t = t';
}.

Notation vw s := (view_of (k_w s)).

(** Calls that change no file descriptor. *)
Lemma inv_set_w loose held s w :
  shared_inv loose held s → (∀ fd, v_fd (view_of w) fd = v_fd (vw s) fd) → shared_inv loose held (set_w w s).
Proof.
  intros [[H1 H1' H1''] H2 H3 H4 H5 H6 H7 H8 H9 H10 H11] Hfd. split; [split; done|done..| |done|done|done|done].
  intros fd. cbn. rewrite Hfd. apply H7.
Qed.

Lemma inv_view loose held s w : shared_inv loose held s → view_of w ≡ vw s → shared_inv loose held (set_w w s).
Proof. intros H Hv. apply inv_set_w; [done|]. intros fd. by rewrite (proj2 (proj2 Hv)). Qed.

(** *** Descriptor objects *)

Lemma wp_descriptor_create fd size (Q : option nat → kstate W → Prop) s :
  shared_inv (Some fd) None s →
  (∀ w, view_of w ≡ vw s → shared_inv (Some fd) None (set_w w s) → Q None (set_w w s)) →
  (∀ d s', shared_inv None (Some d) s' → vw s' ≡ vw s → d = k_next s → k_descs s' = <[d := mkDesc 1 fd size]> (k_descs s) →
     k_maps s' = k_maps s → k_copies s' = k_copies s → k_entries s' = k_entries s →
     (∀ u p, prot_of (k_w s') u p = prot_of (k_w s) u p) → Q (Some d) s') →
  wp (dtape_map_shared_descriptor_create fd size) Q s.
Proof.
  intros Hi Hf Hg. apply wp_bind, wp_hook. intros ok w [E P]%malloc_law. destruct ok; [|apply wp_ret, Hf; [done|by apply inv_view]].
  apply wp_bind. unfold wp at 1, add_desc. cbn [k_next set_w k_w k_copies k_descs k_entries k_maps]. apply wp_ret, Hg; try done.
  pose proof Hi as [[H1 H1' H1''] H2 H3 H4 H5 H6 H7 H8 H9 H10 H11]. specialize (H1' (k_next s) ltac:(lia)).
  assert (Hz : refs (k_entries s) (k_next s) = 0).
  { destruct (decide (refs (k_entries s) (k_next s) = 0)) as [|Hn]; [done|]. exfalso. unfold refs in Hn.
    destruct (map_choose (filter (fun kv => e_descriptor kv.2 = k_next s) (k_entries s))) as (e & x & Hx).
    { intros He. by rewrite He, map_size_empty in Hn. }
    apply map_lookup_filter_Some in Hx as [Hx Hd]. cbn in Hd. apply H5 in Hx. rewrite Hd, H1' in Hx. by destruct Hx. }
  split; cbn [k_w k_copies k_descs k_entries k_maps k_next]; [split; intros c Hc; cbn in *| | | | | | | | | |].
  - apply H1. lia.
  - rewrite lookup_insert_ne by lia. apply (ho_descs s); [apply Hi|lia].
  - apply H1''. lia.
  - intros d x. destruct (decide (d = k_next s)) as [->|Hne].
    + rewrite lookup_insert_eq. intros [= <-]. cbn. rewrite decide_True by done. lia.
    + rewrite lookup_insert_ne by done. intros Hx. rewrite (H2 _ _ Hx), !decide_False by congruence. done.
  - intros d x. destruct (decide (d = k_next s)) as [->|Hne]; [rewrite lookup_insert_eq; intros [= <-]; done|].
    rewrite lookup_insert_ne by done. apply H3.
  - intros d [= <-]. by rewrite lookup_insert_eq.
  - intros e x Hx. apply lookup_insert_is_Some'. right. by eapply H5.
  - intros d d' x x'. destruct (decide (d = k_next s)) as [->|Hne], (decide (d' = k_next s)) as [->|Hne']; [done| | |].
    + rewrite lookup_insert_eq, lookup_insert_ne by done. intros [= <-] Hx Hm. cbn in Hm. destruct (H8 _ _ Hx) as [_ []]. by rewrite Hm.
    + rewrite lookup_insert_eq, lookup_insert_ne by done. intros Hx [= <-] Hm. cbn in Hm. destruct (H8 _ _ Hx) as [_ []]. by rewrite Hm.
    + rewrite !lookup_insert_ne by done. apply H6.
  - intros f. rewrite (proj2 (proj2 E)), H7. split.
    + intros [?|[[= <-]|(d & x & Hx & Hm)]]; [by left|right; right; exists (k_next s), (mkDesc 1 fd size); by rewrite lookup_insert_eq|].
      right; right. exists d, x. rewrite lookup_insert_ne; [done|]. intros <-. congruence.
    + intros [?|[?|(d & x & Hx & Hm)]]; [by left|done|]. destruct (decide (d = k_next s)) as [->|Hne].
      * rewrite lookup_insert_eq in Hx. injection Hx as <-. right; left. cbn in Hm. congruence.
      * rewrite lookup_insert_ne in Hx by done. right; right. eauto.
  - intros d x. split; [|done]. destruct (decide (d = k_next s)) as [->|Hne].
    + rewrite lookup_insert_eq in H. injection H as <-. by apply H9.
    + rewrite lookup_insert_ne in H by done. by apply (H8 _ _ H).
  - done.
  - done.
  - done.
Qed.

Lemma tree_ok_ext g g' l : (∀ e, e ∈ l → g' !! e = g !! e) → tree_ok g l → tree_ok g' l.
Proof.
  intros Hg [H1 H2]. split; [intros e He; rewrite Hg by done; by apply H1|].
  unfold ordered in *. induction l as [|a l IH]; [constructor|]. apply StronglySorted_inv in H2 as [H2 H3]. constructor.
  - apply IH; [intros e He; apply Hg; by right|intros e He; apply H1; by right|done].
  - rewrite Forall_forall in *. intros b Hb. unfold entry_address. rewrite (Hg a), (Hg b) by set_solver. by apply H3.
Qed.

(** A change of one count, with the entries that account for it. *)
Lemma inv_recount loose held held' s s' d x n :
  shared_inv loose held s → k_descs s !! d = Some x → 0 < n → heap_ok s' →
  k_descs s' = <[d := mkDesc n (memfd x) (d_size x)]> (k_descs s) → (∀ fd, v_fd (vw s') fd = v_fd (vw s) fd) → k_maps s' = k_maps s →
  (∀ e y, k_entries s' !! e = Some y → is_Some (k_descs s !! e_descriptor y)) →
  (∀ d', refs (k_entries s') d' + (if decide (held' = Some d') then 1 else 0) =
     refs (k_entries s) d' + (if decide (held = Some d') then 1 else 0) + (if decide (d' = d) then n - refcount x else 0)) →
  (∀ t m e, k_maps s !! t = Some m → e ∈ shared_entries m → k_entries s' !! e = k_entries s !! e) →
  (∀ d', held' = Some d' → is_Some (k_descs s !! d')) →
  shared_inv loose held' s'.
Proof.
  intros [H1 H2 H3 H4 H5 H6 H7 H8 H9 H10 H11] Hx Hn Hok Hd Hw Hm He Hr Ht Hh. split; [done|..]; rewrite ?Hd, ?Hm; try done.
  - intros d' y. destruct (decide (d' = d)) as [->|Hne].
    + rewrite lookup_insert_eq. intros [= <-]. cbn. rewrite (Hr d), (decide_True (P := d = d)) by done. rewrite (H2 _ _ Hx). lia.
    + rewrite lookup_insert_ne by done. intros Hy. rewrite (Hr d'), (decide_False (P := d' = d)) by done. rewrite (H2 _ _ Hy). lia.
  - intros d' y. destruct (decide (d' = d)) as [->|Hne]; [rewrite lookup_insert_eq; by intros [= <-]|].
    rewrite lookup_insert_ne by done. apply H3.
  - intros d' Hd'. apply lookup_insert_is_Some'. right. by apply Hh.
  - intros e y Hy. apply lookup_insert_is_Some'. right. by eapply He.
  - intros d1 d2 y1 y2. destruct (decide (d1 = d)) as [->|Hn1], (decide (d2 = d)) as [->|Hn2];
      rewrite ?lookup_insert_eq, ?lookup_insert_ne by done; intros ? ? ?; simplify_eq; [done|by eapply H6|by eapply H6|by eapply H6].
  - intros fd. rewrite Hw, H7. split; (intros [?|[?|(d' & y & Hy & Hf)]]; [by left|by right; left|right; right]).
    + destruct (decide (d' = d)) as [->|Hne]; [exists d; eexists; rewrite lookup_insert_eq; split; [done|]; cbn; congruence|].
      exists d', y. by rewrite lookup_insert_ne.
    + destruct (decide (d' = d)) as [->|Hne]; [rewrite lookup_insert_eq in Hy; injection Hy as <-; by exists d, x|].
      rewrite lookup_insert_ne in Hy by done. by exists d', y.
  - intros d' y. destruct (decide (d' = d)) as [->|Hne].
    + rewrite lookup_insert_eq. intros [= <-]. by apply (H8 _ _ Hx).
    + rewrite lookup_insert_ne by done. apply H8.
  - intros t m Hmm. apply (tree_ok_ext (k_entries s)); [|by eapply H10]. intros e Hin. by eapply Ht.
Qed.

Lemma wp_get_desc d x (Q : shared_descriptor → kstate W → Prop) s : k_descs s !! d = Some x → Q x s → wp (get_desc d) Q s.
Proof. intros Hx HQ. unfold wp, get_desc. by rewrite Hx. Qed.

(** A function takes a reference to a descriptor object that is there. *)
Lemma wp_retain loose d x (Q : unit → kstate W → Prop) s :
  shared_inv loose None s → k_descs s !! d = Some x →
  (∀ s', s' = set_descs (<[d := mkDesc (refcount x + 1) (memfd x) (d_size x)]> (k_descs s)) s →
     shared_inv loose (Some d) s' → Q tt s') →
  wp (dtape_map_shared_descriptor_retain d) Q s.
Proof.
  intros Hi Hx HQ. apply wp_bind, (wp_get_desc d x); [done|]. apply HQ; [done|]. pose proof (si_live _ _ _ Hi _ _ Hx).
  apply (inv_recount loose None (Some d) s _ d x (refcount x + 1)); try done; [lia| |by apply (si_desc _ _ _ Hi)| |].
  - destruct (si_heap _ _ _ Hi) as [A B C]. split; [done| |done]. intros c Hc. cbn in *. rewrite lookup_insert_ne; [by apply B|].
    intros ->. rewrite B in Hx by done. done.
  - intros d'. cbn. repeat case_decide; simplify_eq; lia.
  - intros d' [= <-]. by exists x.
Qed.

(** The last reference closes the file and frees the object. *)
Lemma wp_release loose d (Q : unit → kstate W → Prop) s :
  shared_inv loose (Some d) s →
  (∀ s', shared_inv loose None s' → k_copies s' = k_copies s → k_maps s' = k_maps s → k_entries s' = k_entries s → k_next s' = k_next s →
     (∀ m p, v_page (vw s') m p = v_page (vw s) m p) → (∀ o i, v_data (vw s') o i = v_data (vw s) o i) → Q tt s') →
  wp (dtape_map_shared_descriptor_release d) Q s.
Proof.
  intros Hi HQ. destruct (si_held _ _ _ Hi d eq_refl) as [x Hx].
  pose proof (si_refs _ _ _ Hi _ _ Hx) as Hr. rewrite decide_True in Hr by done. pose proof (refs_nonneg (k_entries s) d).
  apply wp_bind, (wp_get_desc d x); [done|]. apply wp_bind. unfold wp at 1, put_desc.
  destruct (Z.eqb_spec (refcount x - 1) 0) as [Hz|Hz]; cbn [negb].
  - apply wp_bind, wp_hook. intros [] w Hw. injection Hw as <-. cbn [k_w set_descs]. unfold wp, del_desc. cbn. rewrite delete_insert_eq.
    pose proof (close_law (memfd x) (k_w s)) as Hc. apply HQ; try done; [|exact (proj1 Hc)|exact (proj1 (proj2 Hc))].
    pose proof Hi as [[A B C] H2 H3 H4 H5 H6 H7 H8 H9 H10 H11]. split; cbn; [split; [done| |done]|..]; try done.
    + intros c Hc'. cbn in *. apply lookup_delete_None. right. by apply B.
    + intros d' y [Hne Hy]%lookup_delete_Some. rewrite (H2 _ _ Hy), decide_False by congruence. done.
    + intros d' y [Hne Hy]%lookup_delete_Some. by eapply H3.
    + intros e y Hy. destruct (H5 _ _ Hy) as [z Hz']. exists z. apply lookup_delete_Some. split; [|done]. intros Heq.
      pose proof (refs_positive _ d _ _ Hy (eq_sym Heq)). lia.
    + intros d1 d2 y1 y2 [_ Hy1]%lookup_delete_Some [_ Hy2]%lookup_delete_Some. by eapply H6.
    + intros fd. rewrite (proj2 (proj2 Hc)). cbn. case_bool_decide as Hf.
      * subst fd. split; [by intros []|]. intros [Hf|[Hf|(d' & y & [Hne Hy]%lookup_delete_Some & Hf)]].
        -- by destruct (H8 _ _ Hx).
        -- by destruct (H8 _ _ Hx).
        -- destruct Hne. by eapply H6.
      * rewrite H7. split; (intros [?|[?|(d' & y & Hy & Hf')]]; [by left|by right; left|right; right]).
        -- exists d', y. split; [|done]. apply lookup_delete_Some. split; [|done]. intros <-. congruence.
        -- apply lookup_delete_Some in Hy as [_ Hy]. by exists d', y.
    + intros d' y [_ Hy]%lookup_delete_Some. by eapply H8.
  - apply wp_ret, HQ; try done. pose proof (si_live _ _ _ Hi _ _ Hx).
    apply (inv_recount loose (Some d) None s _ d x (refcount x - 1)); try done; [lia| |by apply (si_desc _ _ _ Hi)|].
    + destruct (si_heap _ _ _ Hi) as [A B C]. split; [done| |done]. intros c Hc. cbn in *. rewrite lookup_insert_ne; [by apply B|].
      intros ->. rewrite B in Hx by done. done.
    + intros d'. cbn. repeat case_decide; simplify_eq; lia.
Qed.

(** *** Entries *)

Lemma wp_entry_create loose addr size off d (Q : option nat → kstate W → Prop) s :
  shared_inv loose (Some d) s →
  (∀ w, view_of w ≡ vw s → shared_inv loose (Some d) (set_w w s) → Q None (set_w w s)) →
  (∀ e s', shared_inv loose (Some d) s' → vw s' ≡ vw s → e = k_next s →
     k_entries s' = <[e := mkEntry addr size off d]> (k_entries s) → (∀ t m, k_maps s !! t = Some m → e ∉ shared_entries m) →
     k_maps s' = k_maps s → k_copies s' = k_copies s →
     (∀ x, k_descs s !! d = Some x → k_descs s' !! d = Some (mkDesc (refcount x + 1) (memfd x) (d_size x))) → Q (Some e) s') →
  wp (dtape_map_shared_entry_create addr size off d) Q s.
Proof.
  intros Hi Hf Hg. apply wp_bind, wp_hook. intros ok w [E P]%malloc_law. destruct ok; [|apply wp_ret, Hf; [done|by apply inv_view]].
  destruct (si_held _ _ _ Hi d eq_refl) as [x Hx]. pose proof (si_live _ _ _ Hi _ _ Hx).
  pose proof (si_heap _ _ _ Hi) as [A B C]. assert (Hnew : k_entries s !! k_next s = None) by (apply C; lia).
  assert (Hnin : ∀ t m, k_maps s !! t = Some m → k_next s ∉ shared_entries m).
  { intros t m Hm Hin. destruct (to_live _ _ (si_trees _ _ _ Hi _ _ Hm) _ Hin) as [y Hy]. congruence. }
  apply wp_bind. unfold wp at 1, add_entry. cbn [k_next set_w k_w k_copies k_descs k_entries k_maps].
  apply wp_bind, wp_bind, (wp_get_desc d x); [done|]. unfold wp at 1, put_desc. apply wp_ret, Hg; try done;
    [|intros y Hy; cbn; assert (y = x) as -> by congruence; by rewrite lookup_insert_eq].
  apply (inv_recount loose (Some d) (Some d) s _ d x (refcount x + 1)); try done; [lia| |by apply E| | | |]; cbn.
  - split; cbn; intros c Hc; [by apply A; lia|rewrite lookup_insert_ne; [apply B; lia|intros ->; rewrite B in Hx by lia; done]|].
    rewrite lookup_insert_ne by lia. apply C. lia.
  - intros e y. destruct (decide (e = k_next s)) as [->|Hne]; [rewrite lookup_insert_eq; intros [= <-]; by exists x|].
    rewrite lookup_insert_ne by done. apply (si_desc _ _ _ Hi).
  - intros d'. rewrite refs_insert by done. cbn. repeat case_decide; simplify_eq; lia.
  - intros t m e Hm Hin. rewrite lookup_insert_ne; [done|]. intros <-. by eapply Hnin.
  - intros d' [= <-]. by exists x.
Qed.

Lemma rb_insert_in g e l x : x ∈ rb_insert g e l → x = e ∨ x ∈ l.
Proof.
  induction l as [|y l IH]; cbn; [set_solver|]. destruct (_ <? 0); [set_solver|]. destruct (0 <? _); [|by right].
  intros [->|H]%elem_of_cons; [right; left|]. apply IH in H as [?|?]; [by left|right; by right].
Qed.

Lemma rb_insert_sub g e l x : x ∈ l → x ∈ rb_insert g e l.
Proof.
  induction l as [|y l IH]; cbn; [set_solver|]. destruct (_ <? 0); [set_solver|]. destruct (0 <? _); [|done].
  intros [->|H]%elem_of_cons; [left|right; by apply IH].
Qed.

Lemma rb_insert_ordered g e l : ordered g l → ordered g (rb_insert g e l).
Proof.
  unfold ordered. induction l as [|y l IH]; cbn; [repeat constructor|]. intros H. pose proof H as H'.
  apply StronglySorted_inv in H' as [H1 H2]. unfold dtape_map_shared_entry_compare. rewrite Forall_forall in H2.
  destruct (Z.ltb_spec (entry_address g e) (entry_address g y)) as [Hlt|Hge]; cbn.
  - constructor; [done|]. rewrite Forall_forall. intros z [->|Hz]%elem_of_cons; [done|]. specialize (H2 z Hz). lia.
  - destruct (Z.ltb_spec (entry_address g y) (entry_address g e)) as [Hlt'|Hge']; cbn; [|done].
    constructor; [by apply IH|]. rewrite Forall_forall. intros z [->|Hz]%rb_insert_in; [done|by apply H2].
Qed.

(** A new entry goes into the tree of a map, or stays out of it when the tree has one with
    the same address. *)
Lemma wp_insert_entry loose held t m e x (Q : unit → kstate W → Prop) s :
  shared_inv loose held s → k_maps s !! t = Some m → k_entries s !! e = Some x →
  (∀ t' m', k_maps s !! t' = Some m' → e ∉ shared_entries m') →
  (∀ s', shared_inv loose held s' → s' = set_maps (<[t := mkDmap (map_refcnt m) (rb_insert (k_entries s) e (shared_entries m))]> (k_maps s)) s → Q tt s') →
  wp (dtape_map_insert_shared_entry t e) Q s.
Proof.
  intros Hi Hm He Hnin HQ. apply wp_bind. unfold wp at 1, get_map. rewrite Hm. apply wp_bind. unfold wp at 1, get_entries.
  apply HQ; [|done]. pose proof Hi as [[A B C] H2 H3 H4 H5 H6 H7 H8 H9 H10 H11]. split; cbn; try done.
  - intros t' m'. destruct (decide (t' = t)) as [->|Hne].
    + rewrite lookup_insert_eq. intros [= <-]. destruct (H10 _ _ Hm) as [Hl Ho]. split; cbn; [|by apply rb_insert_ordered].
      intros e' [->|He']%rb_insert_in; [by exists x|by apply Hl].
    + rewrite lookup_insert_ne by done. apply H10.
  - intros t1 t2 m1 m2 e'. destruct (decide (t1 = t)) as [->|Hn1], (decide (t2 = t)) as [->|Hn2]; [done| | |];
      rewrite ?lookup_insert_eq, ?lookup_insert_ne by done; intros Hm1 Hm2 I1 I2; simplify_eq; cbn in *.
    + apply rb_insert_in in I1 as [->|I1]; [by eapply Hnin in Hm2|]. by eapply (H11 t t2).
    + apply rb_insert_in in I2 as [->|I2]; [by eapply Hnin in Hm1|]. by eapply (H11 t1 t).
    + by eapply H11.
Qed.

End invariant.

(** ** Memory *)

(** Every byte of the addresses [K] that could be read can be read as before. *)
Definition keeps (K : vm_map → Z → Prop) (v v' : view) : Prop :=
  ∀ m a b, K m a → byte_at v m a = Some b → byte_at v' m a = Some b.

#[export] Instance keeps_preorder K : PreOrder (keeps K).
Proof. split; [by intros v m a b|]. intros v1 v2 v3 H1 H2 m a b HK H. by apply H2, H1. Qed.

#[export] Instance keeps_proper K : Proper ((≡) ==> (≡) ==> iff) (keeps K).
Proof. intros v1 v1' H1 v2 v2' H2. unfold keeps. setoid_rewrite H1. by setoid_rewrite H2. Qed.

Lemma byte_at_ext v v' m a :
  (∀ m p, v_page v' m p = v_page v m p) → (∀ o i, v_data v' o i = v_data v o i) → byte_at v' m a = byte_at v m a.
Proof. intros Hp Hd. unfold byte_at, loc. rewrite Hp. destruct (v_page v m (a / PAGE)) as [[o k]|]; [|done]. by rewrite Hd. Qed.

Lemma keeps_ext K v v' :
  (∀ m p, v_page v' m p = v_page v m p) → (∀ o i, v_data v' o i = v_data v o i) → keeps K v v'.
Proof. intros Hp Hd m a b _ Hb. by rewrite (byte_at_ext v v'). Qed.

Lemma byte_at_mapped v m a b : byte_at v m a = Some b → is_Some (v_page v m (a / PAGE)).
Proof. unfold byte_at, loc. destruct (v_page v m (a / PAGE)) as [[o k]|]; [by eexists|done]. Qed.

Lemma keeps_map_unmapped K v m p n o k : unmapped v m p n → keeps K v (v_map m p n o k v).
Proof.
  intros Hu m' a b _ Hb. unfold byte_at. rewrite loc_map_ne; [exact Hb|]. destruct (_ && _) eqn:E; [|done].
  apply andb_true_iff in E as [->%bool_decide_eq_true E]. apply byte_at_mapped in Hb. rewrite (Hu _ E) in Hb. by destruct Hb.
Qed.

(** Removing a mapping that was made where nothing was. *)
Lemma keeps_unmap K v0 v m p n : keeps K v0 v → unmapped v0 m p n → keeps K v0 (v_unmap m p n v).
Proof.
  intros Hk Hu m' a b HK Hb. pose proof (byte_at_mapped _ _ _ _ Hb) as Hm. apply Hk in Hb; [|done].
  unfold byte_at, loc in *. cbn. destruct (_ && _) eqn:E; [|exact Hb].
  apply andb_true_iff in E as [->%bool_decide_eq_true E]. rewrite (Hu _ E) in Hm. by destruct Hm.
Qed.

(** The views of [remap_source]: the file, the server's mapping of it, the bytes in it, and
    the source's mapping. *)
Definition file_view (v : view) (fd : Z) (o : nat) (a n : Z) : view :=
  v_map kernel_map (a / PAGE) n o 0 (v_open fd o (v_clear o v)).

Lemma byte_at_file v fd o a n l m x :
  fresh_obj v o → a mod PAGE = 0 → Z.of_nat (length l) ≤ n * PAGE →
  bool_decide (m = kernel_map) && in_range (a / PAGE) n (x / PAGE) = false →
  byte_at (v_write kernel_map a l (file_view v fd o a n)) m x = byte_at v m x.
Proof.
  intros Hf Ha Hl Hx. rewrite <- (byte_at_map_fresh v kernel_map a n o l m x Hf Ha Hl Hx).
  apply byte_at_ext; [intros m' p; by rewrite !v_write_page|].
  assert (∀ l a v v', (∀ m p, v_page v' m p = v_page v m p) → (∀ o i, v_data v' o i = v_data v o i) →
    ∀ o i, v_data (v_write kernel_map a l v') o i = v_data (v_write kernel_map a l v) o i) as Hw; [|by apply Hw].
  clear. intros l. induction l as [|b l IH]; intros a v v' Hp Hd; cbn; [done|]. apply IH.
  - intros m p. rewrite !v_store_page. apply Hp.
  - intros o i. unfold v_store, loc. rewrite Hp. destruct (v_page v kernel_map (a / PAGE)) as [[o' k]|]; [|apply Hd]. cbn. by rewrite Hd.
Qed.

Lemma file_keeps K v fd o a n l :
  fresh_obj v o → a mod PAGE = 0 → Z.of_nat (length l) ≤ n * PAGE → unmapped v kernel_map (a / PAGE) n →
  keeps K v (v_write kernel_map a l (file_view v fd o a n)).
Proof.
  intros Hf Ha Hl Hu m x b _ Hb. rewrite byte_at_file; [done..|]. destruct (_ && _) eqn:E; [|done].
  apply andb_true_iff in E as [->%bool_decide_eq_true E]. apply byte_at_mapped in Hb. rewrite (Hu _ E) in Hb. by destruct Hb.
Qed.

(** The file, filled with the source's bytes, takes the place of the source's pages; nothing
    of the range is lost if all of it was read. *)
Lemma source_keeps (K : vm_map → Z → Prop) v fd o a n l src start :
  fresh_obj v o → a mod PAGE = 0 → start mod PAGE = 0 → Z.of_nat (length l) ≤ n * PAGE → unmapped v kernel_map (a / PAGE) n →
  reads v (task_map src) start l →
  (∀ x, K (task_map src) x → start ≤ x < start + n * PAGE → Z.of_nat (length l) = n * PAGE) →
  keeps K v (v_map (task_map src) (start / PAGE) n o 0 (v_write kernel_map a l (file_view v fd o a n))).
Proof.
  intros Hf Ha Hs Hle Hu Hr HK m x b Hx Hb.
  destruct (bool_decide (m = task_map src) && in_range (start / PAGE) n (x / PAGE)) eqn:E.
  - apply andb_true_iff in E as [->%bool_decide_eq_true [E1 E2]%in_range_spec].
    assert (Hl : Z.of_nat (length l) = n * PAGE) by (apply (HK x); [done|lia]).
    set (i := x - start). assert (0 ≤ i < n * PAGE) as Hi by (unfold i; lia). replace x with (start + i) in * by (unfold i; lia).
    unfold byte_at. rewrite loc_map by done. cbn. rewrite Z.add_0_l.
    destruct (lookup_lt_is_Some_2 l (Z.to_nat i)) as [c Hc]; [lia|]. pose proof (Hr _ _ Hc) as Hb'. rewrite Z2Nat.id, Hb in Hb' by lia.
    injection Hb' as ->. f_equal. apply (v_write_data kernel_map a l _ (Z.to_nat i)); [apply separate_map; lia|done|].
    unfold file_view. rewrite Z2Nat.id, loc_map by lia. f_equal.
  - unfold byte_at. rewrite loc_map_ne by done. by apply (file_keeps K v fd o a n l Hf Ha Hle Hu).
Qed.

(** The page arithmetic of a remap. *)
Lemma remap_span addr size :
  PAGE ≤ addr → 0 ≤ size → addr + size < 2 ^ 63 →
  let start := trunc_page addr in
  let map_size := u64 (round_page (u64 (addr + size)) - start) in
  PAGE ≤ start ∧ start mod PAGE = 0 ∧ 0 ≤ map_size ∧ map_size = pages map_size * PAGE ∧
  dtape_byte_count_to_page_count_round_up map_size = pages map_size ∧ 0 ≤ addr - start < PAGE ∧
  start + map_size = (addr + size + 4095) / PAGE * PAGE.
Proof.
  intros H1 H2 H3 start map_size. unfold map_size, start. rewrite (u64_small (addr + size)) by lia.
  rewrite round_page_spec by lia. rewrite (u64_small ((addr + size + 4095) / PAGE * PAGE)) by lia.
  rewrite trunc_page_spec. rewrite u64_small by lia. rewrite pages_round_up by lia. unfold pages. lia.
Qed.

Section remap.
Context {W : Type} `{!Hooks W, !HooksLaws W}.
Context (F : Z → Prop).
(** The addresses whose bytes are kept. *)
Context (K : vm_map → Z → Prop).
Implicit Types s : kstate W.
Notation vw s := (view_of (k_w s)).

(** The entries since [s0]: each is in a tree, or a tree has another one with its address (so
    that [RB_INSERT] did not take it), or it was there before, and if it was in a tree it
    still is. *)
Definition in_tree s (e : nat) : Prop := ∃ t m, k_maps s !! t = Some m ∧ e ∈ shared_entries m.
Definition shadowed s (e : nat) : Prop :=
  ∃ t m e', k_maps s !! t = Some m ∧ e' ∈ shared_entries m ∧ e' ≠ e ∧ entry_address (k_entries s) e' = entry_address (k_entries s) e.
Definition housed s0 s : Prop := ∀ e x, k_entries s !! e = Some x →
  in_tree s e ∨ shadowed s e ∨ (k_entries s0 !! e = Some x ∧ (in_tree s0 e → in_tree s e)).

Lemma housed_refl s : housed s s.
Proof. intros e x H. right; right. done. Qed.

Lemma housed_ext s0 s s' : k_entries s' = k_entries s → k_maps s' = k_maps s → housed s0 s → housed s0 s'.
Proof. intros He Hm H e x Hx. unfold in_tree, shadowed. rewrite Hm, He in *. by apply H. Qed.

Lemma rb_insert_placed g e l : e ∈ rb_insert g e l ∨ ∃ y, y ∈ l ∧ entry_address g y = entry_address g e.
Proof.
  induction l as [|y l IH]; cbn; [left; by apply list_elem_of_singleton|]. unfold dtape_map_shared_entry_compare.
  destruct (Z.ltb_spec (entry_address g e) (entry_address g y)); cbn; [left; left|].
  destruct (Z.ltb_spec (entry_address g y) (entry_address g e)); cbn; [|right; exists y; split; [left|lia]].
  destruct IH as [?|(z & Hz & Hq)]; [left; by right|right; exists z; split; [by right|done]].
Qed.

(** A new entry goes into a tree, or finds one with its address there. *)
Lemma housed_insert s0 s s2 t m e x :
  housed s0 s → k_entries s !! e = None → k_entries s2 = <[e := x]> (k_entries s) → k_maps s2 = k_maps s → k_maps s !! t = Some m →
  (∀ t' m' e', k_maps s !! t' = Some m' → e' ∈ shared_entries m' → is_Some (k_entries s !! e')) →
  housed s0 (set_maps (<[t := mkDmap (map_refcnt m) (rb_insert (k_entries s2) e (shared_entries m))]> (k_maps s2)) s2).
Proof.
  intros Hh Hnew He Hm Ht Hlive. set (s' := set_maps _ _).
  assert (Htree : ∀ t' m' e', k_maps s !! t' = Some m' → e' ∈ shared_entries m' → ∃ m2, k_maps s' !! t' = Some m2 ∧ e' ∈ shared_entries m2).
  { intros t' m' e' Hm' He'. cbn. rewrite Hm. destruct (decide (t' = t)) as [->|Hne].
    - rewrite lookup_insert_eq. eexists. split; [done|]. cbn. apply rb_insert_sub. congruence.
    - rewrite lookup_insert_ne by done. eauto. }
  assert (Hold : ∀ e', is_Some (k_entries s !! e') → e' ≠ e) by (intros e' [y Hy] ->; congruence).
  assert (Haddr : ∀ e', e' ≠ e → entry_address (k_entries s') e' = entry_address (k_entries s) e').
  { intros e' Hne. unfold entry_address. cbn. by rewrite He, lookup_insert_ne. }
  intros e1 y Hy. cbn in Hy. rewrite He in Hy. destruct (decide (e1 = e)) as [->|Hne].
  - destruct (rb_insert_placed (k_entries s2) e (shared_entries m)) as [Hin|(z & Hz & Hza)].
    + left. exists t. eexists. cbn. by rewrite Hm, lookup_insert_eq.
    + right; left. destruct (Htree t m z Ht Hz) as (m2 & H1 & H2). exists t, m2, z. split_and!; [done|done|by apply Hold, (Hlive t m)|].
      exact Hza.
  - rewrite lookup_insert_ne in Hy by done.
    assert (Hit : in_tree s e1 → in_tree s' e1) by (intros (t1 & m1 & H1 & H2); destruct (Htree t1 m1 e1 H1 H2) as (m2 & ?); by exists t1, m2).
    destruct (Hh e1 y Hy) as [?|[(t1 & m1 & e' & H1 & H2 & H3 & H4)|[H1 H2]]]; [left; auto| |right; right; auto].
    right; left. destruct (Htree t1 m1 e' H1 H2) as (m2 & H5 & H6). exists t1, m2, e'. split_and!; [done..|].
    rewrite !Haddr; [done|done|]. by apply Hold, (Hlive t1 m1).
Qed.

(** The state in which the code after [out:] runs: the invariant up to what the variables
    say is still to be released, and no byte lost since [s0]. *)
Record out_ok s0 (map_size : Z) (v : remap_vars) s : Prop := mkOutOk {
  oo_inv : shared_inv F (if 0 <=? v_memfd v then Some (v_memfd v) else None) (v_desc v) s;
  oo_keeps : keeps K (vw s0) (vw s);
  oo_mapped a : v_mapped v = Some a → unmapped (vw s0) kernel_map (a / PAGE) (pages map_size);
  oo_entries : v_src_entry v = None ∧ v_target_entry v = None;
  oo_copies : k_copies s = k_copies s0;
  oo_housed : housed s0 s;
}.

Lemma inv_close fd s :
  shared_inv F (Some fd) None s → shared_inv F None None (set_w (close fd (k_w s)) s).
Proof.
  intros [[A B C] H2 H3 H4 H5 H6 H7 H8 H9 H10 H11]. split; cbn; try done.
  - intros f. rewrite (proj2 (proj2 (close_law fd (k_w s)))). cbn. case_bool_decide as Hf.
    + subst f. split; [by intros []|]. intros [Hf|[?|(d & x & Hx & Hf)]]; [by destruct (H9 fd)|done|].
      destruct (H8 _ _ Hx) as [_ []]. by rewrite Hf.
    + rewrite H7. naive_solver.
  - intros d x Hx. split; [by apply (H8 _ _ Hx)|done].
Qed.

Lemma wp_remap_out s0 map_size v (Q : Z * option (Z * Z * Z) → kstate W → Prop) s :
  out_ok s0 map_size v s →
  (∀ s', shared_inv F None None s' → keeps K (vw s0) (vw s') → k_copies s' = k_copies s0 → housed s0 s' →
     (∀ t p, v_page (vw s') (task_map t) p = v_page (vw s) (task_map t) p) → Q (v_kr v, v_out v) s') →
  wp (remap_out map_size v) Q s.
Proof.
  intros [Hi Hk Hm [He1 He2] Hc Hh] HQ. unfold remap_out. rewrite He1, He2. apply wp_bind.
  assert (Hun : wp (match v_mapped v with Some a => hook (munmap a map_size) | None => mret true end) (fun _ s1 =>
    out_ok s0 map_size v s1 ∧ ∀ t p, v_page (vw s1) (task_map t) p = v_page (vw s) (task_map t) p) s).
  { destruct (v_mapped v) as [a|] eqn:Ea; [|apply wp_ret; split; [by split; rewrite ?Ea|done]].
    apply wp_hook. intros ok w E%munmap_law. split.
    - split; [|cbn|by rewrite Ea|done|done|done].
      + apply inv_set_w; [done|]. intros fd. rewrite (proj2 (proj2 E)). by destruct ok.
      + rewrite E. destruct ok; [|done]. by apply keeps_unmap, Hm.
    - intros t p. cbn. rewrite (proj1 E). destruct ok; [|done]. cbn. by rewrite bool_decide_eq_false_2. }
  refine (wp_mono _ _ _ _ Hun _). clear Hun. intros _ s1 [[Hi1 Hk1 _ _ Hc1 Hh1] Hp1]. apply wp_bind.
  assert (Hrel : wp (match v_desc v with Some d => dtape_map_shared_descriptor_release d | None => mret tt end) (fun _ s2 =>
    shared_inv F (if 0 <=? v_memfd v then Some (v_memfd v) else None) None s2 ∧ keeps K (vw s0) (vw s2) ∧ k_copies s2 = k_copies s0 ∧ housed s0 s2 ∧
    ∀ t p, v_page (vw s2) (task_map t) p = v_page (vw s) (task_map t) p) s1).
  { destruct (v_desc v) as [d|] eqn:Ed; [|by apply wp_ret]. eapply wp_release; [exact Hi1|].
    intros s2 Hi2 Hc2 Hm2 He2' _ Hp Hd. split_and!; [done| |congruence|by apply (housed_ext s0 s1)|intros t p; rewrite Hp; apply Hp1]. etrans; [exact Hk1|by apply keeps_ext]. }
  refine (wp_mono _ _ _ _ Hrel _). clear Hrel. intros _ s2 (Hi2 & Hk2 & Hc2 & Hh2 & Hp2).
  apply wp_bind, wp_ret, wp_bind, wp_ret, wp_bind. destruct (0 <=? v_memfd v).
  - apply wp_hook. intros [] w Hw. injection Hw as <-. apply wp_ret. pose proof (close_law (v_memfd v) (k_w s2)) as Hcl.
    apply HQ; [by apply inv_close| |done|by apply (housed_ext s0 s2)|].
    + etrans; [exact Hk2|]. cbn. rewrite Hcl. by apply keeps_ext.
    + intros t p. cbn. by rewrite (proj1 Hcl), <- Hp2.
  - by apply wp_ret, wp_ret, HQ.
Qed.

(** The second half: on success the target has new pages, backed by the file. *)
Definition target_done (target : nat) (map_size : Z) (fd : Z) (v : remap_vars) s s' : Prop :=
  v_kr v = KERN_SUCCESS →
  ∃ o ta, v_fd (vw s) fd = Some o ∧ good_range ta (pages map_size) ∧ is_Some (v_out v) ∧
    (∀ out, v_out v = Some out → ta ≤ out.1.1) ∧
    ∀ i, 0 ≤ i < pages map_size → v_page (vw s') (task_map target) (ta / PAGE + i) = Some (o, i).

(** Pages that are mapped stay as they are. *)
Definition pages_stay s s' : Prop := ∀ m p, is_Some (v_page (vw s) m p) → v_page (vw s') m p = v_page (vw s) m p.

Lemma keeps_map_view v v' m p n o k :
  unmapped v m p n → v' ≡ v_map m p n o k v → keeps K v v' ∧ ∀ m' q, is_Some (v_page v m' q) → v_page v' m' q = v_page v m' q.
Proof.
  intros Hu Hv. split; [rewrite Hv; by apply keeps_map_unmapped|]. intros m' q Hq. rewrite (proj1 Hv). cbn.
  destruct (_ && _) eqn:E; [|done]. apply andb_true_iff in E as [->%bool_decide_eq_true E]. rewrite (Hu _ E) in Hq. by destruct Hq.
Qed.

Lemma u64_offset ta offset n : good_range ta n → 0 ≤ offset < PAGE → ta ≤ u64 (ta + offset).
Proof. intros (H1 & H2 & H3 & H4) Ho. rewrite u64_small; lia. Qed.

(** The same for an entry [wp_entry_create] made. *)
Lemma housed_new loose held s0 s s2 t m x :
  housed s0 s → shared_inv F loose held s → k_entries s2 = <[k_next s := x]> (k_entries s) → k_maps s2 = k_maps s → k_maps s !! t = Some m →
  housed s0 (set_maps (<[t := mkDmap (map_refcnt m) (rb_insert (k_entries s2) (k_next s) (shared_entries m))]> (k_maps s2)) s2).
Proof.
  intros Hh Hi He Hm Ht. apply (housed_insert s0 s s2 t m (k_next s) x); try done.
  - apply (ho_entries s); [apply Hi|lia].
  - intros t' m' e' Hm' He'. by apply (to_live _ _ (si_trees _ _ _ _ Hi _ _ Hm')).
Qed.

Lemma wp_remap_target s0 target map_size prot offset flags mapped d x (Q : remap_vars → kstate W → Prop) s :
  shared_inv F None (Some d) s → k_descs s !! d = Some x → is_Some (k_maps s !! target) → keeps K (vw s0) (vw s) →
  k_copies s = k_copies s0 → housed s0 s → 0 ≤ offset < PAGE → dtape_byte_count_to_page_count_round_up map_size = pages map_size →
  (∀ a, mapped = Some a → unmapped (vw s0) kernel_map (a / PAGE) (pages map_size)) →
  (∀ v s', out_ok s0 map_size v s' → pages_stay s s' → target_done target map_size (memfd x) v s s' → Q v s') →
  wp (remap_target target map_size prot offset flags mapped d) Q s.
Proof.
  intros Hi Hx [m Hm] Hk Hc Hh Ho Hn Hmap HQ. apply wp_bind, (wp_get_desc d x); [done|].
  apply wp_bind, wp_hook. intros ta w Hw. rewrite Hn in Hw. apply map_file_law in Hw as [[-> Hw]|[(Hgr & Hun & _) (o & Hfd & Hw)]].
  { apply wp_ret, HQ; [|intros m' p _; by rewrite (proj1 Hw)|done]. split; try done; cbn; [by apply inv_view|by rewrite Hw]. }
  specialize (Hun eq_refl). destruct (keeps_map_view _ _ _ _ _ _ _ Hun Hw) as [Hkw Hpw].
  destruct (Z.eqb_spec ta 0) as [->|_]; [by destruct Hgr as [? _]|].
  assert (Hi1 : shared_inv F None (Some d) (set_w w s)) by (apply inv_set_w; [done|]; intros fd; by rewrite (proj2 (proj2 Hw))).
  assert (Hk1 : keeps K (vw s0) (view_of w)) by (by etrans).
  apply wp_bind. eapply wp_entry_create; [exact Hi1| |].
  { intros w2 Hw2 Hi2. cbn in Hw2. apply wp_ret, HQ; [| |done]; cbn.
    - split; try done; cbn. by rewrite Hw2.
    - intros m' p Hp. cbn. rewrite (proj1 Hw2). by apply Hpw. }
  intros e s2 Hi2 Hv2 -> Hent Hnin Hmaps Hcop Hdesc. cbn in Hv2, Hmaps, Hcop. apply wp_bind.
  eapply wp_insert_entry; [exact Hi2|by rewrite Hmaps|by rewrite Hent, lookup_insert_eq|intros t' m'; rewrite Hmaps; by apply Hnin|].
  intros s3 Hi3 ->. apply wp_ret, HQ.
  - split; try done; cbn; [by rewrite Hv2|by rewrite Hcop|]. by eapply housed_new.
  - intros m' p Hp. cbn. rewrite (proj1 Hv2). by apply Hpw.
  - intros _. exists o, ta. split_and!; [done|done|done| |].
    + intros out [= <-]. cbn. destruct (_ =? 0); [lia|by eapply u64_offset].
    + intros i Hir. cbn. rewrite (proj1 Hv2), (proj1 Hw). cbn. rewrite bool_decide_eq_true_2 by done.
      replace (in_range _ _ _) with true; [cbn; do 2 f_equal; lia|]. symmetry. apply in_range_spec. lia.
Qed.

(** A new memory file has no owner yet. *)
Lemma inv_memfd s w fd o :
  shared_inv F None None s → v_fd (vw s) fd = None → view_of w ≡ v_open fd o (v_clear o (vw s)) →
  shared_inv F (Some fd) None (set_w w s).
Proof.
  intros [[A B C] H2 H3 H4 H5 H6 H7 H8 H9 H10 H11] Hfd Hw.
  assert (Hno : ¬ (F fd ∨ None = Some fd ∨ ∃ d x, k_descs s !! d = Some x ∧ memfd x = fd)).
  { rewrite <- H7, Hfd. by intros []. }
  split; cbn; try done.
  - intros f. rewrite (proj2 (proj2 Hw)). cbn. case_bool_decide as Hf.
    + subst f. split; [intros _; by right; left|by eexists].
    + rewrite H7. naive_solver.
  - intros d x Hx. split; [by apply (H8 _ _ Hx)|]. intros [= Hf]. apply Hno. right; right. by exists d, x.
  - intros f [= <-] Hf. apply Hno. by left.
Qed.

(** The state after the file is filled: the server's mapping is at [a], the object is [o]. *)
Definition filled s0 fd o a n l s : Prop :=
  fresh_obj (vw s0) o ∧ a mod PAGE = 0 ∧ unmapped (vw s0) kernel_map (a / PAGE) n ∧
  vw s ≡ v_write kernel_map a l (file_view (vw s0) fd o a n) ∧ ∀ u p, prot_of (k_w s) u p = prot_of (k_w s0) u p.

Lemma filled_keeps s0 fd o a n l s : filled s0 fd o a n l s → Z.of_nat (length l) ≤ n * PAGE → keeps K (vw s0) (vw s).
Proof. intros (H1 & H2 & H3 & H4 & _) Hl. rewrite H4. by apply file_keeps. Qed.

Lemma wp_remap_file map_size (Q : Z * option Z → kstate W → Prop) s0 :
  shared_inv F None None s0 → 0 ≤ map_size →
  (∀ fd s, shared_inv F (if 0 <=? fd then Some fd else None) None s → keeps K (vw s0) (vw s) →
     heap s = heap s0 → Q (fd, None) s) →
  (∀ fd a o s, 0 ≤ fd → shared_inv F (Some fd) None s → filled s0 fd o a (pages map_size) [] s → v_fd (vw s) fd = Some o →
     heap s = heap s0 → k_next s = k_next s0 → Q (fd, Some a) s) →
  wp (remap_file map_size) Q s0.
Proof.
  intros Hi Hsz Hf Hg. apply wp_bind, wp_hook. intros fd w1 [P1 [[Hfd Hw1]|(Hfd & Hnone & o & Hfr & Hw1)]]%memfd_law.
  { destruct (Z.ltb_spec fd 0); [|lia]. apply wp_ret, Hf; [|by rewrite Hw1|done].
    destruct (Z.leb_spec 0 fd); [lia|]. by apply inv_view. }
  destruct (Z.ltb_spec fd 0); [lia|]. assert (Hle : 0 <=? fd = true) by (by apply Z.leb_le).
  assert (Hi1 : shared_inv F (Some fd) None (set_w w1 s0)) by (by eapply inv_memfd).
  assert (Hk1 : keeps K (vw s0) (view_of w1)).
  { rewrite Hw1. intros m a b _ Hb. pose proof Hb as Hb'. unfold byte_at, loc in Hb |- *. cbn.
    destruct (v_page (vw s0) m (a / PAGE)) as [[o' k]|] eqn:E; [|done]. rewrite bool_decide_eq_false_2; [done|]. by eapply (proj1 Hfr). }
  apply wp_bind, wp_hook. intros ok w2 [Hw2 P2]%ftruncate_law. cbn in Hw2, P2.
  assert (Hi2 : shared_inv F (Some fd) None (set_w w2 (set_w w1 s0))) by (by apply inv_view).
  destruct ok; cbn [negb]; [|apply wp_ret, Hf; [by rewrite Hle|by cbn; rewrite Hw2|done]].
  apply wp_bind, wp_hook. intros mapped w3 [P3 Hw3]%mmap_shared_law. cbn in Hw3, P3. apply wp_ret. destruct mapped as [a|].
  - destruct Hw3 as [(Hgr & Hun & _) (o' & Ho' & Hw3)]. rewrite Hw2, Hw1 in Hun, Hw3.
    rewrite (proj2 (proj2 Hw2)), (proj2 (proj2 Hw1)) in Ho'. cbn in Ho'. rewrite bool_decide_eq_true_2 in Ho' by done. injection Ho' as <-.
    apply (Hg fd a o); [done| | | |done|done].
    + apply inv_set_w; [exact Hi2|]. intros f. cbn. rewrite (proj2 (proj2 Hw3)), (proj2 (proj2 Hw2)), (proj2 (proj2 Hw1)). done.
    + split_and!; [done|apply Hgr|by apply Hun|done|]. intros u p. cbn. by rewrite P3, P2, P1.
    + cbn. rewrite (proj2 (proj2 Hw3)). cbn. by rewrite bool_decide_eq_true_2.
  - apply Hf; [rewrite Hle; by apply inv_view|cbn; by rewrite Hw3, Hw2|done].
Qed.

(** The mapping of the file leaves the tasks alone. *)
Lemma filled_readable s0 fd o a n s src start len :
  filled s0 fd o a n [] s → readable_range (k_w s0) src start len → readable_range (k_w s) src start len.
Proof.
  intros (_ & _ & _ & Hv & Hp) Hr i Hi. destruct (Hr i Hi) as [H1 H2]. split; [|by rewrite Hp].
  rewrite Hv. cbn [v_write]. unfold file_view. rewrite loc_map_ne by done. exact H1.
Qed.

(** The bytes of a copy-in are in the server's mapping of the file. *)
Lemma wp_fill {A} s0 fd o a n src start len (k : Z → list Z → M W A) (Q : A → kstate W → Prop) s :
  filled s0 fd o a n [] s → 0 ≤ len → len = n * PAGE →
  (∀ kr l w, Z.of_nat (length l) ≤ len →
     (kr = KERN_SUCCESS → len ≤ MAX_RW_COUNT → readable_range (k_w s0) src start len → Z.of_nat (length l) = len) →
     reads (vw s0) (task_map src) start l →
     fresh_obj (vw s0) o ∧ a mod PAGE = 0 ∧ unmapped (vw s0) kernel_map (a / PAGE) n ∧
       view_of w ≡ v_write kernel_map a l (file_view (vw s0) fd o a n) →
     (∀ f, v_fd (view_of w) f = v_fd (vw s) f) → wp (k kr l) Q (set_w w s)) →
  wp ('(kr, l) ← copyinmap (task_map src) start len; _ ← copyoutmap kernel_map l a; k kr l) Q s.
Proof.
  intros Hfill Hlen Hn HQ. pose proof Hfill as (Hfr & Ha & Hun & Hv & _). cbn in Hv. apply wp_bind, wp_bind, wp_hook.
  intros [ok l] w (Hw & Hr & Hle & _ & Hok)%read_law.
  apply wp_ret, wp_bind. unfold wp at 1, copyoutmap. cbn [k_w set_w]. pose proof (store_law a l w) as Hst.
  destruct (server_store a l w) as [w2|]; cycle 1.
  { destruct Hst as (i & Hi & Hloc). rewrite Hw, Hv in Hloc. unfold file_view in Hloc. by rewrite loc_map in Hloc by lia. }
  change (set_w w2 (set_w w s)) with (set_w w2 s). apply HQ.
  - lia.
  - destruct ok; [|done]. intros _ Hmax Hrr. apply Hok; [done|lia|]. by eapply filled_readable.
  - intros i b Hb. apply Hr in Hb. rewrite Hv in Hb.
    rewrite <- (byte_at_file (vw s0) fd o a n [] (task_map src)); [done|done|done|cbn; lia|done].
  - split_and!; [done..|]. by rewrite Hst, Hw, Hv.
  - intros f. by rewrite (proj2 (proj2 Hst)), v_write_fd, (proj2 (proj2 Hw)).
Qed.

(** What a successful remap establishes: the pages of the target and those of the source are
    backed by the same object. *)
Definition aliased (src target : nat) (start map_size : Z) (v : remap_vars) s' : Prop :=
  v_kr v = KERN_SUCCESS →
  ∃ o ta, good_range ta (pages map_size) ∧ is_Some (v_out v) ∧ (∀ out, v_out v = Some out → ta ≤ out.1.1) ∧
    ∀ i, 0 ≤ i < pages map_size →
      v_page (vw s') (task_map target) (ta / PAGE + i) = Some (o, i) ∧
      v_page (vw s') (task_map src) (start / PAGE + i) = Some (o, i).

Lemma wp_remap_replace s0 src target start map_size prot offset flags a fd o l d x (Q : remap_vars → kstate W → Prop) s :
  shared_inv F None (Some d) s → k_descs s !! d = Some x → memfd x = fd → is_Some (k_maps s !! src) → is_Some (k_maps s !! target) →
  fresh_obj (vw s0) o ∧ a mod PAGE = 0 ∧ unmapped (vw s0) kernel_map (a / PAGE) (pages map_size) ∧
    vw s ≡ v_write kernel_map a l (file_view (vw s0) fd o a (pages map_size)) →
  v_fd (vw s) fd = Some o → k_copies s = k_copies s0 → housed s0 s →
  Z.of_nat (length l) ≤ map_size →
  (∀ y, K (task_map src) y → start ≤ y < start + map_size → Z.of_nat (length l) = map_size) → reads (vw s0) (task_map src) start l →
  PAGE ≤ start → start mod PAGE = 0 → map_size = pages map_size * PAGE →
  dtape_byte_count_to_page_count_round_up map_size = pages map_size → 0 ≤ offset < PAGE →
  (∀ v s', out_ok s0 map_size v s' → aliased src target start map_size v s' → Q v s') →
  wp (remap_replace src target start map_size prot offset flags a fd d) Q s.
Proof.
  intros Hi Hx Hxf [m Hm] Htgt (Hfr & Ha & Hun & Hv) Hobj Hc Hh Hll HK Hrd Hst Hal Hms Hru Hoff HQ.
  assert (Hk : keeps K (vw s0) (vw s)) by (rewrite Hv; apply file_keeps; (done || lia)).
  apply wp_bind, wp_hook. intros got w Hw. rewrite Hru in Hw.
  apply map_file_law in Hw as [[-> Hw]|[(Hgr & _ & Hfix) (o' & Ho' & Hw)]].
  { destruct (Z.eqb_spec 0 start); [lia|]. apply wp_ret, HQ; [|done].
    split; cbn; [by apply inv_view|by rewrite Hw|by intros ? [= <-]|done|done|done]. }
  assert (o' = o) as -> by congruence. specialize (Hfix eq_refl). subst got. rewrite Z.eqb_refl. cbn [negb].
  assert (Hkw : keeps K (vw s0) (view_of w)) by (rewrite Hw, Hv; apply source_keeps; (done || lia || (rewrite <- Hms; done))).
  assert (Hi1 : shared_inv F None (Some d) (set_w w s)) by (apply inv_set_w; [done|]; intros f; by rewrite (proj2 (proj2 Hw))).
  assert (Hpg : ∀ i, 0 ≤ i < pages map_size → v_page (view_of w) (task_map src) (start / PAGE + i) = Some (o, i)).
  { intros i Hir. rewrite (proj1 Hw). cbn. rewrite bool_decide_eq_true_2 by done.
    replace (in_range _ _ _) with true; [cbn; do 2 f_equal; lia|]. symmetry. apply in_range_spec. lia. }
  apply wp_bind. eapply wp_entry_create; [exact Hi1| |].
  { intros w2 Hw2 Hi2. cbn in Hw2. apply wp_ret, HQ; [|done]. split; cbn; [done|by rewrite Hw2|by intros ? [= <-]|done|done|done]. }
  intros e s2 Hi2 Hv2 -> Hent Hnin Hmaps Hcop Hdesc. cbn in Hv2, Hmaps, Hcop. apply wp_bind.
  eapply wp_insert_entry; [exact Hi2|by rewrite Hmaps|by rewrite Hent, lookup_insert_eq|intros t' m'; rewrite Hmaps; by apply Hnin|].
  intros s3 Hi3 ->.
  eapply (wp_remap_target s0); [exact Hi3|exact (Hdesc x Hx)| | | | |done|done|by intros ? [= <-]|]; cbn.
  - apply lookup_insert_is_Some'. right. by rewrite Hmaps.
  - by rewrite Hv2.
  - by rewrite Hcop.
  - by eapply (housed_new _ _ s0 (set_w w s)).
  - intros v s' Hout Hstay Hdone. apply HQ; [done|]. intros Hkr. destruct (Hdone Hkr) as (o2 & ta & Ho2 & Hg & Hso & Hle & Hpt).
    cbn in Ho2. rewrite (proj2 (proj2 Hv2)), (proj2 (proj2 Hw)), Hxf in Ho2. cbn in Ho2. assert (o2 = o) as -> by congruence.
    exists o, ta. split_and!; [done..|]. intros i Hir. split; [by apply Hpt|].
    rewrite Hstay; cbn; rewrite (proj1 Hv2), Hpg by done; done.
Qed.

Lemma wp_remap_source src target start map_size prot offset flags (Q : remap_vars → kstate W → Prop) s0 :
  shared_inv F None None s0 → is_Some (k_maps s0 !! src) → is_Some (k_maps s0 !! target) →
  PAGE ≤ start → start mod PAGE = 0 → 0 ≤ map_size → map_size = pages map_size * PAGE →
  dtape_byte_count_to_page_count_round_up map_size = pages map_size → 0 ≤ offset < PAGE →
  (∀ y, K (task_map src) y → start ≤ y < start + map_size →
     map_size ≤ MAX_RW_COUNT ∧ readable_range (k_w s0) src start map_size) →
  (∀ v s', out_ok s0 map_size v s' → aliased src target start map_size v s' → Q v s') →
  wp (remap_source src target start map_size prot offset flags) Q s0.
Proof.
  intros Hi [m Hm] Htgt Hst Hal Hsz Hms Hru Hoff HK HQ. pose proof (housed_refl s0) as Hh0. apply wp_bind, wp_remap_file; [done|done| |].
  { intros fd s Hi1 Hk1 Hh1. unfold heap in Hh1. injection Hh1 as Hc1 Hd1 He1 Hm1. apply wp_ret, HQ; [|done]. split; try done. by apply (housed_ext s0 s0). }
  intros fd a o s1 Hfd Hi1 Hfill Hobj Hh1 Hn1. unfold heap in Hh1. injection Hh1 as Hc1 Hd1 He1 Hm1.
  assert (Hun : unmapped (vw s0) kernel_map (a / PAGE) (pages map_size)) by apply Hfill.
  assert (Hle : 0 <=? fd = true) by (by apply Z.leb_le).
  apply wp_bind. eapply wp_descriptor_create; [exact Hi1| |].
  { intros w Hw Hi2. apply wp_ret, HQ; [|done]. split; cbn; [by rewrite Hle|rewrite Hw; eapply filled_keeps; [exact Hfill|cbn; lia]|
      by intros ? [= <-]|done|done|by apply (housed_ext s0 s0)]. }
  intros d s2 Hi2 Hv2 Hd2 Hds Hm2 Hc2 He2 P2. assert (Hh2 : housed s0 s2) by (apply (housed_ext s0 s0); [congruence..|done]).
  assert (Hfill2 : filled s0 fd o a (pages map_size) [] s2) by (destruct Hfill as (?&?&?&?&Hp); split_and!; [done..|by rewrite Hv2|intros u p; by rewrite P2, Hp]).
  apply wp_fill with s0 fd o (pages map_size); [done|done|done|]. intros kr l w Hll Hlk Hrd Hfill3 Hfds.
  assert (Hi3 : shared_inv F None (Some d) (set_w w s2)) by (by apply inv_set_w).
  destruct (Z.eqb_spec kr KERN_SUCCESS) as [->|Hne]; cbn [negb].
  - apply (wp_remap_replace s0 _ _ _ _ _ _ _ _ _ o l _ (mkDesc 1 fd map_size)); try done; cbn.
    + by rewrite Hds, lookup_insert_eq.
    + by rewrite Hm2, Hm1, Hm.
    + by rewrite Hm2, Hm1.
    + by rewrite Hfds, (proj2 (proj2 Hv2)).
    + by rewrite Hc2, Hc1.
    + intros y Hy Hr. destruct (HK y Hy Hr). by apply Hlk.
  - apply wp_ret, HQ; [|intros Hkr; by destruct Hne]. split; cbn; [done| |by intros ? [= <-]|done|by rewrite Hc2, Hc1|done].
    destruct Hfill3 as (Hf1 & Hf2 & Hf3 & Hf4). rewrite Hf4. by apply file_keeps; [done..|lia|].
Qed.

Lemma find_loop_entry g address size room l e x :
  (e, x) ∈ find_loop g address size room l → e ∈ l ∧ g !! e = Some x.
Proof.
  revert room. induction l as [|y l IH]; intros room; cbn; [by destruct room; intros ?%elem_of_nil|].
  destruct room as [|room]; [by intros ?%elem_of_nil|]. destruct (g !! y) as [z|] eqn:E; [|by intros ?%elem_of_nil].
  destruct (entry_skipped z address size).
  - intros [H1 H2]%IH. split; [by right|done].
  - intros [[= -> ->]|H]%elem_of_cons; [split; [left|done]|]. apply IH in H as [H1 H2]. split; [by right|done].
Qed.

(** The source has no shared entry that starts at the page of the address. *)
Definition no_entry_at (src : nat) (start : Z) s : Prop :=
  ∀ m e, k_maps s !! src = Some m → e ∈ shared_entries m → entry_address (k_entries s) e ≠ start.

(** The pages of a remap: the first address and the number of bytes. *)
Definition remap_start (addr : Z) : Z := trunc_page addr.
Definition remap_size (addr size : Z) : Z := u64 (round_page (u64 (addr + size)) - trunc_page addr).

Definition remap_done (src target : nat) (addr size : Z) (r : Z * option (Z * Z * Z)) s s' : Prop :=
  let start := remap_start addr in
  let n := pages (remap_size addr size) in
  r.1 = KERN_SUCCESS →
  is_Some r.2 ∧
  (no_entry_at src start s →
   ∃ o ta, good_range ta n ∧ (∀ out, r.2 = Some out → ta ≤ out.1.1) ∧
     ∀ i, 0 ≤ i < n →
       v_page (vw s') (task_map target) (ta / PAGE + i) = Some (o, i) ∧
       v_page (vw s') (task_map src) (start / PAGE + i) = Some (o, i)).

Lemma wp_remap_shared target src size flags addr (Q : Z * option (Z * Z * Z) → kstate W → Prop) s :
  shared_inv F None None s → is_Some (k_maps s !! src) → is_Some (k_maps s !! target) →
  PAGE ≤ addr → 0 ≤ size → addr + size < 2 ^ 63 →
  (∀ y, K (task_map src) y → remap_start addr ≤ y < remap_start addr + remap_size addr size →
     remap_size addr size ≤ MAX_RW_COUNT ∧ readable_range (k_w s) src (remap_start addr) (remap_size addr size)) →
  (∀ r s', shared_inv F None None s' → k_copies s' = k_copies s → keeps K (vw s) (vw s') → housed s s' → remap_done src target addr size r s s' → Q r s') →
  wp (mach_vm_remap_external_shared target src size flags addr) Q s.
Proof.
  intros Hi Hsrc Htgt H1 H2 H3 HK HQ. unfold mach_vm_remap_external_shared.
  pose proof (remap_span addr size H1 H2 H3) as (A1 & A2 & A3 & A4 & A5 & A6 & _). unfold remap_done in HQ. unfold remap_start, remap_size in *.
  set (start := trunc_page addr) in *. set (map_size := u64 (round_page (u64 (addr + size)) - start)) in *. clearbody start map_size.
  apply wp_bind, wp_hook. intros region w (Hw & Pw & _)%region_law. set (s1 := set_w w s).
  assert (Hi1 : shared_inv F None None s1) by (by apply inv_view).
  assert (Hfin : ∀ v s2, out_ok s1 map_size v s2 → (v_kr v = KERN_SUCCESS → is_Some (v_out v)) →
    (no_entry_at src start s → aliased src target start map_size v s2) → wp (remap_out map_size v) Q s2).
  { intros v s2 Hout Hso Ha. eapply wp_remap_out; [exact Hout|]. intros s3 Hi3 Hk3 Hc3 Hh3 Hp3. apply HQ; [done|done|by rewrite <- Hw|exact Hh3|].
    cbn. intros Hkr. split; [by apply Hso|]. intros Hno. destruct (Ha Hno Hkr) as (o & ta & Hg & _ & Hle & Hpg).
    exists o, ta. split_and!; [done|done|]. intros i Hir. rewrite !Hp3. by apply Hpg. }
  assert (Hsource : ∀ prot, wp (remap_source src target start map_size prot (addr - start) flags) (fun v => wp (remap_out map_size v) Q) s1).
  { intros prot. apply wp_remap_source; try done.
    { intros y Hy Hr. destruct (HK y Hy Hr) as [HK1 HK2]. split; [done|]. by apply (readable_range_ext (k_w s)). }
    intros v s2 Hout Hal. apply Hfin; [done| |done].
    intros Hkr. by destruct (Hal Hkr) as (_ & _ & _ & ? & _). }
  apply wp_bind. destruct region as [ri|].
  2: { apply wp_ret, Hfin; [|done|done]. split; cbn; [done|done|done|done|done|apply housed_refl]. }
  destruct Hsrc as [m Hm]. apply wp_bind, wp_bind. unfold wp at 1, get_map. cbn [k_maps set_w s1]. rewrite Hm.
  apply wp_bind. unfold wp at 1, get_entries. apply wp_ret. change (k_entries s1) with (k_entries s).
  destruct (find_loop (k_entries s) start map_size 8 (shared_entries m)) as [|[e x] [|? ?]] eqn:Hfind; [apply Hsource| |apply Hsource].
  assert ((e, x) ∈ find_loop (k_entries s) start map_size 8 (shared_entries m)) as [Hin Hx]%find_loop_entry by (rewrite Hfind; left).
  destruct ((e_address x =? start) && (map_size <=? e_size x)) eqn:Hcov; [|apply Hsource].
  apply andb_true_iff in Hcov as [Hea%Z.eqb_eq _]. destruct (si_desc _ _ _ _ Hi1 e x Hx) as [y Hy].
  apply wp_bind. eapply wp_retain; [exact Hi1|exact Hy|]. intros s2 -> Hi2.
  eapply (wp_remap_target s1); [exact Hi2|cbn; by rewrite lookup_insert_eq|done|done|done|by apply (housed_ext s1 s1); [..|apply housed_refl]|done|done|done|].
  intros v s' Hout Hst Hdone. apply Hfin; [done|by intros Hkr; destruct (Hdone Hkr) as (_ & _ & _ & _ & ? & _)|].
  intros Hno. destruct (Hno m e Hm Hin). unfold entry_address. by rewrite Hx.
Qed.
End remap.

(** ** Destroying maps *)

Section destroy.
Context {W : Type} `{!Hooks W, !HooksLaws W}.
Context (F : Z → Prop).
Implicit Types s : kstate W.
Notation vw s := (view_of (k_w s)).

(** Releasing a descriptor object does not look at the entries. *)
Lemma release_entries d g s :
  dtape_map_shared_descriptor_release d (set_entries g s) =
    match dtape_map_shared_descriptor_release d s with Some (u, s') => Some (u, set_entries g s') | None => None end.
Proof.
  unfold dtape_map_shared_descriptor_release, mbind, M_bind, get_desc, put_desc. cbn.
  destruct (k_descs s !! d) as [x|]; [|done]. cbn. by destruct (refcount x - 1 =? 0).
Qed.

(** The reference of an entry that is in no tree can be taken over. *)
Lemma inv_take_entry loose e x s :
  shared_inv F loose None s → k_entries s !! e = Some x → (∀ t m, k_maps s !! t = Some m → e ∉ shared_entries m) →
  shared_inv F loose (Some (e_descriptor x)) (set_entries (delete e (k_entries s)) s).
Proof.
  intros [[A B C] H2 H3 H4 H5 H6 H7 H8 H9 H10 H11] Hx Hnin. split; cbn; try done.
  - split; cbn; [done|done|]. intros c Hc. apply lookup_delete_None. right. by apply C.
  - intros d y Hy. rewrite (H2 _ _ Hy), (refs_delete _ _ _ _ Hx). repeat case_decide; simplify_eq; lia.
  - intros d [= <-]. by eapply H5.
  - intros e' y [_ Hy]%lookup_delete_Some. by eapply H5.
  - intros t m Hm. apply (tree_ok_ext (k_entries s)); [|by eapply H10]. intros e' He'. apply lookup_delete_ne.
    intros <-. by eapply Hnin.
Qed.

Lemma wp_entry_destroy loose e x (Q : unit → kstate W → Prop) s :
  shared_inv F loose None s → k_entries s !! e = Some x → (∀ t m, k_maps s !! t = Some m → e ∉ shared_entries m) →
  (∀ s', shared_inv F loose None s' → k_entries s' = delete e (k_entries s) → k_maps s' = k_maps s → k_copies s' = k_copies s →
     (∀ m p, v_page (vw s') m p = v_page (vw s) m p) → (∀ o i, v_data (vw s') o i = v_data (vw s) o i) → Q tt s') →
  wp (dtape_map_shared_entry_destroy e) Q s.
Proof.
  intros Hi Hx Hnin HQ. apply wp_bind. unfold wp at 1, get_entry. rewrite Hx. apply wp_bind.
  assert (wp (dtape_map_shared_descriptor_release (e_descriptor x)) (fun _ s' => shared_inv F loose None s' ∧
    k_copies s' = k_copies s ∧ k_maps s' = k_maps s ∧ k_entries s' = delete e (k_entries s) ∧
    (∀ m p, v_page (vw s') m p = v_page (vw s) m p) ∧ (∀ o i, v_data (vw s') o i = v_data (vw s) o i))
    (set_entries (delete e (k_entries s)) s)) as Hrel.
  { eapply wp_release; [by apply inv_take_entry|]. intros s' H1 H2 H3 H4 _ H5 H6. by split_and!. }
  unfold wp in Hrel |- *. rewrite release_entries in Hrel.
  destruct (dtape_map_shared_descriptor_release (e_descriptor x) s) as [[[] s1]|] eqn:E; [|done].
  assert (k_entries s1 = k_entries s) as He1.
  { clear -E Hi Hx. unfold dtape_map_shared_descriptor_release, mbind, M_bind, get_desc, put_desc in E. cbn in E.
    destruct (k_descs s !! e_descriptor x) as [y|]; [|done]. cbn in E. destruct (refcount y - 1 =? 0); injection E as <-; done. }
  destruct Hrel as (H1 & H2 & H3 & H4 & H5 & H6). unfold del_entry. rewrite He1. by apply HQ.
Qed.

Lemma ordered_head g e l : ordered g (e :: l) → e ∉ l ∧ ordered g l ∧ filter (fun x => x ≠ e) (e :: l) = l.
Proof.
  intros [H1 H2]%StronglySorted_inv. rewrite Forall_forall in H2. assert (e ∉ l) as Hn by (intros He%H2; lia).
  split_and!; [done|done|]. rewrite filter_cons_False by (intros Hx; by apply Hx). clear -Hn.
  induction l as [|x l IH]; [done|]. rewrite filter_cons_True by set_solver. f_equal. apply IH. set_solver.
Qed.

Lemma wp_destroy_loop t r l (Q : unit → kstate W → Prop) s :
  shared_inv F None None s → k_maps s !! t = Some (mkDmap r l) →
  (∀ s', shared_inv F None None s' → k_maps s' = <[t := mkDmap r []]> (k_maps s) → k_copies s' = k_copies s →
     (∀ e, k_entries s' !! e = if decide (e ∈ l) then None else k_entries s !! e) →
     (∀ m p, v_page (vw s') m p = v_page (vw s) m p) → (∀ o i, v_data (vw s') o i = v_data (vw s) o i) → Q tt s') →
  wp (destroy_loop t l) Q s.
Proof.
  revert s. induction l as [|e l IH]; intros s Hi Hm HQ.
  { apply wp_ret, HQ; try done. by rewrite insert_id. }
  pose proof (si_trees _ _ _ _ Hi _ _ Hm) as [Hlive Hord]. apply ordered_head in Hord as (Hnin & Hord & Hfil).
  destruct (Hlive e) as [x Hx]; [left|]. cbn [destroy_loop]. apply wp_bind. unfold wp at 1, get_map. rewrite Hm. apply wp_bind.
  unfold wp at 1, put_map. cbn [shared_entries map_refcnt]. rewrite Hfil.
  set (s1 := set_maps (<[t := mkDmap r l]> (k_maps s)) s).
  assert (Hi1 : shared_inv F None None s1).
  { pose proof Hi as [[A B C] H2 H3 H4 H5 H6 H7 H8 H9 H10 H11]. split; cbn; try done.
    - intros t' m'. destruct (decide (t' = t)) as [->|Hne]; [rewrite lookup_insert_eq; intros [= <-]|rewrite lookup_insert_ne by done; apply H10].
      split; cbn; [intros e' He'; apply Hlive; by right|done].
    - intros t1 t2 m1 m2 e'. destruct (decide (t1 = t)) as [->|Hn1], (decide (t2 = t)) as [->|Hn2]; [done| | |];
        rewrite ?lookup_insert_eq, ?lookup_insert_ne by done; intros Hm1 Hm2 I1 I2; simplify_eq; cbn in *.
      + eapply (H11 t t2); [done|done| |done]. by right.
      + eapply (H11 t1 t); [done|done|done|]. by right.
      + by eapply H11. }
  apply wp_bind. eapply (wp_entry_destroy None e x); [exact Hi1|done| |].
  { intros t' m' Hm' Hin. cbn in Hm'. destruct (decide (t' = t)) as [->|Hne].
    - rewrite lookup_insert_eq in Hm'. by injection Hm' as <-.
    - rewrite lookup_insert_ne in Hm' by done. apply Hne. eapply (si_disjoint _ _ _ _ Hi); [exact Hm'|exact Hm|exact Hin|left]. }
  intros s2 Hi2 He2 Hm2 Hc2 Hp2 Hd2. apply IH; [done|rewrite Hm2; cbn; by rewrite lookup_insert_eq|].
  intros s3 Hi3 Hm3 Hc3 He3 Hp3 Hd3. apply HQ; [done|rewrite Hm3, Hm2; cbn; by rewrite insert_insert_eq|by rewrite Hc3, Hc2| | |].
  - intros e'. rewrite He3, He2. cbn. destruct (decide (e' = e)) as [->|Hne].
    + rewrite decide_False, decide_True by (done || left). apply lookup_delete_eq.
    + rewrite lookup_delete_ne by done. apply decide_ext. set_solver.
  - intros m p. rewrite Hp3, Hp2. done.
  - intros o i. rewrite Hd3, Hd2. done.
Qed.

Lemma inv_set_maps_delete t s : shared_inv F None None s → shared_inv F None None (set_maps (delete t (k_maps s)) s).
Proof.
  intros [[A B C] H2 H3 H4 H5 H6 H7 H8 H9 H10 H11]. split; cbn; try done.
  - intros t' m' [_ Hm]%lookup_delete_Some. by eapply H10.
  - intros t1 t2 m1 m2 e [_ Hm1]%lookup_delete_Some [_ Hm2]%lookup_delete_Some. by eapply H11.
Qed.

Lemma inv_set_refcnt t m r s :
  shared_inv F None None s → k_maps s !! t = Some m →
  shared_inv F None None (set_maps (<[t := mkDmap r (shared_entries m)]> (k_maps s)) s).
Proof.
  intros [[A B C] H2 H3 H4 H5 H6 H7 H8 H9 H10 H11] Hm.
  assert (Hget : ∀ t' m', <[t := mkDmap r (shared_entries m)]> (k_maps s) !! t' = Some m' →
    ∃ m0, k_maps s !! t' = Some m0 ∧ shared_entries m0 = shared_entries m').
  { intros t' m' [[<- <-]|[Hne Hm']]%lookup_insert_Some; eauto. }
  split; cbn; try done.
  - intros t' m' (m0 & Hm0 & <-)%Hget. by eapply H10.
  - intros t1 t2 m1 m2 e (x1 & Hx1 & <-)%Hget (x2 & Hx2 & <-)%Hget. by eapply H11.
Qed.

(** A descriptor nobody else holds has an entry. *)
Lemma live_descriptor_entry d s :
  shared_inv F None None s → is_Some (k_descs s !! d) → ∃ e y, k_entries s !! e = Some y ∧ e_descriptor y = d.
Proof.
  intros Hi [x Hx]. pose proof (si_live _ _ _ _ Hi _ _ Hx). pose proof (si_refs _ _ _ _ Hi _ _ Hx) as Hr. rewrite decide_False in Hr by done.
  unfold refs in Hr. destruct (map_choose (filter (fun kv => e_descriptor kv.2 = d) (k_entries s))) as (e & y & He).
  { intros He. rewrite He, map_size_empty in Hr. lia. }
  apply map_lookup_filter_Some in He as [He Hd]. by exists e, y.
Qed.

Lemma wp_map_destroy t m (Q : unit → kstate W → Prop) s :
  shared_inv F None None s → k_maps s !! t = Some m → map_refcnt m = 1 →
  (∀ s', shared_inv F None None s' → k_maps s' = delete t (k_maps s) → k_copies s' = k_copies s →
     (∀ e, k_entries s' !! e = if decide (e ∈ shared_entries m) then None else k_entries s !! e) →
     keeps (fun _ _ => True) (vw s) (vw s') → Q tt s') →
  wp (dtape_vm_map_destroy t) Q s.
Proof.
  intros Hi Hm Hr HQ. apply wp_bind. unfold wp at 1, get_map. rewrite Hm, Hr. cbn [Z.sub Z.eqb negb]. apply wp_bind.
  unfold wp at 1, put_map. apply wp_bind. eapply wp_destroy_loop; [by apply inv_set_refcnt|cbn; by rewrite lookup_insert_eq|].
  intros s' Hi' Hm' Hc' He' Hp' Hd'. unfold wp, del_map. apply HQ; [by apply inv_set_maps_delete| |done|done|by apply keeps_ext].
  cbn. rewrite Hm'. cbn. by rewrite insert_insert_eq, delete_insert_eq.
Qed.
End destroy.

(** ** Theorems *)

Section remap_copy.
Context {W : Type} `{!Hooks W, !HooksLaws W}.
Implicit Types s : kstate W.
Notation vw s := (view_of (k_w s)).

(** A remap with a copy never faults for sizes below 2^63 and leaves the server's
    heap as it was on every path; on success, when the source range can be read and is not too
    long, the target has, at the address that is returned, the bytes the source had before the
    call, also when the new pages replace the source's own. *)
Theorem remap_copy_spec target src address size flags addr s :
  0 ≤ size < 2 ^ 63 → heap_ok s →
  ∃ r s', mach_vm_remap_external target src address size flags addr true s = Some (r, s') ∧ heap s' = heap s ∧
    (r.1 = KERN_SUCCESS → size ≤ MAX_RW_COUNT → readable_range (k_w s) src addr size →
       ∃ l ta, r.2 = Some (ta, 3, 7) ∧ reads (vw s) (task_map src) addr l ∧ Z.of_nat (length l) = size ∧
       reads (vw s') (task_map target) ta l) ∧
    (r.1 ≠ KERN_SUCCESS → r.2 = None).
Proof.
  intros Hs Hok.
  enough (wp (mach_vm_remap_external target src address size flags addr true) (fun r s' => heap s' = heap s ∧
    (r.1 = KERN_SUCCESS → size ≤ MAX_RW_COUNT → readable_range (k_w s) src addr size →
       ∃ l ta, r.2 = Some (ta, 3, 7) ∧ reads (vw s) (task_map src) addr l ∧ Z.of_nat (length l) = size ∧
       reads (vw s') (task_map target) ta l) ∧ (r.1 ≠ KERN_SUCCESS → r.2 = None)) s) as (r & s' & H)%wp_result by (by exists r, s').
  apply wp_bind, wp_copyin_common; [lia|done| |].
  { intros kr s' Hkr Hh _ _. destruct Hkr as [-> | ->]; cbn -[wp]; apply wp_bind, wp_ret, wp_ret; done. }
  intros c s1 l (-> & Hn1 & Hh1) Hfet Hv. pose proof (proj1 Hfet) as Hl. assert (vw s1 ≡ vw s) as Hv1 by (destruct Hv as [[? _]|[? _]]; done). clear Hv.
  unfold heap in Hh1. injection Hh1 as Hc Hd He Hm.
  set (x := mkCopy VM_MAP_COPY_KERNEL_BUFFER 0 size l) in *.
  assert (k_copies s1 !! k_next s = Some x) as Hx by (by rewrite Hc, lookup_insert_eq).
  assert (Hdel : delete (k_next s) (k_copies s1) = k_copies s) by (rewrite Hc, delete_insert_id; [done|by apply (ho_copies s)]).
  assert (Hheap : ∀ w, heap (set_copies (delete (k_next s) (k_copies s1)) (set_w w s1)) = heap s).
  { intros w. unfold heap. cbn. by rewrite Hdel, Hd, He, Hm. }
  cbn [KERN_SUCCESS Z.eqb negb]. rewrite pages_round_up by lia. apply wp_bind, wp_hook. intros ta w [[-> Hw]|((Hg & _) & Hgrant & o & Hfr & Hw)]%allocate_law.
  { cbn -[wp]. apply wp_bind. eapply wp_free_copy; [exact Hx|]. apply wp_ret. split; [apply Hheap|done]. }
  destruct (Z.eqb_spec ta 0) as [->|_]; [by destruct Hg|]. apply wp_bind, (wp_copy_overwrite _ _ _ x); [done|done| |].
  - intros k w2 Hw2. cbn -[wp]. apply wp_bind. eapply wp_free_copy; [exact Hx|]. apply wp_bind, wp_hook. intros r w3 _.
    apply wp_ret. split; [apply Hheap|done].
  - intros l' w2 Hw2 (_ & Hmap & Hfull). cbn -[wp]. apply wp_ret. split; [apply Hheap|]. split; [|done]. intros _ Hmax Hrr.
    cbn [x cpy_kdata k_w set_w] in Hw2, Hmap, Hfull.
    assert (l' = l) as ->.
    { apply Hfull; [lia|]. intros i Hi. assert (0 ≤ i < pages size * PAGE) as Hip by (unfold pages; lia). destruct Hg as (_ & Hal & _).
      split; [rewrite Hw, loc_map by done; done|]. apply Hgrant; [|lia|done]. apply in_range_spec. destruct (page_of ta i Hal) as [-> _]; lia. }
    exists l, ta. split_and!; [done|by apply (fetched_reads _ _ _ size)|done|]. cbn. rewrite Hw2. apply reads_write; [|done].
    pose proof (separate_map (v_clear o (vw s1)) (task_map target) ta (pages size) o 0 (length l)) as Hsep.
    intros i j y Hi Hj. rewrite Hw. apply Hsep; [apply Hg|unfold pages; lia|done|done].
Qed.

End remap_copy.

Section theorems.
Context {W : Type} `{!Hooks W, !HooksLaws W}.
Context (F : Z → Prop).
Implicit Types s : kstate W.
Notation vw s := (view_of (k_w s)).


(** C16: a remap without a copy shares memory and loses none.  The range lies between the
    first page and 2^63, and no other thread of the source changes it during the call (the
    code does not stop them).  On success and on every error path every byte of every map is
    kept, although the source's pages are replaced, provided the pages of the range can all
    be read and are not more than one [process_vm_readv] moves; bytes outside the range are
    kept in any case.  And when the call succeeds and the source has no shared entry at the
    first page of the range ([no_entry_at]; with one, the old memory may be mapped:
    [shared_entries_stale]), the new pages of the target and the pages of the source are
    backed by the same memory, so each task sees what the other writes. *)
Theorem remap_shared_aliases target src size flags addr s r s' :
  shared_inv F None None s → is_Some (k_maps s !! src) → is_Some (k_maps s !! target) →
  PAGE ≤ addr → 0 ≤ size → addr + size < 2 ^ 63 →
  mach_vm_remap_external_shared target src size flags addr s = Some (r, s') →
  let start := remap_start addr in
  let len := remap_size addr size in
  (∀ m a b, byte_at (vw s) m a = Some b →
     (m = task_map src → start ≤ a < start + len → len ≤ MAX_RW_COUNT ∧ readable_range (k_w s) src start len) →
     byte_at (vw s') m a = Some b) ∧
  (r.1 = KERN_SUCCESS → no_entry_at src start s →
   ∃ ta, good_range ta (pages len) ∧ ∀ i, 0 ≤ i < len →
     is_Some (loc (vw s') (task_map src) (start + i)) ∧
     loc (vw s') (task_map target) (ta + i) = loc (vw s') (task_map src) (start + i)).
Proof.
  intros Hi H1 H2 H3 H4 H5 Hrun start len.
  assert (start mod PAGE = 0 ∧ len = pages len * PAGE) as [A2 A4] by (by pose proof (remap_span addr size H3 H4 H5) as (_ & ? & _ & ? & _)).
  set (K := fun m a => m = task_map src → start ≤ a < start + len → len ≤ MAX_RW_COUNT ∧ readable_range (k_w s) src start len).
  assert (keeps K (vw s) (vw s') ∧ remap_done src target addr size r s s') as [Hk Hd].
  { revert Hrun. apply (wp_run _ (fun r s' => keeps K (vw s) (vw s') ∧ remap_done src target addr size r s s')).
    apply (wp_remap_shared F K); try done. intros y Hy Hr. by apply Hy. }
  split; [intros m a b Hb HK; by apply Hk|]. intros Hkr Hno. destruct (Hd Hkr) as [_ (o & ta & Hg & _ & Hp)]; [done|]. exists ta. split; [done|].
  intros i Hi'. destruct (page_of ta i) as [Et1 Et2]; [apply Hg|lia|]. destruct (page_of start i) as [Es1 Es2]; [done|lia|].
  destruct (Hp (i / PAGE)) as [Pt Ps]; [change (remap_size addr size) with len; lia|]. change (remap_start addr) with start in Ps.
  unfold loc. rewrite Et1, Et2, Es1, Es2, Pt, Ps. done.
Qed.

(** C18: destroying a map releases exactly the entries of its tree: the other maps, the copies
    and all memory stay, and the bookkeeping holds.  A descriptor remains exactly when an
    entry outside the tree refers to it (of another map, or one that no tree holds, as in
    [shared_entries_stale]), and the open memory files are those of the descriptors that
    remain.  So when every entry is in this tree, no entry, no descriptor and no memory file
    remains. *)
Theorem map_destroy_releases t m s :
  shared_inv F None None s → k_maps s !! t = Some m → map_refcnt m = 1 →
  ∃ s', dtape_vm_map_destroy t s = Some (tt, s') ∧ shared_inv F None None s' ∧ k_maps s' = delete t (k_maps s) ∧
    k_copies s' = k_copies s ∧
    (∀ e, k_entries s' !! e = if decide (e ∈ shared_entries m) then None else k_entries s !! e) ∧
    (∀ d, is_Some (k_descs s' !! d) ↔ ∃ e y, k_entries s !! e = Some y ∧ e ∉ shared_entries m ∧ e_descriptor y = d) ∧
    (∀ m' a b, byte_at (vw s) m' a = Some b → byte_at (vw s') m' a = Some b) ∧
    (∀ fd, is_Some (v_fd (vw s') fd) ↔ F fd ∨ ∃ d x, k_descs s' !! d = Some x ∧ memfd x = fd) ∧
    ((∀ e, is_Some (k_entries s !! e) → e ∈ shared_entries m) →
       k_entries s' = ∅ ∧ k_descs s' = ∅ ∧ ∀ fd, is_Some (v_fd (vw s') fd) ↔ F fd).
Proof.
  intros Hi Hm Hr.
  enough (wp (dtape_vm_map_destroy t) (fun _ s' => shared_inv F None None s' ∧ k_maps s' = delete t (k_maps s) ∧
    k_copies s' = k_copies s ∧ (∀ e, k_entries s' !! e = if decide (e ∈ shared_entries m) then None else k_entries s !! e) ∧
    keeps (fun _ _ => True) (vw s) (vw s')) s) as ([] & s' & Hrun & Hi' & Hm' & Hc' & He' & Hk')%wp_result.
  - assert (Hd : ∀ d, is_Some (k_descs s' !! d) ↔ ∃ e y, k_entries s !! e = Some y ∧ e ∉ shared_entries m ∧ e_descriptor y = d).
    { intros d. split.
      - intros Hd. destruct (live_descriptor_entry F d s' Hi' Hd) as (e & y & He & Hy). rewrite He' in He. case_decide; [done|]. by exists e, y.
      - intros (e & y & He & Hn & <-). apply (si_desc _ _ _ _ Hi' e). by rewrite He', decide_False. }
    assert (Hfd : ∀ fd, is_Some (v_fd (vw s') fd) ↔ F fd ∨ ∃ d x, k_descs s' !! d = Some x ∧ memfd x = fd)
      by (intros fd; rewrite (si_fds _ _ _ _ Hi' fd); naive_solver).
    exists s'. split_and!; [done..|intros m' a b; by apply Hk'|done|]. intros Hall.
    assert (Hdemp : k_descs s' = ∅).
    { apply map_eq. intros d. rewrite lookup_empty. destruct (k_descs s' !! d) as [x|] eqn:E; [|done]. destruct (proj1 (Hd d)) as (e & y & He & Hn & _); [by rewrite E|].
      destruct Hn. apply Hall. by rewrite He. }
    split_and!; [|done|intros fd; rewrite Hfd, Hdemp; naive_solver].
    apply map_eq. intros e. rewrite He', lookup_empty. case_decide as Hin; [done|]. destruct (k_entries s !! e) as [x|] eqn:E; [|done].
    destruct Hin. apply Hall. by rewrite E.
  - by apply (wp_map_destroy F t m).
Qed.
End theorems.

(** ** Examples on the host *)

(** Tasks 0 and 1 have maps; task 0 has pages 16 and 17. *)
Definition shared_state (answers : list bool) : kstate host :=
  mkK (mkHost {[ (1%nat, 16) := (0%nat, 0); (1%nat, 17) := (0%nat, 1) ]} {[ (0%nat, 0) := 7 ]} ∅ answers)
    ∅ ∅ ∅ {[ 0%nat := mkDmap 1 []; 1%nat := mkDmap 1 [] ]} 0.

Definition no_files (fd : Z) : Prop := False.

Lemma shared_state_map answers t m : k_maps (shared_state answers) !! t = Some m → m = mkDmap 1 [].
Proof. cbn. intros [[_ <-]|[_ [_ <-]%lookup_singleton_Some]]%lookup_insert_Some; done. Qed.

Lemma shared_state_inv answers : shared_inv no_files None None (shared_state answers).
Proof.
  split; [by split|try done..].
  - intros fd. cbn. rewrite lookup_empty. split; [by intros []|]. intros [[]|[?|(d & x & Hx & _)]]; [done|].
    by rewrite lookup_empty in Hx.
  - intros t m ->%shared_state_map. split; cbn; [by intros e ?%elem_of_nil|constructor].
  - intros t t' m m' e ->%shared_state_map _ Hin. by apply elem_of_nil in Hin.
Qed.


Lemma shared_state_no_entry answers start : no_entry_at 0 start (shared_state answers).
Proof. intros m e ->%shared_state_map Hin. by apply elem_of_nil in Hin. Qed.

Lemma shared_state_readable answers : readable_range (k_w (shared_state answers)) 0 65536 4096.
Proof.
  intros i Hi. split; [|done]. unfold loc. replace ((65536 + i) / 4096) with 16 by lia. by eexists.
Qed.

Lemma remap_shared_aliases_witness :
  ∃ r s', mach_vm_remap_external_shared 1 0 10 0 65540 (shared_state []) = Some (r, s') ∧ r.1 = KERN_SUCCESS ∧
    byte_at (view_of (k_w s')) (task_map 0) 65536 = Some 7 ∧
    ∃ ta, ∀ i, 0 ≤ i < 4096 →
      loc (view_of (k_w s')) (task_map 1) (ta + i) = loc (view_of (k_w s')) (task_map 0) (65536 + i).
Proof.
  assert (H1 : is_Some (k_maps (shared_state []) !! 0%nat)) by (by eexists).
  assert (H2 : is_Some (k_maps (shared_state []) !! 1%nat)) by (by eexists).
  assert (H3 : PAGE ≤ 65540) by lia. assert (H4 : 0 ≤ 10) by lia. assert (H5 : 65540 + 10 < 2 ^ 63) by lia.
  assert (Hf : (fst ∘ fst <$> mach_vm_remap_external_shared 1 0 10 0 65540 (shared_state [])) = Some KERN_SUCCESS) by (vm_compute; reflexivity).
  destruct (mach_vm_remap_external_shared 1 0 10 0 65540 (shared_state [])) as [[r s']|] eqn:E; [|discriminate].
  injection Hf as Hk. exists r, s'. split; [reflexivity|]. split; [exact Hk|].
  destruct (remap_shared_aliases no_files 1 0 10 0 65540 (shared_state []) r s' (shared_state_inv []) H1 H2 H3 H4 H5 E) as [Hb Ha].
  split; [apply Hb; [reflexivity|intros _ _; split; [by apply Z.leb_le|apply shared_state_readable]]|]. destruct (Ha Hk (shared_state_no_entry [] _)) as (ta & _ & Hl). exists ta.
  intros i Hi. exact (proj2 (Hl i Hi)).
Defined.

(** One map, with a shared range whose memory file is descriptor 3. *)
Definition one_entry : kstate host :=
  mkK (mkHost {[ (1%nat, 16) := (5%nat, 0) ]} ∅ {[ 3 := 5%nat ]} [])
    ∅ {[ 0%nat := mkDesc 1 3 4096 ]} {[ 1%nat := mkEntry 65536 4096 0 0 ]} {[ 0%nat := mkDmap 1 [1%nat] ]} 2.

Lemma one_entry_inv : shared_inv no_files None None one_entry.
Proof.
  split; cbn.
  - split; cbn; [done| |]; intros c Hc; apply lookup_singleton_ne; lia.
  - intros d x [<- <-]%lookup_singleton_Some. done.
  - intros d x [<- <-]%lookup_singleton_Some. done.
  - done.
  - intros e x [<- <-]%lookup_singleton_Some. by eexists.
  - intros d d' x x' [<- <-]%lookup_singleton_Some [<- <-]%lookup_singleton_Some. done.
  - intros fd. split.
    + intros [o [<- <-]%lookup_singleton_Some]. right; right. by exists 0%nat, (mkDesc 1 3 4096).
    + intros [[]|[?|(d & x & [<- <-]%lookup_singleton_Some & <-)]]; [done|by eexists].
  - intros d x [<- <-]%lookup_singleton_Some. split; [by intros []|done].
  - done.
  - intros t m [<- <-]%lookup_singleton_Some. split; cbn; [|repeat constructor].
    intros e ->%list_elem_of_singleton. by eexists.
  - intros t t' m m' e [<- <-]%lookup_singleton_Some [<- <-]%lookup_singleton_Some. done.
Qed.

Lemma map_destroy_releases_witness :
  is_Some (v_fd (view_of (k_w one_entry)) 3) ∧
  ∃ s', dtape_vm_map_destroy 0 one_entry = Some (tt, s') ∧ k_entries s' = ∅ ∧ k_descs s' = ∅ ∧
    ∀ fd, is_Some (v_fd (view_of (k_w s')) fd) ↔ no_files fd.
Proof.
  split; [by eexists|].
  destruct (map_destroy_releases no_files 0 (mkDmap 1 [1%nat]) one_entry one_entry_inv eq_refl eq_refl)
    as (s' & Hr & _ & _ & _ & _ & _ & _ & _ & Hall).
  exists s'. split; [exact Hr|]. apply Hall.
  intros e [x Hx]. cbn in Hx. apply lookup_singleton_Some in Hx as [<- _]. left.
Defined.

(** The same source address is remapped with a larger size. *)
Definition remap_larger : M host unit :=
  _ ← mach_vm_remap_external_shared 1 0 4096 0 65536;
  _ ← mach_vm_remap_external_shared 1 0 8192 0 65536;
  _ ← dtape_vm_map_destroy 0;
  dtape_vm_map_destroy 1.

(** The source frees the range and allocates it again between two remaps. *)
Definition remap_stale : M host (Z * option (Z * Z * Z)) :=
  _ ← mach_vm_remap_external_shared 1 0 4096 0 65536;
  _ ← mach_vm_deallocate (Some (task_map 0)) 65536 4096;
  _ ← hook (task_allocate_pages 0 1 3 65536 dtape_memory_flag_fixed);
  mach_vm_remap_external_shared 1 0 4096 0 65536.

(** Two ways in which the recorded entries are wrong.  A remap that starts where an
    entry does but is larger makes a second entry for the same address, which [RB_INSERT]
    does not insert: the entry, its descriptor and the memory file are still there when all
    maps have been destroyed.  And an entry is not removed when its task unmaps the range, so
    a later remap of the address succeeds and gives the target the old memory, not the one
    the source has there. *)
Theorem shared_entries_stale :
  (∃ s d x, remap_larger (shared_state []) = Some (tt, s) ∧ k_maps s = ∅ ∧ k_descs s !! d = Some x ∧
     is_Some (v_fd (view_of (k_w s)) (memfd x))) ∧
  (∃ s ta cur max, remap_stale (shared_state []) = Some ((KERN_SUCCESS, Some (ta, cur, max)), s) ∧
     byte_at (view_of (k_w s)) (task_map 0) 65536 = Some 0 ∧ byte_at (view_of (k_w s)) (task_map 1) ta = Some 7).
Proof.
  split.
  - assert (H : match remap_larger (shared_state []) with
      | Some (_, s) => bool_decide (k_maps s = ∅) &&
          existsb (fun dx => match v_fd (view_of (k_w s)) (memfd dx.2) with Some _ => true | None => false end) (map_to_list (k_descs s))
      | None => false end = true) by (vm_compute; reflexivity).
    destruct (remap_larger (shared_state [])) as [[[] s]|]; [|done]. apply andb_true_iff in H as [Hm%bool_decide_eq_true He].
    apply existsb_exists in He as ([d x] & Hin%list_elem_of_In%elem_of_map_to_list & Hfd). exists s, d, x. split_and!; [done..|].
    cbn [snd] in Hfd. by destruct (v_fd _ _).
  - assert (H : match remap_stale (shared_state []) with
      | Some ((0, Some (ta, _, _)), s) => bool_decide (byte_at (view_of (k_w s)) (task_map 0) 65536 = Some 0) &&
          bool_decide (byte_at (view_of (k_w s)) (task_map 1) ta = Some 7)
      | _ => false end = true) by (vm_compute; reflexivity).
    destruct (remap_stale (shared_state [])) as [[[[|p|p] [[[ta cur] max]|]] s]|]; try done.
    apply andb_true_iff in H as [H1%bool_decide_eq_true H2%bool_decide_eq_true]. by exists s, ta, cur, max.
Qed.

Lemma remap_copy_spec_witness :
  ∃ r s', mach_vm_remap_external 1 0 0 3 1 65536 true (shared_state []) = Some (r, s') ∧ heap s' = heap (shared_state []).
Proof.
  assert (H1 : 0 ≤ 3 < 2 ^ 63) by lia.
  destruct (remap_copy_spec 1 0 0 3 1 65536 (shared_state []) H1 (si_heap _ _ _ _ (shared_state_inv []))) as (r & s' & Hr & Hh & _).
  exists r, s'. exact (conj Hr Hh).
Defined.
