(* ===== verification/TaskRegistry.v ===== *)
(** * The registry of tasks and threads of the kernel module
    ([src/src/external/lkm/osxie/task_registry.c])

    Two hash tables of registry entries by process and thread identifier, the keys, the
    listeners and the start-up information of a task.  The functions run under the module's
    locks and RCU; here each runs as one step.  A dereference of a missing entry or of a
    failed allocation is [None]. *)

From stdpp Require Import functions.
From S2P Require Import Prelude.

(** ** Hash tables

    [DEFINE_HASHTABLE(..., 6)]: 64 buckets of entries; [hash] is the kernel's [hash_min],
    of which only the range matters.  An entry is an allocated block at an address; those
    that are removed are freed. *)

Record table (A : Type) := mkTable {
  t_heap : gmap nat A;
  t_buckets : nat → list nat;
  t_next : nat;
}.
Arguments mkTable {A} t_heap t_buckets t_next.
Arguments t_heap {A} t.
Arguments t_buckets {A} t.
Arguments t_next {A} t.

Definition BUCKETS : nat := 64.

Section tables.
Context {A : Type} (tid : A → Z) (hash : Z → nat).
Implicit Types tb : table A.

Definition empty_table : table A := mkTable ∅ (fun _ => []) 0.

(** [hash_for_each_possible] with the test of the identifier. *)
Fixpoint search (g : gmap nat A) (pid : Z) (l : list nat) : option nat :=
  match l with
  | [] => None
  | e :: l => match g !! e with
              | Some x => if tid x =? pid then Some e else search g pid l
              | None => None
              end
  end.
Definition find_entry (tb : table A) (pid : Z) : option nat := search (t_heap tb) pid (t_buckets tb (hash pid)).

(** [hash_add_rcu] of a new block, [hash_del_rcu] and the [kfree] after it, a store into an
    entry. *)
Definition hash_add (x : A) (tb : table A) : table A :=
  mkTable (<[t_next tb := x]> (t_heap tb)) (<[hash (tid x) := t_next tb :: t_buckets tb (hash (tid x))]> (t_buckets tb)) (S (t_next tb)).
Definition hash_del (e : nat) (tb : table A) : table A :=
  mkTable (delete e (t_heap tb)) (fun b => filter (fun x => x ≠ e) (t_buckets tb b)) (t_next tb).
Definition store_entry (e : nat) (x : A) (tb : table A) : table A :=
  mkTable (<[e := x]> (t_heap tb)) (t_buckets tb) (t_next tb).

(** [hash_for_each]: the first entry with a property, bucket by bucket. *)
Fixpoint search_if (f : A → bool) (g : gmap nat A) (l : list nat) : option nat :=
  match l with
  | [] => None
  | e :: l => match g !! e with
              | Some x => if f x then Some e else search_if f g l
              | None => None
              end
  end.
Definition find_if (f : A → bool) (tb : table A) : option nat :=
  search_if f (t_heap tb) (mjoin (t_buckets tb <$> seq 0 BUCKETS)).

(** Every entry is once in the bucket of its identifier, and identifiers are unique. *)
Record table_ok tb : Prop := mkTableOk {
  tk_bucket b e : e ∈ t_buckets tb b → ∃ x, t_heap tb !! e = Some x ∧ hash (tid x) = b;
  tk_in e x : t_heap tb !! e = Some x → e ∈ t_buckets tb (hash (tid x));
  tk_unique e e' x x' : t_heap tb !! e = Some x → t_heap tb !! e' = Some x' → tid x = tid x' → e = e';
  tk_next e : (t_next tb ≤ e)%nat → t_heap tb !! e = None;
}.

(** The table as a map from identifiers. *)
Definition represents tb (g : gmap Z A) : Prop :=
  table_ok tb ∧ ∀ pid, g !! pid = match find_entry tb pid with Some e => t_heap tb !! e | None => None end.

Lemma search_Some g pid l e : search g pid l = Some e → e ∈ l ∧ ∃ x, g !! e = Some x ∧ tid x = pid.
Proof.
  induction l as [|y l IH]; cbn; [done|]. destruct (g !! y) as [x|] eqn:E; [|done].
  destruct (Z.eqb_spec (tid x) pid) as [Hp|Hp].
  - intros [= ->]. split; [left|by exists x].
  - intros [H1 H2]%IH. split; [by right|done].
Qed.

Lemma find_entry_iff tb pid e :
  table_ok tb → find_entry tb pid = Some e ↔ ∃ x, t_heap tb !! e = Some x ∧ tid x = pid.
Proof.
  intros Hok. unfold find_entry. split; [by intros [_ ?]%search_Some|]. intros (x & Hx & Hp).
  pose proof (tk_in _ Hok _ _ Hx) as Hin. rewrite Hp in Hin.
  assert (∀ l, e ∈ l → (∀ y, y ∈ l → is_Some (t_heap tb !! y)) → search (t_heap tb) pid l = Some e) as H.
  { induction l as [|y l IH]; intros Hel Hl; [by apply elem_of_nil in Hel|]. cbn. destruct (Hl y) as [z Hz]; [left|].
    rewrite Hz. destruct (Z.eqb_spec (tid z) pid) as [Hq|Hq].
    - f_equal. eapply (tk_unique _ Hok); [done|done|congruence].
    - apply IH; [|intros w Hw; apply Hl; by right]. apply elem_of_cons in Hel as [<-|?]; [|done]. congruence. }
  apply H; [done|]. intros y Hy. destruct (tk_bucket _ Hok _ _ Hy) as (z & Hz & _). by exists z.
Qed.

Lemma represents_lookup tb g pid : represents tb g → g !! pid = match find_entry tb pid with Some e => t_heap tb !! e | None => None end.
Proof. intros [_ H]. apply H. Qed.

Lemma represents_iff tb g pid x :
  represents tb g → g !! pid = Some x ↔ ∃ e, t_heap tb !! e = Some x ∧ tid x = pid.
Proof.
  intros [Hok Hg]. rewrite Hg. destruct (find_entry tb pid) as [e|] eqn:E.
  - apply find_entry_iff in E as (y & Hy & Hp); [|done]. rewrite Hy. split; [intros [= ->]; eauto|].
    intros (e' & He' & Hp'). assert (e = e') as <- by (eapply (tk_unique _ Hok); [done|done|congruence]). congruence.
  - split; [done|]. intros (e & He & Hp). assert (find_entry tb pid = Some e) by (apply find_entry_iff; eauto). congruence.
Qed.

(** A map that answers as the table does. *)
Lemma represents_intro tb g :
  table_ok tb → (∀ pid x, g !! pid = Some x ↔ ∃ e, t_heap tb !! e = Some x ∧ tid x = pid) → represents tb g.
Proof.
  intros Hok Hg. split; [done|]. intros pid. apply option_eq. intros x. rewrite Hg.
  destruct (find_entry tb pid) as [e|] eqn:E.
  - apply find_entry_iff in E as (y & Hy & Hp); [|done]. rewrite Hy. split; [|intros [= ->]; eauto].
    intros (e' & He' & Hp'). assert (e = e') as <- by (eapply (tk_unique _ Hok); [done|done|congruence]). congruence.
  - split; [|done]. intros (e & He & Hp). assert (find_entry tb pid = Some e) by (apply find_entry_iff; eauto). congruence.
Qed.

Lemma find_entry_represents tb g pid e :
  represents tb g → find_entry tb pid = Some e → ∃ x, t_heap tb !! e = Some x ∧ tid x = pid ∧ g !! pid = Some x.
Proof.
  intros Hr He. pose proof He as He'. apply find_entry_iff in He' as (x & Hx & Hp); [|apply Hr].
  exists x. split_and!; [done|done|]. by rewrite (represents_lookup _ _ _ Hr), He.
Qed.
Lemma find_entry_None tb g pid : represents tb g → find_entry tb pid = None → g !! pid = None.
Proof. intros Hr He. by rewrite (represents_lookup _ _ _ Hr), He. Qed.

Lemma empty_represents : represents empty_table ∅.
Proof.
  apply represents_intro.
  - split; cbn; [by intros b e ?%elem_of_nil|done|done|done].
  - intros pid x. cbn. rewrite lookup_empty. split; [done|]. intros (e & He & _). by rewrite lookup_empty in He.
Qed.

Lemma hash_add_represents tb g x :
  represents tb g → g !! tid x = None → represents (hash_add x tb) (<[tid x := x]> g).
Proof.
  intros Hr Hn. pose proof Hr as [Hok _]. pose proof (tk_next _ Hok (t_next tb) ltac:(lia)) as Hfree.
  assert (Hne : ∀ e y, t_heap tb !! e = Some y → e ≠ t_next tb ∧ tid y ≠ tid x).
  { intros e y Hy. split; [congruence|]. intros Heq. assert (g !! tid x = Some y) by (apply (represents_iff tb g); eauto). congruence. }
  apply represents_intro.
  - destruct Hok as [H1 H2 H3 H4]. split; cbn.
    + intros b e. destruct (decide (b = hash (tid x))) as [->|Hb].
      * rewrite fn_lookup_insert. intros [->|He]%elem_of_cons; [exists x; by rewrite lookup_insert_eq|].
        destruct (H1 _ _ He) as (y & Hy & Hh). exists y. rewrite lookup_insert_ne; [done|]. intros <-. congruence.
      * rewrite fn_lookup_insert_ne by done. intros He. destruct (H1 _ _ He) as (y & Hy & Hh). exists y.
        rewrite lookup_insert_ne; [done|]. intros <-. congruence.
    + intros e y [[<- <-]|[Hne' Hy]]%lookup_insert_Some; [rewrite fn_lookup_insert; left|].
      destruct (decide (hash (tid y) = hash (tid x))) as [Heq|Hb]; [rewrite Heq, fn_lookup_insert; right; rewrite <- Heq; by apply H2|].
      rewrite fn_lookup_insert_ne by done. by apply H2.
    + intros e e' y y' [[<- <-]|[Hn1 Hy]]%lookup_insert_Some [[<- <-]|[Hn2 Hy']]%lookup_insert_Some Heq; [done| | |by eapply H3].
      * by destruct (Hne _ _ Hy').
      * by destruct (Hne _ _ Hy).
    + intros e He. rewrite lookup_insert_ne by lia. apply H4. lia.
  - intros pid y. cbn. rewrite lookup_insert_Some, (represents_iff tb g _ _ Hr). split.
    + intros [[<- <-]|[Hp (e & He & Ht)]]; [exists (t_next tb); by rewrite lookup_insert_eq|].
      exists e. rewrite lookup_insert_ne; [done|]. intros <-. congruence.
    + intros (e & [[<- <-]|[Hn' He]]%lookup_insert_Some & Ht); [by left|]. right. split; [|by exists e].
      intros <-. by destruct (Hne _ _ He).
Qed.

Lemma hash_del_represents tb g e x :
  represents tb g → t_heap tb !! e = Some x → represents (hash_del e tb) (delete (tid x) g).
Proof.
  intros Hr He. pose proof Hr as [Hok _]. apply represents_intro.
  - destruct Hok as [H1 H2 H3 H4]. split; cbn.
    + intros b e' [Hne Hin]%list_elem_of_filter. destruct (H1 _ _ Hin) as (y & Hy & Hh). exists y. by rewrite lookup_delete_ne.
    + intros e' y [Hne Hy]%lookup_delete_Some. apply list_elem_of_filter. split; [done|]. by apply H2.
    + intros e1 e2 y1 y2 [_ Hy1]%lookup_delete_Some [_ Hy2]%lookup_delete_Some. by eapply H3.
    + intros e' He'. apply lookup_delete_None. right. by apply H4.
  - intros pid y. cbn. rewrite lookup_delete_Some, (represents_iff tb g _ _ Hr). split.
    + intros [Hp (e' & He' & Ht)]. exists e'. split; [|done]. apply lookup_delete_Some. split; [|done]. intros <-. congruence.
    + intros (e' & [Hne He']%lookup_delete_Some & Ht). split; [|by exists e']. intros Heq. apply Hne.
      eapply (tk_unique _ Hok); [done|done|congruence].
Qed.

Lemma store_entry_represents tb g e x y :
  represents tb g → t_heap tb !! e = Some x → tid y = tid x → represents (store_entry e y tb) (<[tid x := y]> g).
Proof.
  intros Hr He Ht. pose proof Hr as [Hok _]. apply represents_intro.
  - destruct Hok as [H1 H2 H3 H4]. split; cbn.
    + intros b e' Hin. destruct (H1 _ _ Hin) as (z & Hz & Hh). destruct (decide (e' = e)) as [->|Hne].
      * exists y. rewrite lookup_insert_eq. split; [done|]. congruence.
      * exists z. by rewrite lookup_insert_ne.
    + intros e' z [[<- <-]|[Hne Hz]]%lookup_insert_Some; [rewrite Ht; by apply H2|by apply H2].
    + intros e1 e2 y1 y2 [[<- <-]|[Hn1 Hy1]]%lookup_insert_Some [[<- <-]|[Hn2 Hy2]]%lookup_insert_Some Heq; [done| | |by eapply H3].
      * eapply H3; [done|done|congruence].
      * eapply H3; [done|done|congruence].
    + intros e' He'. rewrite lookup_insert_ne; [by apply H4|]. intros ->. rewrite H4 in He by done. done.
  - intros pid z. cbn. rewrite lookup_insert_Some, (represents_iff tb g _ _ Hr). split.
    + intros [[<- <-]|[Hp (e' & He' & Hz)]]; [exists e; by rewrite lookup_insert_eq|]. exists e'.
      rewrite lookup_insert_ne; [done|]. intros <-. congruence.
    + intros (e' & [[<- <-]|[Hne He']]%lookup_insert_Some & Hz); [left; split; congruence|]. right. split; [|by exists e'].
      intros Heq. apply Hne. eapply (tk_unique _ Hok); [done|done|congruence].
Qed.

(** The search by a property finds an entry with it if the table has one. *)
Lemma find_if_spec f tb g :
  represents tb g → (∀ pid, (hash pid < BUCKETS)%nat) →
  match find_if f tb with
  | Some e => ∃ x, t_heap tb !! e = Some x ∧ f x = true
  | None => ∀ pid x, g !! pid = Some x → f x = false
  end.
Proof.
  intros Hr Hh. pose proof Hr as [Hok _]. unfold find_if. set (l := mjoin _).
  assert (Hl : ∀ y, y ∈ l → is_Some (t_heap tb !! y)).
  { intros y (b & Hy & Hb)%list_elem_of_join. apply list_elem_of_fmap in Hb as (n & -> & _).
    destruct (tk_bucket _ Hok _ _ Hy) as (z & Hz & _). by exists z. }
  assert (Hall : ∀ e x, t_heap tb !! e = Some x → e ∈ l).
  { intros e x Hx. apply list_elem_of_join. exists (t_buckets tb (hash (tid x))). split; [by apply (tk_in _ Hok)|].
    apply list_elem_of_fmap. exists (hash (tid x)). split; [done|]. apply elem_of_seq. specialize (Hh (tid x)). lia. }
  assert (Hs : match search_if f (t_heap tb) l with
    | Some e => ∃ x, t_heap tb !! e = Some x ∧ f x = true
    | None => ∀ e x, e ∈ l → t_heap tb !! e = Some x → f x = false end).
  { clear Hall. clearbody l. induction l as [|y l IH]; cbn; [by intros e x ?%elem_of_nil|]. destruct (Hl y) as [z Hz]; [left|]. rewrite Hz.
    destruct (f z) eqn:Hf; [by exists z|]. ospecialize* IH; [intros w Hw; apply Hl; by right|].
    destruct (search_if f (t_heap tb) l); [done|]. intros e x [->|He]%elem_of_cons Hx; [congruence|by eapply IH]. }
  destruct (search_if f (t_heap tb) l); [done|]. intros pid x (e & He & _)%(represents_iff tb g _ _ Hr). by eapply Hs; [eapply Hall|].
Qed.
End tables.

(** ** Entries *)

(** [struct proc_notification]; the identifier is an [int]. *)
Record proc_notification := mkNotification {
  registration_id : Z; listener : Z; n_context : Z; event_mask : Z;
}.

(** The task side of [struct registry_entry]: pointers are numbers, 0 is [NULL]. *)
Record task_entry := mkTask {
  t_tid : Z; t_task : Z; t_keys : list Z; t_dtors : list Z;
  sem_fork : Z; notifications : list proc_notification;
  dyld_info_done : bool; allimg_loc : Z; allimg_len : Z; do_sigstop : bool;
}.

(** The thread side. *)
Record thread_entry := mkThread { h_tid : Z; h_thread : Z; h_flags : Z }.

Definition DTE_REPLACED : Z := 4.
Definition TASK_KEY_COUNT : nat := 2.

(** What the functions call: listeners and destructors. *)
Inductive call :=
  | Notify (listener pid context event extra : Z)
  | Destroy (dtor value : Z).

(** The globals; [reg_id_counter] is a [long]. *)
Record registry := mkRegistry {
  all_tasks : table task_entry;
  all_threads : table thread_entry;
  task_count : Z;
  reg_id_counter : Z;
}.

(** What a function does to an entry. *)
Definition set_task (x : task_entry) (task : Z) : task_entry :=
  mkTask (t_tid x) task (t_keys x) (t_dtors x) (sem_fork x) (notifications x) (dyld_info_done x) (allimg_loc x) (allimg_len x) (do_sigstop x).
Definition set_keys (x : task_entry) (keys dtors : list Z) : task_entry :=
  mkTask (t_tid x) (t_task x) keys dtors (sem_fork x) (notifications x) (dyld_info_done x) (allimg_loc x) (allimg_len x) (do_sigstop x).
Definition set_sem (x : task_entry) (n : Z) : task_entry :=
  mkTask (t_tid x) (t_task x) (t_keys x) (t_dtors x) n (notifications x) (dyld_info_done x) (allimg_loc x) (allimg_len x) (do_sigstop x).
Definition set_notifications (x : task_entry) (l : list proc_notification) : task_entry :=
  mkTask (t_tid x) (t_task x) (t_keys x) (t_dtors x) (sem_fork x) l (dyld_info_done x) (allimg_loc x) (allimg_len x) (do_sigstop x).
Definition set_dyld (x : task_entry) (loc len : Z) : task_entry :=
  mkTask (t_tid x) (t_task x) (t_keys x) (t_dtors x) (sem_fork x) (notifications x) true loc len (do_sigstop x).
Definition set_sigstop (x : task_entry) (b : bool) : task_entry :=
  mkTask (t_tid x) (t_task x) (t_keys x) (t_dtors x) (sem_fork x) (notifications x) (dyld_info_done x) (allimg_loc x) (allimg_len x) b.

(** [osxie_proc_post_notification_internal] *)
Definition osxie_proc_post_notification_internal (entry : task_entry) (event extra : Z) : list call :=
  (fun dn => Notify (listener dn) (t_tid entry) (n_context dn) event extra) <$>
    filter (fun dn => Z.land event (event_mask dn) ≠ 0) (notifications entry).

(** The destructors [osxie_task_free] calls. *)
Definition osxie_task_free (entry : task_entry) : list call :=
  omap (fun kd => if kd.1 =? 0 then None else Some (Destroy kd.2 kd.1)) (zip (t_keys entry) (t_dtors entry)).

(** [list_for_each] of [osxie_proc_notify_deregister]: the first listener with the number. *)
Fixpoint remove_notification (id : Z) (l : list proc_notification) : option (list proc_notification) :=
  match l with
  | [] => None
  | dn :: l => if registration_id dn =? id then Some l else cons dn <$> remove_notification id l
  end.

(** ** The functions *)

Section registry.
Context (hash : Z → nat).
Implicit Types st : registry.

Notation find_task st pid := (find_entry t_tid hash (all_tasks st) pid).
Notation find_thread st pid := (find_entry h_tid hash (all_threads st) pid).

Definition set_tasks (tb : table task_entry) st : registry := mkRegistry tb (all_threads st) (task_count st) (reg_id_counter st).
Definition set_threads (tb : table thread_entry) st : registry := mkRegistry (all_tasks st) tb (task_count st) (reg_id_counter st).

(** [osxie_task_get_entry_unlocked], with the entry. *)
Definition osxie_task_get_entry_unlocked (pid : Z) st : option (nat * task_entry) :=
  match find_task st pid with
  | Some e => match t_heap (all_tasks st) !! e with Some x => Some (e, x) | None => None end
  | None => None
  end.
Definition osxie_thread_get_entry (pid : Z) st : option (nat * thread_entry) :=
  match find_thread st pid with
  | Some e => match t_heap (all_threads st) !! e with Some x => Some (e, x) | None => None end
  | None => None
  end.

Definition put_task (e : nat) (x : task_entry) st : registry := set_tasks (store_entry e x (all_tasks st)) st.

(** [osxie_task_get] (which also takes a reference to the task) and
    [osxie_task_get_current]. *)
Definition osxie_task_get (pid : Z) st : Z :=
  match osxie_task_get_entry_unlocked pid st with Some (_, x) => t_task x | None => 0 end.
Definition osxie_task_get_current (tgid : Z) st : Z := osxie_task_get tgid st.

Definition osxie_thread_get_current (tid : Z) st : Z :=
  match osxie_thread_get_entry tid st with Some (_, x) => h_thread x | None => 0 end.
(** [osxie_thread_get]; [current] is the calling thread. *)
Definition osxie_thread_get (current pid : Z) st : Z :=
  match osxie_thread_get_entry current st with Some (_, x) => h_thread x | None => 0 end.

(** [osxie_proc_post_notification] *)
Definition osxie_proc_post_notification (pid event extra : Z) st : bool * list call :=
  match osxie_task_get_entry_unlocked pid st with
  | Some (_, x) => (true, osxie_proc_post_notification_internal x event extra)
  | None => (false, [])
  end.

(** [osxie_task_register]; [alloc] tells whether [kzalloc] succeeds. *)
Definition osxie_task_register (tgid task : Z) (alloc : bool) st : option (registry * list call) :=
  match osxie_task_get_entry_unlocked tgid st with
  | Some (e, x) =>
      let x := set_task x task in
      Some (put_task e x st, osxie_proc_post_notification_internal x DTE_REPLACED 0)
  | None =>
      if alloc
      then Some (mkRegistry
        (hash_add t_tid hash (mkTask tgid task (replicate TASK_KEY_COUNT 0) (replicate TASK_KEY_COUNT 0) 0 [] false 0 0 false) (all_tasks st))
        (all_threads st) (u32 (task_count st + 1)) (reg_id_counter st), [])
      else None
  end.

Definition osxie_thread_register (tid thread : Z) (alloc : bool) st : option registry :=
  match osxie_thread_get_entry tid st with
  | Some (e, x) =>
      if h_thread x =? thread then Some st
      else Some (set_threads (store_entry e (mkThread (h_tid x) thread (h_flags x)) (all_threads st)) st)
  | None =>
      if alloc then Some (set_threads (hash_add h_tid hash (mkThread tid thread 0) (all_threads st)) st) else None
  end.

Definition osxie_task_deregister (tgid t : Z) st : registry * list call :=
  match osxie_task_get_entry_unlocked tgid st with
  | Some (e, x) =>
      if negb (t_task x =? t) then (st, [])
      else (mkRegistry (hash_del e (all_tasks st)) (all_threads st) (u32 (task_count st - 1)) (reg_id_counter st), osxie_task_free x)
  | None => (st, [])
  end.

Definition osxie_thread_deregister (t : Z) st : registry :=
  match find_if (fun x => h_thread x =? t) (all_threads st) with
  | Some e => set_threads (hash_del e (all_threads st)) st
  | None => st
  end.

Definition osxie_task_key_set (tgid : Z) (key : nat) (value dtor : Z) st : option (bool * registry) :=
  '(e, x) ← osxie_task_get_entry_unlocked tgid st;
  old ← t_keys x !! key;
  if negb (old =? 0) then Some (false, st)
  else Some (true, put_task e (set_keys x (<[key := value]> (t_keys x)) (<[key := dtor]> (t_dtors x))) st).

Definition osxie_task_key_get (tgid : Z) (key : nat) st : option Z :=
  match osxie_task_get_entry_unlocked tgid st with
  | Some (_, x) => t_keys x !! key
  | None => Some 0
  end.

(** [down_interruptible]: [false] when the caller has to wait. *)
Definition osxie_task_fork_wait_for_child (tgid : Z) st : option (bool * registry) :=
  '(e, x) ← osxie_task_get_entry_unlocked tgid st;
  if 0 <? sem_fork x then Some (true, put_task e (set_sem x (sem_fork x - 1)) st) else Some (false, st).

Definition osxie_task_fork_child_done (parent : Z) st : registry :=
  match osxie_task_get_entry_unlocked parent st with
  | Some (e, x) => put_task e (set_sem x (sem_fork x + 1)) st
  | None => st
  end.

(** The value of [rv = dn->registration_id = reg_id_counter++] is that of the [int]. *)
Definition osxie_proc_notify_register (pid l context mask : Z) (alloc : bool) st : option (Z * registry) :=
  match osxie_task_get_entry_unlocked pid st with
  | None => Some (-3, st)
  | Some (e, x) =>
      if negb alloc then None else
      let rv := i32 (reg_id_counter st) in
      let next := i64 (reg_id_counter st + 1) in
      let next := if next <? 0 then 0 else next in
      let x := set_notifications x (mkNotification rv l context mask :: notifications x) in
      Some (rv, mkRegistry (store_entry e x (all_tasks st)) (all_threads st) (task_count st) next)
  end.

Definition osxie_proc_notify_deregister (pid id : Z) st : bool * registry :=
  match osxie_task_get_entry_unlocked pid st with
  | None => (false, st)
  | Some (e, x) =>
      match remove_notification id (notifications x) with
      | Some l => (true, put_task e (set_notifications x l) st)
      | None => (false, st)
      end
  end.

Definition osxie_task_set_dyld_info (tgid loc len : Z) st : option registry :=
  '(e, x) ← osxie_task_get_entry_unlocked tgid st;
  Some (put_task e (set_dyld x loc len) st).

(** [osxie_task_get_dyld_info]; a wait for the information is interrupted. *)
Definition osxie_task_get_dyld_info (pid : Z) st : Z * Z :=
  match osxie_task_get_entry_unlocked pid st with
  | Some (_, x) => if dyld_info_done x then (allimg_loc x, allimg_len x) else (0, 0)
  | None => (0, 0)
  end.

Definition osxie_task_mark_start_suspended (tgid : Z) st : option registry :=
  '(e, x) ← osxie_task_get_entry_unlocked tgid st;
  Some (put_task e (set_sigstop x true) st).
Definition osxie_task_marked_start_suspended (tgid : Z) st : option (bool * registry) :=
  '(e, x) ← osxie_task_get_entry_unlocked tgid st;
  Some (do_sigstop x, put_task e (set_sigstop x false) st).

(** ** Requests *)

Inductive request :=
  | TaskGet (pid : Z) | ThreadGet (current pid : Z) | Post (pid event extra : Z)
  | TaskRegister (tgid task : Z) | TaskDeregister (tgid task : Z)
  | ThreadRegister (tid thread : Z) | ThreadDeregister (thread : Z)
  | KeySet (tgid : Z) (key : nat) (value dtor : Z) | KeyGet (tgid : Z) (key : nat)
  | ForkWait (tgid : Z) | ForkDone (parent : Z)
  | NotifyRegister (pid l context mask : Z) | NotifyDeregister (pid id : Z)
  | SetDyld (tgid loc len : Z) | GetDyld (pid : Z) | MarkSuspended (tgid : Z) | MarkedSuspended (tgid : Z).

Inductive answer := AUnit | ABool (b : bool) | AValue (z : Z) | APair (z z' : Z).

(** One request: the answer, the calls made, the new state; [alloc] is whether an allocation
    succeeds. *)
Definition handle (alloc : bool) (q : request) st : option (answer * list call * registry) :=
  match q with
  | TaskGet pid => Some (AValue (osxie_task_get pid st), [], st)
  | ThreadGet current pid => Some (AValue (osxie_thread_get current pid st), [], st)
  | Post pid event extra => let '(b, cs) := osxie_proc_post_notification pid event extra st in Some (ABool b, cs, st)
  | TaskRegister tgid task => '(st, cs) ← osxie_task_register tgid task alloc st; Some (AUnit, cs, st)
  | TaskDeregister tgid task => let '(st, cs) := osxie_task_deregister tgid task st in Some (AUnit, cs, st)
  | ThreadRegister tid thread => st ← osxie_thread_register tid thread alloc st; Some (AUnit, [], st)
  | ThreadDeregister thread => Some (AUnit, [], osxie_thread_deregister thread st)
  | KeySet tgid key value dtor => '(b, st) ← osxie_task_key_set tgid key value dtor st; Some (ABool b, [], st)
  | KeyGet tgid key => v ← osxie_task_key_get tgid key st; Some (AValue v, [], st)
  | ForkWait tgid => '(b, st) ← osxie_task_fork_wait_for_child tgid st; Some (ABool b, [], st)
  | ForkDone parent => Some (AUnit, [], osxie_task_fork_child_done parent st)
  | NotifyRegister pid l context mask => '(rv, st) ← osxie_proc_notify_register pid l context mask alloc st; Some (AValue rv, [], st)
  | NotifyDeregister pid id => let '(b, st) := osxie_proc_notify_deregister pid id st in Some (ABool b, [], st)
  | SetDyld tgid loc len => st ← osxie_task_set_dyld_info tgid loc len st; Some (AUnit, [], st)
  | GetDyld pid => let '(a, b) := osxie_task_get_dyld_info pid st in Some (APair a b, [], st)
  | MarkSuspended tgid => st ← osxie_task_mark_start_suspended tgid st; Some (AUnit, [], st)
  | MarkedSuspended tgid => '(b, st) ← osxie_task_marked_start_suspended tgid st; Some (ABool b, [], st)
  end.
End registry.

(** ** The specification: two maps by identifier

    What the header documents: threads and tasks are looked up by the identifier that is
    asked for, and a listener gets a number that no other listener has. *)

Record spec := mkSpec {
  sp_tasks : gmap Z task_entry;
  sp_threads : gmap Z thread_entry;
}.

Definition sp_put (pid : Z) (x : task_entry) (sp : spec) : spec := mkSpec (<[pid := x]> (sp_tasks sp)) (sp_threads sp).

(** The listeners an event reaches, in order. *)
Definition spec_posts (x : task_entry) (event extra : Z) : list call :=
  omap (fun dn => if decide (Z.land event (event_mask dn) = 0) then None
                  else Some (Notify (listener dn) (t_tid x) (n_context dn) event extra)) (notifications x).

(** The destructors of the keys that have a value. *)
Definition spec_frees (x : task_entry) : list call :=
  concat (imap (fun i v => match t_dtors x !! i with Some d => if decide (v = 0) then [] else [Destroy d v] | None => [] end) (t_keys x)).

(** The listeners without the one of a number. *)
Definition spec_without (id : Z) (l : list proc_notification) : option (list proc_notification) :=
  match list_find (fun dn => registration_id dn = id) l with Some (i, _) => Some (take i l ++ drop (S i) l) | None => None end.

(** What a request needs of the entry of a task, and what it does to it. *)
Definition spec_with (pid : Z) (sp : spec) (f : task_entry → answer * list call * task_entry) : option (answer * list call * spec) :=
  x ← sp_tasks sp !! pid;
  let '(a, cs, y) := f x in Some (a, cs, sp_put pid y sp).

Definition spec_handle (q : request) (sp : spec) : option (answer * list call * spec) :=
  match q with
  | TaskGet pid => Some (AValue (from_option t_task 0 (sp_tasks sp !! pid)), [], sp)
  | ThreadGet _ pid => Some (AValue (from_option h_thread 0 (sp_threads sp !! pid)), [], sp)
  | Post pid event extra =>
      match sp_tasks sp !! pid with
      | Some x => Some (ABool true, spec_posts x event extra, sp)
      | None => Some (ABool false, [], sp)
      end
  | TaskRegister tgid task =>
      match sp_tasks sp !! tgid with
      | Some x => Some (AUnit, spec_posts x 4 0, sp_put tgid (set_task x task) sp)
      | None => Some (AUnit, [], sp_put tgid (mkTask tgid task [0; 0] [0; 0] 0 [] false 0 0 false) sp)
      end
  | TaskDeregister tgid task =>
      match sp_tasks sp !! tgid with
      | Some x => if t_task x =? task
                  then Some (AUnit, spec_frees x, mkSpec (delete tgid (sp_tasks sp)) (sp_threads sp))
                  else Some (AUnit, [], sp)
      | None => Some (AUnit, [], sp)
      end
  | ThreadRegister tid thread =>
      let flags := from_option h_flags 0 (sp_threads sp !! tid) in
      Some (AUnit, [], mkSpec (sp_tasks sp) (<[tid := mkThread tid thread flags]> (sp_threads sp)))
  | ThreadDeregister _ => None
  | KeySet tgid key value dtor =>
      x ← sp_tasks sp !! tgid;
      old ← t_keys x !! key;
      Some (if old =? 0
            then (ABool true, [], sp_put tgid (set_keys x (<[key := value]> (t_keys x)) (<[key := dtor]> (t_dtors x))) sp)
            else (ABool false, [], sp))
  | KeyGet tgid key =>
      match sp_tasks sp !! tgid with Some x => v ← t_keys x !! key; Some (AValue v, [], sp) | None => Some (AValue 0, [], sp) end
  | ForkWait tgid =>
      spec_with tgid sp (fun x => if 0 <? sem_fork x then (ABool true, [], set_sem x (sem_fork x - 1)) else (ABool false, [], x))
  | ForkDone parent =>
      match sp_tasks sp !! parent with
      | Some x => Some (AUnit, [], sp_put parent (set_sem x (sem_fork x + 1)) sp)
      | None => Some (AUnit, [], sp)
      end
  | NotifyRegister _ _ _ _ => None
  | NotifyDeregister pid id =>
      match x ← sp_tasks sp !! pid; l ← spec_without id (notifications x); Some (set_notifications x l) with
      | Some y => Some (ABool true, [], sp_put pid y sp)
      | None => Some (ABool false, [], sp)
      end
  | SetDyld tgid loc len => spec_with tgid sp (fun x => (AUnit, [], set_dyld x loc len))
  | GetDyld pid =>
      Some (match sp_tasks sp !! pid with
            | Some x => if dyld_info_done x then APair (allimg_loc x) (allimg_len x) else APair 0 0
            | None => APair 0 0
            end, [], sp)
  | MarkSuspended tgid => spec_with tgid sp (fun x => (AUnit, [], set_sigstop x true))
  | MarkedSuspended tgid => spec_with tgid sp (fun x => (ABool (do_sigstop x), [], set_sigstop x false))
  end.

(** Removing a thread takes away an entry of it, if there is one; a listener gets a number
    that no listener of any task has. *)
Inductive spec_step (sp : spec) : request → answer → list call → spec → Prop :=
  | spec_answer q a cs sp' : spec_handle q sp = Some (a, cs, sp') → spec_step sp q a cs sp'
  | spec_gone t tid x : sp_threads sp !! tid = Some x → h_thread x = t →
      spec_step sp (ThreadDeregister t) AUnit [] (mkSpec (sp_tasks sp) (delete tid (sp_threads sp)))
  | spec_absent t : (∀ tid x, sp_threads sp !! tid = Some x → h_thread x ≠ t) → spec_step sp (ThreadDeregister t) AUnit [] sp
  | spec_listen pid l context mask x id : sp_tasks sp !! pid = Some x → 0 ≤ id < 2 ^ 31 →
      (∀ pid' x' dn, sp_tasks sp !! pid' = Some x' → dn ∈ notifications x' → registration_id dn ≠ id) →
      spec_step sp (NotifyRegister pid l context mask) (AValue id) []
        (sp_put pid (set_notifications x (mkNotification id l context mask :: notifications x)) sp)
  | spec_no_task pid l context mask : sp_tasks sp !! pid = None → spec_step sp (NotifyRegister pid l context mask) (AValue (-3)) [] sp.

(** The requests the code handles as documented: [osxie_thread_get] looks up the calling
    thread, whatever identifier it is given. *)
Definition conforming (q : request) : Prop := match q with ThreadGet current pid => pid = current | _ => True end.

(** The requests that allocate. *)
Definition allocates (sp : spec) (q : request) : Prop :=
  match q with
  | TaskRegister tgid _ => sp_tasks sp !! tgid = None
  | ThreadRegister tid _ => sp_threads sp !! tid = None
  | NotifyRegister pid _ _ _ => is_Some (sp_tasks sp !! pid)
  | _ => False
  end.

Lemma posts_spec x event extra : osxie_proc_post_notification_internal x event extra = spec_posts x event extra.
Proof.
  unfold osxie_proc_post_notification_internal, spec_posts. induction (notifications x) as [|dn l IH]; [done|].
  destruct (decide (Z.land event (event_mask dn) = 0)) as [E|E].
  - rewrite filter_cons_False by (intros H; by apply H). cbn. by rewrite decide_True.
  - rewrite filter_cons_True by done. cbn. rewrite decide_False by done. by f_equal.
Qed.

Lemma concat_imap_nil {A B} (f : nat → A → list B) l : (∀ i v, f i v = []) → concat (imap f l) = [].
Proof. revert f. induction l as [|v l IH]; intros f Hf; [done|]. cbn. rewrite Hf. apply IH. intros i w. apply Hf. Qed.

Lemma frees_spec x : osxie_task_free x = spec_frees x.
Proof.
  unfold osxie_task_free, spec_frees. generalize (t_dtors x) as ds. induction (t_keys x) as [|v l IH]; intros ds; [done|].
  destruct ds as [|d ds]; cbn.
  - symmetry. by apply concat_imap_nil.
  - rewrite IH. by destruct (Z.eqb_spec v 0), (decide (v = 0)).
Qed.

Lemma without_spec id l : remove_notification id l = spec_without id l.
Proof.
  unfold spec_without. induction l as [|dn l IH]; [done|]. cbn. destruct (Z.eqb_spec (registration_id dn) id) as [E|E].
  - by rewrite decide_True.
  - rewrite decide_False, IH by done. by destruct (list_find _ l) as [[i y]|].
Qed.

Section refinement.
Context (hash : Z → nat).
Hypothesis hash_range : ∀ pid, (hash pid < BUCKETS)%nat.
Implicit Types st : registry.

(** The numbers below [n] are those that were given out. *)
Definition numbered (n : Z) (l : list proc_notification) : Prop := Forall (fun dn => 0 ≤ registration_id dn < n) l.

Lemma numbered_mono n n' l : n ≤ n' → numbered n l → numbered n' l.
Proof. intros Hn H. apply (Forall_impl _ _ _ H). lia. Qed.

(** The tables are the maps, [task_count] counts the tasks, and the counter is above every
    number that is in use. *)
Record refines st (sp : spec) : Prop := mkRefines {
  rf_tasks : represents t_tid hash (all_tasks st) (sp_tasks sp);
  rf_threads : represents h_tid hash (all_threads st) (sp_threads sp);
  rf_count : task_count st = u32 (Z.of_nat (size (sp_tasks sp)));
  rf_ids : 0 ≤ reg_id_counter st ∧ ∀ pid x, sp_tasks sp !! pid = Some x → numbered (reg_id_counter st) (notifications x);
}.

Lemma task_lookup st sp pid :
  refines st sp →
  match osxie_task_get_entry_unlocked hash pid st with
  | Some (e, x) => t_heap (all_tasks st) !! e = Some x ∧ t_tid x = pid ∧ sp_tasks sp !! pid = Some x
  | None => sp_tasks sp !! pid = None
  end.
Proof.
  intros Hr. unfold osxie_task_get_entry_unlocked. destruct (find_entry _ _ _ _) as [e|] eqn:E.
  - destruct (find_entry_represents _ _ _ _ _ _ (rf_tasks _ _ Hr) E) as (x & Hx & Ht & Hg). by rewrite Hx.
  - by eapply find_entry_None; [apply Hr|].
Qed.

Lemma thread_lookup st sp pid :
  refines st sp →
  match osxie_thread_get_entry hash pid st with
  | Some (e, x) => t_heap (all_threads st) !! e = Some x ∧ h_tid x = pid ∧ sp_threads sp !! pid = Some x
  | None => sp_threads sp !! pid = None
  end.
Proof.
  intros Hr. unfold osxie_thread_get_entry. destruct (find_entry _ _ _ _) as [e|] eqn:E.
  - destruct (find_entry_represents _ _ _ _ _ _ (rf_threads _ _ Hr) E) as (x & Hx & Ht & Hg). by rewrite Hx.
  - by eapply find_entry_None; [apply Hr|].
Qed.

(** A store into the entry of a task. *)
Lemma refines_store st sp e x y id :
  refines st sp → t_heap (all_tasks st) !! e = Some x → t_tid y = t_tid x → reg_id_counter st ≤ id → numbered id (notifications y) →
  refines (mkRegistry (store_entry e y (all_tasks st)) (all_threads st) (task_count st) id) (sp_put (t_tid x) y sp).
Proof.
  intros [H1 H2 H3 [H4 H5]] He Ht Hid Hn. split; cbn; [by apply store_entry_represents|done| |].
  - assert (sp_tasks sp !! t_tid x = Some x) as Hx by (apply (represents_iff _ _ _ _ _ _ H1); eauto).
    rewrite map_size_insert_Some by (by rewrite Hx). done.
  - split; [lia|]. intros pid z [[_ <-]|[_ Hz]]%lookup_insert_Some; [done|]. by eapply numbered_mono, H5.
Qed.

Lemma refines_put st sp e x y :
  refines st sp → t_heap (all_tasks st) !! e = Some x → t_tid y = t_tid x → notifications y = notifications x →
  refines (put_task e y st) (sp_put (t_tid x) y sp).
Proof.
  intros Hr He Ht Hn. apply (refines_store st sp e x y (reg_id_counter st)); [done..|]. rewrite Hn.
  apply (rf_ids _ _ Hr) with (t_tid x). apply (represents_iff _ _ _ _ _ _ (rf_tasks _ _ Hr)). eauto.
Qed.

(** The result of a request against the specification. *)
Definition agrees st sp (q : request) : Prop :=
  match handle hash true q st with
  | Some (a, cs, st') => ∃ sp', spec_step sp q a cs sp' ∧ refines st' sp' ∧ reg_id_counter st' ≤ reg_id_counter st + 1
  | None => spec_handle q sp = None ∧ (∀ t, q ≠ ThreadDeregister t) ∧ ∀ pid l c m, q ≠ NotifyRegister pid l c m
  end.

Lemma agrees_same st sp q a cs :
  refines st sp → handle hash true q st = Some (a, cs, st) → spec_handle q sp = Some (a, cs, sp) → agrees st sp q.
Proof. intros Hr Hh Hs. unfold agrees. rewrite Hh. exists sp. split_and!; [by constructor|done|lia]. Qed.

Lemma agrees_register st sp tgid task : refines st sp → agrees st sp (TaskRegister tgid task).
Proof.
  intros Hr. unfold agrees. cbn. unfold osxie_task_register. pose proof (task_lookup _ _ tgid Hr) as Hl.
  destruct (osxie_task_get_entry_unlocked hash tgid st) as [[e x]|]; cbn.
  - destruct Hl as (He & Ht & Hg). exists (sp_put tgid (set_task x task) sp). split_and!; [|rewrite <- Ht; by apply refines_put|lia].
    constructor. cbn [spec_handle]. rewrite Hg. change (spec_posts x 4 0) with (spec_posts (set_task x task) DTE_REPLACED 0).
    by rewrite <- posts_spec.
  - eexists. split_and!; [constructor; cbn; by rewrite Hl| |lia]. destruct Hr as [H1 H2 H3 [H4 H5]]. split; cbn; [|done| |].
    + by apply (hash_add_represents t_tid hash _ _ (mkTask tgid task [0; 0] [0; 0] 0 [] false 0 0 false)).
    + rewrite map_size_insert_None, H3 by done. unfold u32. rewrite Zplus_mod_idemp_l. f_equal. lia.
    + split; [done|]. intros pid x [[_ <-]|[_ Hx]]%lookup_insert_Some; [constructor|by eapply H5].
Qed.

Lemma agrees_deregister st sp tgid task : refines st sp → agrees st sp (TaskDeregister tgid task).
Proof.
  intros Hr. unfold agrees. cbn. unfold osxie_task_deregister. pose proof (task_lookup _ _ tgid Hr) as Hl.
  destruct (osxie_task_get_entry_unlocked hash tgid st) as [[e x]|]; cbn.
  - destruct Hl as (He & Ht & Hg). destruct (t_task x =? task) eqn:Hk; cbn.
    + eexists. split_and!; [constructor; cbn [spec_handle]; rewrite Hg, Hk; by rewrite frees_spec| |lia]. destruct Hr as [H1 H2 H3 [H4 H5]]. split; cbn; [|done| |].
      * rewrite <- Ht. by apply hash_del_represents.
      * rewrite map_size_delete_Some, H3 by (by rewrite Hg). unfold u32. rewrite Zminus_mod_idemp_l. f_equal.
        assert (size (sp_tasks sp) ≠ 0%nat); [|lia]. intros H0%map_size_empty_inv. by rewrite H0, lookup_empty in Hg.
      * split; [done|]. intros pid y [_ Hy]%lookup_delete_Some. by eapply H5.
    + exists sp. split_and!; [constructor; cbn; by rewrite Hg, Hk|done|lia].
  - exists sp. split_and!; [constructor; cbn; by rewrite Hl|done|lia].
Qed.

Lemma agrees_threads st sp q :
  refines st sp → (∃ tid thread, q = ThreadRegister tid thread) ∨ (∃ t, q = ThreadDeregister t) → agrees st sp q.
Proof.
  intros Hr [(tid & thread & ->)|(t & ->)]; unfold agrees; cbn.
  - unfold osxie_thread_register. pose proof (thread_lookup _ _ tid Hr) as Hl. pose proof Hr as [H1 H2 H3 H4].
    destruct (osxie_thread_get_entry hash tid st) as [[e x]|]; cbn.
    + destruct Hl as (He & Ht & Hg). destruct (Z.eqb_spec (h_thread x) thread) as [Hk|Hk]; cbn.
      * eexists. split_and!; [constructor; cbn; by rewrite Hg| |lia]. cbn. rewrite insert_id; [by split|].
        rewrite Hg. f_equal. destruct x; cbn in *. by subst.
      * eexists. split_and!; [constructor; cbn; by rewrite Hg| |lia]. split; cbn; [done| |done|done].
        rewrite Ht. rewrite <- Ht at 2. by apply (store_entry_represents h_tid hash (all_threads st) _ e x (mkThread tid thread (h_flags x))).
    + eexists. split_and!; [constructor; cbn; by rewrite Hl| |lia]. split; cbn; [done| |done|done].
      by apply (hash_add_represents h_tid hash _ _ (mkThread tid thread 0)).
  - unfold osxie_thread_deregister. pose proof Hr as [H1 H2 H3 H4].
    pose proof (find_if_spec h_tid hash (fun x => h_thread x =? t) _ _ H2 hash_range) as Hf.
    destruct (find_if _ _) as [e|].
    + destruct Hf as (x & Hx & Ht%Z.eqb_eq). eexists. split_and!.
      * apply (spec_gone _ _ (h_tid x) x); [|done]. apply (represents_iff _ _ _ _ _ _ H2). eauto.
      * split; cbn; [done| |done|done]. by apply hash_del_represents.
      * cbn. lia.
    + exists sp. split_and!; [|done|lia]. apply spec_absent. intros tid x Hx. apply Hf in Hx. by apply Z.eqb_neq.
Qed.

(** The entry of a task, in the registry and in the maps. *)
Ltac lookup_task Hr pid :=
  pose proof (task_lookup _ _ pid Hr) as Hl;
  destruct (osxie_task_get_entry_unlocked _ pid _) as [[e x]|]; cbn; [destruct Hl as (He & Ht & Hg)|].
Ltac by_spec := constructor; cbn; unfold spec_with; repeat first [done | match goal with H : _ = _ |- _ => rewrite H; cbn end].
Ltac put_done := match goal with Ht : t_tid _ = _ |- _ => rewrite <- Ht; by apply refines_put end.
Ltac same sp := exists sp; split_and!; [by_spec|done|lia].

(** Requests that only look. *)
Lemma agrees_query st sp q :
  refines st sp → conforming q →
  match q with TaskGet _ | ThreadGet _ _ | Post _ _ _ | KeyGet _ _ | GetDyld _ => True | _ => False end → agrees st sp q.
Proof.
  intros Hr Hc Hq. destruct q as [pid|cur pid|pid ev ex| | | | | |tgid key| | | | | |pid| |]; try done.
  - eapply agrees_same; [done|done|]. cbn. unfold osxie_task_get. lookup_task Hr pid; [by rewrite Hg|by rewrite Hl].
  - cbn in Hc. subst cur. eapply agrees_same; [done|done|]. cbn. unfold osxie_thread_get. pose proof (thread_lookup _ _ pid Hr) as Hl.
    destruct (osxie_thread_get_entry _ _ _) as [[e x]|]; [destruct Hl as (_ & _ & ->)|rewrite Hl]; done.
  - unfold agrees. cbn. unfold osxie_proc_post_notification. pose proof (task_lookup _ _ pid Hr) as Hl.
    destruct (osxie_task_get_entry_unlocked hash pid st) as [[e x]|]; [destruct Hl as (He & Ht & Hg)|];
      exists sp; (split_and!; [constructor; cbn [spec_handle]|done|lia]); [rewrite Hg; by rewrite posts_spec|by rewrite Hl].
  - unfold agrees. cbn. unfold osxie_task_key_get. lookup_task Hr tgid.
    + destruct (t_keys x !! key) eqn:Hk; cbn; [same sp|by rewrite Hg; cbn; rewrite Hk].
    + same sp.
  - unfold agrees. cbn. unfold osxie_task_get_dyld_info. lookup_task Hr pid; [|same sp]. destruct (dyld_info_done x) eqn:Hd; same sp.
Qed.

(** Requests on the listeners. *)
Lemma agrees_listeners st sp q :
  refines st sp → reg_id_counter st < 2 ^ 31 →
  match q with NotifyRegister _ _ _ _ | NotifyDeregister _ _ => True | _ => False end → agrees st sp q.
Proof.
  intros Hr Hlt Hq. unfold agrees. destruct q as [| | | | | | | | | | |pid l c mk|pid id| | | |]; try done; cbn.
  - unfold osxie_proc_notify_register. lookup_task Hr pid.
    + pose proof (rf_ids _ _ Hr) as [H0 Hids]. assert (Hi64 : i64 (reg_id_counter st + 1) = reg_id_counter st + 1).
      { unfold i64, sext. rewrite Z.mod_small by lia. by destruct (Z.ltb_spec (reg_id_counter st + 1) (2 ^ (64 - 1))); [|lia]. }
      rewrite i32_small, Hi64 by lia. destruct (Z.ltb_spec (reg_id_counter st + 1) 0); [lia|]. eexists. split_and!; [apply spec_listen; [exact Hg|lia|]| |cbn; lia].
      * intros pid' x' dn Hx' Hdn. specialize (Hids _ _ Hx'). unfold numbered in Hids. rewrite Forall_forall in Hids. specialize (Hids _ Hdn). lia.
      * rewrite <- Ht. apply refines_store; [done|done|done|lia|]. cbn. constructor; cbn; [lia|]. apply (numbered_mono (reg_id_counter st)); [lia|].
        by eapply Hids.
    + exists sp. split_and!; [by apply spec_no_task|done|lia].
  - unfold osxie_proc_notify_deregister. lookup_task Hr pid; [|same sp]. rewrite without_spec.
    destruct (spec_without id (notifications x)) as [l|] eqn:Hk; cbn; [|same sp].
    eexists. split_and!; [by_spec| |lia]. rewrite <- Ht. apply refines_store; [done|done|done|lia|]. cbn.
    pose proof (proj2 (rf_ids _ _ Hr) _ _ Hg) as Hn. unfold spec_without in Hk. destruct (list_find _ _) as [[i y]|]; [|done].
    injection Hk as <-. unfold numbered in *. rewrite <- (take_drop i (notifications x)) in Hn. apply Forall_app in Hn as [Hn1 Hn2].
    apply Forall_app. split; [done|]. replace (S i) with (i + 1)%nat by lia. rewrite <- drop_drop. by apply Forall_drop.
Qed.

(** Requests on the other fields. *)
Lemma agrees_fields st sp q :
  refines st sp →
  match q with KeySet _ _ _ _ | ForkWait _ | ForkDone _ | SetDyld _ _ _ | MarkSuspended _ | MarkedSuspended _ => True | _ => False end →
  agrees st sp q.
Proof.
  intros Hr Hq. unfold agrees.
  destruct q as [| | | | | | |tgid key v d| |tgid|par| | |tgid lo le| |tgid|tgid]; try done; cbn.
  - unfold osxie_task_key_set. lookup_task Hr tgid; [|by rewrite Hl].
    destruct (t_keys x !! key) as [old|] eqn:Hk; cbn; [|by rewrite Hg; cbn; rewrite Hk].
    destruct (old =? 0) eqn:Ho; cbn; eexists; (split_and!; [by_spec| |lia]); [put_done|done].
  - unfold osxie_task_fork_wait_for_child. lookup_task Hr tgid; [|unfold spec_with; by rewrite Hl].
    destruct (0 <? sem_fork x) eqn:Hs; cbn; eexists; (split_and!; [by_spec| |lia]); [put_done|].
    unfold sp_put. rewrite insert_id by done. by destruct sp.
  - unfold osxie_task_fork_child_done. lookup_task Hr par; eexists; (split_and!; [by_spec| |lia]); [put_done|done].
  - unfold osxie_task_set_dyld_info. lookup_task Hr tgid; [|unfold spec_with; by rewrite Hl]. eexists. split_and!; [by_spec|put_done|lia].
  - unfold osxie_task_mark_start_suspended. lookup_task Hr tgid; [|unfold spec_with; by rewrite Hl]. eexists. split_and!; [by_spec|put_done|lia].
  - unfold osxie_task_marked_start_suspended. lookup_task Hr tgid; [|unfold spec_with; by rewrite Hl]. eexists. split_and!; [by_spec|put_done|lia].
Qed.

Lemma agrees_all st sp q : refines st sp → conforming q → reg_id_counter st < 2 ^ 31 → agrees st sp q.
Proof.
  intros Hr Hc Hlt. destruct q; first [by apply agrees_query|by apply agrees_listeners|by apply agrees_fields|
    by apply agrees_register|by apply agrees_deregister|by apply agrees_threads; eauto].
Qed.

(** Without memory: the requests that allocate fault, the others do what they do with it. *)
Lemma handle_no_memory st sp q :
  refines st sp →
  (allocates sp q → handle hash false q st = None) ∧ (¬ allocates sp q → handle hash false q st = handle hash true q st).
Proof.
  intros Hr. destruct q as [pid|cur pid|pid ev ex|tgid tk|tgid tk|tid th|th|tgid key v d|tgid key|tgid|par|pid l c mk|pid id|tgid lo le|pid|tgid|tgid]; try done; cbn.
  - pose proof (task_lookup _ _ tgid Hr) as Hl. unfold osxie_task_register.
    destruct (osxie_task_get_entry_unlocked _ _ _) as [[e x]|]; [destruct Hl as (_ & _ & ->)|rewrite Hl]; done.
  - pose proof (thread_lookup _ _ tid Hr) as Hl. unfold osxie_thread_register.
    destruct (osxie_thread_get_entry _ _ _) as [[e x]|]; [destruct Hl as (_ & _ & ->)|rewrite Hl]; done.
  - pose proof (task_lookup _ _ pid Hr) as Hl. unfold osxie_proc_notify_register.
    destruct (osxie_task_get_entry_unlocked _ _ _) as [[e x]|]; [destruct Hl as (_ & _ & ->)|rewrite Hl].
    + split; [done|]. intros Hn. destruct Hn. by eexists.
    + split; [by intros []|done].
Qed.
End refinement.

(** ** Theorems *)

Definition empty_registry : registry := mkRegistry empty_table empty_table 0 0.
Definition empty_spec : spec := mkSpec ∅ ∅.

Lemma empty_refines hash : refines hash empty_registry empty_spec.
Proof. split; [apply empty_represents|apply empty_represents|done|]. split; [done|]. intros pid x Hx. cbn in Hx. by rewrite lookup_empty in Hx. Qed.

(** A sequence of requests, up to the first fault. *)
Fixpoint handle_all (hash : Z → nat) (qs : list request) (st : registry) : option (list (answer * list call) * registry) :=
  match qs with
  | [] => Some ([], st)
  | q :: qs =>
      '(a, cs, st) ← handle hash true q st;
      '(log, st) ← handle_all hash qs st;
      Some ((a, cs) :: log, st)
  end.

Inductive spec_run : spec → list request → list (answer * list call) → spec → Prop :=
  | run_done sp : spec_run sp [] [] sp
  | run_step sp q qs a cs sp1 log sp2 : spec_step sp q a cs sp1 → spec_run sp1 qs log sp2 → spec_run sp (q :: qs) ((a, cs) :: log) sp2.

Lemma handle_all_refines hash qs st sp log st' :
  (∀ pid, (hash pid < BUCKETS)%nat) → refines hash st sp → Forall conforming qs → reg_id_counter st + Z.of_nat (length qs) < 2 ^ 31 →
  handle_all hash qs st = Some (log, st') →
  ∃ sp', spec_run sp qs log sp' ∧ refines hash st' sp' ∧ reg_id_counter st' < 2 ^ 31.
Proof.
  intros Hh. revert st sp log. induction qs as [|q qs IH]; intros st sp log Hr Hc Hn; cbn.
  - intros [= <- <-]. exists sp. split_and!; [constructor|done|cbn in Hn; lia].
  - apply Forall_cons in Hc as [Hc1 Hc2]. cbn [length] in Hn. pose proof (agrees_all hash Hh st sp q Hr Hc1 ltac:(lia)) as Ha. unfold agrees in Ha.
    destruct (handle hash true q st) as [[[a cs] st1]|]; cbn; [|done].
    destruct Ha as (sp1 & Hs & Hr1 & Hc'). destruct (handle_all hash qs st1) as [[log1 st2]|] eqn:E; cbn; [|done].
    intros [= <- <-]. destruct (IH _ _ _ Hr1 Hc2 ltac:(lia) E) as (sp' & Hrun & Hr'). exists sp'. split; [by econstructor|done].
Qed.

(** C21: the registry implements its specification, two maps from identifiers.  Take any
    sequence of fewer than 2^31 requests from the empty registry, with memory for every
    allocation, whose [osxie_thread_get]s ask for the calling thread.  Whatever the hash
    function, each answer, each call of a listener or destructor and each change is the one
    the maps allow, a new listener's number is one no listener of any task has, and the count
    of tasks is the number of them.  A request faults exactly when it dereferences an entry
    the maps do not have.  Three things differ from the header.  [osxie_thread_get] gives the
    calling thread whatever identifier it is asked for.  A listener's number need not be
    positive: the first is 0.  And without memory a request that needs an entry or a
    listener faults instead of failing, while the others are not affected. *)
Theorem registry_refines_maps (hash : Z → nat) qs log st :
  (∀ pid, (hash pid < BUCKETS)%nat) → Forall conforming qs → Z.of_nat (length qs) < 2 ^ 31 →
  handle_all hash qs empty_registry = Some (log, st) →
  ∃ sp, spec_run empty_spec qs log sp ∧ refines hash st sp ∧
    (∀ q, conforming q → (∀ t, q ≠ ThreadDeregister t) → (∀ pid l c m, q ≠ NotifyRegister pid l c m) →
       handle hash true q st = None ↔ spec_handle q sp = None) ∧
    (∀ current pid, handle hash true (ThreadGet current pid) st = Some (AValue (from_option h_thread 0 (sp_threads sp !! current)), [], st)) ∧
    (∀ pid l c m x, reg_id_counter st = 0 → sp_tasks sp !! pid = Some x →
       ∃ st', handle hash true (NotifyRegister pid l c m) st = Some (AValue 0, [], st')) ∧
    (∀ q, (allocates sp q → handle hash false q st = None) ∧ (¬ allocates sp q → handle hash false q st = handle hash true q st)).
Proof.
  intros Hh Hc Hn Hrun. destruct (handle_all_refines hash qs _ _ _ _ Hh (empty_refines hash) Hc Hn Hrun) as (sp & Hs & Hr & Hlt).
  exists sp. split_and!; [done|done| | | |].
  - intros q Hcq Hq Hq'. pose proof (agrees_all hash Hh st sp q Hr Hcq Hlt) as Ha. unfold agrees in Ha.
    destruct (handle hash true q st) as [[[a cs] st']|]; [|by destruct Ha]. split; [done|]. intros Hno. destruct Ha as (sp' & Hst & _).
    inversion Hst; subst; [congruence|exfalso; by eapply Hq..|exfalso; by eapply Hq'|exfalso; by eapply Hq'].
  - intros current pid. cbn. unfold osxie_thread_get. pose proof (thread_lookup _ _ _ current Hr) as Hl.
    destruct (osxie_thread_get_entry _ _ _) as [[e x]|]; [destruct Hl as (_ & _ & ->)|rewrite Hl]; done.
  - intros pid l c m x H0 Hx. cbn. unfold osxie_proc_notify_register. pose proof (task_lookup _ _ _ pid Hr) as Hl.
    destruct (osxie_task_get_entry_unlocked _ _ _) as [[e y]|]; [|congruence]. cbn. rewrite H0. by eexists.
  - intros q. by apply handle_no_memory.
Qed.

Definition example_hash (pid : Z) : nat := Z.to_nat (pid mod 64).

Lemma example_hash_range pid : (example_hash pid < BUCKETS)%nat.
Proof. unfold example_hash, BUCKETS. lia. Qed.

(** Tasks 5 and 69 share a bucket. *)
Definition example_requests : list request :=
  [TaskRegister 5 100; TaskRegister 69 200; NotifyRegister 5 7 8 5; TaskRegister 5 101; KeySet 69 1 33 44;
   ThreadRegister 5 1000; TaskDeregister 69 200; TaskGet 5; TaskGet 69].

Lemma registry_refines_maps_witness :
  ∃ log st sp, handle_all example_hash example_requests empty_registry = Some (log, st) ∧
    log !! 3%nat = Some (AUnit, [Notify 7 5 8 4 0]) ∧ log !! 6%nat = Some (AUnit, [Destroy 44 33]) ∧
    spec_run empty_spec example_requests log sp ∧ refines example_hash st sp.
Proof.
  destruct (handle_all example_hash example_requests empty_registry) as [[log st]|] eqn:E; [|vm_compute in E; discriminate].
  assert (Hc : Forall conforming example_requests) by (repeat constructor).
  destruct (registry_refines_maps example_hash example_requests log st example_hash_range Hc ltac:(done) E) as (sp & Hs & Hr & _).
  exists log, st, sp. split; [reflexivity|].
  assert (Hlog : fst <$> handle_all example_hash example_requests empty_registry = Some log) by (rewrite E; reflexivity).
  vm_compute in Hlog. injection Hlog as Hl. split; [rewrite <- Hl; reflexivity|]. split; [rewrite <- Hl; reflexivity|]. exact (conj Hs Hr).
Defined.

(** The numbers of listeners.  A registration gives the counter as a 32-bit number: as
    long as fewer than 2^31 were made it is the counter, no listener of the task has it (if
    those were numbered before), and deregistering with it removes exactly the new listener.
    From 2^31 to 2^32 the number is negative, which the header reserves for errors, although
    the listener is installed. *)
Theorem notify_ids hash pid l context mask st e x :
  osxie_task_get_entry_unlocked hash pid st = Some (e, x) → 0 ≤ reg_id_counter st < 2 ^ 32 →
  ∃ rv st', osxie_proc_notify_register hash pid l context mask true st = Some (rv, st') ∧
    reg_id_counter st' = reg_id_counter st + 1 ∧
    t_heap (all_tasks st') !! e = Some (set_notifications x (mkNotification rv l context mask :: notifications x)) ∧
    (reg_id_counter st < 2 ^ 31 → rv = reg_id_counter st ∧
       (Forall (fun dn => registration_id dn < reg_id_counter st) (notifications x) →
        rv ∉ (registration_id <$> notifications x) ∧
        remove_notification rv (mkNotification rv l context mask :: notifications x) = Some (notifications x))) ∧
    (2 ^ 31 ≤ reg_id_counter st → rv < 0).
Proof.
  intros Hx Hc. unfold osxie_proc_notify_register. rewrite Hx. cbn [negb].
  assert (Hn : i64 (reg_id_counter st + 1) = reg_id_counter st + 1).
  { unfold i64, sext. rewrite Z.mod_small by lia. by destruct (Z.ltb_spec (reg_id_counter st + 1) (2 ^ (64 - 1))); [|lia]. }
  rewrite Hn. destruct (Z.ltb_spec (reg_id_counter st + 1) 0); [lia|].
  eexists _, _. split; [done|]. cbn. rewrite lookup_insert_eq. split_and!; [done|done| |].
  - intros Hlt. rewrite i32_small by lia. split; [done|]. intros Hall. split.
    + intros (dn & Hd & Hin)%list_elem_of_fmap. rewrite Forall_forall in Hall. apply Hall in Hin. lia.
    + by rewrite Z.eqb_refl.
  - intros Hge. unfold i32, sext. rewrite Z.mod_small by lia.
    destruct (Z.ltb_spec (reg_id_counter st) (2 ^ (32 - 1))); lia.
Qed.

(** A task with a listener, after 2^31 registrations. *)
Definition worn_registry : registry :=
  mkRegistry (hash_add t_tid example_hash (mkTask 5 100 [0; 0] [0; 0] 0 [] false 0 0 false) empty_table) empty_table 1 (2 ^ 31).

Lemma notify_ids_witness :
  ∃ rv st', osxie_proc_notify_register example_hash 5 7 8 5 true worn_registry = Some (rv, st') ∧ rv < 0.
Proof.
  assert (Hc : 0 ≤ reg_id_counter worn_registry < 2 ^ 32) by (cbn; lia).
  destruct (notify_ids example_hash 5 7 8 5 worn_registry 0 (mkTask 5 100 [0; 0] [0; 0] 0 [] false 0 0 false) eq_refl Hc)
    as (rv & st' & Hr & _ & _ & _ & Hneg).
  exists rv, st'. split; [exact Hr|]. apply Hneg. cbn. lia.
Defined.
