(* ===== verification/SearchPaths.v ===== *)
(** * Standard directories ([src/src/libsystem_coreservices/NSSystemDirectories.c])

    The table of the standard directories and the enumeration of their paths, whose state
    is packed into a 32-bit word. *)

From S2P Require Import Prelude.

(** ** The table *)

Local Open Scope string_scope.

Definition Network : string := "/Network".
Definition System : string := "/System".
Definition Tilde : string := "~".

(** Prefixes by domain: user, local, network, system; [None] is NULL. *)
Definition prefixAll : list (option string) := [Some Tilde; Some ""; Some Network; Some ""].
Definition prefixAllSystem : list (option string) :=
  [Some Tilde; Some ""; Some Network; Some System].
Definition prefixNoUserSystem : list (option string) := [None; Some ""; Some Network; None].
Definition prefixNoNetwork : list (option string) := [Some Tilde; Some ""; None; Some System].
Definition prefixSystemOnly : list (option string) := [None; None; None; Some System].
Definition prefixUserOnly : list (option string) := [Some Tilde; None; None; None].

(** Directories with several paths per domain. *)
Definition prefixAllApplicationsDirectory : list (list string) :=
  [replicate 4 Tilde; replicate 4 ""; replicate 4 Network; replicate 4 ""].
Definition baseAllApplicationsDirectory : list string :=
  ["/Applications"; "/Applications/Utilities"; "/Developer/Applications"; "/Applications/Demos"].
Definition prefixAllLibrariesDirectory : list (list string) :=
  [replicate 2 Tilde; replicate 2 ""; replicate 2 Network; [System; ""]].
Definition baseAllLibrariesDirectory : list string := ["/Library"; "/Developer"].

(** An entry of [dirInfo]: one path per domain, or several. *)
Inductive dir_info :=
  | OnePath (prefix : list (option string)) (base : string)
  | ManyPaths (prefix : list (list string)) (base : list string).

Definition dirInfo : list dir_info :=
  [OnePath prefixAll "/Applications";
   OnePath prefixAll "/Applications/Demos";
   OnePath prefixAll "/Developer/Applications";
   OnePath prefixAll "/Applications/Utilities";
   OnePath prefixAllSystem "/Library";
   OnePath prefixAll "/Developer";
   OnePath prefixNoUserSystem "/Users";
   OnePath prefixAllSystem "/Library/Documentation";
   OnePath prefixUserOnly "/Documents";
   OnePath prefixSystemOnly "/Library/CoreServices";
   OnePath prefixUserOnly "/Library/Autosave Information";
   OnePath prefixUserOnly "/Desktop";
   OnePath prefixNoNetwork "/Library/Caches";
   OnePath prefixAll "/Library/Application Support";
   OnePath prefixUserOnly "/Downloads";
   OnePath prefixAllSystem "/Library/Input Methods";
   OnePath prefixUserOnly "/Movies";
   OnePath prefixUserOnly "/Music";
   OnePath prefixUserOnly "/Pictures";
   OnePath prefixSystemOnly "/Library/Printers/PPDs";
   OnePath prefixUserOnly "/Public";
   OnePath prefixNoNetwork "/Library/PreferencePanes";
   ManyPaths prefixAllApplicationsDirectory baseAllApplicationsDirectory;
   ManyPaths prefixAllLibrariesDirectory baseAllLibrariesDirectory].

Local Close Scope string_scope.

Definition NSApplicationDirectory : Z := 1.
Definition NSLibraryDirectory : Z := 5.
Definition NSPreferencePanesDirectory : Z := 22.
Definition NSAllApplicationsDirectory : Z := 100.
Definition NSAllLibrariesDirectory : Z := 101.
Definition NSLocalDomainMask : Z := 2.
Definition NSSystemDomainMask : Z := 8.
Definition DomainMask : Z := 15.

(** [Index(dir)] *)
Definition Index (dir : Z) : Z :=
  if (NSApplicationDirectory <=? dir) && (dir <=? NSPreferencePanesDirectory) then dir - 1
  else if (NSAllApplicationsDirectory <=? dir) && (dir <=? NSAllLibrariesDirectory)
       then dir - NSAllApplicationsDirectory + NSPreferencePanesDirectory
  else -1.

(** [dirInfo[i].prefix[Local] == dirInfo[i].prefix[System]]: equal literals have one
    address, and the tables of several paths are compared by address too. *)
Definition same_local_system (d : dir_info) : bool :=
  match d with
  | OnePath p _ => bool_decide (p !! 1%nat = p !! 3%nat)
  | ManyPaths p _ => bool_decide (p !! 1%nat = p !! 3%nat)
  end.

(** [NSStartSearchPathEnumeration] *)
Definition NSStartSearchPathEnumeration (dir domainMask : Z) : Z :=
  let i := Index dir in
  if i <? 0 then 0 else
  let domainMask := Z.land domainMask DomainMask in
  let both := Z.lor NSLocalDomainMask NSSystemDomainMask in
  let trim := (Z.land domainMask both =? both) &&
              match dirInfo !! Z.to_nat i with Some d => same_local_system d | None => false end in
  let domainMask := if trim then Z.land domainMask (Z.lnot NSSystemDomainMask) else domainMask in
  Z.shiftl dir 24 + domainMask.

(** [ffs] on a domain mask. *)
Definition ffs (x : Z) : Z :=
  if Z.testbit x 0 then 1 else if Z.testbit x 1 then 2
  else if Z.testbit x 2 then 3 else if Z.testbit x 3 then 4 else 0.

(** The loop over the domains of a directory with one path per domain: the prefix and the
    domains left. *)
Fixpoint next_prefix (fuel : nat) (p : list (option string)) (domainMask domain : Z) :
    option (string * Z) :=
  match fuel with
  | O => None
  | S fuel =>
      let domainMask := Z.land domainMask (Z.lnot (Z.shiftl 1 domain)) in
      match p !! Z.to_nat domain with
      | Some (Some prefix) => Some (prefix, domainMask)
      | _ => if ffs domainMask =? 0 then None
             else next_prefix fuel p domainMask (ffs domainMask - 1)
      end
  end.

(** [NSGetNextSearchPathEnumeration]: the next state and the prefix and base of the path;
    [None] is a returned 0. *)
Definition next_search_path (state : Z) : option (Z * string * string) :=
  let dir := Z.land (Z.shiftr state 24) 0xff in
  let domainMask := Z.land state DomainMask in
  let i := Index dir in
  if (i <? 0) || (ffs domainMask =? 0) then None else
  let domain := ffs domainMask - 1 in
  match dirInfo !! Z.to_nat i with
  | None => None
  | Some (OnePath p base) =>
      '(prefix, domainMask) ← next_prefix 4 p domainMask domain;
      Some (Z.shiftl dir 24 + domainMask, prefix, base)
  | Some (ManyPaths p b) =>
      let dirIndex := Z.land (Z.shiftr state 16) 0xff in
      '(domainMask, domain, dirIndex) ←
        (if Z.of_nat (length b) <=? dirIndex then
           let domainMask := Z.land domainMask (Z.lnot (Z.shiftl 1 domain)) in
           if ffs domainMask =? 0 then None else Some (domainMask, ffs domainMask - 1, 0)
         else Some (domainMask, domain, dirIndex));
      prefix ← p !! Z.to_nat domain ≫= lookup (Z.to_nat dirIndex);
      base ← b !! Z.to_nat dirIndex;
      Some (Z.shiftl dir 24 + Z.shiftl (dirIndex + 1) 16 + domainMask, prefix, base)
  end.

Definition path_max : nat := 1024.

(** [strlcat(path, s, PATH_MAX)] on a path shorter than [PATH_MAX]. *)
Definition strlcat (path s : string) : string := String.substring 0 (path_max - 1) (path +:+ s).

Definition addNextRoot (prefix : string) : bool :=
  match prefix with EmptyString => true | String c _ => (Ascii.nat_of_ascii c =? 47)%nat end.

(** [nextRoot_init] from [issetugid] and the [NEXT_ROOT] variable. *)
Definition nextRoot_init (issetugid : bool) (env : option string) : string :=
  if issetugid then EmptyString else default EmptyString env.

Definition make_path (nextRoot prefix base : string) : string :=
  let path := if addNextRoot prefix then strlcat EmptyString nextRoot else EmptyString in
  strlcat (strlcat path prefix) base.

Definition NSGetNextSearchPathEnumeration (nextRoot : string) (state : Z) : option (Z * string) :=
  '(state, prefix, base) ← next_search_path state; Some (state, make_path nextRoot prefix base).

(** The loop of a caller: all the paths. *)
Fixpoint enumerate (fuel : nat) (nextRoot : string) (state : Z) : list string :=
  match fuel with
  | O => []
  | S fuel =>
      match NSGetNextSearchPathEnumeration nextRoot state with
      | None => []
      | Some (state, path) => path :: enumerate fuel nextRoot state
      end
  end.

(** Sixteen paths at most: four domains of four paths. *)
Definition search_paths (nextRoot : string) (dir mask : Z) : list string :=
  enumerate 17 nextRoot (NSStartSearchPathEnumeration dir mask).

(** ** Specification *)

(** The paths of one entry in one domain. *)
Definition domain_paths (d : dir_info) (k : nat) : list (string * string) :=
  match d with
  | OnePath p base => match p !! k with Some (Some prefix) => [(prefix, base)] | _ => [] end
  | ManyPaths p b => zip (default [] (p !! k)) b
  end.

(** Domains in order; the system domain is left out when it repeats the local one. *)
Definition spec_paths (dir mask : Z) : list (string * string) :=
  if Index dir <? 0 then [] else
  match dirInfo !! Z.to_nat (Index dir) with
  | None => []
  | Some d =>
      concat (map (fun k =>
        if Z.testbit mask (Z.of_nat k) &&
           negb ((k =? 3)%nat && Z.testbit mask 1 && same_local_system d)
        then domain_paths d k else []) [0; 1; 2; 3]%nat)
  end.

(** The prefixes and bases the enumeration goes through, and whether it ended. *)
Fixpoint enumerate_raw (fuel : nat) (state : Z) : list (string * string) * bool :=
  match fuel with
  | O => ([], false)
  | S fuel =>
      match next_search_path state with
      | None => ([], true)
      | Some (state, prefix, base) =>
          let '(l, b) := enumerate_raw fuel state in ((prefix, base) :: l, b)
      end
  end.

Lemma enumerate_map fuel root state :
  enumerate fuel root state = map (fun pb => make_path root pb.1 pb.2) (enumerate_raw fuel state).1.
Proof.
  revert state. induction fuel as [|fuel IH]; intros state; [done|].
  cbn [enumerate enumerate_raw]. unfold NSGetNextSearchPathEnumeration.
  destruct (next_search_path state) as [[[st p] b]|]; cbn [mbind option_bind]; [|done].
  rewrite IH. by destruct (enumerate_raw fuel st).
Qed.

Definition all_dirs : list Z := seqZ 1 22 ++ [100; 101].

Lemma Index_valid dir : 0 ≤ Index dir → dir ∈ all_dirs.
Proof.
  unfold Index, NSApplicationDirectory, NSPreferencePanesDirectory, NSAllApplicationsDirectory,
    NSAllLibrariesDirectory, all_dirs.
  intros H. apply elem_of_app.
  destruct (Z.leb_spec 1 dir), (Z.leb_spec dir 22); cbn [andb] in H.
  1: left; apply elem_of_seqZ; lia.
  all: right; destruct (Z.leb_spec 100 dir), (Z.leb_spec dir 101); cbn [andb] in H; try lia;
    assert (dir = 100 ∨ dir = 101) as [-> | ->] by lia; set_solver.
Qed.

(** The check of every directory with every set of domains. *)
Definition check_all : bool :=
  forallb (fun dir => forallb (fun mask =>
    bool_decide (enumerate_raw 17 (NSStartSearchPathEnumeration dir mask) =
                 (spec_paths dir mask, true))) (seqZ 0 16)) all_dirs.

Lemma check_all_true : check_all = true.
Proof. vm_compute. reflexivity. Qed.

Lemma spec_paths_low dir mask : spec_paths dir mask = spec_paths dir (Z.land mask DomainMask).
Proof.
  unfold spec_paths. destruct (Index dir <? 0); [done|].
  destruct (dirInfo !! Z.to_nat (Index dir)) as [d|]; [|done]. f_equal.
  cbn [map]. rewrite !Z.land_spec. change (Z.testbit DomainMask 1) with true.
  change (Z.testbit DomainMask (Z.of_nat 0)) with true.
  change (Z.testbit DomainMask (Z.of_nat 1)) with true.
  change (Z.testbit DomainMask (Z.of_nat 2)) with true.
  change (Z.testbit DomainMask (Z.of_nat 3)) with true. by rewrite !andb_true_r.
Qed.

(** C34: the enumeration of a standard directory, for every directory and every set of
    domains: it ends after at most sixteen paths, and gives, for each requested domain in
    order, the paths of the table, leaving out the system domain when it repeats the local
    one and the domains the directory does not have.  An unknown directory has none. *)
Theorem search_paths_spec root dir mask :
  search_paths root dir mask = map (fun pb => make_path root pb.1 pb.2) (spec_paths dir mask) ∧
  (enumerate_raw 17 (NSStartSearchPathEnumeration dir mask)).2 = true.
Proof.
  unfold search_paths. rewrite enumerate_map.
  destruct (Z.ltb_spec (Index dir) 0) as [Hneg|Hpos].
  { unfold spec_paths, NSStartSearchPathEnumeration. by rewrite (proj2 (Z.ltb_lt _ _) Hneg). }
  pose proof check_all_true as Hall. unfold check_all in Hall. rewrite forallb_forall in Hall.
  specialize (Hall dir (proj1 (list_elem_of_In _ _) (Index_valid dir Hpos))).
  rewrite forallb_forall in Hall. specialize (Hall (Z.land mask DomainMask)).
  assert (NSStartSearchPathEnumeration dir mask =
          NSStartSearchPathEnumeration dir (Z.land mask DomainMask)) as Hlow.
  { unfold NSStartSearchPathEnumeration.
    assert (Z.land (Z.land mask DomainMask) DomainMask = Z.land mask DomainMask) as ->
      by (by rewrite <- Z.land_assoc). done. }
  rewrite Hlow, spec_paths_low. apply bool_decide_eq_true in Hall.
  - by rewrite Hall.
  - apply list_elem_of_In, elem_of_seqZ. unfold DomainMask. change 15 with (Z.ones 4).
    rewrite Z.land_ones by lia. lia.
Qed.
