(* ===== verification/StartupItems.v ===== *)
(** * Startup items ([src/src/launchd/SystemStarter/StartupItems.c])

    The items SystemStarter runs: their parameters, the search for providers and
    dependents, the choice of the next item and the status of the services.  Items are
    mutable dictionaries shared by the lists: a list holds references into a heap of
    items, and membership in a list compares contents ([CFEqual]), as the arrays of the
    source do. *)

From S2P Require Import Prelude SearchPaths.

(** ** Property-list values *)

(** The keys of a dictionary value are listed in a fixed order. *)
Inductive cfvalue :=
  | CFString (s : string)
  | CFNumber (n : Z)
  | CFOther (kind : Z) (bytes : list Z)
  | CFArray (l : list cfvalue)
  | CFDictionary (kvs : list (string * cfvalue)).

Definition cfvalue_eq_dec : EqDecision cfvalue.
Proof.
  refine (fix go (a b : cfvalue) {struct a} : Decision (a = b) :=
    match a, b with
    | CFString s, CFString s' => cast_if (decide (s = s'))
    | CFNumber n, CFNumber n' => cast_if (decide (n = n'))
    | CFOther k l, CFOther k' l' => cast_if_and (decide (k = k')) (decide (l = l'))
    | CFArray l, CFArray l' => cast_if (@list_eq_dec _ go l l')
    | CFDictionary l, CFDictionary l' => cast_if (@list_eq_dec _ (@prod_eq_dec _ _ _ go) l l')
    | _, _ => right _
    end); clear go; abstract congruence.
Defined.
#[export] Existing Instance cfvalue_eq_dec.

(** ** Items *)

(** What [Provides], [Requires] and [Uses] list. *)
Notation service := cfvalue.

(** A loaded item: the keys the program reads or writes, and the others. *)
Record item := mkItem {
  it_provides : option (list service);
  it_requires : option (list service);
  it_uses : option (list service);
  it_description : option cfvalue;
  it_path : string;
  it_domain : Z;
  it_pid : option cfvalue;
  it_error : option cfvalue;
  it_rest : list (string * cfvalue);
}.

#[export] Instance item_eq_dec : EqDecision item.
Proof. solve_decision. Defined.

Inductive key := Provides | Requires | Uses.

Definition item_list (k : key) (i : item) : option (list service) :=
  match k with Provides => it_provides i | Requires => it_requires i | Uses => it_uses i end.

Definition with_pid (i : item) (pid : Z) : item :=
  mkItem (it_provides i) (it_requires i) (it_uses i) (it_description i) (it_path i)
         (it_domain i) (Some (CFNumber pid)) (it_error i) (it_rest i).
Definition with_error (i : item) (e : string) : item :=
  mkItem (it_provides i) (it_requires i) (it_uses i) (it_description i) (it_path i)
         (it_domain i) (it_pid i) (Some (CFString e)) (it_rest i).

(** The heap of items and references into it. *)
Notation items := (list item).
Notation iref := nat (only parsing).

(** [CFEqual] of two items, and [CFArrayContainsValue] of a list of items. *)
Definition same_item (h : items) (i j : iref) : bool := bool_decide (h !! i = h !! j).
Definition contains_item (h : items) (l : list iref) (i : iref) : bool :=
  existsb (fun j => same_item h j i) l.
Definition contains (l : list service) (s : service) : bool := bool_decide (s ∈ l).

Definition has_pid (h : items) (i : iref) : bool :=
  match h !! i with Some it => bool_decide (is_Some (it_pid it)) | None => false end.

Inductive action := kActionNone | kActionStart | kActionStop | kActionRestart.
#[export] Instance action_eq_dec : EqDecision action.
Proof. solve_decision. Defined.

Definition argumentForAction (a : action) : option string :=
  match a with
  | kActionStart => Some "start"%string
  | kActionStop => Some "stop"%string
  | kActionRestart => Some "restart"%string
  | kActionNone => None
  end.

(** ** Loading *)

(** A parameters file: the keys in order, as parsed. *)
Notation config := (list (string * cfvalue)).

Definition get (k : string) (c : config) : option cfvalue :=
  (fun r => r.2.2) <$> list_find (fun kv => kv.1 = k) c.

Definition is_array (v : cfvalue) : bool := match v with CFArray _ => true | _ => false end.

(** [checkTypeOfValue] *)
Definition checkTypeOfValue (c : config) (k : string) : bool :=
  match get k c with Some v => is_array v | None => true end.

Definition StartupItemValidate (v : option cfvalue) : bool :=
  match v with
  | Some (CFDictionary c) => checkTypeOfValue c "Provides" && checkTypeOfValue c "Requires"
  | _ => false
  end.

(** Services of old systems that are no longer startup items. *)
Definition stubitems : list service :=
  map CFString
    ["Accounting"; "System Tuning"; "SecurityServer"; "Portmap"; "System Log"; "Resolver";
     "LDAP"; "NetInfo"; "NetworkExtensions"; "DirectoryServices"; "Network Configuration";
     "mDNSResponder"; "Cron"; "Core Graphics"; "Core Services"; "Network"; "TIM"; "Disks";
     "NIS"]%string.

(** [SpecialCasesStartupItemHandler] on one of its two keys: the stub services are
    dropped.  The count of a value that is not an array is undefined. *)
Definition drop_stubs (v : option cfvalue) : res Empty_set (option (list service)) :=
  match v with
  | None => Ok None
  | Some (CFArray l) => Ok (Some (filter (fun s => s ∉ stubitems) l))
  | Some _ => UB
  end.

Definition known_keys : list string :=
  ["Provides"; "Requires"; "Uses"; "Description"; "PathToBundle"; "Domain"; "ProcessID";
   "Error"]%string.

Definition array_of (v : option cfvalue) : option (list service) :=
  match v with Some (CFArray l) => Some l | _ => None end.

(** What [StartupItemListCreateWithMask] makes of a validated parameters file. *)
Definition load_item (c : config) (path : string) (domain : Z) : res Empty_set item :=
  requires ← drop_stubs (get "Requires" c);
  uses ← drop_stubs (get "Uses" c);
  Ok (mkItem (array_of (get "Provides" c)) requires uses (get "Description" c) path domain
        (get "ProcessID" c) (get "Error" c)
        (filter (fun kv => kv.1 ∉ known_keys) c)).

(** The file system as the loader sees it. *)
Record stat := mkStat {
  st_mode : Z;
  st_uid : Z;
  st_gid : Z;
  st_ctime : Z;
}.

Inductive dir_result := DirEntries (names : list string) | DirMissing | DirError.

(** Reading a parameters file: it cannot be opened, examined or mapped, or its
    property list is parsed ([None] when that fails). *)
Inductive config_result := ConfigUnreadable | ConfigParsed (v : option cfvalue).

Record fs := mkFs {
  fs_boot_time : Z;
  fs_ppid : Z;
  fs_lstat : string → option stat;
  fs_opendir : string → dir_result;
  fs_config : string → config_result;
}.

Definition S_IFMT : Z := 0xF000.
Definition S_IFREG : Z := 0x8000.
Definition S_IFDIR : Z := 0x4000.
Definition S_IWGRP : Z := 0x10.
Definition S_IWOTH : Z := 0x2.

(** [StartupItemSecurityCheck]: the verdict, and whether the fixer is asked for. *)
Definition StartupItemSecurityCheck (f : fs) (path : string) : bool * bool :=
  match fs_lstat f path with
  | None => (false, false)
  | Some st =>
      if (fs_boot_time f <? st_ctime st) && (fs_ppid f =? 1) then (false, false) else
      let kind := Z.land (st_mode st) S_IFMT in
      let r := ((kind =? S_IFREG) || (kind =? S_IFDIR)) &&
               (Z.land (st_mode st) S_IWOTH =? 0) && (Z.land (st_mode st) S_IWGRP =? 0) &&
               (st_uid st =? 0) && (st_gid st =? 0) in
      (r, negb r)
  end.

Definition secure (f : fs) (path : string) : bool := (StartupItemSecurityCheck f path).1.

Definition PATH_MAX : nat := 1024.

(** [sprintf] into a buffer of [PATH_MAX] bytes. *)
Definition sprintf_path (s : string) : res Empty_set string :=
  if (String.length s <? PATH_MAX)%nat then Ok s else UB.

Definition dotted (name : string) : bool :=
  match name with String c _ => (Ascii.nat_of_ascii c =? 46)%nat | EmptyString => false end.

(** One entry of a [StartupItems] directory: the item it adds, if any. *)
Definition load_bundle (f : fs) (dir : string) (domain : Z) (name : string) :
    res Empty_set (option item) :=
  if dotted name then Ok None else
  bundle ← sprintf_path (dir +:+ "/" +:+ name);
  exe ← sprintf_path (bundle +:+ "/" +:+ name);
  cfg ← sprintf_path (bundle +:+ "/StartupParameters.plist");
  dis ← sprintf_path (bundle +:+ "/.disabled");
  if bool_decide (is_Some (fs_lstat f dis)) then Ok None else
  if negb (secure f bundle) then Ok None else
  if negb (secure f exe) then Ok None else
  if negb (secure f cfg) then Ok None else
  match fs_config f cfg with
  | ConfigUnreadable => Ok None
  | ConfigParsed v =>
      if StartupItemValidate v then
        match v with
        | Some (CFDictionary c) => i ← load_item c bundle domain; Ok (Some i)
        | _ => Ok None
        end
      else Ok None
  end.

Fixpoint load_bundles (f : fs) (dir : string) (domain : Z) (names : list string) (l : items) :
    res Empty_set items :=
  match names with
  | [] => Ok l
  | name :: names =>
      i ← load_bundle f dir domain name;
      load_bundles f dir domain names (match i with Some i => l ++ [i] | None => l end)
  end.

(** [strlcat(aPath, kStartupItemsPath, sizeof(aPath))] *)
Definition items_dir (p : string) : string :=
  String.substring 0 (PATH_MAX - 1) (p +:+ "/StartupItems").

(** The loop over the paths of the enumeration; [None] is the null list returned when a
    directory cannot be opened. *)
Fixpoint create_with_mask (f : fs) (paths : list string) (domain : Z) (l : items) :
    res Empty_set (option items) :=
  match paths with
  | [] => Ok (Some l)
  | p :: paths =>
      let dir := items_dir p in
      let domain := domain + 1 in
      if negb (secure f dir) then create_with_mask f paths domain l else
      match fs_opendir f dir with
      | DirEntries names =>
          l ← load_bundles f dir domain names l; create_with_mask f paths domain l
      | DirMissing => create_with_mask f paths domain l
      | DirError => Ok None
      end
  end.

(** [StartupItemListCreateWithMask]: the [StartupItems] directories of the library
    directories of the domains. *)
Definition StartupItemListCreateWithMask (f : fs) (nextRoot : string) (mask : Z) :
    res Empty_set (option items) :=
  create_with_mask f (search_paths nextRoot NSLibraryDirectory mask) 0 [].

(** ** Lists of items *)

(** [startupItemListCopyMatches]: the items that list the service under the key, each
    once. *)
Fixpoint copy_matches (h : items) (l : list iref) (k : key) (s : service) (acc : list iref) :
    list iref :=
  match l with
  | [] => acc
  | i :: l =>
      let hit := match h !! i ≫= item_list k with Some sl => contains sl s | None => false end in
      copy_matches h l k s
        (if hit && negb (contains_item h acc i) then acc ++ [i] else acc)
  end.

Definition startupItemListCopyMatches (h : items) (l : list iref) (k : key) (s : service) :
    list iref := copy_matches h l k s [].

Definition StartupItemListCountServices (h : items) (l : list iref) : Z :=
  fold_left (fun n i => n + match h !! i ≫= it_provides with
                            | Some sl => Z.of_nat (length sl)
                            | None => 0
                            end) l 0.

Definition StartupItemListGetProvider (h : items) (l : list iref) (s : service) : option iref :=
  head (startupItemListCopyMatches h l Provides s).

Definition StartupItemListCreateFromRunning (h : items) (l : list iref) : list iref :=
  filter (fun i => has_pid h i = true) l.

(** ** The context of a run *)

(** The status of a service: [true] is [kRunSuccess]. *)
Notation statuses := (list (service * bool)).

Definition status_of (st : statuses) (s : service) : option bool :=
  (fun r => r.2.2) <$> list_find (fun kv => kv.1 = s) st.

(** [CFDictionaryAddValue] and [CFDictionarySetValue] *)
Definition status_add (st : statuses) (s : service) (b : bool) : statuses :=
  match status_of st s with Some _ => st | None => st ++ [(s, b)] end.
Definition status_set (st : statuses) (s : service) (b : bool) : statuses :=
  match status_of st s with
  | Some _ => map (fun kv => if decide (kv.1 = s) then (s, b) else kv) st
  | None => st ++ [(s, b)]
  end.

(** [StartupContext], with the heap of the items. *)
Record context := mkContext {
  cx_items : items;
  aWaitingList : list iref;
  aFailedList : option (list iref);
  aStatusDict : statuses;
  aServicesCount : Z;
  aRunningCount : Z;
}.

Fixpoint remove_first (h : items) (l : list iref) (i : iref) : list iref :=
  match l with
  | [] => []
  | j :: l => if same_item h j i then l else j :: remove_first h l i
  end.

Definition RemoveItemFromWaitingList (c : context) (i : iref) : context :=
  mkContext (cx_items c) (remove_first (cx_items c) (aWaitingList c) i) (aFailedList c)
            (aStatusDict c) (aServicesCount c) (aRunningCount c).

Definition AddItemToFailedList (c : context) (i : iref) : context :=
  mkContext (cx_items c) (aWaitingList c) (Some (default [] (aFailedList c) ++ [i]))
            (aStatusDict c) (aServicesCount c) (aRunningCount c).

(** ** Dependents *)

Section Dependents.
Context (h : items) (l : list iref).

(** The keys compared for an action: the one of the candidate and the one of the
    parent. *)
Definition dependency_keys (a : action) : option (key * key) :=
  match a with
  | kActionStart => Some (Provides, Requires)
  | kActionStop => Some (Requires, Provides)
  | _ => None
  end.

Definition lists_service (k : key) (s : service) (i : iref) : bool :=
  match h !! i ≫= item_list k with Some sl => contains sl s | None => false end.

(** [appendDependents]; [visit] is the recursive call. *)
Fixpoint visit_items (visit : list iref → iref → res Empty_set (list iref)) (inner : key)
    (s : service) (l : list iref) (deps : list iref) : res Empty_set (list iref) :=
  match l with
  | [] => Ok deps
  | i :: l =>
      deps ← (if lists_service inner s i && negb (contains_item h deps i)
              then visit deps i else Ok deps);
      visit_items visit inner s l deps
  end.

Fixpoint visit_services (visit : list iref → iref → res Empty_set (list iref)) (inner : key)
    (ss : list service) (deps : list iref) : res Empty_set (list iref) :=
  match ss with
  | [] => Ok deps
  | s :: ss => deps ← visit_items visit inner s l deps; visit_services visit inner ss deps
  end.

Fixpoint appendDependents (fuel : nat) (a : action) (deps : list iref) (parent : iref) :
    res Empty_set (list iref) :=
  match fuel with
  | O => NoFuel
  | S fuel =>
      let deps := if contains_item h deps parent then deps else deps ++ [parent] in
      match dependency_keys a with
      | None => Ok deps
      | Some (inner, outer) =>
          match h !! parent ≫= item_list outer with
          | None => Ok deps
          | Some ss => visit_services (appendDependents fuel a) inner ss deps
          end
      end
  end.
End Dependents.

(** [StartupItemListCreateDependentsList]; the fuel is one more than the items. *)
Definition StartupItemListCreateDependentsList (h : items) (l : list iref) (s : service)
    (a : action) : res Empty_set (option (list iref)) :=
  match StartupItemListGetProvider h l s with
  | None => Ok None
  | Some i =>
      match a with
      | kActionNone => Ok None
      | _ => deps ← appendDependents h l (S (length l)) a [] i; Ok (Some deps)
      end
  end.

(** ** The next item *)

Section GetNext.
Context (h : items) (waiting : list iref) (st : statuses).

Definition countUnmetRequirements (l : list service) : Z :=
  fold_left (fun n s => if bool_decide (status_of st s = Some true) then n else n + 1) l 0.

Definition countDependantsPresent (l : list service) (k : key) : Z :=
  fold_left (fun n s => n + Z.of_nat (length (startupItemListCopyMatches h waiting k s))) l 0.

Definition pendingAntecedents (l : list service) (a : action) : bool :=
  existsb (fun s =>
    let k := if decide (a = kActionStart) then Provides else Uses in
    existsb (fun i => negb (has_pid h i) || bool_decide (status_of st s = None))
            (startupItemListCopyMatches h waiting k s)) l.

(** [checkForDuplicates]; both domains are set by the loader. *)
Definition checkForDuplicates (it : item) : bool :=
  existsb (fun s =>
    bool_decide (status_of st s = Some true) ||
    existsb (fun j => has_pid h j ||
               match h !! j with Some jt => it_domain jt <? it_domain it | None => false end)
            (startupItemListCopyMatches h waiting Provides s))
    (default [] (it_provides it)).

Definition INT_MAX : Z := 2 ^ 31 - 1.

(** The loop of [StartupItemListGetNext]. *)
Fixpoint get_next (a : action) (l : list iref) (minFailed : Z) (next : option iref) :
    option iref :=
  match l with
  | [] => next
  | i :: l =>
      match h !! i with
      | None => get_next a l minFailed next
      | Some it =>
          if has_pid h i then get_next a l minFailed next else
          if checkForDuplicates it then get_next a l minFailed next else
          if decide (a = kActionRestart) then Some i else
          let start := bool_decide (a = kActionStart) in
          let hard := item_list (if start then Requires else Provides) it in
          let unmet := match hard with
                       | Some ss => if start then countUnmetRequirements ss
                                    else countDependantsPresent ss Requires
                       | None => 0
                       end in
          if negb (unmet =? 0) then get_next a l minFailed next else
          let soft := item_list (if start then Uses else Provides) it in
          let failed := match soft with
                        | Some ss => if start then countUnmetRequirements ss
                                     else countDependantsPresent ss Uses
                        | None => 0
                        end in
          let best := match soft with Some _ => false | None => 0 <? minFailed end in
          if (0 <? failed) && pendingAntecedents (default [] soft) a
          then get_next a l minFailed next else
          if minFailed <? failed then get_next a l minFailed next else
          if negb (best || (failed <? minFailed)) then get_next a l minFailed next
          else get_next a l failed (Some i)
      end
  end.

Definition StartupItemListGetNext (a : action) : option iref :=
  match a with
  | kActionNone => None
  | _ => get_next a waiting INT_MAX None
  end.
End GetNext.

(** ** Running *)

Definition StartupItemCreateDescription (h : items) (i : iref) : option cfvalue :=
  h !! i ≫= it_description.

(** [StartupItemGetPID]; a value that is not a number is not converted. *)
Definition StartupItemGetPID (h : items) (i : iref) : Z :=
  match h !! i ≫= it_pid with Some (CFNumber n) => i32 n | _ => 0 end.

(** [StartupItemWithPID]; of a value that is not a number the process identifier is
    uninitialised. *)
Fixpoint StartupItemWithPID (h : items) (l : list iref) (pid : Z) : res Empty_set (option iref) :=
  match l with
  | [] => Ok None
  | i :: l =>
      match h !! i ≫= it_pid with
      | None => StartupItemWithPID h l pid
      | Some (CFNumber n) => if i32 n =? pid then Ok (Some i) else StartupItemWithPID h l pid
      | Some _ => UB
      end
  end.

(** [StartupItemSetStatus] *)
Definition StartupItemSetStatus (st : statuses) (it : item) (name : option service)
    (success replace : bool) : statuses :=
  match it_provides it with
  | None => st
  | Some l =>
      let l := match name with
               | Some s => if contains l s then [s] else l
               | None => l
               end in
      fold_left (fun st s => if replace then status_set st s success else status_add st s success)
                l st
  end.

Definition StartupItemExit (st : statuses) (it : item) (success : bool) : statuses :=
  StartupItemSetStatus st it None success false.

(** Items that are not run when the system stops. *)
Definition stop_stubs : list service :=
  map CFString
    ["BootROMUpdater"; "FCUUpdater"; "AutoProtect Daemon"; "Check For Missed Tasks"; "Privacy";
     "Firmware Update Checking"; "M-Audio FireWire Audio Support";
     "help for M-Audio Delta Family"; "help for M-Audio Devices"; "help for M-Audio Revo 5.1";
     "M-Audio USB Duo Configuration Service"; "firmware loader for M-Audio devices";
     "M-Audio MobilePre USB Configuration Service";
     "M-Audio OmniStudio USB Configuration Service";
     "M-Audio Transit USB Configuration Service";
     "M-Audio Audiophile USB Configuration Service"]%string.

(** What the system answers to one run: whether the path fits its buffer, whether the
    executable may be executed, and what [fork] returns. *)
Record run_env := mkRunEnv {
  re_path_fits : bool;
  re_executable : bool;
  re_fork : Z;
}.

(** [StartupItemRun] in the parent: the statuses, the item and the error. *)
Definition StartupItemRun (e : run_env) (st : statuses) (it : item) (a : action) :
    statuses * item * Z :=
  if bool_decide (a = kActionStop) &&
     existsb (fun s => contains (default [] (it_provides it)) s) stop_stubs then
    (StartupItemExit st (with_pid it (-1)) true, with_pid it (-1), -1)
  else if decide (a = kActionNone) then (StartupItemExit st it true, it, 0)
  else if negb (re_path_fits e) then (st, it, -1)
  else if negb (re_executable e) then
    let it := with_error (with_pid it (-1)) "incorrect permissions" in
    (StartupItemExit st it false, it, -1)
  else if re_fork e =? -1 then
    let it := with_error it "could not fork() StartupItem" in
    (StartupItemExit st it false, it, -1)
  else (st, with_pid it (re_fork e), 0).

(** ** The loop of the choice *)

Section NextItem.
Context (h : items) (waiting : list iref) (st : statuses).

(** The number of unmet soft dependencies of an item that is ready to run; [None] for
    one that is running, whose service is provided, that lacks a hard dependency, or that
    is delayed. *)
Definition candidate (a : action) (i : iref) : option Z :=
  it ← h !! i;
  let start := bool_decide (a = kActionStart) in
  let count ss k := if start then countUnmetRequirements st ss
                    else countDependantsPresent h waiting ss k in
  let unmet := match item_list (if start then Requires else Provides) it with
               | Some ss => count ss Requires | None => 0 end in
  let soft := item_list (if start then Uses else Provides) it in
  let failed := match soft with Some ss => count ss Uses | None => 0 end in
  if has_pid h i || checkForDuplicates h waiting st it || negb (unmet =? 0) ||
     ((0 <? failed) && pendingAntecedents h waiting st (default [] soft) a)
  then None else Some failed.

Lemma get_next_step a i l m next :
  a = kActionStart ∨ a = kActionStop →
  get_next h waiting st a (i :: l) m next =
    match candidate a i with
    | Some c => if c <? m then get_next h waiting st a l c (Some i)
                else get_next h waiting st a l m next
    | None => get_next h waiting st a l m next
    end.
Proof.
  intros Ha. cbn [get_next]. unfold candidate.
  destruct (h !! i) as [it|]; [|done]. cbn [mbind option_bind].
  destruct (has_pid h i); [done|]. destruct (checkForDuplicates h waiting st it); [done|].
  destruct (decide (a = kActionRestart)) as [->|_]; [by destruct Ha|]. cbn [orb].
  set (start := bool_decide (a = kActionStart)).
  destruct (negb _); [done|]. cbn [orb].
  set (soft := item_list (if start then Uses else Provides) it).
  set (failed := match soft with Some ss => _ | None => 0 end).
  destruct ((0 <? failed) && _); [done|].
  destruct (Z.ltb_spec failed m).
  - rewrite (proj2 (Z.ltb_ge m failed)) by lia. by rewrite orb_true_r.
  - destruct (Z.ltb_spec m failed); [done|].
    assert (m = failed) as -> by lia. subst failed. destruct soft; [done|]. done.
Qed.

(** The first item of [l] with the least count below [m]. *)
Definition first_least (a : action) (l : list iref) (m : Z) (r : option iref) (next : option iref) :
    Prop :=
  (r = next ∧ ∀ j c, j ∈ l → candidate a j = Some c → m ≤ c) ∨
  (∃ pre i post c, l = pre ++ i :: post ∧ r = Some i ∧ candidate a i = Some c ∧ c < m ∧
     (∀ j c', j ∈ pre → candidate a j = Some c' → c < c') ∧
     (∀ j c', j ∈ post → candidate a j = Some c' → c ≤ c')).

Lemma get_next_least a l m next :
  a = kActionStart ∨ a = kActionStop →
  first_least a l m (get_next h waiting st a l m next) next.
Proof.
  intros Ha. revert m next. induction l as [|i l IH]; intros m next.
  { left. split; [done|]. intros j c Hj. by apply not_elem_of_nil in Hj. }
  rewrite get_next_step by done.
  destruct (candidate a i) as [c|] eqn:Hc.
  - destruct (Z.ltb_spec c m) as [Hlt|Hge].
    + destruct (IH c (Some i)) as [[-> Hall]|(pre & j & post & d & -> & -> & Hd & Hdc & Hpre & Hpost)].
      * right. exists [], i, l, c. split_and!; try done. intros j c' Hj. by apply not_elem_of_nil in Hj.
      * right. exists (i :: pre), j, post, d. split_and!; try done; [lia|].
        intros k c' [->|Hk]%elem_of_cons Hk'; [|by eapply Hpre].
        rewrite Hc in Hk'. injection Hk' as <-. lia.
    + destruct (IH m next) as [[-> Hall]|(pre & j & post & d & -> & -> & Hd & Hdc & Hpre & Hpost)].
      * left. split; [done|]. intros j c' [->|Hj]%elem_of_cons Hj'; [|by eapply Hall].
        rewrite Hc in Hj'. injection Hj' as <-. lia.
      * right. exists (i :: pre), j, post, d. split_and!; try done.
        intros k c' [->|Hk]%elem_of_cons Hk'; [|by eapply Hpre].
        rewrite Hc in Hk'. injection Hk' as <-. lia.
  - destruct (IH m next) as [[-> Hall]|(pre & j & post & d & -> & -> & Hd & Hdc & Hpre & Hpost)].
    + left. split; [done|]. intros j c' [->|Hj]%elem_of_cons Hj'; [congruence|by eapply Hall].
    + right. exists (i :: pre), j, post, d. split_and!; try done.
      intros k c' [->|Hk]%elem_of_cons Hk'; [congruence|by eapply Hpre].
Qed.
End NextItem.

(** ** Readiness *)

Lemma contains_spec l s : contains l s = true ↔ s ∈ l.
Proof. apply bool_decide_eq_true. Qed.

Lemma lists_service_spec h k s i :
  lists_service h k s i = true ↔ ∃ it l, h !! i = Some it ∧ item_list k it = Some l ∧ s ∈ l.
Proof.
  unfold lists_service. split.
  - destruct (h !! i) as [it|]; cbn; [|done]. destruct (item_list k it) as [l|] eqn:Hl; [|done].
    intros Hc%contains_spec. by exists it, l.
  - intros (it & l & -> & Hl & Hs). cbn. rewrite Hl. by apply contains_spec.
Qed.

Lemma copy_matches_acc h l k s acc i : i ∈ acc → i ∈ copy_matches h l k s acc.
Proof.
  revert acc. induction l as [|j l IH]; intros acc Hi; cbn [copy_matches]; [done|].
  apply IH. destruct (_ && _); [apply elem_of_app; by left|done].
Qed.

(** Every item that lists the service has an equal one among the matches. *)
Lemma copy_matches_complete h l k s acc i :
  i ∈ l → lists_service h k s i = true →
  ∃ j, j ∈ copy_matches h l k s acc ∧ h !! j = h !! i.
Proof.
  revert acc. induction l as [|x l IH]; intros acc Hi Hs; [by apply not_elem_of_nil in Hi|].
  cbn [copy_matches]. apply elem_of_cons in Hi as [<-|Hi]; [|by apply IH].
  change (match h !! i ≫= item_list k with Some sl => contains sl s | None => false end)
    with (lists_service h k s i). rewrite Hs. cbn [andb].
  destruct (contains_item h acc i) eqn:Hc; cbn [negb].
  - apply existsb_exists in Hc as (j & Hj & Heq%bool_decide_eq_true). exists j.
    split; [|done]. by apply copy_matches_acc, list_elem_of_In.
  - exists i. split; [|done]. apply copy_matches_acc, elem_of_app. right. left.
Qed.

Lemma copy_matches_sound h l k s acc i :
  i ∈ copy_matches h l k s acc → i ∈ acc ∨ (i ∈ l ∧ lists_service h k s i = true).
Proof.
  revert acc. induction l as [|x l IH]; intros acc Hi; cbn [copy_matches] in Hi; [by left|].
  apply IH in Hi as [Hi|[Hi Hs]]; [|right; split; [by right|done]].
  destruct (_ && _) eqn:Hb; [|by left]. apply elem_of_app in Hi as [Hi|Hi]; [by left|].
  apply list_elem_of_singleton in Hi as ->. right. split; [left|].
  apply andb_true_iff in Hb as [Hb _]. exact Hb.
Qed.

(** Counting loops that end at zero. *)
Lemma fold_count_zero {A} (f : A → Z) (l : list A) n :
  (∀ x, 0 ≤ f x) → fold_left (fun n x => n + f x) l n = n ↔ ∀ x, x ∈ l → f x = 0.
Proof.
  intros Hf. assert (∀ l n, n ≤ fold_left (fun n x => n + f x) l n) as Hmono.
  { clear -Hf. intros l. induction l as [|x l IH]; intros n; cbn [fold_left]; [lia|].
    specialize (IH (n + f x)). specialize (Hf x). lia. }
  revert n. induction l as [|x l IH]; intros n; cbn [fold_left].
  - split; [|done]. intros _ x Hx. by apply not_elem_of_nil in Hx.
  - specialize (Hmono l (n + f x)). specialize (Hf x). split.
    + intros He. assert (f x = 0) as Hx by lia. intros y [->|Hy]%elem_of_cons; [done|].
      rewrite Hx, Z.add_0_r in He. by apply (IH n).
    + intros Hall. rewrite (Hall x), Z.add_0_r by left. apply IH. intros y Hy. apply Hall. by right.
Qed.

Lemma countUnmet_zero st l :
  countUnmetRequirements st l = 0 ↔ ∀ s, s ∈ l → status_of st s = Some true.
Proof.
  unfold countUnmetRequirements.
  assert (∀ l n, fold_left (fun n s => if bool_decide (status_of st s = Some true) then n else n + 1) l n
          = fold_left (fun n s => n + if bool_decide (status_of st s = Some true) then 0 else 1) l n) as ->.
  { intros l'. induction l' as [|x l' IH]; intros n; [done|]. cbn [fold_left]. rewrite IH.
    f_equal. case_bool_decide; lia. }
  rewrite fold_count_zero by (intros; case_bool_decide; lia).
  split; intros H s Hs; specialize (H s Hs); case_bool_decide; done.
Qed.

Lemma countDependants_zero h w l k :
  countDependantsPresent h w l k = 0 ↔
  ∀ s j, s ∈ l → j ∈ w → lists_service h k s j = false.
Proof.
  unfold countDependantsPresent. rewrite (fold_count_zero (fun s => _)) by (intros; lia). split.
  - intros H s j Hs Hj. destruct (lists_service h k s j) eqn:Hl; [|done].
    destruct (copy_matches_complete h w k s [] j Hj Hl) as (i & Hi & _).
    specialize (H s Hs). unfold startupItemListCopyMatches in H.
    destruct (copy_matches h w k s []); [by apply not_elem_of_nil in Hi|done].
  - intros H s Hs. unfold startupItemListCopyMatches.
    destruct (copy_matches h w k s []) as [|i l'] eqn:He; [done|].
    destruct (copy_matches_sound h w k s [] i) as [Hi|[Hi Hl]]; [rewrite He; left| |].
    + by apply not_elem_of_nil in Hi.
    + by rewrite (H s i Hs Hi) in Hl.
Qed.

Lemma existsb_false_iff {A} (f : A → bool) l : existsb f l = false ↔ ∀ x, x ∈ l → f x = false.
Proof.
  rewrite <- not_true_iff_false, existsb_exists. split.
  - intros H x Hx. destruct (f x) eqn:Hf; [|done]. destruct H. exists x. by rewrite <- list_elem_of_In.
  - intros H (x & Hx%list_elem_of_In & Hf). by rewrite H in Hf.
Qed.

Lemma lists_service_default h k s j jt :
  h !! j = Some jt → lists_service h k s j = true ↔ s ∈ default [] (item_list k jt).
Proof.
  intros Hj. rewrite lists_service_spec. split.
  - intros (it & l & Hit & Hl & Hs). rewrite Hj in Hit. injection Hit as <-. by rewrite Hl.
  - intros Hs. destruct (item_list k jt) as [l|] eqn:Hl; [|by apply not_elem_of_nil in Hs].
    by exists jt, l.
Qed.

Lemma matches_spec h w k s i :
  i ∈ startupItemListCopyMatches h w k s →
  ∃ it, i ∈ w ∧ h !! i = Some it ∧ s ∈ default [] (item_list k it).
Proof.
  intros Hi. apply copy_matches_sound in Hi as [Hi|[Hi Hl]]; [by apply not_elem_of_nil in Hi|].
  pose proof Hl as (it & l & Hit & _)%lists_service_spec. exists it. split_and!; [done|done|].
  by apply (lists_service_default h k s i it Hit).
Qed.

(** No other item has provided, is providing or should rather provide the services of
    this one. *)
Definition sole_provider (h : items) (w : list iref) (st : statuses) (it : item) : Prop :=
  ∀ s, s ∈ default [] (it_provides it) → status_of st s ≠ Some true ∧
    ∀ j jt, j ∈ w → h !! j = Some jt → s ∈ default [] (it_provides jt) →
      it_pid jt = None ∧ it_domain it ≤ it_domain jt.

Lemma provides_lists h j jt s :
  h !! j = Some jt → lists_service h Provides s j = true ↔ s ∈ default [] (it_provides jt).
Proof. intros Hj. by rewrite (lists_service_default h Provides s j jt Hj). Qed.

Lemma checkForDuplicates_spec h w st it :
  checkForDuplicates h w st it = false ↔ sole_provider h w st it.
Proof.
  unfold checkForDuplicates. rewrite existsb_false_iff. split; intros Hd s Hs.
  - specialize (Hd s Hs). apply orb_false_iff in Hd as [H1 H2].
    apply bool_decide_eq_false in H1. split; [done|]. intros j jt Hj Hjt Hsj.
    apply (provides_lists h j jt s Hjt) in Hsj.
    destruct (copy_matches_complete h w Provides s [] j Hj Hsj) as (j' & Hj' & Heq).
    rewrite existsb_false_iff in H2. specialize (H2 j' Hj'). unfold has_pid in H2.
    rewrite Heq, Hjt in H2. apply orb_false_iff in H2 as [H2 H3].
    apply bool_decide_eq_false in H2. apply Z.ltb_ge in H3. split; [|done].
    by apply eq_None_not_Some.
  - destruct (Hd s Hs) as [H1 H2]. apply orb_false_iff.
    split; [by apply bool_decide_eq_false|]. apply existsb_false_iff. intros j Hj.
    apply matches_spec in Hj as (jt & Hjw & Hjt & Hsj).
    destruct (H2 j jt Hjw Hjt Hsj) as [Hp Hdom]. unfold has_pid. rewrite Hjt, Hp. cbn.
    by apply Z.ltb_ge.
Qed.

(** The item may be run: it is not running, nobody else should provide its services, and
    its hard dependencies are met.  To start, every service it requires has succeeded; to
    stop, no waiting item requires a service it provides. *)
Definition ready (h : items) (w : list iref) (st : statuses) (a : action) (it : item) : Prop :=
  it_pid it = None ∧ sole_provider h w st it ∧
  match a with
  | kActionStart => ∀ s, s ∈ default [] (it_requires it) → status_of st s = Some true
  | _ => ∀ s j jt, s ∈ default [] (it_provides it) → j ∈ w → h !! j = Some jt →
           s ∉ default [] (it_requires jt)
  end.

(** The waiting items, equal ones once. *)
Definition distinct_items (h : items) (w : list iref) : items := remove_dups (omap (h !!.) w).

(** The number of unmet soft dependencies.  To start: of the services the item uses,
    those that have not succeeded; to stop: for each service it provides, the distinct
    waiting items that use it. *)
Definition unmet_soft (h : items) (w : list iref) (st : statuses) (a : action) (it : item) : nat :=
  match a with
  | kActionStart =>
      length (filter (fun s => status_of st s ≠ Some true) (default [] (it_uses it)))
  | _ =>
      sum_list ((fun s => length (filter (fun jt => s ∈ default [] (it_uses jt)) (distinct_items h w)))
                <$> default [] (it_provides it))
  end.

(** A soft dependency can still be met: a waiting item at the other end of it has not been
    run, or the service has no status yet. *)
Definition soft_pending (h : items) (w : list iref) (st : statuses) (a : action) (it : item) : Prop :=
  ∃ s j jt, j ∈ w ∧ h !! j = Some jt ∧
    match a with
    | kActionStart => s ∈ default [] (it_uses it) ∧ s ∈ default [] (it_provides jt)
    | _ => s ∈ default [] (it_provides it) ∧ s ∈ default [] (it_uses jt)
    end ∧
    (it_pid jt = None ∨ status_of st s = None).

(** The item may be chosen, with [c] unmet soft dependencies. *)
Definition eligible (h : items) (w : list iref) (st : statuses) (a : action) (i : iref) (c : nat) :
    Prop :=
  ∃ it, h !! i = Some it ∧ ready h w st a it ∧ c = unmet_soft h w st a it ∧
    ¬ (c ≠ 0%nat ∧ soft_pending h w st a it).

(** The counting loops compute these numbers. *)
Lemma fold_count_sum {A} (f : A → nat) (l : list A) n :
  fold_left (fun n x => n + Z.of_nat (f x)) l n = n + Z.of_nat (sum_list (f <$> l)).
Proof.
  revert n. induction l as [|x l IH]; intros n; cbn [fold_left fmap list_fmap sum_list]; [lia|].
  rewrite IH. cbn. lia.
Qed.

Lemma countUnmet_filter st l :
  countUnmetRequirements st l =
    Z.of_nat (length (filter (fun s => status_of st s ≠ Some true) l)).
Proof.
  unfold countUnmetRequirements.
  assert (∀ n, fold_left (fun n s => if bool_decide (status_of st s = Some true) then n else n + 1) l n
    = n + Z.of_nat (length (filter (fun s => status_of st s ≠ Some true) l))) as ->; [|lia].
  induction l as [|s l IH]; intros n; cbn [fold_left]; [cbn; lia|]. rewrite IH, filter_cons.
  case_bool_decide; case_decide; try done; cbn [length]; lia.
Qed.

(** The matches are distinct items of the heap. *)
Lemma copy_matches_distinct h l k s acc :
  NoDup ((h !!.) <$> acc) → NoDup ((h !!.) <$> copy_matches h l k s acc).
Proof.
  revert acc. induction l as [|i l IH]; intros acc Ha; cbn [copy_matches]; [done|]. apply IH.
  destruct (_ && _) eqn:Hb; [|done]. apply andb_true_iff in Hb as [_ Hb].
  apply negb_true_iff in Hb. rewrite fmap_app. apply NoDup_app. split_and!; [done| |apply NoDup_singleton].
  intros o Ho Ho'. apply list_elem_of_singleton in Ho' as ->.
  apply list_elem_of_fmap in Ho as (j & Hj & Hjacc). unfold contains_item in Hb.
  rewrite existsb_false_iff in Hb. specialize (Hb j Hjacc). by apply bool_decide_eq_false in Hb.
Qed.

Lemma matches_length h w k s :
  length (startupItemListCopyMatches h w k s) =
  length (filter (fun jt => s ∈ default [] (item_list k jt)) (distinct_items h w)).
Proof.
  set (m := startupItemListCopyMatches h w k s).
  pose proof (copy_matches_distinct h w k s [] (NoDup_nil_2)) as Hnd. fold m in Hnd.
  rewrite <- (length_fmap (h !!.) m), <- (length_fmap Some (filter _ _)).
  apply Permutation_length, NoDup_Permutation; [done| |].
  - apply (NoDup_fmap_2 Some), NoDup_filter, NoDup_remove_dups.
  - intros o. rewrite !list_elem_of_fmap. split.
    + intros (i & -> & (it & Hiw & Hit & Hs)%matches_spec). exists it. split; [done|].
      apply list_elem_of_filter. split; [done|]. apply elem_of_remove_dups, list_elem_of_omap. by exists i.
    + intros (it & -> & [Hs Hin]%list_elem_of_filter).
      apply elem_of_remove_dups, list_elem_of_omap in Hin as (j & Hj & Hjt).
      apply (lists_service_default h k s j it Hjt) in Hs.
      destruct (copy_matches_complete h w k s [] j Hj Hs) as (i & Hi & He). exists i.
      by rewrite He.
Qed.

Lemma countDependants_sum h w l k :
  countDependantsPresent h w l k =
    Z.of_nat (sum_list ((fun s => length (filter (fun jt => s ∈ default [] (item_list k jt))
                                            (distinct_items h w))) <$> l)).
Proof.
  unfold countDependantsPresent.
  rewrite (fold_count_sum (fun s => length (startupItemListCopyMatches h w k s))), Z.add_0_l.
  do 2 f_equal. apply list_fmap_ext. intros _ s _. apply matches_length.
Qed.

Lemma pendingAntecedents_spec h w st a it :
  a = kActionStart ∨ a = kActionStop →
  pendingAntecedents h w st
    (default [] (item_list (if bool_decide (a = kActionStart) then Uses else Provides) it)) a = true
  ↔ soft_pending h w st a it.
Proof.
  intros Ha. unfold pendingAntecedents, soft_pending. rewrite existsb_exists.
  setoid_rewrite existsb_exists. split.
  - intros (s & Hs%list_elem_of_In & j & Hj%list_elem_of_In & Hp).
    apply matches_spec in Hj as (jt & Hjw & Hjt & Hsj). exists s, j, jt. split_and!; [done|done| |].
    + destruct Ha as [-> | ->]; cbn in *; done.
    + unfold has_pid in Hp. rewrite Hjt in Hp. apply orb_true_iff in Hp as [Hp|Hp].
      * left. apply negb_true_iff, bool_decide_eq_false in Hp. by apply eq_None_not_Some.
      * right. by apply bool_decide_eq_true in Hp.
  - intros (s & j & jt & Hjw & Hjt & Hk & Hp). exists s.
    assert (∃ k, (if decide (a = kActionStart) then Provides else Uses) = k ∧
                 s ∈ default [] (item_list k jt)) as (k & Hkk & Hsj).
    { destruct Ha as [-> | ->]; cbn in *; eexists; (split; [reflexivity|apply Hk]). }
    rewrite Hkk. split.
    { apply list_elem_of_In. destruct Ha as [-> | ->]; cbn in *; apply Hk. }
    apply (lists_service_default h k s j jt Hjt) in Hsj.
    destruct (copy_matches_complete h w k s [] j Hjw Hsj) as (i & Hi & He). exists i.
    split; [by apply list_elem_of_In|]. unfold has_pid. rewrite He, Hjt. apply orb_true_iff.
    destruct Hp as [Hp|Hp]; [left; by rewrite Hp|right; by apply bool_decide_eq_true].
Qed.

(** The hard dependencies the loop counts. *)
Lemma hard_spec h w st a it :
  a = kActionStart ∨ a = kActionStop →
  match item_list (if bool_decide (a = kActionStart) then Requires else Provides) it with
  | Some ss => if bool_decide (a = kActionStart) then countUnmetRequirements st ss
               else countDependantsPresent h w ss Requires
  | None => 0
  end = 0 ↔
  match a with
  | kActionStart => ∀ s, s ∈ default [] (it_requires it) → status_of st s = Some true
  | _ => ∀ s j jt, s ∈ default [] (it_provides it) → j ∈ w → h !! j = Some jt →
           s ∉ default [] (it_requires jt)
  end.
Proof.
  intros [-> | ->]; cbn [bool_decide item_list].
  - change (bool_decide (kActionStart = kActionStart)) with true. cbn [item_list].
    destruct (it_requires it) as [l|]; cbn [default]; [apply countUnmet_zero|].
    split; [|done]. intros _ s Hs. by apply not_elem_of_nil in Hs.
  - change (bool_decide (kActionStop = kActionStart)) with false. cbn [item_list].
    destruct (it_provides it) as [l|]; cbn [default].
    2: { split; [|done]. intros _ s j jt Hs. by apply not_elem_of_nil in Hs. }
    rewrite countDependants_zero. split.
    + intros H s j jt Hs Hj Hjt Hin. apply (lists_service_default h Requires s j jt Hjt) in Hin.
      by rewrite (H s j Hs Hj) in Hin.
    + intros H s j Hs Hj. apply not_true_iff_false. intros Hl.
      pose proof Hl as (jt & l' & Hjt & _)%lists_service_spec.
      apply (lists_service_default h Requires s j jt Hjt) in Hl. by eapply H.
Qed.

Lemma soft_spec h w st a it :
  a = kActionStart ∨ a = kActionStop →
  match item_list (if bool_decide (a = kActionStart) then Uses else Provides) it with
  | Some ss => if bool_decide (a = kActionStart) then countUnmetRequirements st ss
               else countDependantsPresent h w ss Uses
  | None => 0
  end = Z.of_nat (unmet_soft h w st a it).
Proof.
  intros [-> | ->].
  - change (bool_decide (kActionStart = kActionStart)) with true. cbn [item_list unmet_soft].
    destruct (it_uses it); cbn [default]; [apply countUnmet_filter|done].
  - change (bool_decide (kActionStop = kActionStart)) with false. cbn [item_list unmet_soft].
    destruct (it_provides it); cbn [default]; [apply countDependants_sum|done].
Qed.

Lemma has_pid_false h i it : h !! i = Some it → has_pid h i = false ↔ it_pid it = None.
Proof.
  intros Hi. unfold has_pid. rewrite Hi, bool_decide_eq_false. symmetry. apply eq_None_not_Some.
Qed.

(** The tests of the loop single out the eligible items. *)
Lemma candidate_spec h w st a i z :
  a = kActionStart ∨ a = kActionStop →
  candidate h w st a i = Some z ↔ ∃ c, z = Z.of_nat c ∧ eligible h w st a i c.
Proof.
  intros Ha. unfold candidate, eligible. destruct (h !! i) as [it|] eqn:Hi; cbn [mbind option_bind].
  2: { split; [done|]. by intros (c & _ & it & Hit & _). }
  pose proof (hard_spec h w st a it Ha) as Hhard. rewrite (soft_spec h w st a it Ha).
  pose proof (pendingAntecedents_spec h w st a it Ha) as Hpend.
  assert ((0 <? Z.of_nat (unmet_soft h w st a it)) = true ↔ unmet_soft h w st a it ≠ 0%nat) as Hpos
    by (rewrite Z.ltb_lt; lia).
  rewrite <- Z.eqb_eq in Hhard. unfold ready. destruct (_ || _) eqn:Hb.
  - split; [done|]. intros (c & _ & it' & Hit' & (Hp & Hd & Hh) & Hc & Hn). injection Hit' as <-.
    apply Hhard in Hh. apply (has_pid_false h i it Hi) in Hp. apply checkForDuplicates_spec in Hd.
    rewrite Hp, Hd, Hh in Hb. cbn in Hb. apply andb_true_iff in Hb as [H1 H2].
    destruct Hn. split; [subst c; by apply Hpos|by apply Hpend].
  - apply orb_false_iff in Hb as [Hb Hs]. apply orb_false_iff in Hb as [Hb Hu].
    apply orb_false_iff in Hb as [Hp Hd]. apply negb_false_iff, Hhard in Hu.
    apply (has_pid_false h i it Hi) in Hp. apply checkForDuplicates_spec in Hd. split.
    + intros [= <-]. exists (unmet_soft h w st a it). split; [done|]. exists it. split_and!; try done.
      intros [H1%Hpos H2%Hpend]. by rewrite H1, H2 in Hs.
    + intros (c & -> & it' & Hit' & _ & -> & _). by injection Hit' as <-.
Qed.

Lemma get_next_ready h w st a i :
  a = kActionStart ∨ a = kActionStop → StartupItemListGetNext h w st a = Some i →
  i ∈ w ∧ ∃ it, h !! i = Some it ∧ ready h w st a it.
Proof.
  intros Ha Hn.
  assert (get_next h w st a w INT_MAX None = Some i) as Hg
    by (by destruct Ha as [-> | ->]).
  destruct (get_next_least h w st a w INT_MAX None Ha)
    as [[Hr _]|(pre & j & post & z & Hw & Hr & Hc & _)]; rewrite Hg in Hr; [done|].
  injection Hr as <-. split; [rewrite Hw; apply elem_of_app; right; left|].
  apply candidate_spec in Hc as (c & _ & it & Hit & Hready & _); [|done]. by exists it.
Qed.

(** When restarting, an item counts as ready without regard to its dependencies. *)
Definition restartable (h : items) (w : list iref) (st : statuses) (i : iref) : Prop :=
  ∃ it, h !! i = Some it ∧ it_pid it = None ∧ sole_provider h w st it.

(** The first restartable item of [l], or [next]. *)
Definition first_restartable (h : items) (w : list iref) (st : statuses) (l : list iref)
    (next r : option iref) : Prop :=
  (r = next ∧ ∀ i, i ∈ l → ¬ restartable h w st i) ∨
  ∃ pre i post, l = pre ++ i :: post ∧ r = Some i ∧ restartable h w st i ∧
    ∀ j, j ∈ pre → ¬ restartable h w st j.

Lemma first_restartable_skip h w st i l next r :
  ¬ restartable h w st i → first_restartable h w st l next r →
  first_restartable h w st (i :: l) next r.
Proof.
  intros Hno [[Hr Hall]|(pre & j & post & -> & Hr & Hj & Hpre)].
  - left. split; [exact Hr|]. intros j [->|Hj]%elem_of_cons; [done|by apply Hall].
  - right. exists (i :: pre), j, post. split_and!; [done|exact Hr|done|].
    intros k [->|Hk]%elem_of_cons; [done|by apply Hpre].
Qed.

Lemma get_next_restart h w st l m next :
  first_restartable h w st l next (get_next h w st kActionRestart l m next).
Proof.
  induction l as [|i l IH]; cbn [get_next].
  { left. split; [done|]. intros i Hi. by apply not_elem_of_nil in Hi. }
  destruct (h !! i) as [it|] eqn:Hi.
  2: { apply first_restartable_skip; [|done]. intros (it & Hit & _). by rewrite Hi in Hit. }
  destruct (has_pid h i) eqn:Hp.
  { apply first_restartable_skip; [|done]. intros (it' & Hit & Hno & _).
    apply (has_pid_false h i it' Hit) in Hno. congruence. }
  destruct (checkForDuplicates h w st it) eqn:Hd.
  { apply first_restartable_skip; [|done]. intros (it' & Hit & _ & Hs).
    rewrite Hi in Hit. injection Hit as <-. apply checkForDuplicates_spec in Hs. congruence. }
  rewrite decide_True by done. right. exists [], i, l. split_and!; [done|done| |].
  - exists it. split_and!; [done|by apply (has_pid_false h i it Hi)|by apply checkForDuplicates_spec].
  - intros j Hj. by apply not_elem_of_nil in Hj.
Qed.

Lemma next_item_least h waiting st a :
  a = kActionStart ∨ a = kActionStop →
  (∀ i it, i ∈ waiting → h !! i = Some it → Z.of_nat (unmet_soft h waiting st a it) < INT_MAX) →
  match get_next h waiting st a waiting INT_MAX None with
  | None => ∀ i c, i ∈ waiting → ¬ eligible h waiting st a i c
  | Some i => ∃ pre post c, waiting = pre ++ i :: post ∧ eligible h waiting st a i c ∧
      (∀ j c', j ∈ pre → eligible h waiting st a j c' → (c < c')%nat) ∧
      (∀ j c', j ∈ post → eligible h waiting st a j c' → (c ≤ c')%nat)
  end.
Proof.
  intros Ha Hmax.
  assert (∀ j c, eligible h waiting st a j c → candidate h waiting st a j = Some (Z.of_nat c)) as Hto
    by (intros j c Hc; apply candidate_spec; [done|]; by exists c).
  destruct (get_next_least h waiting st a waiting INT_MAX None Ha)
    as [[-> Hall]|(pre & i & post & z & Hw & -> & Hc & _ & H1 & H2)].
  - intros i c Hi He. specialize (Hall i _ Hi (Hto i c He)). destruct He as (it & Hit & _ & -> & _).
    specialize (Hmax i it Hi Hit). lia.
  - apply candidate_spec in Hc as (c & -> & Hc); [|done]. exists pre, post, c. split_and!; try done.
    + intros j c' Hj He. specialize (H1 j _ Hj (Hto j c' He)). lia.
    + intros j c' Hj He. specialize (H2 j _ Hj (Hto j c' He)). lia.
Qed.

(** An item is chosen only when it is ready.  To start, every service it requires
    has succeeded; to stop, no waiting item requires a service it provides; in both cases
    it is not running, its services have not succeeded yet, and no other waiting item that
    provides one of them is running or comes from an earlier domain. *)
Theorem next_item_ready h w st a i :
  a = kActionStart ∨ a = kActionStop → StartupItemListGetNext h w st a = Some i →
  i ∈ w ∧ ∃ it, h !! i = Some it ∧ ready h w st a it.
Proof. apply get_next_ready. Qed.



(** ** Dependents are the reachable items *)

Section Reach.
Context (h : items) (l : list iref) (a : action).
Context (Hinj : ∀ i j, i ∈ l → j ∈ l → h !! i = h !! j → i = j).

(** [j] must be run with [i]: to start, it provides a service [i] requires; to stop, it
    requires a service [i] provides. *)
Definition depends (i j : iref) : Prop :=
  j ∈ l ∧ ∃ inner outer s, dependency_keys a = Some (inner, outer) ∧
    lists_service h outer s i = true ∧ lists_service h inner s j = true.

(** The list [D] of items found so far grew to [D']: nothing was lost or doubled, the new
    items satisfy [R], and what they depend on was found too. *)
Record grows (D D' : list iref) (R : iref → Prop) : Prop := mkGrows {
  gr_keep : ∀ y, y ∈ D → y ∈ D';
  gr_nodup : NoDup D';
  gr_items : ∀ y, y ∈ D' → y ∈ l;
  gr_new : ∀ y, y ∈ D' → y ∈ D ∨ R y;
  gr_closed : ∀ y z, y ∈ D' → y ∉ D → depends y z → z ∈ D';
}.

Lemma grows_refl D R : NoDup D → (∀ y, y ∈ D → y ∈ l) → grows D D R.
Proof. intros H1 H2. split; auto. intros y z Hy Hn. done. Qed.

Lemma grows_trans D1 D2 D3 (R : iref → Prop) : grows D1 D2 R → grows D2 D3 R → grows D1 D3 R.
Proof.
  intros [A1 A2 A3 A4 A5] [B1 B2 B3 B4 B5]. split; auto.
  - intros y Hy. destruct (B4 y Hy) as [Hy'|]; auto.
  - intros y z Hy Hn Hd. destruct (decide (y ∈ D2)) as [Hy2|Hy2]; [|by eapply B5].
    apply B1. by eapply A5.
Qed.

Lemma grows_weaken D D' (R R' : iref → Prop) :
  (∀ y, R y → R' y) → grows D D' R → grows D D' R'.
Proof. intros HR [A1 A2 A3 A4 A5]. split; auto. intros y Hy. destruct (A4 y Hy); auto. Qed.

Lemma grows_length D D' R : NoDup D → grows D D' R → (length D ≤ length D')%nat.
Proof.
  intros Hnd Hg. apply submseteq_length, NoDup_submseteq; [done|]. apply (gr_keep _ _ _ Hg).
Qed.

Lemma contains_item_spec D i :
  (∀ y, y ∈ D → y ∈ l) → i ∈ l → contains_item h D i = true ↔ i ∈ D.
Proof.
  intros HD Hi. unfold contains_item. rewrite existsb_exists. split.
  - intros (j & Hj%list_elem_of_In & He%bool_decide_eq_true). by rewrite <- (Hinj j i); auto.
  - intros HiD. exists i. split; [by apply list_elem_of_In|]. by apply bool_decide_eq_true.
Qed.

(** What a call on an item that was not found yet does, with [f] steps of fuel. *)
Definition explores (f : nat) (visit : list iref → iref → res Empty_set (list iref)) : Prop :=
  ∀ D x, NoDup D → (∀ y, y ∈ D → y ∈ l) → x ∈ l → x ∉ D → (length l - length D ≤ f)%nat →
  ∃ D', visit D x = Ok D' ∧ grows D D' (rtc depends x) ∧ x ∈ D'.

Lemma visit_items_spec f visit inner s l' :
  explores f visit → (∀ y, y ∈ l' → y ∈ l) →
  ∀ D, NoDup D → (∀ y, y ∈ D → y ∈ l) → (length l - length D ≤ f)%nat →
  ∃ D', visit_items h visit inner s l' D = Ok D' ∧
    grows D D' (fun y => ∃ j, j ∈ l' ∧ lists_service h inner s j = true ∧ rtc depends j y) ∧
    (∀ j, j ∈ l' → lists_service h inner s j = true → j ∈ D').
Proof.
  intros Hv. induction l' as [|i l' IH]; intros Hsub D Hnd HD Hf; cbn [visit_items].
  { exists D. split; [done|]. split; [by apply grows_refl|]. intros j Hj. by apply not_elem_of_nil in Hj. }
  assert (i ∈ l) as Hi by (apply Hsub; left).
  assert (∃ D1, (if lists_service h inner s i && negb (contains_item h D i)
                 then visit D i else Ok D) = Ok D1 ∧
                grows D D1 (fun y => lists_service h inner s i = true ∧ rtc depends i y) ∧
                (lists_service h inner s i = true → i ∈ D1)) as (D1 & -> & Hg1 & Hi1).
  { destruct (lists_service h inner s i) eqn:Hl; cbn [andb].
    2: { exists D. split; [done|]. split; [by apply grows_refl|done]. }
    destruct (contains_item h D i) eqn:Hc; cbn [negb].
    - exists D. split; [done|]. split; [by apply grows_refl|]. intros _. by apply contains_item_spec.
    - destruct (Hv D i) as (D' & HD' & Hg & Hin); try done.
      + intros HiD%contains_item_spec; [congruence|done|done].
      + exists D'. split; [done|]. split; [|done]. eapply grows_weaken, Hg. auto. }
  rewrite bind_Ok.
  destruct (IH (fun y Hy => Hsub y (list_elem_of_further _ _ _ Hy)) D1) as (D2 & -> & Hg2 & Hl2).
  - apply (gr_nodup _ _ _ Hg1).
  - apply (gr_items _ _ _ Hg1).
  - pose proof (grows_length _ _ _ Hnd Hg1). lia.
  - exists D2. split; [done|]. split.
    + eapply grows_trans; [eapply grows_weaken, Hg1|eapply grows_weaken, Hg2].
      * intros y [Hl Hr]. exists i. split; [left|done].
      * intros y (j & Hj & Hl & Hr). exists j. split; [by right|done].
    + intros j [->|Hj]%elem_of_cons Hl; [|by apply Hl2]. by apply (gr_keep _ _ _ Hg2), Hi1.
Qed.

Lemma visit_services_spec f visit inner ss :
  explores f visit →
  ∀ D, NoDup D → (∀ y, y ∈ D → y ∈ l) → (length l - length D ≤ f)%nat →
  ∃ D', visit_services h l visit inner ss D = Ok D' ∧
    grows D D' (fun y => ∃ s j, s ∈ ss ∧ j ∈ l ∧ lists_service h inner s j = true ∧ rtc depends j y) ∧
    (∀ s j, s ∈ ss → j ∈ l → lists_service h inner s j = true → j ∈ D').
Proof.
  intros Hv. induction ss as [|s ss IH]; intros D Hnd HD Hf; cbn [visit_services].
  { exists D. split; [done|]. split; [by apply grows_refl|].
    intros s j Hs. by apply not_elem_of_nil in Hs. }
  destruct (visit_items_spec f visit inner s l Hv (fun _ Hy => Hy) D Hnd HD Hf)
    as (D1 & -> & Hg1 & Hl1). rewrite bind_Ok.
  destruct (IH D1) as (D2 & -> & Hg2 & Hl2).
  - apply (gr_nodup _ _ _ Hg1).
  - apply (gr_items _ _ _ Hg1).
  - pose proof (grows_length _ _ _ Hnd Hg1). lia.
  - exists D2. split; [done|]. split.
    + eapply grows_trans; [eapply grows_weaken, Hg1|eapply grows_weaken, Hg2].
      * intros y (j & Hj & Hl & Hr). exists s, j. split; [left|done].
      * intros y (s' & j & Hs & Hj). exists s', j. split; [by right|done].
    + intros s' j [->|Hs]%elem_of_cons Hj Hl; [|by eapply Hl2].
      by apply (gr_keep _ _ _ Hg2), Hl1.
Qed.

(** The parent alone, when it has nothing to depend on. *)
Lemma grows_parent D x :
  NoDup D → (∀ y, y ∈ D → y ∈ l) → x ∈ l → x ∉ D →
  NoDup (D ++ [x]) ∧ (∀ y, y ∈ D ++ [x] → y ∈ l).
Proof.
  intros Hnd HD Hx Hn. split.
  - apply NoDup_app. split_and!; [done| |apply NoDup_singleton].
    intros y Hy ->%list_elem_of_singleton. done.
  - intros y [Hy| ->%list_elem_of_singleton]%elem_of_app; auto.
Qed.

(** Growth of the list with the parent, seen from the list without it. *)
Lemma grows_from_parent D x D' :
  x ∉ D → grows (D ++ [x]) D' (rtc depends x) → (∀ z, depends x z → z ∈ D') →
  grows D D' (rtc depends x) ∧ x ∈ D'.
Proof.
  intros Hn [A1 A2 A3 A4 A5] Hx. split; [|apply A1, elem_of_app; right; left]. split.
  - intros y Hy. apply A1, elem_of_app. by left.
  - done.
  - done.
  - intros y Hy. destruct (A4 y Hy) as [[?| ->%list_elem_of_singleton]%elem_of_app|]; auto.
    right. apply rtc_refl.
  - intros y z Hy HnD Hd. destruct (decide (y = x)) as [->|Hne]; [by apply Hx|].
    eapply A5; [done| |done]. intros [?|?%list_elem_of_singleton]%elem_of_app; done.
Qed.

Lemma appendDependents_explores f : explores f (appendDependents h l f a).
Proof.
  induction f as [|f IH]; intros D x Hnd HD Hx Hn Hf.
  { assert (length D < length l)%nat; [|lia].
    destruct (grows_parent D x Hnd HD Hx Hn) as [H1 H2].
    apply NoDup_submseteq, submseteq_length in H2; [|done]. rewrite length_app in H2.
    cbn [length] in H2. lia. }
  cbn [appendDependents]. destruct (contains_item h D x) eqn:Hc.
  { apply contains_item_spec in Hc; done. }
  destruct (grows_parent D x Hnd HD Hx Hn) as [H1 H2].
  assert (∀ D', grows (D ++ [x]) D' (rtc depends x) → (∀ z, depends x z → z ∈ D') →
            ∃ D'', Ok (E := Empty_set) D' = Ok D'' ∧ grows D D'' (rtc depends x) ∧ x ∈ D'') as Hend.
  { intros D' Hg Hz. exists D'. split; [done|]. by apply grows_from_parent. }
  destruct (dependency_keys a) as [[inner outer]|] eqn:Hk.
  2: { apply Hend; [by apply grows_refl|]. intros z (_ & i & o & s & Hk' & _). congruence. }
  destruct (h !! x ≫= item_list outer) as [ss|] eqn:Hss.
  2: { apply Hend; [by apply grows_refl|]. intros z (_ & i & o & s & Hk' & Hl & _).
       rewrite Hk in Hk'. injection Hk' as <- <-. unfold lists_service in Hl. by rewrite Hss in Hl. }
  destruct (visit_services_spec f _ inner ss IH (D ++ [x])) as (D' & -> & Hg & Hall); try done.
  { rewrite length_app. cbn [length]. lia. }
  assert (∀ s, lists_service h outer s x = true ↔ s ∈ ss) as Hin
    by (intros s; unfold lists_service; rewrite Hss; apply contains_spec).
  apply Hend.
  - eapply grows_weaken, Hg. intros y (s & j & Hs & Hj & Hl & Hr). eapply rtc_l; [|done].
    split; [done|]. exists inner, outer, s. split; [done|]. by rewrite Hin.
  - intros z (Hz & i & o & s & Hk' & Ho & Hi). rewrite Hk in Hk'. injection Hk' as <- <-.
    apply (Hall s z); [by apply Hin|done|done].
Qed.

Lemma appendDependents_reach x :
  x ∈ l → ∃ D, appendDependents h l (S (length l)) a [] x = Ok D ∧ NoDup D ∧
               (∀ y, y ∈ D → y ∈ l) ∧ ∀ y, y ∈ D ↔ rtc depends x y.
Proof.
  intros Hx. destruct (appendDependents_explores (S (length l)) [] x) as (D & HD & Hg & Hin);
    try done.
  - apply NoDup_nil_2.
  - intros y Hy. by apply not_elem_of_nil in Hy.
  - apply not_elem_of_nil.
  - cbn. lia.
  - exists D. split; [done|]. split; [apply (gr_nodup _ _ _ Hg)|].
    split; [apply (gr_items _ _ _ Hg)|]. intros y. split.
    + intros Hy. destruct (gr_new _ _ _ Hg y Hy) as [Hy'|]; [by apply not_elem_of_nil in Hy'|done].
    + assert (∀ u v, u ∈ D → depends u v → v ∈ D) as Hcl.
      { intros u v Hu. apply (gr_closed _ _ _ Hg u v Hu), not_elem_of_nil. }
      clear HD Hg Hx. intros Hr. revert Hin. induction Hr as [|u v w Huv _ IH]; eauto.
Qed.
End Reach.

Lemma dependents_list h l s a i :
  (∀ i j, i ∈ l → j ∈ l → h !! i = h !! j → i = j) → a ≠ kActionNone →
  StartupItemListGetProvider h l s = Some i →
  ∃ D, StartupItemListCreateDependentsList h l s a = Ok (Some D) ∧ NoDup D ∧
       (∀ y, y ∈ D → y ∈ l) ∧ ∀ y, y ∈ D ↔ rtc (depends h l a) i y.
Proof.
  intros Hinj Ha Hp. unfold StartupItemListCreateDependentsList. rewrite Hp.
  assert (i ∈ l) as Hi.
  { unfold StartupItemListGetProvider in Hp.
    destruct (startupItemListCopyMatches h l Provides s) as [|j m] eqn:Hm; [done|].
    injection Hp as ->.
    destruct (copy_matches_sound h l Provides s [] i) as [Hn|[? _]]; [|by apply not_elem_of_nil in Hn|done].
    unfold startupItemListCopyMatches in Hm. rewrite Hm. left. }
  destruct (appendDependents_reach h l a Hinj i Hi) as (D & HD & Hr).
  exists D. destruct a; [done|..]; rewrite HD; done.
Qed.

(** The items run for a service.  The list made for a service that some item
    provides is computed within the fuel, has no item twice, and holds exactly the items
    reachable from the provider: to start, through required services to their providers;
    to stop, through provided services to the items that require them; to restart, the
    provider alone. *)
Theorem dependents_reachable h l s a i :
  (∀ i j, i ∈ l → j ∈ l → h !! i = h !! j → i = j) → a ≠ kActionNone →
  StartupItemListGetProvider h l s = Some i →
  ∃ D, StartupItemListCreateDependentsList h l s a = Ok (Some D) ∧ NoDup D ∧
       ∀ y, y ∈ D ↔ rtc (depends h l a) i y.
Proof.
  intros Hinj Ha Hp. destruct (dependents_list h l s a i Hinj Ha Hp) as (D & ? & ? & _ & ?).
  by exists D.
Qed.
