(* ===== verification/SystemStarter.v ===== *)
(** * The SystemStarter run loop ([src/src/launchd/SystemStarter/SystemStarter.c],
    [src/src/launchd/SystemStarter/IPC.c])

    [system_starter] as a machine: in each turn it either runs the next ready item or,
    when there is none, waits for a running item to end.  The items under watch are the
    termination handlers [MonitorStartupItem] has installed. *)

From S2P Require Import Prelude StartupItems.

(** ** The termination of an item ([IPC.c]) *)

Definition WIFEXITED (st : Z) : bool := Z.land st 0x7f =? 0.
Definition WEXITSTATUS (st : Z) : Z := Z.land (Z.shiftr st 8) 0xff.
Definition WTERMSIG (st : Z) : Z := Z.land st 0x7f.
Definition WCOREDUMP (st : Z) : bool := negb (Z.land st 0x80 =? 0).

(** The [aStatus] of a process; [None] when [waitpid] is not called or fails, which
    leaves it zero. *)
Definition exit_status (pid : Z) (waited : option Z) : Z :=
  if 0 <? pid then default 0 waited else 0.

Definition with_items (c : context) (h : items) (st : statuses) (running : Z) : context :=
  mkContext h (aWaitingList c) (aFailedList c) st (aServicesCount c) running.

(** [startupItemTerminated] *)
Definition startupItemTerminated (c : context) (i : iref) (waited : option Z) : context :=
  match cx_items c !! i with
  | None => c
  | Some it =>
      let aStatus := exit_status (StartupItemGetPID (cx_items c) i) waited in
      let ok := WIFEXITED aStatus && (WEXITSTATUS aStatus =? 0) in
      let failed := negb (WEXITSTATUS aStatus =? 0) || negb (WTERMSIG aStatus =? 0) ||
                    WCOREDUMP aStatus in
      let st := StartupItemExit (aStatusDict c) it ok in
      let it := if failed then with_error it "execution of Startup script failed" else it in
      let c := with_items c (<[i := it]> (cx_items c)) st (aRunningCount c - 1) in
      let c := if failed then AddItemToFailedList c i else c in
      RemoveItemFromWaitingList c i
  end.

(** The program: its context, the items under watch, and the items run so far. *)
Record starter := mkStarter {
  s_ctx : context;
  s_watched : list iref;
  s_ran : list iref;
}.

(** [MonitorStartupItem]; [port] tells whether the task of the process was found. *)
Definition MonitorStartupItem (s : starter) (i : iref) (port : bool) (waited : option Z) : starter :=
  if 0 <? StartupItemGetPID (cx_items (s_ctx s)) i then
    if port then mkStarter (s_ctx s) (s_watched s ++ [i]) (s_ran s)
    else mkStarter (startupItemTerminated (s_ctx s) i waited) (s_watched s) (s_ran s)
  else s.

(** ** [system_starter] *)

(** Before the loop: [Err] is the return of 1 for an unknown service.  A null item list
    is dereferenced by the loop when no service is given. *)
Definition starter_init (loaded : option items) (a : action) (name : option service) :
    res unit starter :=
  let start h l := mkStarter (mkContext h l None [] (StartupItemListCountServices h l) 0) [] [] in
  match loaded, name with
  | None, None => UB
  | None, Some _ => Err tt
  | Some h, None => Ok (start h (seq 0 (length h)))
  | Some h, Some s =>
      deps ← lift_ub (StartupItemListCreateDependentsList h (seq 0 (length h)) s a);
      match deps with Some l => Ok (start h l) | None => Err tt end
  end.

(** The watched items when one of them has ended. *)
Definition without (i : iref) (l : list iref) : list iref := filter (fun j => j ≠ i) l.

(** What happens in one turn: the system's answers to a run, the end of a watched item,
    or a timeout of the run loop. *)
Inductive event :=
  | EvRun (e : run_env) (port : bool) (waited : option Z)
  | EvExit (i : iref) (waited : option Z)
  | EvTimeout.

#[export] Instance run_env_eq_dec : EqDecision run_env.
Proof. solve_decision. Defined.
#[export] Instance event_eq_dec : EqDecision event.
Proof. solve_decision. Defined.

(** Running item [i]: its status, then the watch or the removal. *)
Definition run_item (a : action) (s : starter) (i : iref) (it : item) (e : run_env) (port : bool)
    (waited : option Z) : starter :=
  let c := s_ctx s in
  let '(st, it, err) := StartupItemRun e (aStatusDict c) it a in
  let h := <[i := it]> (cx_items c) in
  let ran := s_ran s ++ [i] in
  if err =? 0 then
    MonitorStartupItem (mkStarter (with_items c h st (aRunningCount c + 1)) (s_watched s) ran)
                       i port waited
  else
    let c := with_items c h st (aRunningCount c) in
    mkStarter (RemoveItemFromWaitingList (AddItemToFailedList c i) i) (s_watched s) ran.

Definition next_item (a : action) (s : starter) : option iref :=
  StartupItemListGetNext (cx_items (s_ctx s)) (aWaitingList (s_ctx s)) (aStatusDict (s_ctx s)) a.

(** One turn of the loop; [None] when the event cannot happen or the loop has ended. *)
Definition loop_step (a : action) (s : starter) (ev : event) : option starter :=
  match next_item a s with
  | Some i =>
      match ev, cx_items (s_ctx s) !! i with
      | EvRun e port waited, Some it => Some (run_item a s i it e port waited)
      | _, _ => None
      end
  | None =>
      if aRunningCount (s_ctx s) =? 0 then None else
      match ev with
      | EvTimeout => Some s
      | EvExit i waited =>
          if bool_decide (i ∈ s_watched s)
          then Some (mkStarter (startupItemTerminated (s_ctx s) i waited)
                       (without i (s_watched s)) (s_ran s))
          else None
      | EvRun _ _ _ => None
      end
  end.

(** The loop has ended. *)
Definition finished (a : action) (s : starter) : Prop :=
  next_item a s = None ∧ aRunningCount (s_ctx s) = 0.

Fixpoint run_events (a : action) (s : starter) (evs : list event) : option starter :=
  match evs with
  | [] => Some s
  | ev :: evs => s ← loop_step a s ev; run_events a s evs
  end.

(** [displayErrorMessages]: the paths of the failed items with their errors, and those of
    the items that were not attempted. *)
Definition displayErrorMessages (c : context) : list (string * cfvalue) * list string :=
  (omap (fun i => it ← cx_items c !! i;
                  Some (it_path it, default (CFString "SystemStarter internal error") (it_error it)))
        (default [] (aFailedList c)),
   omap (fun i => it_path <$> cx_items c !! i) (aWaitingList c)).

(** ** The invariant of the loop *)

Lemma elem_of_without i l j : j ∈ without i l ↔ j ≠ i ∧ j ∈ l.
Proof. unfold without. by rewrite list_elem_of_filter. Qed.

Lemma NoDup_without i l : NoDup l → NoDup (without i l).
Proof. apply NoDup_filter. Qed.

Lemma without_absent i l : i ∉ l → without i l = l.
Proof.
  unfold without. induction l as [|j l IH]; intros Hi; [done|].
  apply not_elem_of_cons in Hi as [Hj Hi]. rewrite filter_cons_True by done. by rewrite IH.
Qed.

Lemma length_without i l : NoDup l → i ∈ l → length l = S (length (without i l)).
Proof.
  unfold without. induction l as [|j l IH]; intros Hnd Hi; [by apply not_elem_of_nil in Hi|].
  apply NoDup_cons in Hnd as [Hj Hnd]. destruct (decide (j = i)) as [->|Hne].
  - rewrite filter_cons_False by (intros Hn; by apply Hn). cbn [length]. f_equal.
    symmetry. f_equal. by apply without_absent.
  - rewrite filter_cons_True by done. cbn [length]. f_equal. apply IH; [done|].
    by apply elem_of_cons in Hi as [->|].
Qed.

(** The keys of an item that running it does not change. *)
Definition same_static (it it' : item) : Prop :=
  it_path it = it_path it' ∧ it_provides it = it_provides it' ∧ it_requires it = it_requires it'.

(** Statuses are only added. *)
Definition extends (st st' : statuses) : Prop :=
  ∀ s b, status_of st s = Some b → status_of st' s = Some b.

Lemma extends_refl st : extends st st.
Proof. by intros s b. Qed.

Lemma status_add_extends st s b : extends st (status_add st s b).
Proof.
  intros x v Hx. unfold status_add. destruct (status_of st s); [done|].
  unfold status_of in *. destruct (list_find (fun kv => kv.1 = x) st) as [[k kv]|] eqn:Hf; [|done].
  by erewrite list_find_app_l.
Qed.

Lemma StartupItemExit_extends st it b : extends st (StartupItemExit st it b).
Proof.
  unfold StartupItemExit, StartupItemSetStatus. destruct (it_provides it) as [l|]; [|apply extends_refl].
  revert st. induction l as [|s l IH]; intros st; cbn [fold_left]; [apply extends_refl|].
  intros x v Hx. by apply IH, status_add_extends.
Qed.

(** What [StartupItemRun] does to the statuses and the item. *)
Lemma StartupItemRun_spec e st it a st' it' err :
  a ≠ kActionNone → StartupItemRun e st it a = (st', it', err) →
  extends st st' ∧ same_static it' it ∧
  ((err = 0 ∧ it_pid it' = Some (CFNumber (re_fork e)) ∧ re_fork e ≠ -1) ∨ err ≠ 0).
Proof.
  intros Ha. unfold StartupItemRun. destruct (_ && _).
  { intros [= <- <- <-]. split; [apply StartupItemExit_extends|]. split; [done|by right]. }
  destruct (decide (a = kActionNone)); [done|]. destruct (negb (re_path_fits e)).
  { intros [= <- <- <-]. split; [apply extends_refl|]. split; [done|by right]. }
  destruct (negb (re_executable e)).
  { intros [= <- <- <-]. split; [apply StartupItemExit_extends|]. split; [done|by right]. }
  destruct (Z.eqb_spec (re_fork e) (-1)); intros [= <- <- <-].
  - split; [apply StartupItemExit_extends|]. split; [done|by right].
  - split; [apply extends_refl|]. split; [done|by left].
Qed.

(** What [startupItemTerminated] does to the context. *)
Lemma startupItemTerminated_spec c i it waited :
  cx_items c !! i = Some it →
  ∃ it' fl st', same_static it' it ∧ it_pid it' = it_pid it ∧ extends (aStatusDict c) st' ∧
    startupItemTerminated c i waited =
      mkContext (<[i := it']> (cx_items c))
        (remove_first (<[i := it']> (cx_items c)) (aWaitingList c) i) fl st'
        (aServicesCount c) (aRunningCount c - 1).
Proof.
  intros Hi. unfold startupItemTerminated. rewrite Hi. destruct (_ || _).
  - eexists _, _, _. split; [|split; [|split; [|reflexivity]]]; [done|done|apply StartupItemExit_extends].
  - eexists _, _, _. split; [|split; [|split; [|reflexivity]]]; [done|done|apply StartupItemExit_extends].
Qed.

(** An item chosen by any action is waiting and was not run. *)
Lemma get_next_idle h w st a l m next i :
  get_next h w st a l m next = Some i → next = Some i ∨
  (i ∈ l ∧ ∃ it, h !! i = Some it ∧ has_pid h i = false).
Proof.
  revert m next. induction l as [|j l IH]; intros m next; cbn [get_next]; [by left|].
  assert (∀ m next, get_next h w st a l m next = Some i → next = Some i ∨
            (i ∈ j :: l ∧ ∃ it, h !! i = Some it ∧ has_pid h i = false)) as IH'.
  { intros m' next' H. destruct (IH m' next' H) as [?|[? ?]]; [by left|right; split; [by right|done]]. }
  destruct (h !! j) as [jt|] eqn:Hj; [|apply IH']. destruct (has_pid h j) eqn:Hp; [apply IH'|].
  assert (i = j → i ∈ j :: l ∧ ∃ it, h !! i = Some it ∧ has_pid h i = false) as Hme.
  { intros ->. split; [left|]. by exists jt. }
  destruct (checkForDuplicates h w st jt); [apply IH'|].
  destruct (decide (a = kActionRestart)); [intros [= <-]; auto|].
  repeat (destruct (negb _); [apply IH'|]). destruct (_ && _); [apply IH'|].
  destruct (_ <? _); [apply IH'|]. destruct (negb _); [apply IH'|].
  intros H. apply IH' in H as [[= ->]|H]; [|by right]. right. by apply Hme.
Qed.

Section Invariant.
Context (a : action) (h0 : items).

Record loop_inv (h : items) (w watched : list iref) (n : Z) (st : statuses) (ran : list iref) :
    Prop := mkLoopInv {
  li_length : length h = length h0;
  li_static : ∀ i it it0, h !! i = Some it → h0 !! i = Some it0 → same_static it it0;
  li_waiting : NoDup w ∧ ∀ i, i ∈ w → (i < length h)%nat;
  li_watched : NoDup watched ∧ ∀ i, i ∈ watched → i ∈ w ∧ 0 < StartupItemGetPID h i;
  li_pid : ∀ i, i ∈ w → has_pid h i = true → i ∈ watched;
  li_count : n = Z.of_nat (length watched);
  li_ran : NoDup ran ∧ ∀ i, i ∈ ran → i ∈ w → has_pid h i = true;
  li_order : a = kActionStart → ∀ i it s, i ∈ ran → h !! i = Some it →
    s ∈ default [] (it_requires it) → status_of st s = Some true;
}.

(** Loaded items come from different bundles. *)
Context (Hpaths : ∀ i j it jt, h0 !! i = Some it → h0 !! j = Some jt → it_path it = it_path jt → i = j).

Lemma loaded_item h w wt n st ran i it :
  loop_inv h w wt n st ran → h !! i = Some it → ∃ it0, h0 !! i = Some it0 ∧ same_static it it0.
Proof.
  intros Hi H. pose proof (lookup_lt_Some _ _ _ H) as Hlt. rewrite (li_length _ _ _ _ _ _ Hi) in Hlt.
  apply lookup_lt_is_Some_2 in Hlt as [it0 H0]. exists it0. split; [done|].
  by eapply (li_static _ _ _ _ _ _ Hi).
Qed.

Definition path_unique (h : items) : Prop :=
  ∀ i j it jt, h !! i = Some it → h !! j = Some jt → it_path it = it_path jt → i = j.

Lemma inv_unique h w wt n st ran : loop_inv h w wt n st ran → path_unique h.
Proof.
  intros Hi i j it jt H1 H2 Hp.
  destruct (loaded_item _ _ _ _ _ _ _ _ Hi H1) as (it0 & H10 & E1 & _).
  destruct (loaded_item _ _ _ _ _ _ _ _ Hi H2) as (jt0 & H20 & E2 & _).
  eapply Hpaths; [done|done|]. congruence.
Qed.

Lemma same_item_unique h i j :
  path_unique h → (i < length h)%nat → same_item h j i = bool_decide (j = i).
Proof.
  intros Hu Hlt. unfold same_item. apply lookup_lt_is_Some_2 in Hlt as [it Hit].
  case_bool_decide as He; case_bool_decide as Hj; try done; subst; [|done].
  exfalso. apply Hj. rewrite Hit in He. by eapply Hu.
Qed.

Lemma remove_first_unique h l i :
  path_unique h → (i < length h)%nat → NoDup l →
  remove_first h l i = without i l.
Proof.
  intros Hu Hlt. induction l as [|j l IH]; intros Hnd; cbn [remove_first]; [done|].
  apply NoDup_cons in Hnd as [Hj Hnd]. rewrite same_item_unique by done.
  case_bool_decide as He.
  - subst j. unfold without. rewrite filter_cons_False by (intros Hn; by apply Hn).
    symmetry. by apply without_absent.
  - unfold without. rewrite filter_cons_True by done. by rewrite IH.
Qed.

(** *** The three kinds of turns *)

Section Turn.
Context (h : items) (w wt : list iref) (n : Z) (st st' : statuses) (ran : list iref).
Context (i : iref) (it it' : item).
Context (Hinv : loop_inv h w wt n st ran) (Hit : h !! i = Some it).
Context (Hst : same_static it' it) (Hext : extends st st').

Lemma turn_static j jt jt0 : <[i := it']> h !! j = Some jt → h0 !! j = Some jt0 → same_static jt jt0.
Proof.
  intros Hj H0. destruct (decide (i = j)) as [<-|Hne].
  - rewrite list_lookup_insert_eq in Hj by (by eapply lookup_lt_Some). injection Hj as <-.
    pose proof (li_static _ _ _ _ _ _ Hinv _ _ _ Hit H0) as (E1 & E2 & E3).
    destruct Hst as (F1 & F2 & F3). repeat split; congruence.
  - rewrite list_lookup_insert_ne in Hj by done. by eapply (li_static _ _ _ _ _ _ Hinv).
Qed.

Lemma turn_pid j : j ≠ i → has_pid (<[i := it']> h) j = has_pid h j ∧
  StartupItemGetPID (<[i := it']> h) j = StartupItemGetPID h j.
Proof. intros Hne. unfold has_pid, StartupItemGetPID. by rewrite list_lookup_insert_ne. Qed.

Lemma turn_order : a = kActionStart → ∀ j jt s, j ∈ ran → <[i := it']> h !! j = Some jt →
  s ∈ default [] (it_requires jt) → status_of st' s = Some true.
Proof.
  intros Ha j jt s Hj Hjt Hs. apply Hext. destruct (decide (i = j)) as [<-|Hne].
  - rewrite list_lookup_insert_eq in Hjt by (by eapply lookup_lt_Some). injection Hjt as <-.
    destruct Hst as (_ & _ & E). rewrite E in Hs. by eapply (li_order _ _ _ _ _ _ Hinv Ha).
  - rewrite list_lookup_insert_ne in Hjt by done. by eapply (li_order _ _ _ _ _ _ Hinv Ha).
Qed.

Lemma turn_ran_order :
  (a = kActionStart → ∀ s, s ∈ default [] (it_requires it) → status_of st s = Some true) →
  a = kActionStart → ∀ j jt s, j ∈ ran ++ [i] → <[i := it']> h !! j = Some jt →
  s ∈ default [] (it_requires jt) → status_of st' s = Some true.
Proof.
  intros Hreq Ha j jt s [Hj| ->%list_elem_of_singleton]%elem_of_app Hjt Hs; [by eapply turn_order|].
  rewrite list_lookup_insert_eq in Hjt by (by eapply lookup_lt_Some). injection Hjt as <-.
  destruct Hst as (_ & _ & E). rewrite E in Hs. by apply Hext, Hreq.
Qed.

Lemma fresh_run : i ∈ w → has_pid h i = false → i ∉ ran ∧ i ∉ wt.
Proof.
  intros Hw Hp. split; intros Hr.
  - destruct (li_ran _ _ _ _ _ _ Hinv) as [_ H]. rewrite (H i Hr Hw) in Hp. done.
  - destruct (li_watched _ _ _ _ _ _ Hinv) as [_ H]. destruct (H i Hr) as [_ Hpos].
    unfold has_pid in Hp. unfold StartupItemGetPID in Hpos. rewrite Hit in *. cbn in Hpos.
    apply bool_decide_eq_false in Hp. destruct (it_pid it) as [v|]; [by destruct Hp|lia].
Qed.

Lemma NoDup_snoc (l : list iref) : NoDup l → i ∉ l → NoDup (l ++ [i]).
Proof.
  intros Hl Hi. apply NoDup_app. split_and!; [done| |apply NoDup_singleton].
  by intros x Hx ->%list_elem_of_singleton.
Qed.

(** The item could not be run. *)
Lemma turn_failed :
  i ∈ w → has_pid h i = false →
  (a = kActionStart → ∀ s, s ∈ default [] (it_requires it) → status_of st s = Some true) →
  loop_inv (<[i := it']> h) (without i w) wt n st' (ran ++ [i]).
Proof.
  intros Hw Hp Hreq. destruct (fresh_run Hw Hp) as [Hran Hwt].
  pose proof Hinv as [H1 H2 [H3 H3'] [H4 H4'] H5 H6 [H7 H7'] H8].
  split; rewrite ?length_insert; try done.
  - apply turn_static.
  - split; [by apply NoDup_without|]. intros j [_ Hj]%elem_of_without. auto.
  - split; [done|]. intros j Hj. assert (j ≠ i) by congruence.
    rewrite elem_of_without. destruct (turn_pid j) as [_ ->]; [done|]. naive_solver.
  - intros j [Hne Hj]%elem_of_without. destruct (turn_pid j) as [-> _]; [done|]. auto.
  - split; [by apply NoDup_snoc|]. intros j Hj [Hne Hjw]%elem_of_without.
    destruct (turn_pid j) as [-> _]; [done|].
    apply elem_of_app in Hj as [Hj|Hj%list_elem_of_singleton]; [auto|done].
  - by apply turn_ran_order.
Qed.

(** The item runs and is watched. *)
Lemma turn_watched pid :
  i ∈ w → has_pid h i = false → it_pid it' = Some (CFNumber pid) → 0 < i32 pid →
  (a = kActionStart → ∀ s, s ∈ default [] (it_requires it) → status_of st s = Some true) →
  loop_inv (<[i := it']> h) w (wt ++ [i]) (n + 1) st' (ran ++ [i]).
Proof.
  intros Hw Hp Hpid Hpos Hreq. destruct (fresh_run Hw Hp) as [Hran Hwt].
  pose proof Hinv as [H1 H2 [H3 H3'] [H4 H4'] H5 H6 [H7 H7'] H8].
  assert (<[i := it']> h !! i = Some it') as Hi
    by (rewrite list_lookup_insert_eq by (by eapply lookup_lt_Some); done).
  assert (has_pid (<[i := it']> h) i = true) as Hhas
    by (unfold has_pid; rewrite Hi; apply bool_decide_eq_true; rewrite Hpid; eauto).
  split; rewrite ?length_insert; try done.
  - apply turn_static.
  - split; [by apply NoDup_snoc|].
    intros j [Hj| ->%list_elem_of_singleton]%elem_of_app.
    + assert (j ≠ i) by congruence. destruct (turn_pid j) as [_ ->]; [done|]. auto.
    + split; [done|]. unfold StartupItemGetPID. rewrite Hi. cbn. by rewrite Hpid.
  - intros j Hj Hjp. apply elem_of_app. destruct (decide (j = i)) as [->|Hne]; [right; left|].
    destruct (turn_pid j) as [E _]; [done|]. rewrite E in Hjp. left. auto.
  - rewrite length_app. cbn [length]. lia.
  - split; [by apply NoDup_snoc|]. intros j Hj Hjw.
    destruct (decide (j = i)) as [->|Hne]; [done|]. destruct (turn_pid j) as [-> _]; [done|].
    apply elem_of_app in Hj as [Hj|Hj%list_elem_of_singleton]; [auto|done].
  - by apply turn_ran_order.
Qed.

(** A watched item has ended. *)
Lemma turn_exited :
  i ∈ wt → loop_inv (<[i := it']> h) (without i w) (without i wt) (n - 1) st' ran.
Proof.
  intros Hwt. pose proof Hinv as [H1 H2 [H3 H3'] [H4 H4'] H5 H6 [H7 H7'] H8].
  split; rewrite ?length_insert; try done.
  - apply turn_static.
  - split; [by apply NoDup_without|]. intros j [_ Hj]%elem_of_without. auto.
  - split; [by apply NoDup_without|]. intros j [Hne Hj]%elem_of_without.
    rewrite elem_of_without. destruct (turn_pid j) as [_ ->]; [done|]. naive_solver.
  - intros j [Hne Hj]%elem_of_without. destruct (turn_pid j) as [-> _]; [done|].
    intros Hjp. apply elem_of_without. auto.
  - rewrite (length_without i wt) in H6 by done. lia.
  - split; [done|]. intros j Hj [Hne Hjw]%elem_of_without.
    destruct (turn_pid j) as [-> _]; [done|]. auto.
  - apply turn_order.
Qed.
End Turn.

Definition starter_inv (s : starter) : Prop :=
  loop_inv (cx_items (s_ctx s)) (aWaitingList (s_ctx s)) (s_watched s)
           (aRunningCount (s_ctx s)) (aStatusDict (s_ctx s)) (s_ran s).

Context (Ha : a ≠ kActionNone).

(** [fork] returns -1 or a process identifier. *)
Definition possible (ev : event) : Prop :=
  match ev with EvRun e _ _ => re_fork e = -1 ∨ 0 < re_fork e < 2 ^ 31 | _ => True end.

Lemma inv_remove h w wt n st ran i it' :
  loop_inv h w wt n st ran → i ∈ w → (∀ it, h !! i = Some it → it_path it' = it_path it) →
  remove_first (<[i := it']> h) w i = without i w.
Proof.
  intros Hi Hw Hp. destruct (li_waiting _ _ _ _ _ _ Hi) as [Hnd Hlt].
  apply remove_first_unique; [|rewrite length_insert; auto|done].
  pose proof (inv_unique _ _ _ _ _ _ Hi) as Hu. intros j k jt kt Hj Hk He.
  assert (∀ x xt, <[i := it']> h !! x = Some xt → ∃ yt, h !! x = Some yt ∧ it_path xt = it_path yt) as Hold.
  { intros x xt Hx. destruct (decide (i = x)) as [<-|Hne].
    - destruct (lookup_lt_is_Some_2 h i) as [yt Hy]; [auto|]. exists yt. split; [done|].
      rewrite list_lookup_insert_eq in Hx by auto. injection Hx as <-. auto.
    - rewrite list_lookup_insert_ne in Hx by done. eauto. }
  destruct (Hold _ _ Hj) as (jt' & Hj' & Ej). destruct (Hold _ _ Hk) as (kt' & Hk' & Ek).
  eapply Hu; [done|done|congruence].
Qed.

(** The end of an item that is in the waiting list. *)
Lemma terminated_inv h w wt n fl st cnt ran i waited :
  loop_inv h w wt n st ran → i ∈ wt →
  ∃ h' fl' st', startupItemTerminated (mkContext h w fl st cnt n) i waited =
      mkContext h' (without i w) fl' st' cnt (n - 1) ∧
    loop_inv h' (without i w) (without i wt) (n - 1) st' ran.
Proof.
  intros Hi Hwt. destruct (li_watched _ _ _ _ _ _ Hi) as [_ Hw]. destruct (Hw i Hwt) as [Hiw _].
  destruct (li_waiting _ _ _ _ _ _ Hi) as [_ Hlt].
  destruct (lookup_lt_is_Some_2 h i (Hlt i Hiw)) as [it Hit].
  destruct (startupItemTerminated_spec (mkContext h w fl st cnt n) i it waited Hit)
    as (it' & fl' & st' & Hs & _ & He & ->). cbn [cx_items aWaitingList aServicesCount aRunningCount].
  rewrite (inv_remove h w wt n st ran i it' Hi Hiw).
  - eexists _, _, _. split; [done|]. by eapply turn_exited.
  - intros jt Hjt. rewrite Hit in Hjt. injection Hjt as <-. apply Hs.
Qed.

Lemma next_item_facts s i :
  starter_inv s → next_item a s = Some i →
  ∃ it, cx_items (s_ctx s) !! i = Some it ∧ i ∈ aWaitingList (s_ctx s) ∧
        has_pid (cx_items (s_ctx s)) i = false ∧
        (a = kActionStart → ∀ x, x ∈ default [] (it_requires it) →
           status_of (aStatusDict (s_ctx s)) x = Some true).
Proof.
  intros Hi Hn.
  assert (get_next (cx_items (s_ctx s)) (aWaitingList (s_ctx s)) (aStatusDict (s_ctx s)) a
            (aWaitingList (s_ctx s)) INT_MAX None = Some i) as Hg
    by (unfold next_item, StartupItemListGetNext in Hn; by destruct a).
  apply get_next_idle in Hg as [?|(Hw & it & Hit & Hp)]; [done|]. exists it. split_and!; try done.
  intros Hstart. destruct (get_next_ready _ _ _ a i (or_introl Hstart) Hn) as (_ & it2 & Hit2 & Hr).
  rewrite Hit in Hit2. injection Hit2 as <-. destruct Hr as (_ & _ & Hr). by rewrite Hstart in Hr.
Qed.

(** Twice the waiting items, less the watched ones: what the loop has still to do. *)
Definition remaining (s : starter) : Z :=
  2 * Z.of_nat (length (aWaitingList (s_ctx s))) - Z.of_nat (length (s_watched s)).

Lemma remaining_nonneg s : starter_inv s → 0 ≤ remaining s.
Proof.
  intros Hi. destruct (li_watched _ _ _ _ _ _ Hi) as [Hnd Hw].
  assert (length (s_watched s) ≤ length (aWaitingList (s_ctx s)))%nat; [|unfold remaining; lia].
  apply submseteq_length, NoDup_submseteq; [done|]. intros j Hj. by apply Hw.
Qed.

Lemma waiting_less s i :
  starter_inv s → i ∈ aWaitingList (s_ctx s) →
  length (aWaitingList (s_ctx s)) = S (length (without i (aWaitingList (s_ctx s)))).
Proof. intros Hi Hw. apply length_without; [apply (li_waiting _ _ _ _ _ _ Hi)|done]. Qed.

Lemma run_item_inv s i it e port waited :
  starter_inv s → next_item a s = Some i → cx_items (s_ctx s) !! i = Some it →
  possible (EvRun e port waited) →
  starter_inv (run_item a s i it e port waited) ∧
  remaining (run_item a s i it e port waited) < remaining s.
Proof.
  intros Hi Hn Hit Hev. destruct (next_item_facts s i Hi Hn) as (it2 & Hit2 & Hw & Hp & Hreq).
  rewrite Hit in Hit2. injection Hit2 as <-. pose proof (waiting_less s i Hi Hw) as Hlen.
  unfold run_item. destruct (StartupItemRun e _ it a) as [[st' it'] err] eqn:Hrun.
  apply StartupItemRun_spec in Hrun as (He & Hs & Herr); [|done].
  destruct Herr as [(-> & Hpid & Hf)|Hne].
  - rewrite Z.eqb_refl. destruct Hev as [Hev|Hev]; [done|].
    assert (i32 (re_fork e) = re_fork e) as Hi32 by (apply i32_small; lia).
    assert (loop_inv (<[i := it']> (cx_items (s_ctx s))) (aWaitingList (s_ctx s))
              (s_watched s ++ [i]) (aRunningCount (s_ctx s) + 1) st' (s_ran s ++ [i])) as Hi'
      by (eapply turn_watched; try done; lia).
    unfold MonitorStartupItem. cbn [s_ctx with_items cx_items].
    destruct (li_watched _ _ _ _ _ _ Hi') as [Hnd Hpos].
    destruct (Hpos i) as [_ Hpi]; [apply elem_of_app; right; left|].
    rewrite (proj2 (Z.ltb_lt _ _) Hpi). destruct port.
    + split; [done|]. unfold remaining. cbn [s_ctx s_watched with_items aWaitingList].
      rewrite length_app. cbn [length]. lia.
    + cbn [s_ran s_watched]. unfold with_items.
      destruct (terminated_inv _ _ _ _ (aFailedList (s_ctx s)) _ (aServicesCount (s_ctx s)) _ i
                  waited Hi') as (h' & fl' & st2 & -> & Hi2); [apply elem_of_app; right; left|].
      assert (i ∉ s_watched s) as Hni.
      { apply NoDup_app in Hnd as (_ & Hd & _). intros Hin. apply (Hd i Hin). left. }
      assert (without i (s_watched s ++ [i]) = s_watched s) as Hwo.
      { unfold without. rewrite filter_app. rewrite filter_cons_False by (intros Hn'; by apply Hn').
        cbn [filter list_filter]. rewrite app_nil_r. by apply without_absent. }
      rewrite Hwo in Hi2. split; [done|]. unfold remaining. cbn [s_ctx s_watched aWaitingList]. lia.
  - rewrite (proj2 (Z.eqb_neq _ _) Hne). unfold RemoveItemFromWaitingList, AddItemToFailedList, with_items.
    cbn [cx_items aWaitingList aFailedList aStatusDict aServicesCount aRunningCount].
    rewrite (inv_remove _ _ _ _ _ _ i it' Hi Hw).
    2: { intros jt Hjt. rewrite Hit in Hjt. injection Hjt as <-. apply Hs. }
    split; [by eapply turn_failed|]. unfold remaining. cbn [s_ctx s_watched aWaitingList]. lia.
Qed.

Lemma loop_step_inv s ev s' :
  starter_inv s → possible ev → loop_step a s ev = Some s' →
  starter_inv s' ∧ ((ev = EvTimeout ∧ s' = s) ∨ remaining s' < remaining s).
Proof.
  intros Hi Hev. unfold loop_step. destruct (next_item a s) as [i|] eqn:Hn.
  - destruct ev as [e port waited| |]; try done.
    destruct (cx_items (s_ctx s) !! i) as [it|] eqn:Hit; [|done]. intros [= <-].
    destruct (run_item_inv s i it e port waited) as [H1 H2]; auto.
  - destruct (aRunningCount (s_ctx s) =? 0); [done|].
    destruct ev as [|i waited|]; [done| |intros [= <-]; auto].
    case_bool_decide as Hw; [|done]. intros [= <-].
    destruct (li_watched _ _ _ _ _ _ Hi) as [Hnd Hww]. destruct (Hww i Hw) as [Hiw _].
    destruct (s_ctx s) as [h w fl st cnt n] eqn:Hc. unfold starter_inv in Hi. rewrite Hc in Hi.
    cbn [cx_items aWaitingList aStatusDict aRunningCount] in *.
    destruct (terminated_inv _ _ _ _ fl _ cnt _ i waited Hi Hw) as (h' & fl' & st' & -> & Hi').
    split; [done|]. right. unfold remaining. cbn [s_ctx s_watched aWaitingList].
    rewrite Hc. cbn [aWaitingList] in *. destruct (li_waiting _ _ _ _ _ _ Hi) as [Hndw _].
    rewrite (length_without i w), (length_without i (s_watched s)) by done. lia.
Qed.
End Invariant.

(** ** The theorems *)

(** The items of a run: different bundles, none marked as running by its parameters. *)
Record fresh_items (h : items) : Prop := mkFresh {
  fi_paths : ∀ i j it jt, h !! i = Some it → h !! j = Some jt → it_path it = it_path jt → i = j;
  fi_idle : ∀ i it, h !! i = Some it → it_pid it = None;
}.

Lemma fresh_has_pid h i : fresh_items h → has_pid h i = false.
Proof.
  intros Hf. unfold has_pid. destruct (h !! i) as [it|] eqn:Hi; [|done].
  by rewrite (fi_idle _ Hf i it Hi).
Qed.

Lemma starter_init_inv h a name s :
  fresh_items h → a ≠ kActionNone → starter_init (Some h) a name = Ok s → starter_inv a h s.
Proof.
  intros Hf Ha Hs.
  assert (∀ l, NoDup l → (∀ i, i ∈ l → (i < length h)%nat) → loop_inv a h h l [] 0 [] []) as Hstart.
  { intros l H1 H2. split; try done.
    - intros i it it0 Hi Hi0. rewrite Hi in Hi0. injection Hi0 as <-. done.
    - split; [apply NoDup_nil_2|]. intros i Hi. by apply not_elem_of_nil in Hi.
    - intros i _ Hp. by rewrite fresh_has_pid in Hp.
    - split; [apply NoDup_nil_2|]. intros i Hi. by apply not_elem_of_nil in Hi.
    - intros _ i it x Hi. by apply not_elem_of_nil in Hi. }
  assert (∀ i, i ∈ seq 0 (length h) → (i < length h)%nat) as Hseq
    by (intros i Hi%elem_of_seq; lia).
  unfold starter_init in Hs. destruct name as [x|].
  - apply bind_inv in Hs as (deps & Hd & Hs). destruct deps as [l|]; [|done].
    injection Hs as <-.
    destruct (StartupItemListGetProvider h (seq 0 (length h)) x) as [i|] eqn:Hp.
    2: { unfold StartupItemListCreateDependentsList in Hd. by rewrite Hp in Hd. }
    destruct (dependents_list h (seq 0 (length h)) x a i) as (D & HD & Hnd & Hsub & _); try done.
    + intros j k Hj Hk He. destruct (lookup_lt_is_Some_2 h j (Hseq j Hj)) as [jt Hjt].
      rewrite Hjt in He. by eapply (fi_paths _ Hf).
    + rewrite HD in Hd. injection Hd as <-. apply Hstart; [done|]. auto.
  - injection Hs as <-. apply Hstart; [apply NoDup_seq|done].
Qed.

Lemma run_events_inv a h s evs s' :
  (∀ i j it jt, h !! i = Some it → h !! j = Some jt → it_path it = it_path jt → i = j) →
  a ≠ kActionNone → starter_inv a h s → Forall possible evs → run_events a s evs = Some s' →
  starter_inv a h s' ∧
  Z.of_nat (length (filter (fun ev => ev ≠ EvTimeout) evs)) + remaining s' ≤ remaining s.
Proof.
  intros Hp Ha. revert s. induction evs as [|ev evs IH]; intros s Hi Hev Hr; cbn [run_events] in Hr.
  { injection Hr as <-. split; [done|]. cbn. lia. }
  apply Forall_cons in Hev as [Hev Hevs]. apply bind_Some in Hr as (s1 & Hs & Hr).
  destruct (loop_step_inv a h Hp Ha s ev s1 Hi Hev Hs) as [Hi1 Hm].
  destruct (IH s1 Hi1 Hevs Hr) as [Hi' Hle]. split; [done|].
  rewrite filter_cons. destruct (decide (ev ≠ EvTimeout)) as [Hne|Heq].
  - destruct Hm as [[? _]|Hm]; [done|]. cbn [length]. lia.
  - destruct Hm as [[_ ->]|Hm]; [done|]. lia.
Qed.

(** C31: the order of a run.  Whatever the items do and however the processes end, no item
    is run twice; when starting, every item that was run had all the services it requires
    reported successful before, and they stay so; the running count is the number of items
    under watch, which are waiting items with a process. *)
Theorem starter_run_order h a name s evs s' :
  fresh_items h → a ≠ kActionNone → starter_init (Some h) a name = Ok s →
  Forall possible evs → run_events a s evs = Some s' →
  NoDup (s_ran s') ∧
  (a = kActionStart → ∀ i it x, i ∈ s_ran s' → cx_items (s_ctx s') !! i = Some it →
     x ∈ default [] (it_requires it) → status_of (aStatusDict (s_ctx s')) x = Some true) ∧
  aRunningCount (s_ctx s') = Z.of_nat (length (s_watched s')) ∧
  (∀ i, i ∈ s_watched s' → i ∈ aWaitingList (s_ctx s') ∧
        0 < StartupItemGetPID (cx_items (s_ctx s')) i).
Proof.
  intros Hf Ha Hs Hev Hr. apply starter_init_inv in Hs as Hi; [|done|done].
  destruct (run_events_inv a h s evs s' (fi_paths _ Hf) Ha Hi Hev Hr) as [Hi' _].
  destruct Hi' as [_ _ _ [_ H4] _ H6 [H7 _] H8]. by repeat split; try apply H4.
Qed.

Lemma init_remaining h a s :
  starter_inv a h s → s_watched s = [] → remaining s ≤ 2 * Z.of_nat (length h).
Proof.
  intros Hi Hw. unfold remaining. rewrite Hw. cbn [length].
  destruct (li_waiting _ _ _ _ _ _ _ _ Hi) as [Hnd Hlt]. rewrite (li_length _ _ _ _ _ _ _ _ Hi) in Hlt.
  assert (length (aWaitingList (s_ctx s)) ≤ length (seq 0 (length h)))%nat as Hle.
  { apply submseteq_length, NoDup_submseteq; [done|]. intros i Hin. apply elem_of_seq.
    specialize (Hlt i Hin). lia. }
  rewrite length_seq in Hle. lia.
Qed.

Lemma init_watched loaded a name s : starter_init loaded a name = Ok s → s_watched s = [].
Proof.
  unfold starter_init. destruct loaded as [h|], name as [x|]; try done; [|by intros [= <-]].
  intros Hs. apply bind_inv in Hs as (deps & _ & Hs). destruct deps; [|done]. by injection Hs as <-.
Qed.

(** A turn is possible until the loop has ended. *)
Lemma loop_progress a h s :
  a ≠ kActionNone → starter_inv a h s → aRunningCount (s_ctx s) ≠ 0 ∨ next_item a s ≠ None →
  ∃ ev s', possible ev ∧ ev ≠ EvTimeout ∧ loop_step a s ev = Some s'.
Proof.
  intros Ha Hi Hor. unfold loop_step. destruct (next_item a s) as [i|] eqn:Hn.
  - destruct (next_item_facts a h Ha s i Hi Hn) as (it & Hit & _).
    exists (EvRun (mkRunEnv true true 1) true None). rewrite Hit. eexists. split_and!; try done.
    cbn. lia.
  - destruct Hor as [Hor|]; [|done]. pose proof (li_count _ _ _ _ _ _ _ _ Hi) as Hc.
    destruct (s_watched s) as [|i wt] eqn:Hw; [done|].
    exists (EvExit i None). rewrite (proj2 (Z.eqb_neq _ _) Hor).
    rewrite bool_decide_true by left. eexists. split_and!; done.
Qed.

(** C32: the run loop ends.  Besides timeouts there are at most two turns per item; as long
    as the loop has not ended, an item can be run or a watched item can end; and when it has
    ended, no item of the waiting list has a process. *)
Theorem starter_terminates h a name s evs s' :
  fresh_items h → a ≠ kActionNone → starter_init (Some h) a name = Ok s →
  Forall possible evs → run_events a s evs = Some s' →
  Z.of_nat (length (filter (fun ev => ev ≠ EvTimeout) evs)) ≤ 2 * Z.of_nat (length h) ∧
  ((finished a s' ∧
    ∀ i, i ∈ aWaitingList (s_ctx s') → has_pid (cx_items (s_ctx s')) i = false) ∨
   ∃ ev s'', possible ev ∧ ev ≠ EvTimeout ∧ loop_step a s' ev = Some s'').
Proof.
  intros Hf Ha Hs Hev Hr. apply starter_init_inv in Hs as Hi; [|done|done].
  destruct (run_events_inv a h s evs s' (fi_paths _ Hf) Ha Hi Hev Hr) as [Hi' Hle].
  pose proof (init_remaining h a s Hi (init_watched _ _ _ _ Hs)).
  pose proof (remaining_nonneg a h s' Hi'). split; [lia|].
  destruct (decide (aRunningCount (s_ctx s') = 0)) as [Hz|Hz]; [|right; eapply loop_progress; eauto].
  destruct (next_item a s') as [i|] eqn:Hn.
  { right. eapply loop_progress; [done|done|right; by rewrite Hn]. }
  left. split; [done|]. intros i Hi0. destruct (has_pid (cx_items (s_ctx s')) i) eqn:Hp; [|done].
  pose proof (li_pid _ _ _ _ _ _ _ _ Hi' i Hi0 Hp) as Hw. pose proof (li_count _ _ _ _ _ _ _ _ Hi').
  destruct (s_watched s'); [by apply not_elem_of_nil in Hw|]. cbn [length] in *. lia.
Qed.

(** ** Witnesses *)

Definition svc (s : string) : service := CFString s.
Definition example_item (path : string) (provides requires : list string) (domain : Z) : item :=
  mkItem (Some (map svc provides)) (Some (map svc requires)) None None path domain None None [].

(** A web server that requires the database, the database, and an item nobody can start. *)
Definition example_items : items :=
  [example_item "/L/Web" ["Web"] ["Database"] 1; example_item "/L/Database" ["Database"] [] 1;
   example_item "/L/Lost" ["Lost"] ["Nowhere"] 1]%string.

Lemma example_fresh : fresh_items example_items.
Proof.
  split.
  - intros [|[|[|i]]] [|[|[|j]]] it jt Hi Hj; cbn in *; intros Hp; simplify_eq; done.
  - intros [|[|[|i]]] it Hi; cbn in *; by simplify_eq.
Qed.

Definition example_events : list event :=
  [EvRun (mkRunEnv true true 100) true None; EvTimeout; EvExit 1 (Some 0);
   EvRun (mkRunEnv true true 101) true None; EvExit 0 (Some 256)].

(** The database is run first although the web server is listed first. *)
Lemma starter_run_order_witness :
  ∃ s s', starter_init (Some example_items) kActionStart None = Ok s ∧
    run_events kActionStart s example_events = Some s' ∧ s_ran s' = [1; 0]%nat ∧ NoDup (s_ran s').
Proof.
  eexists _, _. split; [reflexivity|]. split; [vm_compute; reflexivity|]. split; [reflexivity|].
  eapply (starter_run_order example_items kActionStart None _ example_events).
  - exact example_fresh.
  - done.
  - reflexivity.
  - repeat constructor; cbn; lia.
  - vm_compute. reflexivity.
Defined.

Lemma starter_terminates_witness :
  ∃ s s', starter_init (Some example_items) kActionStart None = Ok s ∧
    run_events kActionStart s example_events = Some s' ∧
    (finished kActionStart s' ∨ ∃ ev s'', loop_step kActionStart s' ev = Some s'').
Proof.
  eexists _, _. split; [reflexivity|]. split; [vm_compute; reflexivity|].
  destruct (starter_terminates example_items kActionStart None _ example_events _ example_fresh
              ltac:(done) eq_refl ltac:(repeat constructor; cbn; lia) ltac:(vm_compute; reflexivity))
    as [_ [[Hf _]|(ev & s'' & _ & _ & Hs)]]; [left; exact Hf|right; by exists ev, s''].
Defined.

(** An item that uses a service its waiting provider cannot offer yet, the provider, and an
    item that uses two services nobody provides. *)
Definition soft_items : items :=
  [mkItem None None (Some [svc "Mail"]) None "/L/Client" 1 None None [];
   example_item "/L/Mail" ["Mail"] ["Nowhere"] 1;
   mkItem None None (Some [svc "Fax"; svc "Telex"]) None "/L/Office" 1 None None []].


Lemma next_item_ready_witness :
  1%nat ∈ [0; 1; 2]%nat ∧ ∃ it, example_items !! 1%nat = Some it ∧
    ready example_items [0; 1; 2]%nat [] kActionStart it.
Proof.
  apply (next_item_ready example_items [0; 1; 2]%nat [] kActionStart 1%nat).
  - left. reflexivity.
  - vm_compute. reflexivity.
Defined.

Lemma dependents_reachable_witness :
  ∃ D, StartupItemListCreateDependentsList example_items [0; 1; 2]%nat (svc "Web") kActionStart =
         Ok (Some D) ∧ NoDup D.
Proof.
  destruct (dependents_reachable example_items [0; 1; 2]%nat (svc "Web") kActionStart 0%nat)
    as (D & H1 & H2 & _).
  - intros i j Hi%list_elem_of_In Hj%list_elem_of_In He. cbn [In] in Hi, Hj.
    destruct Hi as [<-|[<-|[<-|[]]]], Hj as [<-|[<-|[<-|[]]]];
      first [reflexivity|discriminate He].
  - done.
  - vm_compute. reflexivity.
  - exists D. split; [exact H1|exact H2].
Defined.
