(* ===== verification/Calendar.v ===== *)
(** * Calendar intervals of launchd jobs ([src/src/launchd/src/core.c])

    [cronemu] finds the next time that matches a [StartCalendarInterval]; the pending
    intervals of all jobs form one list sorted by their next time.  [mktime] and
    [localtime] are those of the Gregorian calendar in a zone with a fixed offset. *)

From S2P Require Import Prelude LaunchData.

(** ** Broken-down time *)

(** [struct tm]; the year is the full one, the month counts from 0, and the weekday is a
    function of the date. *)
Record tm := mkTm {
  tm_year : Z;
  tm_mon : Z;
  tm_mday : Z;
  tm_hour : Z;
  tm_min : Z;
}.

Definition leap (y : Z) : bool :=
  ((y mod 4 =? 0) && negb (y mod 100 =? 0)) || (y mod 400 =? 0).

Definition days_in_month (y m : Z) : Z :=
  if m =? 1 then if leap y then 29 else 28
  else if (m =? 3) || (m =? 5) || (m =? 8) || (m =? 10) then 30 else 31.

(** Days are carried into months. *)
Fixpoint norm_days (fuel : nat) (y m d : Z) : Z * Z * Z :=
  match fuel with
  | O => (y, m, d)
  | S fuel =>
      if d <=? days_in_month y m then (y, m, d)
      else if m =? 11 then norm_days fuel (y + 1) 0 (d - days_in_month y m)
      else norm_days fuel y (m + 1) (d - days_in_month y m)
  end.

(** What [mktime] does to the fields: minutes are carried into hours, hours into days,
    months into years and days into months. *)
Definition mktime (t : tm) : tm :=
  let h := tm_hour t + tm_min t / 60 in
  let d := tm_mday t + h / 24 in
  let y := tm_year t + tm_mon t / 12 in
  let '(y, m, d) := norm_days 3 y (tm_mon t mod 12) d in
  mkTm y m d (h mod 24) (tm_min t mod 60).

(** Days since the first of January of year 0, and the weekday (0 is Sunday). *)
Definition days_before_year (y : Z) : Z := 365 * y + (y + 3) / 4 - (y + 99) / 100 + (y + 399) / 400.
Fixpoint days_before_month (y : Z) (m : nat) : Z :=
  match m with O => 0 | S m => days_before_month y m + days_in_month y (Z.of_nat m) end.
Definition day_number (y m d : Z) : Z := days_before_year y + days_before_month y (Z.to_nat m) + d - 1.
Definition tm_wday (t : tm) : Z := (day_number (tm_year t) (tm_mon t) (tm_mday t) + 6) mod 7.

(** Seconds since the epoch, for a zone [off] seconds east of Greenwich. *)
Definition time_of (off : Z) (t : tm) : Z :=
  ((day_number (tm_year t) (tm_mon t) (tm_mday t) - 719528) * 24 + tm_hour t) * 3600
  + tm_min t * 60 - off.

(** ** [cronemu] *)

Definition set_min (t : tm) (v : Z) : tm := mkTm (tm_year t) (tm_mon t) (tm_mday t) (tm_hour t) v.
Definition set_hour (t : tm) (h m : Z) : tm := mkTm (tm_year t) (tm_mon t) (tm_mday t) h m.
Definition set_mday (t : tm) (d h m : Z) : tm := mkTm (tm_year t) (tm_mon t) d h m.
Definition set_mon (t : tm) (mon d h m : Z) : tm := mkTm (tm_year t) mon d h m.

(** The functions update the time they are given and tell whether they succeeded. *)
Definition cronemu_min (t : tm) (min : Z) : bool * tm :=
  if min =? -1 then (true, t) else
  if min <? tm_min t then (false, t) else
  if tm_min t <? min then (true, set_min t min) else (true, t).

Fixpoint hour_loop (fuel : nat) (t : tm) (min : Z) : res Empty_set (bool * tm) :=
  match fuel with
  | O => NoFuel
  | S fuel =>
      let '(ok, w) := cronemu_min t min in
      if ok : bool then Ok (true, w) else
      let w := set_hour w (tm_hour w + 1) 0 in
      let carrytest := tm_hour w in
      let w := mktime w in
      if carrytest =? tm_hour w then hour_loop fuel w min else Ok (false, w)
  end.

Definition cronemu_hour (t : tm) (hour min : Z) : res Empty_set (bool * tm) :=
  if hour =? -1 then
    '(ok, w) ← hour_loop 25 t min; Ok (ok, if ok : bool then w else t)
  else if hour <? tm_hour t then Ok (false, t) else
  let t := if tm_hour t <? hour then set_hour t hour 0 else t in
  Ok (cronemu_min t min).

Fixpoint mday_loop (fuel : nat) (t : tm) (hour min : Z) : res Empty_set (bool * tm) :=
  match fuel with
  | O => NoFuel
  | S fuel =>
      '(ok, w) ← cronemu_hour t hour min;
      if ok : bool then Ok (true, w) else
      let w := set_mday w (tm_mday w + 1) 0 0 in
      let carrytest := tm_mday w in
      let w := mktime w in
      if carrytest =? tm_mday w then mday_loop fuel w hour min else Ok (false, w)
  end.

Definition cronemu_mday (t : tm) (mday hour min : Z) : res Empty_set (bool * tm) :=
  if mday =? -1 then
    '(ok, w) ← mday_loop 32 t hour min; Ok (ok, if ok : bool then w else t)
  else if mday <? tm_mday t then Ok (false, t) else
  let t := if tm_mday t <? mday then set_mday t mday 0 0 else t in
  cronemu_hour t hour min.

Fixpoint mon_loop (fuel : nat) (t : tm) (mday hour min : Z) : res Empty_set (bool * tm) :=
  match fuel with
  | O => NoFuel
  | S fuel =>
      '(ok, w) ← cronemu_mday t mday hour min;
      if ok : bool then Ok (true, w) else
      let w := set_mon w (tm_mon w + 1) 1 0 0 in
      let carrytest := tm_mon w in
      let w := mktime w in
      if carrytest =? tm_mon w then mon_loop fuel w mday hour min else Ok (false, w)
  end.

Definition cronemu_mon (t : tm) (mon mday hour min : Z) : res Empty_set (bool * tm) :=
  if mon =? -1 then
    '(ok, w) ← mon_loop 13 t mday hour min; Ok (ok, if ok : bool then w else t)
  else if mon <? tm_mon t then Ok (false, t) else
  let t := if tm_mon t <? mon then set_mon t mon 1 0 0 else t in
  cronemu_mday t mday hour min.

Fixpoint year_loop (fuel : nat) (t : tm) (mon mday hour min : Z) : res Empty_set tm :=
  match fuel with
  | O => NoFuel
  | S fuel =>
      '(ok, w) ← cronemu_mon t mon mday hour min;
      if ok : bool then Ok w
      else year_loop fuel (mktime (mkTm (tm_year w + 1) 0 1 0 0)) mon mday hour min
  end.

(** [cronemu] from the broken-down local time [now]: the fields given to the final
    [mktime].  Two years are enough for the intervals a job can have. *)
Definition cronemu (now : tm) (mon mday hour min : Z) : res Empty_set tm :=
  t ← year_loop 2 (set_min now (tm_min now + 1)) mon mday hour min; Ok (mktime t).

Fixpoint wday_loop (fuel : nat) (t : tm) (wday hour min : Z) : res Empty_set tm :=
  match fuel with
  | O => NoFuel
  | S fuel =>
      '(ok, w) ← (if tm_wday t =? wday then cronemu_hour t hour min else Ok (false, t));
      if ok : bool then Ok w
      else wday_loop fuel (mktime (set_mday w (tm_mday w + 1) 0 0)) wday hour min
  end.

(** [cronemu_wday]; today, the six days after it and the same weekday again. *)
Definition cronemu_wday (now : tm) (wday hour min : Z) : res Empty_set tm :=
  let wday := if wday =? 7 then 0 else wday in
  t ← wday_loop 8 (set_min now (tm_min now + 1)) wday hour min; Ok (mktime t).

Example cronemu_noon :
  cronemu (mkTm 2024 1 28 13 30) (-1) (-1) 12 0 = Ok (mkTm 2024 1 29 12 0) ∧
  cronemu (mkTm 2024 11 31 23 59) (-1) (-1) (-1) 0 = Ok (mkTm 2025 0 1 0 0) ∧
  cronemu_wday (mkTm 2024 0 1 10 0) 7 9 30 = Ok (mkTm 2024 0 7 9 30).
Proof. vm_compute. done. Qed.

(** ** The first match

    A request is -1 (any value) or a value.  First the days up to the 28th, which every month
    has. *)

Definition matches (v req : Z) : Prop := req = -1 ∨ v = req.

Record request_ok (mon mday hour min : Z) : Prop := mkRequestOk {
  rq_mon : -1 ≤ mon ≤ 11;
  rq_mday : mday = -1 ∨ 1 ≤ mday ≤ 28;
  rq_hour : -1 ≤ hour ≤ 23;
  rq_min : -1 ≤ min ≤ 59;
}.

Definition date_ok (t : tm) : Prop :=
  0 ≤ tm_mon t ≤ 11 ∧ 1 ≤ tm_mday t ≤ days_in_month (tm_year t) (tm_mon t).
Definition tm_ok (t : tm) : Prop := date_ok t ∧ 0 ≤ tm_hour t ≤ 23 ∧ 0 ≤ tm_min t ≤ 59.

(** The fields as one number, in the order of time. *)
Definition tm_key (t : tm) : Z :=
  tm_year t * 10 ^ 8 + tm_mon t * 10 ^ 6 + tm_mday t * 10 ^ 4 + tm_hour t * 100 + tm_min t.

Lemma days_in_month_range y m : 28 ≤ days_in_month y m ≤ 31.
Proof. unfold days_in_month. repeat case_match; lia. Qed.

Lemma mktime_id t : tm_ok t → mktime t = t.
Proof.
  destruct t as [y mo d h mi]. intros ((Hmo & Hd) & Hh & Hmi). cbn in *. unfold mktime. cbn [tm_min tm_hour tm_mday tm_year tm_mon].
  rewrite (Z.div_small mi), (Z.mod_small mi), Z.add_0_r by lia.
  rewrite (Z.div_small h), (Z.mod_small h), Z.add_0_r by lia.
  rewrite (Z.div_small mo), (Z.mod_small mo), Z.add_0_r by lia. cbn [norm_days].
  by rewrite (proj2 (Z.leb_le _ _)) by lia.
Qed.

Lemma mktime_next_hour t :
  date_ok t → tm_hour t = 24 → tm_min t = 0 → tm_hour (mktime t) = 0.
Proof.
  intros _ Hh Hm. unfold mktime. rewrite Hh, Hm. cbn [Z.add]. by destruct (norm_days 3 _ _ _) as [[? ?] ?].
Qed.

(** The day after the last one of a month. *)
Lemma mktime_next_day y m d :
  0 ≤ m ≤ 11 → d = days_in_month y m + 1 →
  mktime (mkTm y m d 0 0) = if m =? 11 then mkTm (y + 1) 0 1 0 0 else mkTm y (m + 1) 1 0 0.
Proof.
  intros Hm ->. unfold mktime. cbn [tm_min tm_hour tm_mday tm_year tm_mon].
  change (0 / 60) with 0. rewrite Z.add_0_r. change (0 / 24) with 0. rewrite Z.add_0_r.
  rewrite (Z.div_small m), (Z.mod_small m), Z.add_0_r by lia. cbn [norm_days].
  rewrite (proj2 (Z.leb_gt _ (days_in_month y m))) by lia.
  replace (days_in_month y m + 1 - days_in_month y m) with 1 by lia.
  pose proof (days_in_month_range (y + 1) 0). pose proof (days_in_month_range y (m + 1)).
  destruct (Z.eqb_spec m 11); by rewrite (proj2 (Z.leb_le 1 _)) by lia.
Qed.

Lemma mktime_next_month y : mktime (mkTm y 12 1 0 0) = mkTm (y + 1) 0 1 0 0.
Proof. reflexivity. Qed.

(** [least lo P t]: [t] is the first of the times from [lo] on that satisfy [P]. *)
Definition least (lo : Z) (P : tm → Prop) (t : tm) : Prop :=
  P t ∧ lo ≤ tm_key t ∧ ∀ x, P x → lo ≤ tm_key x → tm_key t ≤ tm_key x.

Section Levels.
Context (mon mday hour min : Z) (Hrq : request_ok mon mday hour min).

(** The times of one hour, of one day, of one month, of one year that match. *)
Definition in_hour (t x : tm) : Prop :=
  tm_ok x ∧ matches (tm_min x) min ∧ tm_hour x = tm_hour t ∧
  tm_mday x = tm_mday t ∧ tm_mon x = tm_mon t ∧ tm_year x = tm_year t.
Definition in_day (t x : tm) : Prop :=
  tm_ok x ∧ matches (tm_min x) min ∧ matches (tm_hour x) hour ∧
  tm_mday x = tm_mday t ∧ tm_mon x = tm_mon t ∧ tm_year x = tm_year t.
Definition in_month (t x : tm) : Prop :=
  tm_ok x ∧ matches (tm_min x) min ∧ matches (tm_hour x) hour ∧ matches (tm_mday x) mday ∧
  tm_mon x = tm_mon t ∧ tm_year x = tm_year t.
Definition in_year (t x : tm) : Prop :=
  tm_ok x ∧ matches (tm_min x) min ∧ matches (tm_hour x) hour ∧ matches (tm_mday x) mday ∧
  matches (tm_mon x) mon ∧ tm_year x = tm_year t.

(** Where a search starts: a time of which the minute may be 60 unless any minute
    matches. *)
Definition start_ok (t : tm) : Prop :=
  date_ok t ∧ 0 ≤ tm_hour t ≤ 23 ∧ 0 ≤ tm_min t ≤ 60 ∧ (min = -1 → tm_min t ≤ 59).

(** The outcome of a search for the first [P]. *)
Definition finds (t : tm) (P : tm → Prop) (r : bool * tm) : Prop :=
  match r with
  | (true, x) => least (tm_key t) P x
  | (false, x) => x = t ∧ ∀ y, P y → tm_key y < tm_key t
  end.

Ltac fields :=
  unfold set_min, set_hour, set_mday, set_mon in *; cbn [tm_year tm_mon tm_mday tm_hour tm_min fst snd] in *.
Ltac calendar :=
  cbn [finds] in *;
  unfold least, in_hour, in_day, in_month, in_year, start_ok, tm_ok, date_ok, matches, tm_key in *;
  fields.

Lemma cronemu_min_finds t : start_ok t → finds t (in_hour t) (cronemu_min t min).
Proof.
  destruct t as [y mo d h mi]. intros (Hd & Hh & Hm & Hany). unfold cronemu_min.
  destruct Hrq as [_ _ _ Hmin]. cbn [tm_min] in *.
  destruct (Z.eqb_spec min (-1)) as [->|Hne]; [|destruct (Z.ltb_spec min mi);
    [|destruct (Z.ltb_spec mi min)]]; calendar.
  all: split_and!; try (done || lia); intros [? ? ? ? ?]; fields; lia.
Qed.

(** The search fails in [A], and the first match of [B], which starts later, is the first
    of [P]. *)
Lemma least_next t t' (A B P : tm → Prop) x :
  (∀ y, A y → tm_key y < tm_key t) → least (tm_key t') B x → tm_key t ≤ tm_key t' →
  (∀ y, B y → P y) →
  (∀ y, P y → tm_key t ≤ tm_key y → A y ∨ (B y ∧ tm_key t' ≤ tm_key y) ∨ tm_key x ≤ tm_key y) →
  least (tm_key t) P x.
Proof.
  intros HA (HB & Hle & Hmin') Ht HBP Hcov. split_and!; [auto|lia|].
  intros y Hy Hky. destruct (Hcov y Hy Hky) as [Ha|[[Hb Hkb]|Hk]]; [|auto|done].
  pose proof (HA y Ha). lia.
Qed.

(** A search that has a match ahead succeeds. *)
Lemma finds_some t P r y :
  finds t P r → P y → tm_key t ≤ tm_key y → ∃ x, r = (true, x) ∧ least (tm_key t) P x.
Proof.
  destruct r as [[] x]; [by exists x|]. intros [_ Hno] HP Hk. specialize (Hno y HP). lia.
Qed.

Definition first_min : Z := if min =? -1 then 0 else min.
Definition first_hour : Z := if hour =? -1 then 0 else hour.
Definition first_mday : Z := if mday =? -1 then 1 else mday.
Definition first_mon : Z := if mon =? -1 then 0 else mon.

Lemma first_ok :
  matches first_min min ∧ 0 ≤ first_min ≤ 59 ∧ matches first_hour hour ∧ 0 ≤ first_hour ≤ 23 ∧
  matches first_mday mday ∧ 1 ≤ first_mday ≤ 28 ∧ matches first_mon mon ∧ 0 ≤ first_mon ≤ 11.
Proof.
  destruct Hrq. unfold first_min, first_hour, first_mday, first_mon, matches.
  repeat match goal with |- context [?a =? ?b] => destruct (Z.eqb_spec a b) end; lia.
Qed.

(** What a loop leaves when it fails does not matter. *)
Definition finds_loose (t : tm) (P : tm → Prop) (r : bool * tm) : Prop :=
  match r with
  | (true, x) => least (tm_key t) P x
  | (false, _) => ∀ y, P y → tm_key y < tm_key t
  end.

Lemma least_widen lo (A P : tm → Prop) x :
  least lo A x → (∀ y, A y → P y) →
  (∀ y, P y → lo ≤ tm_key y → A y ∨ tm_key x ≤ tm_key y) → least lo P x.
Proof.
  intros (HA & Hlo & Hl) HAP Hcov. split_and!; [auto|done|].
  intros y Hy Hk. destruct (Hcov y Hy Hk); auto.
Qed.

Lemma hour_loop_finds n t :
  start_ok t → hour = -1 → ∃ r, hour_loop (S (S n)) t min = Ok r ∧ finds_loose t (in_day t) r.
Proof.
  intros Ht Hany. pose proof (cronemu_min_finds t Ht) as Hf.
  destruct first_ok as (Hm & Hm' & _). set (fm := first_min) in *.
  remember (S n) as n' eqn:Hn. cbn [hour_loop].
  destruct (cronemu_min t min) as [[] w] eqn:E; [eexists; split; [done|]|].
  { apply (least_widen _ (in_hour t)); [done|clear -Hany; intros [? ? ? ? ?]; calendar; lia|].
    destruct Hf as (Hf & _). intros [? ? ? h' ?] Hy Hk.
    destruct (decide (h' = tm_hour t)) as [->|]; [left|right; destruct w]; destruct t; calendar; lia. }
  destruct Hf as [-> Hno]. destruct t as [y mo d h mi]. fields.
  destruct (Z.eqb_spec (h + 1) (tm_hour (mktime (mkTm y mo d (h + 1) 0)))) as [Hc|Hc].
  - destruct (decide (h = 23)) as [->|Hh].
    { rewrite mktime_next_hour in Hc; [lia|apply Ht|done..]. }
    set (t' := mkTm y mo d (h + 1) 0) in *.
    assert (start_ok t') as Ht' by (subst t'; calendar; lia).
    rewrite mktime_id by (subst t'; calendar; lia). subst n'. cbn [hour_loop].
    destruct (finds_some _ _ _ (mkTm y mo d (h + 1) fm) (cronemu_min_finds t' Ht'))
      as (x & -> & Hx); [subst t'; calendar; lia..|].
    eexists. split; [done|]. eapply least_next; [done..|subst t'; calendar; lia| |].
    + clear -Hany. intros [? ? ? ? ?]. subst t'. calendar. lia.
    + destruct Hx as (Hx & _). clear Hno. intros [? ? ? h' ?] Hy Hk.
      destruct (decide (h' = h)) as [->|]; [left; calendar; lia|].
      destruct (decide (h' = h + 1)) as [->|]; [right; left|right; right; destruct x]; subst t'; calendar; lia.
  - eexists. split; [done|]. destruct (decide (h = 23)) as [->|Hh].
    2:{ destruct Hc. rewrite mktime_id; [done|calendar; lia]. }
    intros [? ? ? ? ?] Hy. destruct (decide (tm_hour0 = 23)) as [->|]; [|calendar; lia].
    apply Hno. calendar. lia.
Qed.

(** A loop's outcome becomes the outcome of the search around it. *)
Lemma loose_finds t P (m : res Empty_set (bool * tm)) :
  (∃ r, m = Ok r ∧ finds_loose t P r) →
  ∃ r, ('(ok, w) ← m; Ok (ok, if ok : bool then w else t)) = Ok r ∧ finds t P r.
Proof. intros ([[] x] & -> & H); eexists; by split. Qed.

(** A search that fixes its field from a later start. *)
Lemma finds_from t t' (A P : tm → Prop) r y :
  finds t' A r → A y → tm_key t' ≤ tm_key y → tm_key t ≤ tm_key t' →
  (∀ x, A x ↔ P x) → (∀ x, P x → tm_key t ≤ tm_key x → tm_key t' ≤ tm_key x) →
  finds t P r.
Proof.
  intros Hf Hy Hk Ht HAP Hcov. destruct (finds_some _ _ _ _ Hf Hy Hk) as (x & -> & HA & Hlo & Hl).
  split_and!; [by apply HAP|lia|]. intros z Hz Hkz. apply Hl; [by apply HAP|auto].
Qed.

(** The search goes on at the same time in the part of [P] that lies there. *)
Lemma finds_same t (A P : tm → Prop) r :
  finds t A r → (∀ x, A x ↔ P x) → finds t P r.
Proof.
  intros Hf HAP. destruct r as [[] x]; cbn in *.
  - eapply least_widen; [done|apply HAP|]. intros y Hy _. left. by apply HAP.
  - destruct Hf as [-> Hno]. split; [done|]. intros y Hy. by apply Hno, HAP.
Qed.

Lemma cronemu_hour_finds t :
  start_ok t → ∃ r, cronemu_hour t hour min = Ok r ∧ finds t (in_day t) r.
Proof.
  intros Ht. unfold cronemu_hour. destruct first_ok as (Hm & Hm' & Hfh & Hfh' & _).
  set (fm := first_min) in *. pose proof (rq_hour _ _ _ _ Hrq) as Hrh.
  destruct (Z.eqb_spec hour (-1)) as [Hany|Hne]; [by apply loose_finds, hour_loop_finds|].
  destruct (Z.ltb_spec hour (tm_hour t)); [|destruct (Z.ltb_spec (tm_hour t) hour)]; eexists; (split; [done|]).
  - split; [done|]. intros [? ? ? ? ?]. destruct t. calendar. lia.
  - eapply (finds_from _ (set_hour t hour 0) _ _ _ (set_hour t hour fm)).
    + apply cronemu_min_finds. destruct t. calendar. lia.
    + destruct t. calendar. lia.
    + destruct t. calendar. lia.
    + destruct t. calendar. lia.
    + intros [? ? ? ? ?]. destruct t. calendar. lia.
    + intros [? ? ? ? ?]. destruct t. calendar. lia.
  - eapply finds_same; [by apply cronemu_min_finds|]. intros [? ? ? ? ?]. destruct t. calendar. lia.
Qed.

Lemma mday_loop_finds n t :
  start_ok t → mday = -1 → ∃ r, mday_loop (S (S n)) t hour min = Ok r ∧ finds_loose t (in_month t) r.
Proof.
  intros Ht Hany. destruct (cronemu_hour_finds t Ht) as ([ok w] & E & Hf).
  destruct first_ok as (Hm & Hm' & Hh & Hh' & _). set (fm := first_min) in *. set (fh := first_hour) in *.
  remember (S n) as n' eqn:Hn. cbn [mday_loop]. rewrite E. cbn [res_bind mbind].
  destruct ok; [eexists; split; [done|]|].
  { apply (least_widen _ (in_day t)); [done|clear -Hany; intros [? ? ? ? ?]; calendar; lia|].
    destruct Hf as (Hf & _). intros [? ? d' ? ?] Hy Hk.
    destruct (decide (d' = tm_mday t)) as [->|]; [left|right; destruct w]; destruct t; calendar; lia. }
  destruct Hf as [-> Hno]. clear E. destruct t as [y mo d h mi]. fields.
  destruct (decide (d = days_in_month y mo)) as [Hd|Hd].
  - assert (Z.eqb (d + 1) (tm_mday (mktime (mkTm y mo (d + 1) 0 0))) = false) as ->.
    { rewrite mktime_next_day by (calendar; lia). pose proof (days_in_month_range y mo).
      apply Z.eqb_neq. destruct (mo =? 11); cbn; lia. }
    eexists. split; [done|]. intros [y' mo' d' h' mi'] Hy.
    destruct (decide (d' = d)) as [->|]; [apply Hno; calendar; lia|].
    clear Hno. calendar. destruct Hy as (? & ? & ? & ? & -> & ->). lia.
  - rewrite mktime_id, Z.eqb_refl by (calendar; lia). set (t' := mkTm y mo (d + 1) 0 0) in *.
    assert (start_ok t') as Ht' by (subst t'; calendar; lia). subst n'. cbn [mday_loop].
    destruct (cronemu_hour_finds t' Ht') as (r & -> & Hf).
    destruct (finds_some _ _ _ (mkTm y mo (d + 1) fh fm) Hf) as (x & -> & Hx); [subst t'; calendar; lia..|].
    eexists. split; [done|]. eapply least_next; [done..|subst t'; calendar; lia| |].
    + clear -Hany. intros [? ? ? ? ?]. subst t'. calendar. lia.
    + destruct Hx as (Hx & _). clear Hno Hf. intros [? ? d' ? ?] Hy Hk.
      destruct (decide (d' = d)) as [->|]; [left; calendar; lia|].
      destruct (decide (d' = d + 1)) as [->|]; [right; left|right; right; destruct x]; subst t'; calendar; lia.
Qed.

Lemma cronemu_mday_finds t :
  start_ok t → ∃ r, cronemu_mday t mday hour min = Ok r ∧ finds t (in_month t) r.
Proof.
  intros Ht. unfold cronemu_mday. destruct first_ok as (Hm & Hm' & Hfh & Hfh' & _).
  set (fm := first_min) in *. set (fh := first_hour) in *. pose proof (rq_mday _ _ _ _ Hrq) as Hrd.
  destruct (Z.eqb_spec mday (-1)) as [Hany|Hne]; [by apply loose_finds, mday_loop_finds|].
  destruct (Z.ltb_spec mday (tm_mday t)); [|destruct (Z.ltb_spec (tm_mday t) mday)].
  - eexists. split; [done|]. split; [done|]. intros [? ? ? ? ?]. destruct t. calendar. lia.
  - pose proof (days_in_month_range (tm_year t) (tm_mon t)).
    assert (start_ok (set_mday t mday 0 0)) as Ht' by (destruct t; calendar; lia).
    destruct (cronemu_hour_finds _ Ht') as (r & -> & Hf). eexists. split; [done|].
    apply (finds_from _ _ _ _ _ (set_mday t mday fh fm) Hf); [destruct t; calendar; lia..| |];
      intros [? ? ? ? ?]; destruct t; clear Hf; calendar; lia.
  - destruct (cronemu_hour_finds t Ht) as (r & -> & Hf). eexists. split; [done|].
    apply (finds_same _ _ _ _ Hf). intros [? ? ? ? ?]. destruct t. calendar. lia.
Qed.

Ltac dates :=
  unfold least, in_hour, in_day, in_month, in_year, start_ok, tm_ok, date_ok, tm_key in *;
  fields; destruct_and?; simplify_eq;
  repeat match goal with
  | _ : context [days_in_month ?y ?m] |- _ =>
      lazymatch goal with
      | _ : 28 ≤ days_in_month y m ≤ 31 |- _ => fail
      | |- _ => pose proof (days_in_month_range y m)
      end
  end;
  split_and?; first [assumption|by left|by right|lia|right; lia].

Lemma mon_loop_finds n t :
  start_ok t → mon = -1 → ∃ r, mon_loop (S (S n)) t mday hour min = Ok r ∧ finds_loose t (in_year t) r.
Proof.
  intros Ht Hany. destruct (cronemu_mday_finds t Ht) as ([ok w] & E & Hf).
  destruct first_ok as (Hm & Hm' & Hh & Hh' & Hd & Hd' & _).
  set (fm := first_min) in *. set (fh := first_hour) in *. set (fd := first_mday) in *.
  remember (S n) as n' eqn:Hn. cbn [mon_loop]. rewrite E. cbn [res_bind mbind].
  destruct ok; [eexists; split; [done|]|].
  { apply (least_widen _ (in_month t)); [done|clear -Hany; intros [? ? ? ? ?] ?; dates|].
    destruct Hf as (Hf & _). intros [? mo' ? ? ?] Hy Hk.
    destruct (decide (mo' = tm_mon t)) as [->|]; [left|right; destruct w]; destruct t; dates. }
  destruct Hf as [-> Hno]. clear E. destruct t as [y mo d h mi]. fields.
  destruct (decide (mo = 11)) as [->|Hmo].
  - change (mktime _) with (mkTm (y + 1) 0 1 0 0).
    eexists. split; [done|]. intros [y' mo' d' h' mi'] Hy.
    destruct (decide (mo' = 11)) as [->|]; [apply Hno; dates|].
    clear Hno. pose proof (days_in_month_range y' mo'). dates.
  - pose proof (days_in_month_range y (mo + 1)).
    rewrite mktime_id, Z.eqb_refl by dates. set (t' := mkTm y (mo + 1) 1 0 0) in *.
    assert (start_ok t') as Ht' by (subst t'; calendar; lia). subst n'. cbn [mon_loop].
    destruct (cronemu_mday_finds t' Ht') as (r & -> & Hf).
    pose proof (days_in_month_range y mo).
    destruct (finds_some _ _ _ (mkTm y (mo + 1) fd fh fm) Hf) as (x & -> & Hx); [clear Hf Hno Ht'; subst t'; dates..|].
    clear Hf. eexists. split; [done|]. eapply least_next; [done..|clear Hno Hx; subst t'; dates| |].
    + clear -Hany. intros [? ? ? ? ?] ?. subst t'. dates.
    + destruct Hx as (Hx & _). clear Hno. intros [y' mo' ? ? ?] Hy Hk.
      pose proof (days_in_month_range y' mo').
      destruct (decide (mo' = mo)) as [->|]; [left; dates|].
      destruct (decide (mo' = mo + 1)) as [->|]; [right; left; subst t'; dates|].
      right; right. destruct x as [y'' mo'' ? ? ?]. pose proof (days_in_month_range y'' mo''). subst t'. dates.
Qed.

Lemma cronemu_mon_finds t :
  start_ok t → ∃ r, cronemu_mon t mon mday hour min = Ok r ∧ finds t (in_year t) r.
Proof.
  intros Ht. unfold cronemu_mon. destruct first_ok as (Hm & Hm' & Hh & Hh' & Hd & Hd' & _).
  set (fm := first_min) in *. set (fh := first_hour) in *. set (fd := first_mday) in *.
  pose proof (rq_mon _ _ _ _ Hrq) as Hrm.
  destruct (Z.eqb_spec mon (-1)) as [Hany|Hne]; [by apply loose_finds, mon_loop_finds|].
  destruct (Z.ltb_spec mon (tm_mon t)); [|destruct (Z.ltb_spec (tm_mon t) mon)].
  - eexists. split; [done|]. split; [done|]. intros [? ? ? ? ?] (? & ? & ? & ? & [?|?] & ?); [lia|].
    destruct t. dates.
  - pose proof (days_in_month_range (tm_year t) mon).
    assert (start_ok (set_mon t mon 1 0 0)) as Ht' by (destruct t; calendar; lia).
    destruct (cronemu_mday_finds _ Ht') as (r & -> & Hf). eexists. split; [done|].
    apply (finds_from _ _ _ _ _ (set_mon t mon fd fh fm) Hf); clear Hf; [destruct t; dates..| |].
    + clear -Hne. intros [? ? ? ? ?]. destruct t.
      split; [intros; dates|intros (? & ? & ? & ? & [?|?] & ?); [done|]; dates].
    + intros [? ? ? ? ?] (? & ? & ? & ? & [?|?] & ?) _; [done|]. destruct t. dates.
  - destruct (cronemu_mday_finds t Ht) as (r & -> & Hf). eexists. split; [done|].
    apply (finds_same _ _ _ _ Hf). intros [? ? ? ? ?]. destruct t. clear Hf.
    split; [intros; dates|intros (? & ? & ? & ? & [?|?] & ?); [done|]; dates].
Qed.

(** A time of any year that matches the whole request. *)
Definition fires_at (x : tm) : Prop :=
  tm_ok x ∧ matches (tm_min x) min ∧ matches (tm_hour x) hour ∧ matches (tm_mday x) mday ∧
  matches (tm_mon x) mon.

Lemma year_loop_least n t :
  start_ok t → ∃ x, year_loop (S (S n)) t mon mday hour min = Ok x ∧ least (tm_key t) fires_at x.
Proof.
  intros Ht. destruct (cronemu_mon_finds t Ht) as ([ok w] & E & Hf).
  destruct first_ok as (Hm & Hm' & Hh & Hh' & Hd & Hd' & Ho & Ho').
  set (fm := first_min) in *. set (fh := first_hour) in *. set (fd := first_mday) in *. set (fo := first_mon) in *.
  remember (S n) as n' eqn:Hn. cbn [year_loop]. rewrite E. cbn [res_bind mbind].
  destruct ok; [eexists; split; [done|]|].
  { apply (least_widen _ (in_year t)); [done|clear; intros [? ? ? ? ?] ?; unfold fires_at; dates|].
    destruct Hf as (Hf & _). unfold fires_at. intros [y' ? ? ? ?] Hy Hk.
    destruct (decide (y' = tm_year t)) as [->|]; [left|right; destruct w]; destruct t; dates. }
  destruct Hf as [-> Hno]. clear E. destruct t as [y mo d h mi]. fields.
  rewrite mktime_id by (pose proof (days_in_month_range (y + 1) 0); dates).
  set (t' := mkTm (y + 1) 0 1 0 0) in *. pose proof (days_in_month_range (y + 1) 0).
  assert (start_ok t') as Ht' by (clear Hno; subst t'; calendar; lia). subst n'. cbn [year_loop].
  destruct (cronemu_mon_finds t' Ht') as (r & -> & Hf). pose proof (days_in_month_range (y + 1) fo).
  destruct (finds_some _ _ _ (mkTm (y + 1) fo fd fh fm) Hf) as (x & -> & Hx); [clear Hf Hno Ht'; subst t'; dates..|].
  clear Hf. eexists. split; [done|]. eapply least_next; [done..|clear Hno Hx; subst t'; dates| |].
  - clear. unfold fires_at. intros [? ? ? ? ?] ?. subst t'. dates.
  - destruct Hx as (Hx & _). clear Hno. unfold fires_at. intros [y' ? ? ? ?] Hy Hk.
    destruct (decide (y' = y)) as [->|]; [left; dates|].
    destruct (decide (y' = y + 1)) as [->|]; [right; left; subst t'; dates|].
    right; right. destruct x. subst t'. dates.
Qed.
End Levels.

Lemma cronemu_least now mon mday hour min :
  request_ok mon mday hour min → tm_ok now → (min = -1 → tm_min now < 59) →
  ∃ t, cronemu now mon mday hour min = Ok t ∧ fires_at mon mday hour min t ∧
    tm_key now < tm_key t ∧
    ∀ x, fires_at mon mday hour min x → tm_key now < tm_key x → tm_key t ≤ tm_key x.
Proof.
  intros Hrq Hnow Hmin. set (t0 := set_min now (tm_min now + 1)).
  assert (start_ok min t0) as Ht0
    by (destruct now; subst t0; unfold start_ok, tm_ok, date_ok in *; cbn in *; lia).
  assert (tm_key t0 = tm_key now + 1) as Hk by (destruct now; unfold tm_key; cbn; lia).
  destruct (year_loop_least _ _ _ _ Hrq 0 t0 Ht0) as (x & E & Hx & Hlo & Hl).
  exists x. unfold cronemu. fold t0. rewrite E. cbn [res_bind mbind].
  rewrite mktime_id by apply Hx. split_and!; [done..|lia|]. intros y Hy Hky. apply Hl; [done|lia].
Qed.

(** ** Weekdays *)

Lemma days_before_year_S y : days_before_year (y + 1) = days_before_year y + (if leap y then 366 else 365).
Proof.
  unfold days_before_year, leap.
  destruct (Z.eqb_spec (y mod 4) 0), (Z.eqb_spec (y mod 100) 0), (Z.eqb_spec (y mod 400) 0); cbn [andb orb negb]; lia.
Qed.

Lemma days_of_year y : days_before_month y 12 = if leap y then 366 else 365.
Proof. cbn. unfold days_in_month. cbn. destruct (leap y); reflexivity. Qed.

(** The day after [t], at midnight. *)
Definition next_day (t : tm) : tm := mktime (set_mday t (tm_mday t + 1) 0 0).

Lemma next_day_cases t :
  date_ok t →
  next_day t =
    if tm_mday t <? days_in_month (tm_year t) (tm_mon t) then set_mday t (tm_mday t + 1) 0 0
    else if tm_mon t =? 11 then mkTm (tm_year t + 1) 0 1 0 0
    else mkTm (tm_year t) (tm_mon t + 1) 1 0 0.
Proof.
  destruct t as [y mo d h mi]. unfold next_day, date_ok, set_mday. cbn [tm_year tm_mon tm_mday tm_hour tm_min].
  intros [Hmo Hd]. destruct (Z.ltb_spec d (days_in_month y mo)).
  - apply mktime_id. unfold tm_ok, date_ok. cbn. lia.
  - apply mktime_next_day; lia.
Qed.

Lemma next_day_ok t : date_ok t → tm_ok (next_day t) ∧ tm_hour (next_day t) = 0 ∧ tm_min (next_day t) = 0.
Proof.
  intros Ht. rewrite (next_day_cases t Ht). destruct t as [y mo d h mi]. unfold tm_ok, date_ok in *.
  cbn [tm_year tm_mon tm_mday tm_hour tm_min set_mday] in *.
  pose proof (days_in_month_range (y + 1) 0). pose proof (days_in_month_range y (mo + 1)).
  destruct (Z.ltb_spec d (days_in_month y mo)); [|destruct (Z.eqb_spec mo 11)]; cbn; lia.
Qed.

Lemma next_day_number t :
  date_ok t →
  day_number (tm_year (next_day t)) (tm_mon (next_day t)) (tm_mday (next_day t)) =
  day_number (tm_year t) (tm_mon t) (tm_mday t) + 1.
Proof.
  intros Ht. rewrite (next_day_cases t Ht). destruct t as [y mo d h mi]. unfold date_ok, day_number, set_mday in *.
  cbn [tm_year tm_mon tm_mday tm_hour tm_min] in *.
  destruct (Z.ltb_spec d (days_in_month y mo)); [|destruct (Z.eqb_spec mo 11) as [->|]]; cbn [tm_year tm_mon tm_mday].
  - lia.
  - rewrite days_before_year_S. pose proof (days_of_year y). change (Z.to_nat 0) with 0%nat.
    change (Z.to_nat 11) with 11%nat. change (days_before_month y 12) with (days_before_month y 11 + days_in_month y 11) in *.
    change (days_before_month (y + 1) 0) with 0. destruct (leap y); lia.
  - replace (Z.to_nat (mo + 1)) with (S (Z.to_nat mo)) by lia. cbn [days_before_month].
    rewrite Z2Nat.id by lia. lia.
Qed.

Lemma next_day_wday t : date_ok t → tm_wday (next_day t) = (tm_wday t + 1) mod 7.
Proof. intros Ht. unfold tm_wday. rewrite next_day_number by done. lia. Qed.

(** Every later date is the next day or after it. *)
Lemma next_day_next t x :
  date_ok t → tm_ok x →
  tm_key (next_day t) ≤ tm_key x ∨ tm_key x < tm_key (set_mday t (tm_mday t) 0 0) ∨
  (tm_year x = tm_year t ∧ tm_mon x = tm_mon t ∧ tm_mday x = tm_mday t).
Proof.
  intros Ht Hx. rewrite (next_day_cases t Ht). destruct t as [y mo d h mi], x as [y' mo' d' h' mi'].
  unfold date_ok, tm_ok, set_mday, tm_key, date_ok in *. cbn [tm_year tm_mon tm_mday tm_hour tm_min] in *.
  pose proof (days_in_month_range y' mo'). pose proof (days_in_month_range y mo).
  destruct (decide (y' = y ∧ mo' = mo)) as [[-> ->]|];
    destruct (Z.ltb_spec d (days_in_month y mo)); [| |idtac|];
    try (destruct (Z.eqb_spec mo 11) as [->|]); cbn [tm_year tm_mon tm_mday tm_hour tm_min]; lia.
Qed.

Section Weekday.
Context (wday hour min : Z) (Hrq : request_ok (-1) (-1) hour min) (Hwday : 0 ≤ wday ≤ 6).

Definition wday_fires (x : tm) : Prop :=
  tm_ok x ∧ matches (tm_min x) min ∧ matches (tm_hour x) hour ∧ tm_wday x = wday.

(** The days to wait from the day of [t]. *)
Definition days_ahead (t : tm) : Z := (wday - tm_wday t) mod 7.

Lemma same_day_wday x t :
  tm_year x = tm_year t → tm_mon x = tm_mon t → tm_mday x = tm_mday t → tm_wday x = tm_wday t.
Proof. unfold tm_wday. by intros -> -> ->. Qed.

Lemma next_days_ahead t :
  date_ok t → days_ahead (next_day t) = if days_ahead t =? 0 then 6 else days_ahead t - 1.
Proof. intros Ht. unfold days_ahead. rewrite next_day_wday by done. case_match; lia. Qed.

(** What is true of the next day's search is true from [t] on when nothing of the day of
    [t] is left. *)
Lemma wday_next t x :
  start_ok min t → (∀ y, wday_fires y → in_day hour min t y → tm_key y < tm_key t) →
  least (tm_key (next_day t)) wday_fires x → least (tm_key t) wday_fires x.
Proof.
  intros Ht Hno Hx. assert (date_ok t) as Hd by apply Ht.
  eapply (least_next t (next_day t) (fun y => wday_fires y ∧ in_day hour min t y) wday_fires wday_fires).
  - intros y [Hy1 Hy2]. by apply Hno.
  - done.
  - pose proof (next_day_ok t Hd) as (Hok & Hh & Hm).
    rewrite (next_day_cases t Hd). destruct t as [y mo d h mi]. unfold start_ok, date_ok, tm_key, set_mday in *.
    cbn [tm_year tm_mon tm_mday tm_hour tm_min] in *. pose proof (days_in_month_range y mo).
    destruct (Z.ltb_spec d (days_in_month y mo)); [|destruct (Z.eqb_spec mo 11)];
      cbn [tm_year tm_mon tm_mday tm_hour tm_min]; lia.
  - done.
  - intros y Hy Hk. destruct (next_day_next t y Hd) as [?|[Hlt|(H1 & H2 & H3)]]; [apply Hy|auto| |].
    + destruct t. unfold start_ok, tm_key, set_mday in *. cbn [tm_year tm_mon tm_mday tm_hour tm_min] in *. lia.
    + left. split; [done|]. destruct Hy as (? & ? & ? & ?). by split_and!.
Qed.

Lemma wday_loop_turn n t :
  start_ok min t →
  (∃ x, wday_loop (S n) t wday hour min = Ok x ∧ least (tm_key t) wday_fires x) ∨
  (wday_loop (S n) t wday hour min = wday_loop n (next_day t) wday hour min ∧
   (days_ahead t = 0 → tm_hour t ≠ 0 ∨ tm_min t ≠ 0) ∧
   ∀ x, least (tm_key (next_day t)) wday_fires x → least (tm_key t) wday_fires x).
Proof.
  intros Ht. assert (date_ok t) as Hd by apply Ht. cbn [wday_loop]. unfold next_day.
  destruct (Z.eqb_spec (tm_wday t) wday) as [Hw|Hw].
  - destruct (cronemu_hour_finds (-1) (-1) hour min Hrq t Ht) as ([[] w] & -> & Hf); cbn [mbind res_bind].
    + left. exists w. split; [done|]. eapply least_widen; [done| |].
      * intros y (H1 & H2 & H3 & H4 & H5 & H6). split_and!; [done..|]. by rewrite (same_day_wday y t).
      * intros y Hy Hk. destruct Hf as [(Hf1 & Hf2 & Hf3 & Hf4 & Hf5 & Hf6) _].
        destruct (next_day_next t y Hd) as [Hn|[Hlt|(H1 & H2 & H3)]]; [apply Hy|right| |left].
        -- destruct (next_day_ok t Hd) as (Hn1 & _).
           etrans; [|apply Hn]. rewrite (next_day_cases t Hd) in *.
           destruct t as [y0 mo d h mi], w as [y1 mo1 d1 h1 mi1]. unfold tm_key, tm_ok, date_ok, set_mday in *.
           cbn [tm_year tm_mon tm_mday tm_hour tm_min] in *. subst. pose proof (days_in_month_range y0 mo).
           clear Hn. destruct (Z.ltb_spec d (days_in_month y0 mo)); [|destruct (Z.eqb_spec mo 11)];
             cbn [tm_year tm_mon tm_mday tm_hour tm_min] in *; lia.
        -- destruct t. unfold start_ok, tm_key, set_mday in *. cbn [tm_year tm_mon tm_mday tm_hour tm_min] in *. lia.
        -- destruct Hy as (? & ? & ? & ?). by split_and!.
    + destruct Hf as [-> Hno]. right. split_and!; [done| |].
      * intros _. destruct (first_ok (-1) (-1) hour min Hrq) as (Hm & Hm' & Hh & Hh' & _).
        destruct (decide (tm_hour t = 0 ∧ tm_min t = 0)) as [[Hh0 Hm0]|]; [|lia]. exfalso.
        specialize (Hno (set_hour t (first_hour hour) (first_min min))).
        destruct t. unfold in_day, tm_key, set_hour, start_ok, tm_ok, date_ok in *.
        cbn [tm_year tm_mon tm_mday tm_hour tm_min] in *. subst. ospecialize* Hno; [split_and!; try done; lia|lia].
      * intros x. apply wday_next; [done|]. intros y _ Hy. by apply Hno.
  - right. cbn [mbind res_bind]. split_and!; [done| |].
    + intros H0. exfalso. apply Hw. unfold days_ahead in H0. unfold tm_wday in *. lia.
    + intros x. apply wday_next; [done|]. intros y (_ & _ & _ & Hy) (_ & _ & _ & H1 & H2 & H3).
      destruct Hw. by rewrite <- Hy, <- (same_day_wday y t).
Qed.

Lemma wday_loop_midnight k n t :
  tm_ok t → tm_hour t = 0 → tm_min t = 0 → days_ahead t = Z.of_nat k → (k ≤ n)%nat →
  ∃ x, wday_loop (S n) t wday hour min = Ok x ∧ least (tm_key t) wday_fires x.
Proof.
  revert n t. induction k as [|k IH]; intros n t Ht Hh Hm Hk Hn;
    (destruct (wday_loop_turn n t) as [?|(E & H0 & Hl)];
      [destruct Ht; split_and!; (done || lia)|done|]).
  - destruct H0; lia.
  - destruct (next_day_ok t (proj1 Ht)) as (Hok & Hh' & Hm').
    destruct n as [|n]; [lia|]. destruct (IH n (next_day t)) as (x & Ex & Hx); [done..| |lia|].
    + rewrite next_days_ahead by apply Ht. case_match; lia.
    + exists x. rewrite E. auto.
Qed.

(** After the first day the search starts at midnights. *)
Lemma wday_loop_rest t :
  date_ok t →
  ∃ x, wday_loop 7 (next_day t) wday hour min = Ok x ∧ least (tm_key (next_day t)) wday_fires x.
Proof.
  intros Hd. destruct (next_day_ok t Hd) as (Hok & Hh & Hm).
  apply (wday_loop_midnight (Z.to_nat (days_ahead (next_day t))) 6); [done..|unfold days_ahead; lia|unfold days_ahead; lia].
Qed.

Lemma wday_loop_least t :
  start_ok min t → ∃ x, wday_loop 8 t wday hour min = Ok x ∧ least (tm_key t) wday_fires x.
Proof.
  intros Ht. destruct (wday_loop_turn 7 t Ht) as [?|(E & _ & Hl)]; [done|].
  destruct (wday_loop_rest t (proj1 Ht)) as (x & Ex & Hx). exists x. rewrite E. auto.
Qed.
End Weekday.

(** The time [cronemu_wday] computes is the first one after the current minute that
    falls on the weekday (0 and 7 are both Sunday) and matches hour and minute; it is found
    in at most eight turns.  The last minute of an hour is again the exception when any
    minute matches. *)
Theorem cronemu_wday_first_match now wday hour min :
  request_ok (-1) (-1) hour min → 0 ≤ wday ≤ 7 → tm_ok now → (min = -1 → tm_min now < 59) →
  ∃ t, cronemu_wday now wday hour min = Ok t ∧ wday_fires (wday mod 7) hour min t ∧
    tm_key now < tm_key t ∧
    ∀ x, wday_fires (wday mod 7) hour min x → tm_key now < tm_key x → tm_key t ≤ tm_key x.
Proof.
  intros Hrq Hw Hnow Hmin. set (t0 := set_min now (tm_min now + 1)).
  assert (start_ok min t0) as Ht0
    by (destruct now; subst t0; unfold start_ok, tm_ok, date_ok in *; cbn in *; lia).
  assert (tm_key t0 = tm_key now + 1) as Hk by (destruct now; unfold tm_key; cbn; lia).
  destruct (wday_loop_least (wday mod 7) hour min Hrq ltac:(lia) t0 Ht0) as (x & E & Hx & Hlo & Hl).
  exists x. unfold cronemu_wday. fold t0.
  replace (if wday =? 7 then 0 else wday) with (wday mod 7) by (case_match; lia).
  rewrite E. cbn [res_bind mbind].
  rewrite mktime_id by apply Hx. split_and!; [done..|lia|]. intros y Hy Hky. apply Hl; [done|lia].
Qed.

Lemma cronemu_wday_first_match_witness :
  ∃ t, cronemu_wday (mkTm 2024 11 31 23 59) 7 (-1) 15 = Ok t ∧ wday_fires (7 mod 7) (-1) 15 t.
Proof.
  destruct (cronemu_wday_first_match (mkTm 2024 11 31 23 59) 7 (-1) 15) as (t & H1 & H2 & _);
    [split; lia|lia|vm_compute; intuition discriminate|lia|].
  exact (ex_intro _ t (conj H1 H2)).
Defined.

(** ** Every interval a job can have gives a time

    A day that the month does not have is found too: it becomes a day of the next month
    in the last [mktime]. *)

Section Total.
Context (mon mday hour min : Z)
  (Hmon : -1 ≤ mon ≤ 11) (Hmday : mday = -1 ∨ 1 ≤ mday ≤ 31) (Hhour : -1 ≤ hour ≤ 23) (Hmin : -1 ≤ min ≤ 59).

Lemma mktime_min_zero t : tm_min t = 0 → tm_min (mktime t) = 0.
Proof. intros H. unfold mktime. rewrite H. by destruct (norm_days 3 _ _ _) as [[? ?] ?]. Qed.
Lemma mktime_midnight t : tm_hour t = 0 → tm_min t = 0 → tm_hour (mktime t) = 0.
Proof. intros H1 H2. unfold mktime. rewrite H1, H2. by destruct (norm_days 3 _ _ _) as [[? ?] ?]. Qed.
Lemma mktime_month y m : mktime (mkTm y m 1 0 0) = mkTm (y + m / 12) (m mod 12) 1 0 0.
Proof.
  unfold mktime. cbn -[days_in_month Z.div Z.modulo]. change (0 / 60) with 0. change (1 + 0 / 24) with 1.
  pose proof (days_in_month_range (y + m / 12) (m mod 12)). by rewrite (proj2 (Z.leb_le 1 _)) by lia.
Qed.

Lemma cronemu_min_zero t : tm_min t = 0 → ∃ x, cronemu_min t min = (true, x).
Proof.
  intros Hm. unfold cronemu_min. rewrite Hm.
  destruct (Z.eqb_spec min (-1)), (Z.ltb_spec min 0), (Z.ltb_spec 0 min); try lia; eauto.
Qed.

Lemma hour_loop_total n t : ∃ r, hour_loop (S (S n)) t min = Ok r.
Proof.
  remember (S n) as n'. cbn [hour_loop]. destruct (cronemu_min t min) as [[] w]; [eauto|].
  case_match; [|eauto]. subst n'. cbn [hour_loop].
  destruct (cronemu_min_zero (mktime (set_hour w (tm_hour w + 1) 0))) as [x ->]; [by apply mktime_min_zero|eauto].
Qed.

Lemma cronemu_hour_total t :
  ∃ ok x, cronemu_hour t hour min = Ok (ok, x) ∧ (tm_hour t = 0 → tm_min t = 0 → ok = true).
Proof.
  unfold cronemu_hour. destruct (Z.eqb_spec hour (-1)).
  - destruct (hour_loop_total 23 t) as [[ok w] E]. rewrite E. do 2 eexists. split; [done|]. intros _ Hm.
    remember 24%nat as k. cbn [hour_loop] in E. destruct (cronemu_min_zero t Hm) as [x Hx]. rewrite Hx in E. by simplify_eq.
  - destruct (Z.ltb_spec hour (tm_hour t)); [do 2 eexists; split; [done|lia]|].
    destruct (cronemu_min _ min) as [ok w] eqn:E. do 2 eexists. split; [done|]. intros Hh Hm.
    destruct (cronemu_min_zero (if tm_hour t <? hour then set_hour t hour 0 else t)) as [x Hx]; [by case_match|].
    rewrite Hx in E. by simplify_eq.
Qed.

Lemma mday_loop_total n t : ∃ r, mday_loop (S (S n)) t hour min = Ok r.
Proof.
  remember (S n) as n'. cbn [mday_loop]. destruct (cronemu_hour_total t) as ([] & w & -> & _); cbn; [eauto|].
  case_match; [|eauto]. subst n'. cbn [mday_loop].
  destruct (cronemu_hour_total (mktime (set_mday w (tm_mday w + 1) 0 0))) as (ok & x & -> & Hok).
  rewrite Hok; [cbn; eauto|by apply mktime_midnight|by apply mktime_min_zero].
Qed.

Lemma cronemu_mday_total t :
  ∃ ok x, cronemu_mday t mday hour min = Ok (ok, x) ∧
    (tm_mday t = 1 → tm_hour t = 0 → tm_min t = 0 → ok = true).
Proof.
  unfold cronemu_mday. destruct (Z.eqb_spec mday (-1)).
  - destruct (mday_loop_total 30 t) as [[ok w] E]. rewrite E. do 2 eexists. split; [done|]. intros _ Hh Hm.
    remember 31%nat as k. cbn [mday_loop] in E. destruct (cronemu_hour_total t) as (ok' & x & Hx & Hok).
    rewrite Hx, (Hok Hh Hm) in E. cbn in E. by simplify_eq.
  - destruct (Z.ltb_spec mday (tm_mday t)); [do 2 eexists; split; [done|lia]|].
    destruct (cronemu_hour_total (if tm_mday t <? mday then set_mday t mday 0 0 else t)) as (ok & x & -> & Hok).
    do 2 eexists. split; [done|]. intros _ Hh Hm. apply Hok; by case_match.
Qed.

Lemma mon_loop_total n t : ∃ r, mon_loop (S (S n)) t mday hour min = Ok r.
Proof.
  remember (S n) as n'. cbn [mon_loop]. destruct (cronemu_mday_total t) as ([] & w & -> & _); cbn -[mktime]; [eauto|].
  case_match; [|eauto]. subst n'. cbn [mon_loop]. unfold set_mon. rewrite mktime_month.
  destruct (cronemu_mday_total (mkTm (tm_year w + (tm_mon w + 1) / 12) ((tm_mon w + 1) mod 12) 1 0 0)) as (ok & x & -> & Hok).
  rewrite Hok by done. cbn. eauto.
Qed.

Lemma cronemu_mon_total t :
  ∃ ok x, cronemu_mon t mon mday hour min = Ok (ok, x) ∧
    (tm_mon t = 0 → tm_mday t = 1 → tm_hour t = 0 → tm_min t = 0 → ok = true).
Proof.
  unfold cronemu_mon. destruct (Z.eqb_spec mon (-1)).
  - destruct (mon_loop_total 11 t) as [[ok w] E]. rewrite E. do 2 eexists. split; [done|]. intros _ Hd Hh Hm.
    remember 12%nat as k. cbn [mon_loop] in E. destruct (cronemu_mday_total t) as (ok' & x & Hx & Hok).
    rewrite Hx, (Hok Hd Hh Hm) in E. cbn in E. by simplify_eq.
  - destruct (Z.ltb_spec mon (tm_mon t)); [do 2 eexists; split; [done|lia]|].
    destruct (cronemu_mday_total (if tm_mon t <? mon then set_mon t mon 1 0 0 else t)) as (ok & x & -> & Hok).
    do 2 eexists. split; [done|]. intros _ Hd Hh Hm. apply Hok; by case_match.
Qed.

Lemma cronemu_total now : ∃ t, cronemu now mon mday hour min = Ok t.
Proof.
  unfold cronemu. generalize (set_min now (tm_min now + 1)). intros t. cbn [year_loop].
  destruct (cronemu_mon_total t) as ([] & w & -> & _); cbn [mbind res_bind]; [eauto|].
  rewrite mktime_month. destruct (cronemu_mon_total (mkTm (tm_year w + 1 + 0 / 12) (0 mod 12) 1 0 0)) as (ok & x & -> & Hok).
  rewrite Hok by done. cbn. eauto.
Qed.
End Total.

Lemma cronemu_wday_total now wday hour min :
  -1 ≤ hour ≤ 23 → -1 ≤ min ≤ 59 → 0 ≤ wday ≤ 7 → tm_ok now →
  ∃ t, cronemu_wday now wday hour min = Ok t.
Proof.
  intros Hh Hm Hw Hnow. unfold cronemu_wday.
  assert (Hrq : request_ok (-1) (-1) hour min) by (split; lia).
  assert (Hw' : 0 ≤ (if wday =? 7 then 0 else wday) ≤ 6) by (case_match; lia).
  generalize dependent (if wday =? 7 then 0 else wday). clear wday Hw. intros wday Hw.
  set (t := set_min now (tm_min now + 1)).
  enough (∃ x, wday_loop 8 t wday hour min = Ok x) as [x ->] by (cbn; eauto).
  destruct (decide (min = -1)) as [->|Hne].
  2:{ destruct (wday_loop_least wday hour min Hrq Hw t) as (x & E & _); [|eauto].
      destruct now; subst t; unfold start_ok, tm_ok, date_ok in *; cbn in *; lia. }
  assert (date_ok t) as Hd by apply Hnow.
  assert (wday_loop 8 t wday hour (-1) = wday_loop 7 (next_day t) wday hour (-1) ∨
          ∃ x, wday_loop 8 t wday hour (-1) = Ok x) as [->|?]; [|destruct (wday_loop_rest wday hour (-1) Hrq Hw t Hd) as (x & ? & _); by exists x|done].
  remember 7%nat as n. cbn [wday_loop]. case_match; [|by left].
  unfold cronemu_hour. subst n. destruct (Z.eqb_spec hour (-1)); [right; eexists; reflexivity|].
  destruct (hour <? tm_hour t); [by left|right]. unfold cronemu_min. cbn. eauto.
Qed.

(** ** Every time is in the future

    Also where the search goes past its request, in minute 59 and for days that a month does
    not have. *)

Definition wide (t : tm) : Prop :=
  0 ≤ tm_mon t ≤ 11 ∧ 1 ≤ tm_mday t ≤ 31 ∧ 0 ≤ tm_hour t ≤ 23 ∧ 0 ≤ tm_min t ≤ 60.
Definition advances (t x : tm) : Prop := wide x ∧ tm_key t ≤ tm_key x.

Lemma advances_trans t x y : advances t x → advances x y → advances t y.
Proof. intros [_ H1] [Hy H2]. split; [done|lia]. Qed.

Lemma norm_days_later fuel y m d :
  0 ≤ m ≤ 11 → 1 ≤ d ≤ 28 * Z.of_nat fuel →
  let '(y', m', d') := norm_days fuel y m d in
  0 ≤ m' ≤ 11 ∧ 1 ≤ d' ≤ days_in_month y' m' ∧
  y * 10 ^ 4 + m * 100 + d ≤ y' * 10 ^ 4 + m' * 100 + d'.
Proof.
  revert y m d. induction fuel as [|fuel IH]; intros y m d Hm Hd; [lia|]. cbn [norm_days].
  pose proof (days_in_month_range y m). destruct (Z.leb_spec d (days_in_month y m)); [lia|].
  destruct (Z.eqb_spec m 11) as [->|Hne].
  - specialize (IH (y + 1) 0 (d - days_in_month y 11) ltac:(lia) ltac:(lia)).
    destruct (norm_days fuel _ _ _) as [[y' m'] d']. lia.
  - specialize (IH y (m + 1) (d - days_in_month y m) ltac:(lia) ltac:(lia)).
    destruct (norm_days fuel _ _ _) as [[y' m'] d']. lia.
Qed.

Lemma mktime_later t :
  0 ≤ tm_mon t ≤ 12 → 1 ≤ tm_mday t ≤ 32 → 0 ≤ tm_hour t ≤ 24 → 0 ≤ tm_min t ≤ 60 →
  tm_ok (mktime t) ∧ tm_key t ≤ tm_key (mktime t).
Proof.
  destruct t as [y m d h mi]. cbn [tm_year tm_mon tm_mday tm_hour tm_min]. intros Hm Hd Hh Hmi. unfold mktime.
  cbn [tm_year tm_mon tm_mday tm_hour tm_min].
  pose proof (norm_days_later 3 (y + m / 12) (m mod 12) (d + (h + mi / 60) / 24) ltac:(lia) ltac:(lia)) as Hn.
  destruct (norm_days 3 _ _ _) as [[y' m'] d']. unfold tm_ok, date_ok, tm_key. cbn [tm_year tm_mon tm_mday tm_hour tm_min]. lia.
Qed.

Lemma tm_ok_wide t : tm_ok t → wide t.
Proof. intros ((H1 & H2) & H3 & H4). pose proof (days_in_month_range (tm_year t) (tm_mon t)). unfold wide. lia. Qed.

Ltac advance :=
  unfold advances, wide, tm_key, set_min, set_hour, set_mday, set_mon in *;
  cbn [tm_year tm_mon tm_mday tm_hour tm_min] in *; lia.

(** A carry to the next hour, day, month or year. *)
Lemma mktime_advances t w :
  0 ≤ tm_mon w ≤ 12 → 1 ≤ tm_mday w ≤ 32 → 0 ≤ tm_hour w ≤ 24 → 0 ≤ tm_min w ≤ 60 →
  tm_key t ≤ tm_key w → advances t (mktime w).
Proof.
  intros H1 H2 H3 H4 Hk. destruct (mktime_later w H1 H2 H3 H4) as [Hok Hl].
  split; [by apply tm_ok_wide|lia].
Qed.

Section Later.
Context (mon mday hour min : Z)
  (Hmon : -1 ≤ mon ≤ 11) (Hmday : mday = -1 ∨ 1 ≤ mday ≤ 31) (Hhour : -1 ≤ hour ≤ 23) (Hmin : -1 ≤ min ≤ 59).

Lemma min_advances t : wide t → advances t (cronemu_min t min).2.
Proof.
  intros Ht. unfold cronemu_min. destruct t. cbn [tm_min].
  destruct (min =? -1) eqn:?; [|destruct (min <? _) eqn:?; [|destruct (_ <? min) eqn:?]]; cbn [snd]; advance.
Qed.

Lemma hour_loop_advances n t ok x : wide t → hour_loop n t min = Ok (ok, x) → advances t x.
Proof.
  revert t. induction n as [|n IH]; intros t Ht; cbn [hour_loop]; [done|].
  pose proof (min_advances t Ht) as Hw. destruct (cronemu_min t min) as [[] w]; cbn [snd] in Hw; [by intros [= _ <-]|].
  assert (advances t (mktime (set_hour w (tm_hour w + 1) 0))) as Ha by (apply mktime_advances; destruct w; advance).
  case_match; [|by intros [= _ <-]]. intros Hl. eapply advances_trans; [exact Ha|]. apply IH; [apply Ha|done].
Qed.

Lemma hour_advances t ok x : wide t → cronemu_hour t hour min = Ok (ok, x) → advances t x.
Proof.
  intros Ht. unfold cronemu_hour. destruct (Z.eqb_spec hour (-1)).
  - destruct (hour_loop 25 t min) as [[o w]|[]| |] eqn:E; cbn; try done. intros [= <- <-].
    destruct o; [by eapply hour_loop_advances|by split].
  - destruct (hour <? tm_hour t); [by intros [= _ <-]|]. intros [= E].
    assert (advances t (if tm_hour t <? hour then set_hour t hour 0 else t)) as Ha
      by (destruct (Z.ltb_spec (tm_hour t) hour); destruct t; advance).
    eapply advances_trans; [exact Ha|]. replace x with (cronemu_min (if tm_hour t <? hour then set_hour t hour 0 else t) min).2
      by (by rewrite E). apply min_advances, Ha.
Qed.

Lemma mday_loop_advances n t ok x : wide t → mday_loop n t hour min = Ok (ok, x) → advances t x.
Proof.
  revert t. induction n as [|n IH]; intros t Ht; cbn [mday_loop]; [done|].
  destruct (cronemu_hour t hour min) as [[o w]|[]| |] eqn:E; cbn [mbind res_bind]; try done.
  pose proof (hour_advances t o w Ht E) as Hw. destruct o; [by intros [= _ <-]|].
  assert (advances t (mktime (set_mday w (tm_mday w + 1) 0 0))) as Ha by (apply mktime_advances; destruct w; advance).
  case_match; [|by intros [= _ <-]]. intros Hl. eapply advances_trans; [exact Ha|]. apply IH; [apply Ha|done].
Qed.

Lemma mday_advances t ok x : wide t → cronemu_mday t mday hour min = Ok (ok, x) → advances t x.
Proof.
  intros Ht. unfold cronemu_mday. destruct (Z.eqb_spec mday (-1)).
  - destruct (mday_loop 32 t hour min) as [[o w]|[]| |] eqn:E; cbn; try done. intros [= <- <-].
    destruct o; [by eapply mday_loop_advances|by split].
  - destruct (mday <? tm_mday t); [by intros [= _ <-]|].
    assert (advances t (if tm_mday t <? mday then set_mday t mday 0 0 else t)) as Ha
      by (destruct (Z.ltb_spec (tm_mday t) mday); destruct t; advance).
    intros E. eapply advances_trans; [exact Ha|]. eapply hour_advances; [apply Ha|exact E].
Qed.

Lemma mon_loop_advances n t ok x : wide t → mon_loop n t mday hour min = Ok (ok, x) → advances t x.
Proof.
  revert t. induction n as [|n IH]; intros t Ht; cbn [mon_loop]; [done|].
  destruct (cronemu_mday t mday hour min) as [[o w]|[]| |] eqn:E; cbn [mbind res_bind]; try done.
  pose proof (mday_advances t o w Ht E) as Hw. destruct o; [by intros [= _ <-]|].
  assert (advances t (mktime (set_mon w (tm_mon w + 1) 1 0 0))) as Ha by (apply mktime_advances; destruct w; advance).
  case_match; [|by intros [= _ <-]]. intros Hl. eapply advances_trans; [exact Ha|]. apply IH; [apply Ha|done].
Qed.

Lemma mon_advances t ok x : wide t → cronemu_mon t mon mday hour min = Ok (ok, x) → advances t x.
Proof.
  intros Ht. unfold cronemu_mon. destruct (Z.eqb_spec mon (-1)).
  - destruct (mon_loop 13 t mday hour min) as [[o w]|[]| |] eqn:E; cbn; try done. intros [= <- <-].
    destruct o; [by eapply mon_loop_advances|by split].
  - destruct (mon <? tm_mon t); [by intros [= _ <-]|].
    assert (advances t (if tm_mon t <? mon then set_mon t mon 1 0 0 else t)) as Ha
      by (destruct (Z.ltb_spec (tm_mon t) mon); destruct t; advance).
    intros E. eapply advances_trans; [exact Ha|]. eapply mday_advances; [apply Ha|exact E].
Qed.

Lemma year_loop_advances n t x : wide t → year_loop n t mon mday hour min = Ok x → advances t x.
Proof.
  revert t. induction n as [|n IH]; intros t Ht; cbn [year_loop]; [done|].
  destruct (cronemu_mon t mon mday hour min) as [[o w]|[]| |] eqn:E; cbn [mbind res_bind]; try done.
  pose proof (mon_advances t o w Ht E) as Hw. destruct o; [by intros [= <-]|].
  assert (advances t (mktime (mkTm (tm_year w + 1) 0 1 0 0))) as Ha by (apply mktime_advances; destruct w; advance).
  intros Hl. eapply advances_trans; [exact Ha|]. apply IH; [apply Ha|done].
Qed.

Lemma wday_loop_advances wday n t x : wide t → wday_loop n t wday hour min = Ok x → advances t x.
Proof.
  revert t. induction n as [|n IH]; intros t Ht; cbn [wday_loop]; [done|].
  destruct (if tm_wday t =? wday then cronemu_hour t hour min else Ok (false, t)) as [[o w]|[]| |] eqn:E; cbn [mbind res_bind]; try done.
  assert (advances t w) as Hw by (case_match; [by eapply hour_advances|injection E as <- <-; by split]).
  destruct o; [by intros [= <-]|].
  assert (advances t (mktime (set_mday w (tm_mday w + 1) 0 0))) as Ha by (apply mktime_advances; destruct w; advance).
  intros Hl. eapply advances_trans; [exact Ha|]. apply IH; [apply Ha|done].
Qed.

(** The end of both searches. *)
Lemma start_advances now x :
  tm_ok now → advances (set_min now (tm_min now + 1)) x → tm_ok (mktime x) ∧ tm_key now < tm_key (mktime x).
Proof.
  intros Hnow [(H1 & H2 & H3 & H4) Hk]. destruct (mktime_later x) as [Hok Hl]; [lia..|]. split; [done|].
  destruct now. unfold tm_key in *. unfold set_min in Hk. cbn [tm_year tm_mon tm_mday tm_hour tm_min] in *. lia.
Qed.

Lemma start_wide now : tm_ok now → wide (set_min now (tm_min now + 1)).
Proof.
  intros Hnow. pose proof (tm_ok_wide now Hnow). destruct Hnow as (_ & _ & Hm). destruct now. advance.
Qed.

Lemma cronemu_later now t :
  tm_ok now → cronemu now mon mday hour min = Ok t → tm_ok t ∧ tm_key now < tm_key t.
Proof.
  intros Hnow. unfold cronemu. destruct (year_loop 2 _ _ _ _ _) as [x|[]| |] eqn:E; cbn [mbind res_bind]; try done.
  intros [= <-]. apply start_advances; [done|]. eapply year_loop_advances; [by apply start_wide|done].
Qed.

Lemma cronemu_wday_later now wday t :
  tm_ok now → cronemu_wday now wday hour min = Ok t → tm_ok t ∧ tm_key now < tm_key t.
Proof.
  intros Hnow. unfold cronemu_wday. destruct (wday_loop 8 _ _ _ _) as [x|[]| |] eqn:E; cbn [mbind res_bind]; try done.
  intros [= <-]. apply start_advances; [done|]. eapply wday_loop_advances; [by apply start_wide|done].
Qed.
End Later.

(** ** What the search gives *)

(** A search that succeeds at once. *)
Lemma hour_here t hour : matches (tm_hour t) hour → cronemu_hour t hour (-1) = Ok (true, t).
Proof.
  intros [->|<-]; [done|]. unfold cronemu_hour. destruct (Z.eqb_spec (tm_hour t) (-1)); [done|].
  by rewrite Z.ltb_irrefl.
Qed.

Lemma mday_here t mday hour min w :
  matches (tm_mday t) mday → cronemu_hour t hour min = Ok (true, w) → cronemu_mday t mday hour min = Ok (true, w).
Proof.
  intros [->|<-] E; unfold cronemu_mday; [|destruct (Z.eqb_spec (tm_mday t) (-1)); [|by rewrite Z.ltb_irrefl]].
  all: remember 31%nat as n; cbn [Z.eqb mday_loop]; try rewrite Z.eqb_refl; cbn [mday_loop]; by rewrite E.
Qed.

Lemma mon_here t mon mday hour min w :
  matches (tm_mon t) mon → cronemu_mday t mday hour min = Ok (true, w) → cronemu_mon t mon mday hour min = Ok (true, w).
Proof.
  intros [->|<-] E; unfold cronemu_mon; [|destruct (Z.eqb_spec (tm_mon t) (-1)); [|by rewrite Z.ltb_irrefl]].
  all: remember 12%nat as n; cbn [Z.eqb mon_loop]; try rewrite Z.eqb_refl; cbn [mon_loop]; by rewrite E.
Qed.

Lemma cronemu_here now mon mday hour min w :
  cronemu_mon (set_min now (tm_min now + 1)) mon mday hour min = Ok (true, w) →
  cronemu now mon mday hour min = Ok (mktime w).
Proof. intros E. unfold cronemu. cbn [year_loop]. by rewrite E. Qed.

(** In minute 59, when any minute will do: the minute becomes 60. *)
Lemma cronemu_minute_60 now mon mday hour :
  tm_min now = 59 → matches (tm_mon now) mon → matches (tm_mday now) mday → matches (tm_hour now) hour →
  cronemu now mon mday hour (-1) = Ok (mktime (set_min now 60)).
Proof.
  intros Hm H1 H2 H3. apply cronemu_here. rewrite Hm. change (59 + 1) with 60.
  apply mon_here; [done|]. apply mday_here; [done|]. by apply hour_here.
Qed.

(** A day the month does not have is counted into the next month. *)
Lemma cronemu_missing_day now mon mday hour min t :
  -1 ≤ hour ≤ 23 → -1 ≤ min ≤ 59 → mday ≤ 31 → tm_ok now → matches (tm_mon now) mon →
  days_in_month (tm_year now) (tm_mon now) < mday → cronemu now mon mday hour min = Ok t →
  tm_mday t = mday - days_in_month (tm_year now) (tm_mon now).
Proof.
  intros Hh Hmi Hd Hnow Hmon Hlt. pose proof Hnow as ((Hm & Hday) & _ & _).
  set (w := mkTm (tm_year now) (tm_mon now) mday (if hour =? -1 then 0 else hour) (if min =? -1 then 0 else min)).
  rewrite (cronemu_here now mon mday hour min w).
  2:{ apply mon_here; [done|]. unfold cronemu_mday. cbn [tm_mday set_min].
      pose proof (days_in_month_range (tm_year now) (tm_mon now)).
      rewrite (proj2 (Z.eqb_neq _ _)), (proj2 (Z.ltb_ge _ _)), (proj2 (Z.ltb_lt _ _)) by lia.
      subst w. unfold cronemu_hour, cronemu_min, set_mday, set_min, set_hour. cbn [tm_year tm_mon tm_hour tm_min tm_mday].
      destruct (Z.eqb_spec hour (-1)) as [->|Hh']; cbn [hour_loop cronemu_min].
      - unfold cronemu_min. cbn [tm_min]. destruct (Z.eqb_spec min (-1)); [done|].
        rewrite (proj2 (Z.ltb_ge min 0)) by lia. destruct (Z.ltb_spec 0 min); [done|]. by replace min with 0 by lia.
      - rewrite (proj2 (Z.ltb_ge hour 0)) by lia. destruct (Z.ltb_spec 0 hour); [|replace hour with 0 by lia]; cbn [tm_min tm_hour];
        (destruct (Z.eqb_spec min (-1)); [done|]; rewrite (proj2 (Z.ltb_ge min 0)) by lia;
         destruct (Z.ltb_spec 0 min); [done|]; by replace min with 0 by lia). }
  intros [= <-]. subst w. unfold mktime. cbn [tm_year tm_mon tm_mday tm_hour tm_min].
  assert (0 ≤ (if hour =? -1 then 0 else hour) ≤ 23) by (destruct (Z.eqb_spec hour (-1)); lia).
  assert (0 ≤ (if min =? -1 then 0 else min) ≤ 59) by (destruct (Z.eqb_spec min (-1)); lia).
  rewrite (Z.div_small (if min =? -1 then _ else _)), Z.add_0_r, (Z.div_small (if hour =? -1 then _ else _)), Z.add_0_r by lia.
  rewrite (Z.div_small (tm_mon now)), (Z.mod_small (tm_mon now)), Z.add_0_r by lia. cbn [norm_days].
  rewrite (proj2 (Z.leb_gt _ _)) by lia. pose proof (days_in_month_range (tm_year now) (tm_mon now)).
  pose proof (days_in_month_range (tm_year now + 1) 0). pose proof (days_in_month_range (tm_year now) (tm_mon now + 1)).
  destruct (tm_mon now =? 11); by rewrite (proj2 (Z.leb_le _ _)) by lia.
Qed.

(** C37: the time [cronemu] computes for a [StartCalendarInterval], in a zone whose offset from
    Greenwich does not change.  For every request that a job can have, the search ends, within
    the next calendar year, with a time after the current minute.  When the requested day is
    at most the 28th and, if any minute will do, the current minute is not the 59th, that time
    matches the request and no matching time in between is missed.  The two conditions are
    needed.  When any minute will do and the current time is in minute 59 of an hour, a day and
    a month that match, the result is the beginning of the next hour, which does not match when
    an hour is requested.  When the current month matches and is too short for the requested
    day, the result is a day of the next month: the excess over the length of the month. *)
Theorem cronemu_first_match now mon mday hour min :
  -1 ≤ mon ≤ 11 → mday = -1 ∨ 1 ≤ mday ≤ 31 → -1 ≤ hour ≤ 23 → -1 ≤ min ≤ 59 → tm_ok now →
  ∃ t, cronemu now mon mday hour min = Ok t ∧ tm_ok t ∧ tm_key now < tm_key t ∧
    (mday ≤ 28 → (min = -1 → tm_min now < 59) →
      fires_at mon mday hour min t ∧
      ∀ x, fires_at mon mday hour min x → tm_key now < tm_key x → tm_key t ≤ tm_key x) ∧
    (min = -1 → tm_min now = 59 →
      matches (tm_mon now) mon → matches (tm_mday now) mday → matches (tm_hour now) hour →
      t = mktime (set_min now 60) ∧ (hour ≠ -1 → ¬ fires_at mon mday hour min t)) ∧
    (matches (tm_mon now) mon → days_in_month (tm_year now) (tm_mon now) < mday →
      tm_mday t = mday - days_in_month (tm_year now) (tm_mon now) ∧ ¬ fires_at mon mday hour min t).
Proof.
  intros Hmon Hmday Hhour Hmin Hnow. destruct (cronemu_total mon mday hour min Hmon Hmday Hhour Hmin now) as [t E].
  exists t. destruct (cronemu_later mon mday hour min Hmon Hmday Hhour Hmin now t Hnow E) as [Hok Hk]. split_and!; [done..| | |].
  - intros Hd Hm. destruct (cronemu_least now mon mday hour min) as (x & E' & Hf & _ & Hl); [split; lia|done|done|].
    rewrite E in E'. injection E' as ->. by split.
  - intros -> Hm H1 H2 H3. rewrite (cronemu_minute_60 now mon mday hour) in E by done. injection E as <-. split; [done|].
    intros Hne (_ & _ & Hh & _). destruct H3 as [|H3]; [done|]. destruct Hh as [|Hh]; [done|].
    unfold mktime in Hh. cbn [set_min tm_hour tm_min tm_year tm_mon tm_mday] in Hh.
    destruct (norm_days 3 _ _ _) as [[? ?] ?]. cbn [tm_hour] in Hh. change (60 / 60) with 1 in Hh. unfold matches in *. lia.
  - intros H1 Hlt. assert (tm_mday t = mday - days_in_month (tm_year now) (tm_mon now)) as Hd
      by (eapply cronemu_missing_day; eauto; lia). split; [done|]. intros (_ & _ & _ & Hm & _).
    pose proof (days_in_month_range (tm_year now) (tm_mon now)). destruct Hm; lia.
Qed.

(** The 28th of February from the last minutes of it; and the 31st, asked for in April. *)
Lemma cronemu_first_match_witness :
  (∃ t, cronemu (mkTm 2024 1 28 23 31) 1 28 (-1) 30 = Ok t ∧ fires_at 1 28 (-1) 30 t) ∧
  (∃ t, cronemu (mkTm 2024 3 10 8 0) (-1) 31 9 0 = Ok t ∧ ¬ fires_at (-1) 31 9 0 t).
Proof.
  split.
  - destruct (cronemu_first_match (mkTm 2024 1 28 23 31) 1 28 (-1) 30) as (t & H1 & _ & _ & H2 & _);
      [lia|lia|lia|lia|vm_compute; intuition discriminate|].
    exists t. split; [exact H1|]. apply H2; lia.
  - destruct (cronemu_first_match (mkTm 2024 3 10 8 0) (-1) 31 9 0) as (t & H1 & _ & _ & _ & _ & H2);
      [lia|lia|lia|lia|vm_compute; intuition discriminate|].
    exists t. split; [exact H1|]. apply H2; [left; reflexivity|reflexivity].
Defined.
