(* ===== verification/CalendarJobs.v ===== *)
(** * The calendar intervals of jobs ([src/src/launchd/src/core.c])

    A [StartCalendarInterval] dictionary is read into a request; the intervals of all jobs
    form one list sorted by the next time of each, whose head sets the kernel timer, and
    each job lists its own.  [cronemu] is that of [Calendar]. *)

From stdpp Require Import sorting.
From S2P Require Import Prelude LaunchData Calendar.

(** ** Reading a request *)

(** The fields of [struct tm] that a request uses; -1 is any value, and a [tm_sec] of -1
    marks a request that is not accepted. *)
Record when := mkWhen {
  w_sec : Z;
  w_min : Z;
  w_hour : Z;
  w_mday : Z;
  w_mon : Z;
  w_wday : Z;
}.

Definition LAUNCH_JOBKEY_CAL_MINUTE : list Z := cstr "Minute".
Definition LAUNCH_JOBKEY_CAL_HOUR : list Z := cstr "Hour".
Definition LAUNCH_JOBKEY_CAL_DAY : list Z := cstr "Day".
Definition LAUNCH_JOBKEY_CAL_WEEKDAY : list Z := cstr "Weekday".
Definition LAUNCH_JOBKEY_CAL_MONTH : list Z := cstr "Month".

Definition set_bad (w : when) : when := mkWhen (-1) (w_min w) (w_hour w) (w_mday w) (w_mon w) (w_wday w).

Definition calendarinterval_new_from_obj_dict_walk (obj : ldata) (key : list Z) (w : when) :
    res Empty_set when :=
  if negb (LAUNCH_DATA_INTEGER =? launch_data_get_type obj) then Ok (set_bad w) else
  val ← launch_data_get_integer obj;
  Ok (if val <? 0 then w
      else if strcasecmp_eq key LAUNCH_JOBKEY_CAL_MINUTE then
        if 59 <? val then set_bad w
        else mkWhen (w_sec w) (i32 val) (w_hour w) (w_mday w) (w_mon w) (w_wday w)
      else if strcasecmp_eq key LAUNCH_JOBKEY_CAL_HOUR then
        if 23 <? val then set_bad w
        else mkWhen (w_sec w) (w_min w) (i32 val) (w_mday w) (w_mon w) (w_wday w)
      else if strcasecmp_eq key LAUNCH_JOBKEY_CAL_DAY then
        if (val <? 1) || (31 <? val) then set_bad w
        else mkWhen (w_sec w) (w_min w) (w_hour w) (i32 val) (w_mon w) (w_wday w)
      else if strcasecmp_eq key LAUNCH_JOBKEY_CAL_WEEKDAY then
        if 7 <? val then set_bad w
        else mkWhen (w_sec w) (w_min w) (w_hour w) (w_mday w) (w_mon w) (i32 val)
      else if strcasecmp_eq key LAUNCH_JOBKEY_CAL_MONTH then
        if 12 <? val then set_bad w
        else mkWhen (w_sec w) (w_min w) (w_hour w) (w_mday w) (i32 val - 1) (w_wday w)
      else w).

(** The callback over the entries of the dictionary; it dereferences the value. *)
Fixpoint walk_entries (l : list (list Z * option ldata)) (w : when) : res Empty_set when :=
  match l with
  | [] => Ok w
  | (key, Some obj) :: l => w ← calendarinterval_new_from_obj_dict_walk obj key w; walk_entries l w
  | (_, None) :: _ => UB
  end.

(** ** The list of intervals *)

(** [struct calendarinterval], with its address. *)
Record calendarinterval := mkCi {
  ci_addr : Z;
  ci_job : Z;
  ci_when : when;
  ci_next : Z;
}.

(** [sorted_calendar_events], the [cal_intervals] of each job, [runtime_standby_cnt] and
    the time the kernel timer is set to. *)
Record cal_state := mkCal {
  cal_events : list calendarinterval;
  cal_intervals : gmap Z (list Z);
  cal_standby : Z;
  cal_timer : option Z;
}.

Definition job_intervals (st : cal_state) (j : Z) : list Z := default [] (cal_intervals st !! j).

(** The clock when a function runs: the local time, and its offset from Greenwich. *)
Record clock := mkClock {
  local_now : tm;
  gmt_off : Z;
}.

(** The time of the next run of a request. *)
Definition next_run (ck : clock) (w : when) : res Empty_set Z :=
  t ← cronemu (local_now ck) (w_mon w) (w_mday w) (w_hour w) (w_min w);
  let later := time_of (gmt_off ck) t in
  if w_wday w =? -1 then Ok later else
  t ← cronemu_wday (local_now ck) (w_wday w) (w_hour w) (w_min w);
  let otherlater := time_of (gmt_off ck) t in
  if w_mday w =? -1 then Ok otherlater
  else Ok (if later <? otherlater then later else otherlater).

(** The [LIST_FOREACH] with its insertions. *)
Fixpoint insert_event (ci : calendarinterval) (l : list calendarinterval) : list calendarinterval :=
  match l with
  | [] => [ci]
  | x :: l' => if ci_next ci <? ci_next x then ci :: l else x :: insert_event ci l'
  end.

Definition head_next (l : list calendarinterval) : option Z := ci_next <$> head l.

(** [kevent_ok]: whether [kevent_mod] sets the timer. *)
Definition calendarinterval_setalarm (ck : clock) (kevent_ok : bool) (st : cal_state) (ci : calendarinterval) :
    res Empty_set cal_state :=
  later ← next_run ck (ci_when ci);
  let ci := mkCi (ci_addr ci) (ci_job ci) (ci_when ci) later in
  let l := insert_event ci (cal_events st) in
  Ok (mkCal l (cal_intervals st) (cal_standby st)
        (if kevent_ok then head_next l else cal_timer st)).

(** [mem]: the answer of [calloc]. *)
Definition calendarinterval_new (ck : clock) (kevent_ok : bool) (mem : option Z) (st : cal_state) (j : Z) (w : when) :
    res Empty_set (bool * cal_state) :=
  match mem with
  | None => Ok (false, st)
  | Some a =>
      let ci := mkCi a j w 0 in
      let st := mkCal (cal_events st) (<[j := a :: job_intervals st j]> (cal_intervals st))
                  (cal_standby st) (cal_timer st) in
      st ← calendarinterval_setalarm ck kevent_ok st ci;
      Ok (true, mkCal (cal_events st) (cal_intervals st) (cal_standby st + 1) (cal_timer st))
  end.

Definition no_request : when := mkWhen 0 (-1) (-1) (-1) (-1) (-1).

Definition calendarinterval_new_from_obj (ck : clock) (kevent_ok : bool) (mem : option Z) (st : cal_state)
    (j : Z) (obj : option ldata) : res Empty_set (bool * cal_state) :=
  match obj with
  | None => Ok (false, st)
  | Some obj =>
      if negb (LAUNCH_DATA_DICTIONARY =? launch_data_get_type obj) then Ok (false, st) else
      l ← launch_data_dict_iterate obj;
      w ← walk_entries l no_request;
      if w_sec w =? -1 then Ok (false, st)
      else calendarinterval_new ck kevent_ok mem st j w
  end.

(** [SLIST_REMOVE] walks the list of the job to the element: without it, past the end. *)
Definition calendarinterval_delete (st : cal_state) (j a : Z) : res Empty_set cal_state :=
  if bool_decide (a ∈ job_intervals st j) then
    Ok (mkCal (filter (fun ci => ci_addr ci ≠ a) (cal_events st))
          (<[j := filter (fun b => b ≠ a) (job_intervals st j)]> (cal_intervals st))
          (cal_standby st - 1) (cal_timer st))
  else UB.

(** Whether [calendarinterval_sanity_check] raises SIGUSR1 at the time [now]. *)
Definition calendarinterval_sanity_check (st : cal_state) (now : Z) : bool :=
  match cal_events st with
  | ci :: _ => ci_next ci <? now
  | [] => false
  end.

Example cal_example :
  let ck := mkClock (mkTm 2024 1 28 13 30) 0 in
  let st := mkCal [] ∅ 0 None in
  ('(_, st) ← calendarinterval_new_from_obj ck true (Some 1) st 7
        (Some (LDict (dict_elems [(cstr "hour", LInteger 15)])));
   '(_, st) ← calendarinterval_new_from_obj ck true (Some 2) st 8
        (Some (LDict (dict_elems [(cstr "Minute", LInteger 45); (cstr "Hour", LInteger 13)])));
   Ok (map ci_job (cal_events st), cal_timer st)) =@{res Empty_set _} Ok ([8; 7], Some 1709127900).
Proof. vm_compute. reflexivity. Qed.

(** ** What is read *)

(** The value a request has for a key of the dictionary: negative values are ignored. *)
Definition field (name : list Z) (kvs : list (list Z * ldata)) : option Z :=
  match dict_map kvs !! lower name with
  | Some (LInteger n) => if n <? 0 then None else Some n
  | _ => None
  end.

(** An entry the walk refuses. *)
Definition out_of_range (name : list Z) (lo hi n : Z) (key : list Z) : bool :=
  strcasecmp_eq key name && ((n <? lo) || (hi <? n)).
Definition bad_entry (kv : list Z * ldata) : bool :=
  match kv.2 with
  | LInteger n =>
      negb (n <? 0) &&
      (out_of_range LAUNCH_JOBKEY_CAL_MINUTE 0 59 n kv.1 || out_of_range LAUNCH_JOBKEY_CAL_HOUR 0 23 n kv.1 ||
       out_of_range LAUNCH_JOBKEY_CAL_DAY 1 31 n kv.1 || out_of_range LAUNCH_JOBKEY_CAL_WEEKDAY 0 7 n kv.1 ||
       out_of_range LAUNCH_JOBKEY_CAL_MONTH 0 12 n kv.1)
  | _ => true
  end.

(** The request a dictionary without bad entries makes, on top of [w]. *)
Definition requested (kvs : list (list Z * ldata)) (w : when) : when :=
  mkWhen (w_sec w)
    (default (w_min w) (field LAUNCH_JOBKEY_CAL_MINUTE kvs))
    (default (w_hour w) (field LAUNCH_JOBKEY_CAL_HOUR kvs))
    (default (w_mday w) (field LAUNCH_JOBKEY_CAL_DAY kvs))
    (default (w_mon w) (Z.pred <$> field LAUNCH_JOBKEY_CAL_MONTH kvs))
    (default (w_wday w) (field LAUNCH_JOBKEY_CAL_WEEKDAY kvs)).

Lemma strcasecmp_decide a b : strcasecmp_eq a b = bool_decide (lower a = lower b).
Proof.
  destruct (strcasecmp_eq a b) eqn:E; symmetry; [by apply bool_decide_eq_true, strcasecmp_eq_spec|].
  apply bool_decide_eq_false. intros H%strcasecmp_eq_spec. by rewrite H in E.
Qed.

(** An entry and the rest. *)
Lemma field_cons name k v kvs :
  lower k ∉ lower_keys kvs →
  field name ((k, v) :: kvs) =
    if strcasecmp_eq k name then match v with LInteger n => if n <? 0 then None else Some n | _ => None end
    else field name kvs.
Proof.
  intros Hk. rewrite strcasecmp_decide. unfold field, dict_map. cbn [map list_to_map foldr fst snd].
  case_bool_decide as E.
  - rewrite <- E, lookup_insert_eq. done.
  - by rewrite lookup_insert_ne.
Qed.

Lemma field_absent name k kvs :
  lower k ∉ lower_keys kvs → strcasecmp_eq k name = true → field name kvs = None.
Proof.
  rewrite strcasecmp_decide. intros Hk E%bool_decide_eq_true. unfold field, dict_map.
  rewrite not_elem_of_list_to_map_1; [done|]. rewrite <- E. intros Hin. apply Hk. unfold lower_keys.
  by rewrite <- list_fmap_compose in Hin.
Qed.

(** A key is at most one of the five. *)
Definition cal_names : list (list Z) :=
  [LAUNCH_JOBKEY_CAL_MINUTE; LAUNCH_JOBKEY_CAL_HOUR; LAUNCH_JOBKEY_CAL_DAY; LAUNCH_JOBKEY_CAL_WEEKDAY;
   LAUNCH_JOBKEY_CAL_MONTH].

Lemma name_cases k :
  map (strcasecmp_eq k) cal_names ∈
    [[true; false; false; false; false]; [false; true; false; false; false]; [false; false; true; false; false];
     [false; false; false; true; false]; [false; false; false; false; true]; [false; false; false; false; false]].
Proof.
  rewrite list_elem_of_In. unfold cal_names, strcasecmp_eq. cbn [map].
  repeat match goal with
  | |- context [bytes_eqb (lower k) (lower ?n)] =>
      let E := fresh in
      destruct (bytes_eqb (lower k) (lower n)) eqn:E; [apply bytes_eqb_spec in E; try rewrite E; vm_compute;
        repeat first [left; reflexivity|right]|]
  end.
  do 5 right. left. reflexivity.
Qed.

(** One entry of the dictionary. *)
Lemma walk_entry k v kvs w :
  lower k ∉ lower_keys kvs →
  ∃ w', calendarinterval_new_from_obj_dict_walk v k w = Ok w' ∧
    if bad_entry (k, v) then w_sec w' = -1 else requested kvs w' = requested ((k, v) :: kvs) w ∧ w_sec w' = w_sec w.
Proof.
  intros Hk. unfold calendarinterval_new_from_obj_dict_walk, bad_entry, out_of_range, requested. rewrite !field_cons by done.
  cbn [fst snd].
  destruct v as [| | |n| | | | | |]; cbn [launch_data_get_type Z.eqb negb LAUNCH_DATA_INTEGER launch_data_get_integer];
    try (by eexists; split; [done|reflexivity]).
  pose proof (name_cases k) as Hn. unfold cal_names in Hn. cbn [map] in Hn.
  assert (Ha : Forall (fun name => strcasecmp_eq k name = true → field name kvs = None) cal_names)
    by (apply Forall_forall; intros name _; by apply field_absent).
  rewrite bind_Ok. eexists. split; [done|].
  unfold cal_names in *. rewrite !Forall_cons in Ha. destruct Ha as (Ha1 & Ha2 & Ha3 & Ha4 & Ha5 & _).
  destruct (Z.ltb_spec n 0) as [Hneg|Hneg]; cbn [negb andb].
  { split; [|done]. f_equal. all: case_match; [by rewrite ?Ha1, ?Ha2, ?Ha3, ?Ha4, ?Ha5 by done|done]. }
  rewrite list_elem_of_In in Hn. cbn [In] in Hn.
  revert Ha1 Ha2 Ha3 Ha4 Ha5. destruct Hn as [Hn|[Hn|[Hn|[Hn|[Hn|[Hn|[]]]]]]]; injection Hn as <- <- <- <- <-;
    intros Ha1 Ha2 Ha3 Ha4 Ha5; cbn [andb orb];
    rewrite ?orb_false_r, ?(proj2 (Z.ltb_ge n 0)) by done; cbn [orb];
    repeat case_match; try done; (split; [|done]);
    try rewrite Ha1 by done; try rewrite Ha2 by done; try rewrite Ha3 by done; try rewrite Ha4 by done;
    try rewrite Ha5 by done; cbn [default fmap option_fmap option_map w_sec w_min w_hour w_mday w_mon w_wday];
    rewrite ?i32_small by lia; done.
Qed.

Lemma walk_stays_bad l w w' : w_sec w = -1 → walk_entries l w = Ok w' → w_sec w' = -1.
Proof.
  revert w. induction l as [|[k [v|]] l IH]; intros w Hw; cbn [walk_entries]; [by intros [= <-]| |done].
  intros (w1 & E1 & E2)%bind_inv. apply (IH w1); [|done].
  unfold calendarinterval_new_from_obj_dict_walk in E1. case_match; [by simplify_eq|].
  apply bind_inv in E1 as (n & _ & E1). simplify_eq. repeat case_match; done.
Qed.

Lemma walk_spec kvs w :
  NoDup (lower_keys kvs) →
  ∃ w', walk_entries (map (fun kv => (kv.1, Some kv.2)) kvs) w = Ok w' ∧
    if existsb bad_entry kvs then w_sec w' = -1 else w' = requested kvs w.
Proof.
  revert w. induction kvs as [|[k v] kvs IH]; intros w Hnd.
  { exists w. split; [done|]. by destruct w. }
  cbn [lower_keys map fst snd walk_entries existsb] in *. apply NoDup_cons in Hnd as [Hk Hnd].
  destruct (walk_entry k v kvs w Hk) as (w1 & E1 & H1). destruct (IH w1 Hnd) as (w2 & E2 & H2).
  exists w2. rewrite E1, bind_Ok. split; [done|]. destruct (bad_entry (k, v)); cbn [orb].
  - by eapply walk_stays_bad.
  - case_match; [done|]. rewrite H2. apply H1.
Qed.

(** The requests that are accepted. *)
Record when_ok (w : when) : Prop := mkWhenOk {
  wo_sec : w_sec w = 0;
  wo_mon : -1 ≤ w_mon w ≤ 11;
  wo_mday : w_mday w = -1 ∨ 1 ≤ w_mday w ≤ 31;
  wo_hour : -1 ≤ w_hour w ≤ 23;
  wo_min : -1 ≤ w_min w ≤ 59;
  wo_wday : -1 ≤ w_wday w ≤ 7;
}.

Lemma field_entry name kvs n :
  field name kvs = Some n → 0 ≤ n ∧ ∃ k, (k, LInteger n) ∈ kvs ∧ strcasecmp_eq k name = true.
Proof.
  unfold field. destruct (dict_map kvs !! lower name) as [[| | |m| | | | | |]|] eqn:E; try done.
  destruct (Z.ltb_spec m 0); [done|]. intros [= ->]. split; [done|].
  unfold dict_map in E. apply elem_of_list_to_map_2, list_elem_of_In, in_map_iff in E as ([k v] & [= E1 ->] & Hin).
  exists k. rewrite list_elem_of_In. split; [done|]. rewrite strcasecmp_decide. by apply bool_decide_eq_true.
Qed.

Lemma field_range name lo hi kvs n :
  existsb bad_entry kvs = false →
  (∀ k m, 0 ≤ m → out_of_range name lo hi m k = true → bad_entry (k, LInteger m) = true) →
  field name kvs = Some n → lo ≤ n ≤ hi.
Proof.
  intros Hb Hname (Hn & k & Hk & E)%field_entry.
  destruct (decide (lo ≤ n ≤ hi)) as [|Hout]; [done|]. exfalso.
  assert (existsb bad_entry kvs = true) as Ht; [|by rewrite Ht in Hb].
  apply existsb_exists. exists (k, LInteger n). split; [by apply list_elem_of_In|].
  apply Hname; [done|]. unfold out_of_range. rewrite E. cbn.
  destruct (Z.ltb_spec n lo), (Z.ltb_spec hi n); (done || lia).
Qed.

Lemma requested_ok kvs : existsb bad_entry kvs = false → when_ok (requested kvs no_request).
Proof.
  intros Hb. pose proof (fun name lo hi n => field_range name lo hi kvs n Hb) as Hr.
  unfold bad_entry in Hr. cbn [fst snd] in Hr.
  assert (Hbad : ∀ m : Z, 0 ≤ m → negb (m <? 0) = true) by (intros m Hm; destruct (Z.ltb_spec m 0); [lia|done]).
  pose proof (Hr LAUNCH_JOBKEY_CAL_MINUTE 0 59) as H1. pose proof (Hr LAUNCH_JOBKEY_CAL_HOUR 0 23) as H2.
  pose proof (Hr LAUNCH_JOBKEY_CAL_DAY 1 31) as H3. pose proof (Hr LAUNCH_JOBKEY_CAL_WEEKDAY 0 7) as H4.
  pose proof (Hr LAUNCH_JOBKEY_CAL_MONTH 0 12) as H5. clear Hr.
  split; cbn [requested w_sec w_mon w_mday w_hour w_min w_wday no_request]; [done|..].
  all: match goal with |- context [field ?name ?l] => destruct (field name l) as [n|]; [|cbn; lia] end.
  1: specialize (H5 n). 2: specialize (H3 n). 3: specialize (H2 n). 4: specialize (H1 n). 5: specialize (H4 n).
  all: repeat match goal with H : ∀ _ : Z, (∀ _ _, _) → _ |- _ => clear H end.
  all: match goal with H : _ → _ → _ ≤ _ ≤ _ |- _ => ospecialize* H end; [|done|cbn; lia].
  all: intros k m Hm Ho; rewrite Hbad, Ho by done; by rewrite ?orb_true_r.
Qed.

Lemma new_from_dict ck kev mem st j kvs :
  dict_ok kvs →
  calendarinterval_new_from_obj ck kev mem st j (Some (LDict (dict_elems kvs))) =
    if existsb bad_entry kvs then Ok (false, st)
    else calendarinterval_new ck kev mem st j (requested kvs no_request).
Proof.
  intros [Hnd Hkeys]. unfold calendarinterval_new_from_obj.
  cbn [launch_data_get_type LAUNCH_DATA_DICTIONARY Z.eqb negb launch_data_dict_iterate Pos.eqb].
  rewrite iterate_dict_elems, bind_Ok by done. destruct (walk_spec kvs no_request Hnd) as (w & -> & Hw).
  rewrite bind_Ok. case_match; [by rewrite Hw|]. by subst w.
Qed.

(** A [StartCalendarInterval] dictionary is refused, without any change, exactly when a
    value is not an integer or one of the five keys is out of range; otherwise the request
    has the value of each key (whatever the case of its letters), any value for a missing
    key or a negative value, months counted from 0, and every field is in the range the
    search for the next time needs. *)
Theorem calendar_request_spec ck kev mem st j kvs :
  dict_ok kvs →
  calendarinterval_new_from_obj ck kev mem st j (Some (LDict (dict_elems kvs))) =
    (if existsb bad_entry kvs then Ok (false, st)
     else calendarinterval_new ck kev mem st j (requested kvs no_request)) ∧
  (existsb bad_entry kvs = false → when_ok (requested kvs no_request)).
Proof. intros H. split; [by apply new_from_dict|apply requested_ok]. Qed.

Lemma calendar_request_spec_witness :
  let kvs := [(cstr "hour", LInteger 9); (cstr "MONTH", LInteger 12); (cstr "Day", LInteger (-3))] in
  requested kvs no_request = mkWhen 0 (-1) 9 (-1) 11 (-1) ∧ when_ok (requested kvs no_request).
Proof.
  intros kvs. split; [reflexivity|].
  apply (calendar_request_spec (mkClock (mkTm 2024 1 1 0 0) 0) true None (mkCal [] ∅ 0 None) 0 kvs); [|reflexivity].
  split; [apply (bool_decide_unpack _); vm_compute; exact I|].
  apply (bool_decide_unpack _). vm_compute. exact I.
Defined.

(** ** The queue *)

(** The time of the next run exists for every accepted request. *)
Lemma next_run_total ck w : when_ok w → tm_ok (local_now ck) → ∃ t, next_run ck w = Ok t.
Proof.
  intros [_ Hmon Hmday Hhour Hmin Hwday] Hnow. unfold next_run.
  destruct (cronemu_total (w_mon w) (w_mday w) (w_hour w) (w_min w) Hmon Hmday Hhour Hmin (local_now ck)) as [t ->].
  rewrite bind_Ok. destruct (Z.eqb_spec (w_wday w) (-1)); [eauto|].
  destruct (cronemu_wday_total (local_now ck) (w_wday w) (w_hour w) (w_min w)) as [t' ->]; [lia..|done|].
  rewrite bind_Ok. case_match; eauto.
Qed.

(** The list is sorted, an interval is once in it and once in the list of its job, and each
    interval counts in [runtime_standby_cnt]. *)
Record cal_inv (base : Z) (st : cal_state) : Prop := mkCalInv {
  ci_sorted : StronglySorted Z.le (map ci_next (cal_events st));
  ci_nodup : NoDup (map ci_addr (cal_events st));
  ci_jobs : ∀ j a, a ∈ job_intervals st j ↔ ∃ ci, ci ∈ cal_events st ∧ ci_addr ci = a ∧ ci_job ci = j;
  ci_jobs_nodup : ∀ j, NoDup (job_intervals st j);
  ci_standby : cal_standby st = base + Z.of_nat (length (cal_events st));
}.

(** An interval goes after those that are due no later and before the others. *)
Lemma insert_event_split ci l :
  StronglySorted Z.le (map ci_next l) →
  ∃ l1 l2, l = l1 ++ l2 ∧ insert_event ci l = l1 ++ ci :: l2 ∧
    Forall (fun x => ci_next x ≤ ci_next ci) l1 ∧ Forall (fun x => ci_next ci < ci_next x) l2.
Proof.
  induction l as [|x l IH]; intros Hs; [by exists [], []|]. cbn [map] in Hs. apply StronglySorted_cons in Hs as [Hx Hs].
  cbn [insert_event]. destruct (Z.ltb_spec (ci_next ci) (ci_next x)) as [Hlt|Hge].
  - exists [], (x :: l). split_and!; [done..|]. constructor; [done|]. rewrite Forall_map in Hx.
    eapply Forall_impl; [apply Hx|]. cbn. lia.
  - destruct (IH Hs) as (l1 & l2 & -> & -> & H1 & H2). exists (x :: l1), l2. split_and!; [done..|by constructor|done].
Qed.

Lemma split_sorted ci l1 l2 :
  StronglySorted Z.le (map ci_next (l1 ++ l2)) →
  Forall (fun x => ci_next x ≤ ci_next ci) l1 → Forall (fun x => ci_next ci < ci_next x) l2 →
  StronglySorted Z.le (map ci_next (l1 ++ ci :: l2)).
Proof.
  induction l1 as [|x l1 IH]; cbn [app map]; intros Hs H1 H2.
  - constructor; [done|]. rewrite Forall_map. eapply Forall_impl; [done|]. cbn. lia.
  - apply StronglySorted_cons in Hs as [Hx Hs]. apply Forall_cons in H1 as [Hx1 H1].
    constructor; [by apply IH|]. rewrite Forall_map, Forall_app, Forall_cons in *. destruct Hx. auto.
Qed.

Lemma filter_sorted (P : calendarinterval → Prop) `{!∀ x, Decision (P x)} l :
  StronglySorted Z.le (map ci_next l) → StronglySorted Z.le (map ci_next (filter P l)).
Proof.
  induction l as [|x l IH]; [done|]. cbn [map]. intros [Hx Hs]%StronglySorted_cons.
  destruct (decide (P x)); [rewrite filter_cons_True by done; cbn; constructor; [auto|]|rewrite filter_cons_False by done; auto].
  rewrite Forall_map, Forall_forall in *. intros y [_ Hy]%list_elem_of_filter. auto.
Qed.

(** The operations on the queue, with what the system answers. *)
Inductive cal_op :=
  | OpNew (ck : clock) (kevent_ok : bool) (mem : option Z) (j : Z) (kvs : list (list Z * ldata))
  | OpDelete (j a : Z).

Definition cal_run (st : cal_state) (op : cal_op) : res Empty_set cal_state :=
  match op with
  | OpNew ck kevent_ok mem j kvs =>
      '(_, st) ← calendarinterval_new_from_obj ck kevent_ok mem st j (Some (LDict (dict_elems kvs))); Ok st
  | OpDelete j a => calendarinterval_delete st j a
  end.

(** [calloc] returns memory that is not in use; a job deletes an interval it has. *)
Definition op_ok (st : cal_state) (op : cal_op) : Prop :=
  match op with
  | OpNew ck _ mem _ kvs =>
      dict_ok kvs ∧ tm_ok (local_now ck) ∧ ∀ a, mem = Some a → a ∉ map ci_addr (cal_events st)
  | OpDelete j a => a ∈ job_intervals st j
  end.

Lemma job_intervals_insert ev m sb tmr j l j' :
  job_intervals (mkCal ev (<[j := l]> m) sb tmr) j' =
    if decide (j = j') then l else job_intervals (mkCal ev m sb tmr) j'.
Proof.
  unfold job_intervals. cbn. case_decide; [subst; by rewrite lookup_insert_eq|by rewrite lookup_insert_ne].
Qed.

Lemma new_spec base ck kev mem st j w :
  cal_inv base st → when_ok w → tm_ok (local_now ck) →
  (∀ a, mem = Some a → a ∉ map ci_addr (cal_events st)) →
  ∃ ok st', calendarinterval_new ck kev mem st j w = Ok (ok, st') ∧ cal_inv base st' ∧
    match mem with
    | None => ok = false ∧ st' = st
    | Some a => ok = true ∧ ∃ t l1 l2, next_run ck w = Ok t ∧
        cal_events st = l1 ++ l2 ∧ cal_events st' = l1 ++ mkCi a j w t :: l2 ∧
        Forall (fun x => ci_next x ≤ t) l1 ∧ Forall (fun x => t < ci_next x) l2 ∧
        (kev = true → cal_timer st' = head_next (cal_events st'))
    end.
Proof.
  intros [Hs Hn Hj Hjn Hb] Hw Hnow Hfresh. unfold calendarinterval_new.
  destruct mem as [a|]; [|by exists false, st]. specialize (Hfresh a eq_refl).
  destruct (next_run_total ck w Hw Hnow) as [t Ht]. unfold calendarinterval_setalarm. cbn [ci_when]. rewrite Ht, !bind_Ok.
  cbn [cal_events cal_intervals cal_standby cal_timer ci_addr ci_job ci_when].
  destruct (insert_event_split (mkCi a j w t) (cal_events st) Hs) as (l1 & l2 & Hl & -> & H1 & H2).
  do 2 eexists. split; [done|]. split; [|split; [done|]; exists t, l1, l2; split_and!; [done..|by intros ->]].
  assert (Hp : l1 ++ mkCi a j w t :: l2 ≡ₚ mkCi a j w t :: cal_events st) by (rewrite Hl; symmetry; apply Permutation_middle).
  split; cbn [cal_events cal_intervals cal_standby cal_timer].
  - apply split_sorted; [by rewrite <- Hl|done..].
  - rewrite (Permutation_map ci_addr Hp). cbn. by constructor.
  - intros j' b. rewrite job_intervals_insert. setoid_rewrite Hp. setoid_rewrite elem_of_cons.
    change (job_intervals (mkCal (l1 ++ mkCi a j w t :: l2) (cal_intervals st) (cal_standby st + 1) _) j') with (job_intervals st j').
    destruct (decide (j = j')) as [<-|Hne]; [rewrite elem_of_cons|]; rewrite Hj.
    + split; [intros [->|(ci & ? & ? & ?)]; [by exists (mkCi a j w t); auto|by exists ci; auto]|].
      intros (ci & [->|?] & <- & Hc); [by left|right; by exists ci].
    + split; [intros (ci & ? & ? & ?); by exists ci; auto|].
      intros (ci & [->|?] & <- & Hc); [done|by exists ci].
  - intros j'. rewrite job_intervals_insert. case_decide; [|apply Hjn]. subst j'. constructor; [|apply Hjn].
    rewrite Hj. intros (ci & Hin & <- & _). apply Hfresh. apply list_elem_of_In, in_map, list_elem_of_In, Hin.
  - rewrite Hp. cbn. lia.
Qed.

Lemma filter_addr_absent a l : a ∉ map ci_addr l → filter (fun ci => ci_addr ci ≠ a) l = l.
Proof.
  induction l as [|x l IH]; [done|]. cbn [map]. rewrite not_elem_of_cons. intros [Hx Hl].
  rewrite filter_cons_True by done. by rewrite IH.
Qed.

Lemma filter_addr_length ci l :
  NoDup (map ci_addr l) → ci ∈ l →
  S (length (filter (fun x => ci_addr x ≠ ci_addr ci) l)) = length l.
Proof.
  induction l as [|x l IH]; cbn [map]; intros Hn Hin; [by apply elem_of_nil in Hin|].
  apply NoDup_cons in Hn as [Hx Hn]. apply elem_of_cons in Hin as [->|Hin].
  - rewrite filter_cons_False by auto. by rewrite filter_addr_absent.
  - rewrite filter_cons_True; [cbn; by rewrite IH|]. intros E. apply Hx. rewrite E.
    apply list_elem_of_In, in_map, list_elem_of_In, Hin.
Qed.

Lemma filter_addr_nodup a l : NoDup (map ci_addr l) → NoDup (map ci_addr (filter (fun x => ci_addr x ≠ a) l)).
Proof.
  induction l as [|x l IH]; cbn [map]; [done|]. intros [Hx Hn]%NoDup_cons.
  destruct (decide (ci_addr x ≠ a)); [rewrite filter_cons_True by done; cbn; constructor; [|auto]|
    rewrite filter_cons_False by done; auto].
  intros Hin. apply Hx. rewrite list_elem_of_In, in_map_iff in *. destruct Hin as (y & Hy & Hin).
  exists y. split; [done|]. apply list_elem_of_In, list_elem_of_filter in Hin. apply list_elem_of_In, Hin.
Qed.

Lemma same_addr l x y : NoDup (map ci_addr l) → x ∈ l → y ∈ l → ci_addr x = ci_addr y → x = y.
Proof.
  induction l as [|z l IH]; cbn [map]; intros Hn Hx Hy E; [by apply elem_of_nil in Hx|].
  apply NoDup_cons in Hn as [Hz Hn].
  assert (∀ u, u ∈ l → ci_addr u ≠ ci_addr z) as Hne.
  { intros u Hu E'. apply Hz. rewrite <- E'. apply list_elem_of_In, in_map, list_elem_of_In, Hu. }
  apply elem_of_cons in Hx as [->|Hx]; apply elem_of_cons in Hy as [->|Hy]; [done| | |auto].
  - by destruct (Hne y).
  - by destruct (Hne x).
Qed.

Lemma delete_spec base st j a :
  cal_inv base st → a ∈ job_intervals st j →
  ∃ st', calendarinterval_delete st j a = Ok st' ∧ cal_inv base st' ∧
    cal_events st' = filter (fun x => ci_addr x ≠ a) (cal_events st).
Proof.
  intros [Hs Hn Hj Hjn Hb] Ha. unfold calendarinterval_delete. rewrite bool_decide_true by done.
  eexists. split; [done|]. split; [|done]. apply Hj in Ha as (ci & Hin & Ea & Ej).
  split; cbn [cal_events cal_intervals cal_standby cal_timer].
  - by apply filter_sorted.
  - by apply filter_addr_nodup.
  - intros j' b. rewrite job_intervals_insert. setoid_rewrite list_elem_of_filter.
    change (job_intervals (mkCal (filter _ _) (cal_intervals st) _ _) j') with (job_intervals st j').
    case_decide as E; [subst j'; rewrite list_elem_of_filter|]; rewrite Hj.
    + split; [intros (Hne & x & ? & <- & ?); by exists x|]. intros (x & [? ?] & <- & ?). split; [done|by exists x].
    + split; [|intros (x & [? ?] & ?); by exists x]. intros (x & Hx & <- & Hxj). exists x. split_and!; [|done..].
      intros E'. destruct E. rewrite <- Ej, <- Hxj. by rewrite (same_addr _ x ci Hn Hx Hin) by congruence.
  - intros j'. rewrite job_intervals_insert. case_decide; [apply NoDup_filter|]; apply Hjn.
  - subst a. pose proof (filter_addr_length ci _ Hn Hin). lia.
Qed.

(** Launchd's calendar queue.  Reading an interval from any dictionary and deleting one
    always end and keep the queue in order: it is sorted by the next time, an interval is
    once in it and once in the list of its own job, and the standby count follows its length.
    A new interval is due at the time computed for its request and goes behind those that are
    due no later; when the kernel takes the timer, it is set to the time of the head. *)
Theorem calendar_queue_ok base st op :
  cal_inv base st → op_ok st op →
  ∃ st', cal_run st op = Ok st' ∧ cal_inv base st' ∧
    match op with
    | OpNew ck kev (Some a) j kvs =>
        existsb bad_entry kvs = false →
        ∃ t l1 l2, next_run ck (requested kvs no_request) = Ok t ∧ cal_events st = l1 ++ l2 ∧
          cal_events st' = l1 ++ mkCi a j (requested kvs no_request) t :: l2 ∧
          Forall (fun x => ci_next x ≤ t) l1 ∧ Forall (fun x => t < ci_next x) l2 ∧
          (kev = true → cal_timer st' = head_next (cal_events st'))
    | OpNew _ _ None _ _ => st' = st
    | OpDelete _ a => cal_events st' = filter (fun x => ci_addr x ≠ a) (cal_events st)
    end.
Proof.
  destruct op as [ck kev mem j kvs|j a]; cbn [cal_run op_ok]; intros Hinv Hok.
  - destruct Hok as (Hd & Hnow & Hfresh). rewrite new_from_dict by done. destruct (existsb bad_entry kvs) eqn:Hb.
    { exists st. split; [done|]. split; [done|]. by destruct mem. }
    destruct (new_spec base ck kev mem st j (requested kvs no_request)) as (ok & st' & -> & Hinv' & Hm);
      [done|by apply requested_ok|done..|].
    exists st'. split; [done|]. split; [done|]. destruct mem as [a|]; [intros _|]; apply Hm.
  - by apply delete_spec.
Qed.

Lemma calendar_queue_ok_witness :
  let st := mkCal [mkCi 1 7 (mkWhen 0 0 15 (-1) (-1) (-1)) 1709132400] {[7 := [1]]} 1 (Some 1709132400) in
  let op := OpNew (mkClock (mkTm 2024 1 28 13 30) 0) true (Some 2) 8 [(cstr "Minute", LInteger 45)] in
  ∃ st', cal_run st op = Ok st' ∧ cal_inv 0 st'.
Proof.
  intros st op. destruct (calendar_queue_ok 0 st op) as (st' & H1 & H2 & _).
  - split; cbn.
    + repeat constructor.
    + apply NoDup_singleton.
    + intros j a. unfold job_intervals, st. cbn [cal_intervals cal_events]. setoid_rewrite list_elem_of_singleton.
      destruct (decide (j = 7)) as [->|Hne].
      * rewrite lookup_singleton_eq. cbn. rewrite list_elem_of_singleton. split; [intros ->; by eexists|by intros (ci & -> & <- & _)].
      * rewrite lookup_singleton_ne by done. cbn. split; [by intros ?%elem_of_nil|]. intros (ci & -> & _ & E). cbn in E. done.
    + intros j. unfold job_intervals, st. cbn [cal_intervals].
      destruct (decide (j = 7)) as [->|Hne]; [rewrite lookup_singleton_eq; apply NoDup_singleton|].
      rewrite lookup_singleton_ne by done. apply NoDup_nil_2.
    + reflexivity.
  - split; [|split].
    + split; [apply (bool_decide_unpack _); vm_compute; exact I|apply (bool_decide_unpack _); vm_compute; exact I].
    + vm_compute. intuition discriminate.
    + intros a [= <-]. cbn. rewrite list_elem_of_singleton. done.
  - exact (ex_intro _ st' (conj H1 H2)).
Defined.
