(* ===== verification/JobPolicy.v ===== *)
(** * When launchd starts a job ([src/src/launchd/src/core.c])

    The decisions of [job_dispatch]: whether a job is active, useless, to be kept alive, and
    the throttle of [job_start].  What the decision calls (removal, [fork], watching) is its
    outcome.  The resource limits of a job are here too. *)

From S2P Require Import Machine Prelude LaunchData.

(** ** The data *)

Inductive semaphore_reason :=
  | NETWORK_UP | NETWORK_DOWN | SUCCESSFUL_EXIT | FAILED_EXIT | CRASHED | DID_NOT_CRASH
  | OTHER_JOB_ENABLED | OTHER_JOB_DISABLED | OTHER_JOB_ACTIVE | OTHER_JOB_INACTIVE.

Record semaphoreitem := mkSemaphore {
  si_why : semaphore_reason;
  si_what : list Z;
}.

(** [struct machservice]: its port's receive status is what [mach_port_get_attributes]
    answers, [None] for a failure. *)
Record machservice := mkMachservice {
  ms_recv : bool;
  ms_isActive : bool;
  ms_msgcount : option Z;
}.

Record externalevent := mkEvent {
  ei_state : bool;
  ei_wanted_state : bool;
}.

(** What the decisions read of [struct job_s] and never write. *)
Record job_conf := mkConf {
  label : list Z;
  legacy_LS_job : bool;
  only_once : bool;
  anonymous : bool;
  legacy_mach_job : bool;
  inetcompat : bool;
  is_alias : bool;
  per_user : bool;
  min_run_time : Z;
  machservices : list machservice;
  events : list externalevent;
  semaphores : list semaphoreitem;
}.

(** And what changes while the job lives; [start_time] 0 is a job that never ran. *)
Record job_state := mkState {
  j_pid : Z;
  start_time : Z;
  last_exit_status : Z;
  j_port : Z;
  peruser_suspend_count : Z;
  awaiting_audit_session : bool;
  waiting4ok : bool;
  removal_pending : bool;
  shutdown_monitor : bool;
  checkedin : bool;
  did_exec : bool;
  crashed : bool;
  needs_kickoff : bool;
  start_pending : bool;
  ondemand : bool;
  priv_port_has_senders : bool;
  workaround9359725 : bool;
  unthrottle : bool;
}.

(** The job manager and the globals. *)
Record jobmgr := mkMgr {
  shutting_down : bool;
  has_parentmgr : bool;
  global_on_demand_cnt : Z;
}.

Record globals := mkGlobals {
  network_up : bool;
  launchd_apple_internal : bool;
  (** [job_find(NULL, what)], with the pid of the job it finds *)
  job_find : list Z → option Z;
  (** [time_of_mach_msg_return]; the absolute clock counts nanoseconds *)
  time_of_event : Z;
}.

(** ** The decisions *)

Definition EBADARCH : Z := 86.
Definition WEXITSTATUS (s : Z) : Z := Z.land (Z.shiftr s 8) 255.
Definition WIFEXITED (s : Z) : bool := Z.land s 127 =? 0.

Section Decisions.
Context (g : globals) (m : jobmgr) (c : job_conf).

Inductive active_reason := MonitoringShutdown | PidValid | PortHasSenders | ServiceActive.

Definition job_active (j : job_state) : option active_reason :=
  if negb (j_pid j =? 0) && shutdown_monitor j then Some MonitoringShutdown
  else if negb (j_pid j =? 0) then Some PidValid
  else if priv_port_has_senders j then Some PortHasSenders
  else if existsb (fun ms => negb (workaround9359725 j) && ms_recv ms && ms_isActive ms) (machservices c)
  then Some ServiceActive
  else None.

Definition job_useless (j : job_state) : bool :=
  if (legacy_LS_job c || only_once c) && negb (start_time j =? 0) then
    if legacy_LS_job c && negb (j_port j =? 0) then false else true
  else if removal_pending j then true
  else if shutdown_monitor j then false
  else if shutting_down m && negb (has_parentmgr m) then true
  else if legacy_mach_job c then
    match machservices c with
    | [] => true
    | _ :: _ => negb (checkedin j)
    end
  else negb (did_exec j) && (WEXITSTATUS (last_exit_status j) =? EBADARCH).

(** The cases of the switch on a semaphore; a case that only sets [wanted_state] falls
    through to the next one. *)
Definition semaphore_holds (j : job_state) (good_exit : bool) (si : semaphoreitem) : bool :=
  let network wanted := Bool.eqb (network_up g) wanted in
  let exited wanted := Bool.eqb good_exit wanted in
  let did_crash wanted := Bool.eqb (crashed j) wanted in
  let enabled wanted := Bool.eqb (match job_find g (si_what si) with Some _ => true | None => false end) wanted in
  let active wanted :=
    match job_find g (si_what si) with Some pid => Bool.eqb (negb (pid =? 0)) wanted | None => false end in
  match si_why si with
  | NETWORK_UP => network true
  | NETWORK_DOWN => network false
  | SUCCESSFUL_EXIT => exited true
  | FAILED_EXIT => exited false
  | CRASHED => did_crash true
  | DID_NOT_CRASH => did_crash false
  | OTHER_JOB_ENABLED => enabled true
  | OTHER_JOB_DISABLED => enabled false
  | OTHER_JOB_ACTIVE => active true
  | OTHER_JOB_INACTIVE => active false
  end.

Definition job_keepalive (j : job_state) : bool :=
  let good_exit := WIFEXITED (last_exit_status j) && (WEXITSTATUS (last_exit_status j) =? 0) in
  let is_not_kextd := launchd_apple_internal g || negb (bytes_eqb (label c) (cstr "com.apple.kextd")) in
  if shutting_down m then false
  else if (0 <? global_on_demand_cnt m) && is_not_kextd then false
  else if needs_kickoff j then false
  else if start_pending j then true
  else if negb (ondemand j) then true
  else if existsb (fun ms => match ms_msgcount ms with Some n => negb (n =? 0) | None => false end) (machservices c)
  then true
  else if existsb (fun ei => Bool.eqb (ei_state ei) (ei_wanted_state ei)) (events c) then true
  else existsb (semaphore_holds j good_exit) (semaphores c).

Definition NSEC_PER_SEC : Z := 1000000000.

(** What [job_start] comes to: nothing for an active job, ignoring it with a timer that
    retries in [delta] seconds, or the call of [fork]. *)
Inductive start_outcome :=
  | AlreadyStarted
  | Throttled (delta : Z)
  | Forks.

Definition job_start (j : job_state) : start_outcome :=
  match job_active j with
  | Some _ => AlreadyStarted
  | None =>
      let td := u64 (time_of_event g - start_time j) / NSEC_PER_SEC in
      if negb (start_time j =? 0) && (td <? min_run_time c) && negb (legacy_mach_job c) &&
         negb (inetcompat c) && negb (unthrottle j)
      then Throttled (min_run_time c - u32 td)
      else Forks
  end.

Inductive dispatch_outcome :=
  | NotDispatched
  | Removed
  | Suspended
  | Started (how : start_outcome)
  | Watched
  | StillActive (why : active_reason).

Definition job_dispatch (j : job_state) (kickstart : bool) : dispatch_outcome :=
  if awaiting_audit_session j then NotDispatched
  else if is_alias c then NotDispatched
  else if waiting4ok j then NotDispatched
  else match job_active j with
       | None =>
           if job_useless j then Removed
           else if per_user c && (0 <? peruser_suspend_count j) then Suspended
           else if kickstart || job_keepalive j then Started (job_start j)
           else Watched
       | Some why => StillActive why
       end.
End Decisions.

(** The fields of the job that the parent's side of [fork] sets, at the time [now] for the
    child [pid]. *)
Definition job_forked (c : job_conf) (j : job_state) (pid now : Z) : job_state :=
  mkState pid now (last_exit_status j) (j_port j) (peruser_suspend_count j)
    (awaiting_audit_session j) (waiting4ok j) (removal_pending j) (shutdown_monitor j)
    false false false false false
    (if needs_kickoff j then match semaphores c with [] => false | _ :: _ => ondemand j end else ondemand j)
    (priv_port_has_senders j) false false.

(** ** Resource limits *)

(** [struct limititem]; a limit that is not set is [None]. *)
Record limititem := mkLimit {
  li_which : Z;
  li_cur : option Z;
  li_max : option Z;
}.

Definition launchd_keys2limits : list (list Z * Z) :=
  [(cstr "Core", 4); (cstr "CPU", 0); (cstr "Data", 2); (cstr "FileSize", 1); (cstr "MemoryLock", 6);
   (cstr "NumberOfFiles", 8); (cstr "NumberOfProcesses", 7); (cstr "ResidentSetSize", 5); (cstr "Stack", 3)].

(** The search for the key in the table. *)
Definition find_limit (key : list Z) : option Z :=
  snd ∘ snd <$> list_find (fun kv => strcasecmp_eq kv.1 key = true) launchd_keys2limits.

Definition set_limit (hard : bool) (r : Z) (li : limititem) : limititem :=
  if hard then mkLimit (li_which li) (li_cur li) (Some r) else mkLimit (li_which li) (Some r) (li_max li).

(** The list with the first item for [w] changed, if there is one. *)
Fixpoint update_limit (hard : bool) (w r : Z) (l : list limititem) : option (list limititem) :=
  match l with
  | [] => None
  | li :: l =>
      if li_which li =? w then Some (set_limit hard r li :: l)
      else cons li <$> update_limit hard w r l
  end.

(** [mem]: whether [calloc] succeeds. *)
Definition limititem_update (hard mem : bool) (w r : Z) (l : list limititem) : bool * list limititem :=
  match update_limit hard w r l with
  | Some l => (true, l)
  | None => if mem then (true, set_limit hard r (mkLimit w None None) :: l) else (false, l)
  end.

Definition limititem_setup (hard mem : bool) (obj : ldata) (key : list Z) (l : list limititem) :
    res Empty_set (list limititem) :=
  if negb (launch_data_get_type obj =? LAUNCH_DATA_INTEGER) then Ok l else
  rl ← launch_data_get_integer obj;
  Ok (match find_limit key with
      | Some w => (limititem_update hard mem w (u64 rl) l).2
      | None => l
      end).

(** ** Starting and throttling *)

Section Throttle.
Context (c : job_conf).
Hypothesis Hmin : 0 ≤ min_run_time c < 2 ^ 32.

Definition throttled_kind : Prop := legacy_mach_job c = false ∧ inetcompat c = false.

Lemma elapsed_u64 now s : 0 ≤ s ≤ now → now < 2 ^ 64 → u64 (now - s) = now - s.
Proof. intros. unfold u64. apply Z.mod_small. lia. Qed.

(** The throttle, for an event that is not older than the start of the job. *)
Lemma job_start_spec g j :
  throttled_kind → job_active c j = None → unthrottle j = false →
  0 < start_time j ≤ time_of_event g → time_of_event g < 2 ^ 64 →
  job_start g c j =
    if time_of_event g <? start_time j + min_run_time c * NSEC_PER_SEC
    then Throttled (min_run_time c - (time_of_event g - start_time j) / NSEC_PER_SEC) else Forks.
Proof.
  intros [Hl Hi] Ha Hu Hs Ht. unfold job_start. rewrite Ha, Hl, Hi, Hu. cbn [negb andb].
  rewrite elapsed_u64 by lia. rewrite (proj2 (Z.eqb_neq _ _)) by lia. cbn [negb andb]. rewrite !andb_true_r.
  unfold NSEC_PER_SEC. set (d := time_of_event g - start_time j).
  destruct (Z.ltb_spec (d / 1000000000) (min_run_time c)), (Z.ltb_spec (time_of_event g) (start_time j + min_run_time c * 1000000000));
    try done; try lia.
  unfold u32. rewrite Z.mod_small by lia. done.
Qed.

(** A fork: its time, the time of the event that led to it, and whether the throttle was
    lifted. *)
Record fork := mkForkAt {
  f_time : Z;
  f_event : Z;
  f_unthrottled : bool;
}.

(** A job's life: dispatches, which may fork, and whatever else launchd does to the job.  Times
    are those of one clock of 64 bits that does not go back: the time of an event is read
    when its message arrives, that of a fork afterwards; but the message may have arrived
    before the last fork.  Nothing but a fork writes [start_time]; [unthrottle] can change at
    any time.  The second component lists the forks. *)
Inductive job_step : job_state * list fork → job_state * list fork → Prop :=
  | step_fork g m j forks kickstart pid now :
      job_dispatch g m c j kickstart = Started Forks → pid ≠ 0 →
      0 ≤ time_of_event g ≤ now → 0 < now < 2 ^ 64 →
      job_step (j, forks)
        (job_forked c j pid now, forks ++ [mkForkAt now (time_of_event g) (unthrottle j)])
  | step_no_fork g m j forks kickstart :
      job_dispatch g m c j kickstart ≠ Started Forks → job_step (j, forks) (j, forks)
  | step_else j j' forks :
      start_time j' = start_time j → job_step (j, forks) (j', forks).

(** What lets the fork [b] follow [a] without delay. *)
Definition excused (a b : fork) : Prop :=
  legacy_mach_job c = true ∨ inetcompat c = true ∨ f_unthrottled b = true ∨ f_event b < f_time a.

Definition apart (a b : fork) : Prop := f_time a + min_run_time c * NSEC_PER_SEC ≤ f_time b.

(** Of the forks each follows the one before it after the delay, or is excused. *)
Definition spaced (l : list fork) : Prop :=
  ∀ i a b, l !! i = Some a → l !! S i = Some b → apart a b ∨ excused a b.

Lemma spaced_snoc l x :
  spaced l → (∀ y, last l = Some y → apart y x ∨ excused y x) → spaced (l ++ [x]).
Proof.
  intros Hs Hl i a b Ha Hb. assert (S i ≤ length l)%nat as Hi.
  { apply lookup_lt_Some in Hb. rewrite length_app in Hb. cbn in Hb. lia. }
  rewrite lookup_app_l in Ha by lia. destruct (decide (S i = length l)) as [E|Hne].
  - rewrite E, list_lookup_middle in Hb by done. injection Hb as <-. apply Hl. rewrite last_lookup, <- E. done.
  - rewrite lookup_app_l in Hb by lia. by apply (Hs i).
Qed.

(** The life of the job: the last fork is [start_time], the forks are spaced, and a job that
    runs once has forked at most once. *)
Record life (j : job_state) (forks : list fork) : Prop := mkLife {
  life_last : start_time j = default 0 (f_time <$> last forks);
  life_pos : Forall (fun f => 0 < f_time f) forks;
  life_spaced : spaced forks;
  life_once : only_once c = true → legacy_LS_job c = false → (length forks ≤ 1)%nat;
}.

(** A dispatch that forks found the job inactive and worth starting. *)
Lemma dispatch_forks g m j kickstart :
  job_dispatch g m c j kickstart = Started Forks →
  job_active c j = None ∧ job_useless m c j = false ∧ job_start g c j = Forks ∧
  (kickstart = false → job_keepalive g m c j = true).
Proof.
  unfold job_dispatch. intros H. repeat (case_match; try done). simplify_eq. split_and!; [done..|].
  intros ->. done.
Qed.

(** A fork that nothing excuses comes after the delay. *)
Lemma fork_apart g j now a :
  job_active c j = None → job_start g c j = Forks → start_time j = f_time a → 0 < f_time a →
  0 ≤ time_of_event g ≤ now → now < 2 ^ 64 →
  let b := mkForkAt now (time_of_event g) (unthrottle j) in apart a b ∨ excused a b.
Proof.
  intros Ha Hst Hs Hpos Hn Hlt b. unfold apart, excused, b. cbn [f_time f_event f_unthrottled].
  destruct (legacy_mach_job c) eqn:Hl; [tauto|]. destruct (inetcompat c) eqn:Hi; [tauto|].
  destruct (unthrottle j) eqn:Hu; [tauto|]. destruct (Z.ltb_spec (time_of_event g) (f_time a)) as [|Hge]; [tauto|].
  left. rewrite (job_start_spec g j (conj Hl Hi) Ha Hu) in Hst by lia.
  destruct (Z.ltb_spec (time_of_event g) (start_time j + min_run_time c * NSEC_PER_SEC)); [done|lia].
Qed.

Lemma life_step s s' : job_step s s' → life s.1 s.2 → life s'.1 s'.2.
Proof.
  destruct 1 as [g m j forks kick pid now Hd Hpid Hn Hlt|g m j forks kick _|j j' forks Es];
    cbn [fst snd]; intros [Hlast Hp Hsp Ho]; [|done|split; (congruence || done)].
  destruct (dispatch_forks _ _ _ _ Hd) as (Ha & Hus & Hst & _).
  assert (Hyoung : ∀ y, last forks = Some y → start_time j = f_time y ∧ 0 < f_time y).
  { intros y Hy. rewrite Hlast, Hy. split; [done|]. rewrite Forall_forall in Hp. apply Hp. by apply last_Some_elem_of. }
  split; cbn [start_time job_forked].
  - by rewrite last_snoc.
  - apply Forall_app_2; [done|]. constructor; [cbn; lia|done].
  - apply spaced_snoc; [done|]. intros y Hy. destruct (Hyoung y Hy) as [Hys Hy0]. by apply fork_apart; [..|lia].
  - intros Honce Hls. destruct (last forks) as [y|] eqn:Hy.
    + exfalso. destruct (Hyoung y eq_refl) as [Hys Hy0]. unfold job_useless in Hus.
      rewrite Honce, Hls, (proj2 (Z.eqb_neq _ _)) in Hus by lia. done.
    + apply last_None in Hy as ->. cbn. lia.
Qed.
End Throttle.

(** C39: launchd does not respawn a job faster than its minimum run time, unless one of four
    things excuses it.  In every history of dispatches and other changes of a new job, for
    consecutive forks: the later one comes at least [min_run_time] seconds after the earlier
    one, or the job is a legacy Mach job, or it is an [inetd] job, or its throttle was lifted
    ([unthrottle] was set when it was started), or the event that led to the fork arrived before
    the earlier fork, so that the unsigned difference wrapped around.  A job configured to
    run once, which is not a legacy job of the login session, forks at most once. *)
Theorem respawn_throttled c j0 j forks :
  0 ≤ min_run_time c < 2 ^ 32 → start_time j0 = 0 →
  rtc (job_step c) (j0, []) (j, forks) →
  (∀ i a b, forks !! i = Some a → forks !! S i = Some b →
     f_time a + min_run_time c * NSEC_PER_SEC ≤ f_time b ∨
     legacy_mach_job c = true ∨ inetcompat c = true ∨ f_unthrottled b = true ∨ f_event b < f_time a) ∧
  (only_once c = true → legacy_LS_job c = false → (length forks ≤ 1)%nat).
Proof.
  intros Hmin Hs Hrun.
  assert (life c (j, forks).1 (j, forks).2) as [_ _ Hsp Ho].
  { apply (rtc_invariant (job_step c) (fun s => life c s.1 s.2) _ _ Hrun); [split; cbn; (done || lia)|].
    intros s s' Hst Hlife. by eapply life_step. }
  split; [exact Hsp|exact Ho].
Qed.

(** C40: a throttled job is started on time: [job_start] throttles exactly the jobs that
    started less than [min_run_time] seconds before the event, the delay it asks of the timer
    is between one second and the minimum run time, and the timer's dispatch at the end of
    the delay forks.  An event older than the start of the job, however, makes the unsigned
    difference wrap around, and the job is not throttled. *)
Theorem throttle_timer g m c j kickstart :
  0 ≤ min_run_time c < 2 ^ 32 → legacy_mach_job c = false → inetcompat c = false → unthrottle j = false →
  0 < start_time j < 2 ^ 62 → 0 ≤ time_of_event g < 2 ^ 62 →
  job_dispatch g m c j kickstart = Started (job_start g c j) →
  (start_time j ≤ time_of_event g →
     (job_start g c j = Forks ↔ start_time j + min_run_time c * NSEC_PER_SEC ≤ time_of_event g)) ∧
  (start_time j ≤ time_of_event g → ∀ d, job_start g c j = Throttled d →
     1 ≤ d ≤ min_run_time c ∧
     ∀ g', time_of_event g + d * NSEC_PER_SEC ≤ time_of_event g' < 2 ^ 64 →
       job_dispatch g' m c j true = Started Forks) ∧
  (time_of_event g < start_time j → job_start g c j = Forks).
Proof.
  intros Hmin Hl Hi Hu Hs Ht Hd.
  assert (Ha : job_active c j = None).
  { unfold job_dispatch in Hd. repeat (case_match; try done). }
  assert (Hkick : ∀ g', job_start g' c j = Forks → job_dispatch g' m c j true = Started Forks).
  { intros g' E. unfold job_dispatch in *. repeat (case_match; try done). cbn. by rewrite E. }
  split_and!.
  - intros Hle. rewrite (job_start_spec c Hmin g j (conj Hl Hi) Ha Hu) by lia. case_match eqn:E; split; try done; lia.
  - intros Hle d Hthr. pose proof Hthr as Hthr'. rewrite (job_start_spec c Hmin g j (conj Hl Hi) Ha Hu) in Hthr by lia.
    case_match eqn:E; [|done]. injection Hthr as <-. apply Z.ltb_lt in E. unfold NSEC_PER_SEC in *. split; [lia|].
    intros g' Hg'. apply Hkick. rewrite (job_start_spec c Hmin g' j (conj Hl Hi) Ha Hu) by lia.
    unfold NSEC_PER_SEC. rewrite (proj2 (Z.ltb_ge _ _)); [done|lia].
  - intros Hlt. unfold job_start. rewrite Ha.
    assert (Hw : min_run_time c ≤ u64 (time_of_event g - start_time j) / NSEC_PER_SEC).
    { unfold u64, NSEC_PER_SEC. rewrite <- (Z_mod_plus_full _ 1), Z.mod_small by lia. lia. }
    by rewrite (proj2 (Z.ltb_ge _ _) Hw), andb_false_r.
Qed.

(** A job that runs for two seconds and is kept alive. *)
Definition example_conf : job_conf :=
  mkConf (cstr "org.example.d") false false false false false false false 10 [] [] [].
Definition example_state : job_state :=
  mkState 0 0 0 0 0 false false false false false false false false false false false false false.
Definition example_exited (t : Z) : job_state :=
  mkState 0 t 0 0 0 false false false false false false false false false false false false false.
Definition example_mgr : jobmgr := mkMgr false false 0.
Definition at_time (t : Z) : globals := mkGlobals true false (fun _ => None) t.

Lemma respawn_throttled_witness :
  let t := 5000000000 in let t' := 16000000000 in
  let forks := [mkForkAt t t false; mkForkAt t' t' false] in
  rtc (job_step example_conf) (example_state, [])
    (job_forked example_conf (example_exited t) 78 t', forks) ∧
  ∀ a b, forks !! 0%nat = Some a → forks !! 1%nat = Some b →
    f_time a + min_run_time example_conf * NSEC_PER_SEC ≤ f_time b.
Proof.
  intros t t' forks.
  assert (Hrun : rtc (job_step example_conf) (example_state, [])
    (job_forked example_conf (example_exited t) 78 t', forks)).
  { eapply rtc_l; [apply (step_fork _ (at_time t) example_mgr _ _ false 77 t); vm_compute; intuition discriminate|].
    eapply rtc_l; [apply (step_else _ _ (example_exited t)); reflexivity|].
    eapply rtc_l; [apply (step_fork _ (at_time t') example_mgr _ _ false 78 t'); vm_compute; intuition discriminate|].
    apply rtc_refl. }
  split; [exact Hrun|]. intros a b Ha Hb.
  destruct (respawn_throttled example_conf example_state _ forks ltac:(cbn; lia) eq_refl Hrun) as [H _].
  destruct (H 0%nat a b Ha Hb) as [Hd|[Hl|[Hi|[Hu|He]]]]; [exact Hd|discriminate..| |].
  - injection Hb as <-. discriminate Hu.
  - injection Ha as <-. injection Hb as <-. vm_compute in He. discriminate He.
Defined.

Lemma throttle_timer_witness :
  let j := example_exited 5000000000 in
  job_start (at_time 7500000000) example_conf j = Throttled 8 ∧
  job_dispatch (at_time 15500000000) example_mgr example_conf j true = Started Forks.
Proof.
  intros j. split; [reflexivity|].
  destruct (throttle_timer (at_time 7500000000) example_mgr example_conf j false) as (_ & H & _);
    [cbn; lia|reflexivity|reflexivity|reflexivity|cbn; lia|cbn; lia|reflexivity|].
  apply (H ltac:(cbn; lia) 8 ltac:(reflexivity)). vm_compute. split; [discriminate|reflexivity].
Defined.

(** ** The limits a job asks for *)

(** [launch_data_dict_iterate(value, limititem_setup, j)] *)
Fixpoint setup_limits (hard mem : bool) (entries : list (list Z * option ldata)) (l : list limititem) :
    res Empty_set (list limititem) :=
  match entries with
  | [] => Ok l
  | (key, Some obj) :: entries => l ← limititem_setup hard mem obj key l; setup_limits hard mem entries l
  | (_, None) :: _ => UB
  end.

(** The soft and the hard limit of the resource [w]. *)
Definition limit_of (l : list limititem) (w : Z) : option Z * option Z :=
  match list_find (fun li => li_which li = w) l with
  | Some (_, li) => (li_cur li, li_max li)
  | None => (None, None)
  end.

Definition with_limit (hard : bool) (r : Z) (lim : option Z * option Z) : option Z * option Z :=
  if hard then (lim.1, Some r) else (Some r, lim.2).

Lemma update_limit_spec hard w r l :
  match update_limit hard w r l with
  | Some l' => map li_which l' = map li_which l ∧ w ∈ map li_which l ∧
      ∀ w', limit_of l' w' = if decide (w' = w) then with_limit hard r (limit_of l w') else limit_of l w'
  | None => w ∉ map li_which l
  end.
Proof.
  induction l as [|li l IH]; cbn [update_limit map]; [apply not_elem_of_nil|].
  destruct (Z.eqb_spec (li_which li) w) as [E|E].
  - split_and!; [by destruct hard|rewrite E; left|]. intros w'. unfold limit_of. cbn [list_find].
    assert (li_which (set_limit hard r li) = li_which li) as -> by (by destruct hard).
    destruct (decide (li_which li = w')) as [E'|E']; [rewrite decide_True by congruence; by destruct hard|].
    by rewrite decide_False by congruence.
  - destruct (update_limit hard w r l) as [l'|]; cbn.
    + destruct IH as (IH1 & IH2 & IH3). split_and!; [by f_equal|by right|]. intros w'.
      specialize (IH3 w'). unfold limit_of in *. cbn [list_find].
      destruct (decide (li_which li = w')) as [E'|E']; [rewrite decide_False by congruence; done|].
      destruct (list_find (fun li0 => li_which li0 = w') l) as [[? ?]|], (list_find (fun li0 => li_which li0 = w') l') as [[? ?]|]; exact IH3.
    + rewrite not_elem_of_cons. auto.
Qed.

Lemma limititem_update_spec hard w r l :
  NoDup (map li_which l) →
  let l' := (limititem_update hard true w r l).2 in
  NoDup (map li_which l') ∧
  ∀ w', limit_of l' w' = if decide (w' = w) then with_limit hard r (limit_of l w') else limit_of l w'.
Proof.
  intros Hn l'. subst l'. unfold limititem_update. pose proof (update_limit_spec hard w r l) as H.
  destruct (update_limit hard w r l) as [l'|]; cbn [snd].
  - destruct H as (H1 & _ & H3). by rewrite H1.
  - assert (li_which (set_limit hard r (mkLimit w None None)) = w) as Ew by (by destruct hard).
    cbn [map]. rewrite Ew. split; [by constructor|]. intros w'. unfold limit_of at 1. cbn [list_find]. rewrite Ew.
    destruct (decide (w = w')) as [<-|Hne].
    + rewrite decide_True by done. unfold limit_of. destruct (list_find (fun li => li_which li = w) l) as [[i li]|] eqn:E.
      * apply list_find_Some in E as (E1 & E2 & _). destruct H. rewrite <- E2.
        apply list_elem_of_In, in_map, list_elem_of_In, (list_elem_of_lookup_2 _ _ _ E1).
      * by destruct hard.
    + rewrite decide_False by done. unfold limit_of.
      destruct (list_find (fun li => li_which li = w') l) as [[? ?]|]; done.
Qed.

Lemma find_limit_lower k k' : lower k = lower k' → find_limit k = find_limit k'.
Proof.
  intros E. unfold find_limit. f_equal. apply list_find_ext. intros kv. unfold strcasecmp_eq. by rewrite E.
Qed.

Lemma find_limit_table : Forall (fun kv => find_limit kv.1 = Some kv.2) launchd_keys2limits.
Proof. repeat constructor. Qed.

(** The resources of the table have one key each. *)
Lemma find_limit_spec name w k :
  (name, w) ∈ launchd_keys2limits → find_limit k = Some w ↔ lower k = lower name.
Proof.
  intros Hin. pose proof find_limit_table as Ht. rewrite Forall_forall in Ht.
  split; [|intros E; rewrite (find_limit_lower k name E); by apply (Ht (name, w))].
  unfold find_limit. destruct (list_find _ _) as [[i [name' w']]|] eqn:E; [|done]. intros [= ->].
  apply list_find_Some in E as (E1 & E2 & _). cbn [fst] in E2. apply strcasecmp_eq_spec in E2. rewrite <- E2.
  apply list_elem_of_lookup_1 in Hin as (i' & E1').
  assert (i' = i) as ->; [|congruence].
  assert (Hn : NoDup launchd_keys2limits.*2) by (apply (bool_decide_unpack _); vm_compute; exact I).
  apply (NoDup_lookup _ i' i w Hn); rewrite list_lookup_fmap, ?E1, ?E1'; done.
Qed.

(** What a dictionary asks for a key of the table. *)
Definition asked (hard : bool) (kvs : list (list Z * ldata)) (name : list Z) (lim : option Z * option Z) :
    option Z * option Z :=
  match dict_map kvs !! lower name with
  | Some (LInteger n) => with_limit hard (u64 n) lim
  | _ => lim
  end.

Lemma setup_limits_spec hard kvs l :
  NoDup (lower_keys kvs) → NoDup (map li_which l) →
  ∃ l', setup_limits hard true (map (fun kv => (kv.1, Some kv.2)) kvs) l = Ok l' ∧ NoDup (map li_which l') ∧
    ∀ name w, (name, w) ∈ launchd_keys2limits → limit_of l' w = asked hard kvs name (limit_of l w).
Proof.
  revert l. induction kvs as [|[k v] kvs IH]; intros l Hk Hn; [by exists l|].
  cbn [lower_keys map fst snd setup_limits] in *. apply NoDup_cons in Hk as [Hk Hks].
  assert (∃ l1, limititem_setup hard true v k l = Ok l1 ∧ NoDup (map li_which l1) ∧
            ∀ name w, (name, w) ∈ launchd_keys2limits →
              limit_of l1 w = if decide (lower k = lower name) then asked hard [(k, v)] name (limit_of l w) else limit_of l w)
    as (l1 & -> & Hn1 & Hl1).
  { unfold limititem_setup, asked, dict_map. cbn [map fst snd list_to_map foldr].
    destruct (decide (launch_data_get_type v = LAUNCH_DATA_INTEGER)) as [Ht|Ht].
    2:{ rewrite (proj2 (Z.eqb_neq _ _) Ht). exists l. split_and!; [done..|]. intros name w _. case_decide as E; [|done].
        rewrite <- E, lookup_insert_eq. by destruct v. }
    destruct v as [| | |n| | | | | |]; try done. cbn [launch_data_get_type launch_data_get_integer].
    rewrite Z.eqb_refl, bind_Ok. cbn [negb]. eexists. split; [done|]. destruct (find_limit k) as [w0|] eqn:Ef.
    - destruct (limititem_update_spec hard w0 (u64 n) l Hn) as [Hn' Hl']. split; [done|]. intros name w Hin. rewrite Hl'.
      pose proof (find_limit_spec name w k Hin) as Hs. rewrite Ef in Hs.
      destruct (decide (lower k = lower name)) as [E|E].
      + rewrite decide_True by (apply Hs in E; congruence). by rewrite <- E, lookup_insert_eq.
      + rewrite decide_False; [done|]. intros ->. by apply E, Hs.
    - split; [done|]. intros name w Hin. pose proof (find_limit_spec name w k Hin) as Hs. rewrite Ef in Hs.
      case_decide as E; [by apply Hs in E|done]. }
  destruct (IH l1 Hks Hn1) as (l' & E' & Hn' & Hl'). exists l'. rewrite bind_Ok. split_and!; [done..|].
  intros name w Hin. rewrite (Hl' name w Hin), (Hl1 name w Hin). unfold asked, dict_map. cbn [map fst snd list_to_map foldr].
  destruct (decide (lower k = lower name)) as [E|E].
  - rewrite <- E, !lookup_insert_eq.
    assert ((list_to_map (map (fun kv : list Z * ldata => (lower kv.1, kv.2)) kvs) : gmap (list Z) ldata) !! lower k = None) as ->; [|done].
    apply not_elem_of_list_to_map_1. intros H. apply Hk. unfold lower_keys. by rewrite <- list_fmap_compose in H.
  - by rewrite !lookup_insert_ne.
Qed.

(** [SoftResourceLimits] and then [HardResourceLimits] of a job. *)
Definition job_limits (soft hard : ldata) : res Empty_set (list limititem) :=
  es ← launch_data_dict_iterate soft;
  l ← setup_limits false true es [];
  eh ← launch_data_dict_iterate hard;
  setup_limits true true eh l.

Definition limit_value (kvs : list (list Z * ldata)) (name : list Z) : option Z :=
  match dict_map kvs !! lower name with Some (LInteger n) => Some (u64 n) | _ => None end.

(** The resource limits of a job are those its two dictionaries ask for: each resource has
    at most one item, with the soft limit of one dictionary and the hard limit of the other
    (keys in any case, integers converted to [rlim_t]); other keys and values that are not
    integers have no effect. *)
Theorem job_limits_spec soft hard :
  dict_ok soft → dict_ok hard →
  ∃ l, job_limits (LDict (dict_elems soft)) (LDict (dict_elems hard)) = Ok l ∧
    NoDup (map li_which l) ∧
    ∀ name w, (name, w) ∈ launchd_keys2limits →
      limit_of l w = (limit_value soft name, limit_value hard name).
Proof.
  intros [Hs1 Hs2] [Hh1 Hh2]. unfold job_limits. cbn [launch_data_dict_iterate]. rewrite !iterate_dict_elems by done.
  rewrite !bind_Ok. destruct (setup_limits_spec false soft [] Hs1) as (l1 & -> & Hn1 & Hl1); [by apply NoDup_nil_2|].
  rewrite !bind_Ok. destruct (setup_limits_spec true hard l1 Hh1 Hn1) as (l2 & -> & Hn2 & Hl2).
  exists l2. split_and!; [done..|]. intros name w Hin. rewrite (Hl2 name w Hin), (Hl1 name w Hin).
  unfold asked, limit_value, with_limit. change (limit_of [] w) with (@None Z, @None Z).
  by repeat (case_match; cbn).
Qed.

Lemma job_limits_spec_witness :
  let soft := [(cstr "numberoffiles", LInteger 256); (cstr "Colour", LInteger 3)] in
  let hard := [(cstr "NumberOfFiles", LInteger (-1))] in
  ∃ l, job_limits (LDict (dict_elems soft)) (LDict (dict_elems hard)) = Ok l ∧
       limit_of l 8 = (Some 256, Some (2 ^ 64 - 1)).
Proof.
  intros soft hard. destruct (job_limits_spec soft hard) as (l & E & _ & Hl).
  - split; apply (bool_decide_unpack _); vm_compute; exact I.
  - split; apply (bool_decide_unpack _); vm_compute; exact I.
  - exists l. split; [exact E|]. rewrite (Hl (cstr "NumberOfFiles") 8); [reflexivity|].
    apply (bool_decide_unpack _). vm_compute. exact I.
Defined.
