(* ===== verification/JobProcess.v ===== *)
(** * The processes of launchd's jobs ([src/src/launchd/src/core.c])

    What happens around the process of a job: forking it, stopping and killing it, the events
    of the kernel about it, reaping it, and what launchd does next.  The state is that of
    launchd: its jobs, the hash lists of the running ones and the counters.  The decisions are
    those of [JobPolicy].  Jobs with several instances are left out. *)

From stdpp Require Import relations.
From S2P Require Import Machine Prelude LaunchData JobPolicy.

(** ** The data *)

(** The options of a Mach service that matter when its job dies. *)
Record service_flags := mkFlags {
  sf_reset : bool;
  sf_drain_one_on_crash : bool;
  sf_drain_all_on_crash : bool;
  sf_upfront : bool;
}.

(** The rest of the configuration of a job. *)
Record job_static := mkStatic {
  s_mgr : nat;
  s_services : list service_flags;
  s_abandon_pg : bool;
  s_exit_timeout : Z;
  s_has_console : bool;
  s_xpc_service : bool;
  s_stall_before_exec : bool;
  s_sockets : bool;
  s_deny_job_creation : bool;
  s_embedded_god : bool;
  s_stdin_fd : Z;
}.

(** And of its state. *)
Record job_run := mkRun {
  fork_fd : Z;
  idle_exit : bool;
  jettisoned : bool;
  trt : Z;
  nruns : Z;
  reaped : bool;
  stopped : bool;
  clean_kill : bool;
  sent_sigkill : bool;
  sent_signal_time : Z;
  implicit_reap : bool;
  exit_status_dest : Z;
  exit_status_port : Z;
  spawn_reply_port : Z;
  xpcproxy_did_exec : bool;
  uniqueid : Z;
  ready2signal : bool;
  fpfail : bool;
  currently_ignored : bool;
  holds_ref : bool;
  weird_bootstrap : bool;
  removing : bool;
  suspended_perusers : list nat;
}.

Record job := mkJob { jc : job_conf; jx : job_static; js : job_state; jr : job_run }.

Definition job_pid (J : job) : Z := j_pid (js J).
Definition is_anonymous (J : job) : bool := anonymous (jc J).

Inductive timer := StartTimer (id : nat) | ExitTimer (id : nat).

(** What launchd asks of the system. *)
Inductive call :=
  | CloseFd (fd : Z) | WriteFd (fd : Z) | OpenIpc (fd : Z)
  | KillPg (pid sig : Z) | Kill (pid sig : Z) | ProcTerminate (pid : Z) | Wait4 (pid : Z)
  | TimerAdd (t : timer) (seconds : Z) | TimerDelete (t : timer)
  | WatchProc (pid : Z)
  | DrainPort (id service : nat) | ResetPort (id service : nat)
  | ExecEvent (id : nat)
  | ExitDowncall (port status : Z) | SpawnReply (port pid : Z) | CloseRecv (port : Z) | AddMport (mgr : nat).

#[export] Instance timer_eq_dec : EqDecision timer.
Proof. solve_decision. Defined.
#[export] Instance call_eq_dec : EqDecision call.
Proof. solve_decision. Defined.

(** launchd: the jobs, [active_jobs] of each manager and [managed_actives] by bucket, the jobs
    with a semaphore on another job, who waits for a process to attach, and the counters. *)
Record launchd := mkLaunchd {
  l_jobs : gmap nat job;
  l_active : gmap (nat * Z) (list nat);
  l_managed : gmap Z (list nat);
  l_curious : list nat;
  l_waiters : list Z;
  l_total_children : Z;
  l_total_anon_children : Z;
  l_busy_cnt : Z;
  l_normal_active_cnt : gmap nat Z;
  l_wsp : Z;
  l_shutdown_monitor : option nat;
  l_calls : list call;
  l_turn : nat;
}.

Definition ACTIVE_JOB_HASH (p : Z) : Z := Z.land p 31.

Definition bucket (w : launchd) (m : nat) (p : Z) : list nat := default [] (l_active w !! (m, ACTIVE_JOB_HASH p)).
Definition managed_bucket (w : launchd) (p : Z) : list nat := default [] (l_managed w !! ACTIVE_JOB_HASH p).

Definition with_jobs (w : launchd) (jobs : gmap nat job) : launchd :=
  mkLaunchd jobs (l_active w) (l_managed w) (l_curious w) (l_waiters w) (l_total_children w) (l_total_anon_children w)
    (l_busy_cnt w) (l_normal_active_cnt w) (l_wsp w) (l_shutdown_monitor w) (l_calls w) (l_turn w).
Definition set_job (id : nat) (J : job) (w : launchd) : launchd := with_jobs w (<[id := J]> (l_jobs w)).
Definition log (cs : list call) (w : launchd) : launchd :=
  mkLaunchd (l_jobs w) (l_active w) (l_managed w) (l_curious w) (l_waiters w) (l_total_children w) (l_total_anon_children w)
    (l_busy_cnt w) (l_normal_active_cnt w) (l_wsp w) (l_shutdown_monitor w) (l_calls w ++ cs) (l_turn w).
Definition with_lists (w : launchd) (active : gmap (nat * Z) (list nat)) (managed : gmap Z (list nat)) : launchd :=
  mkLaunchd (l_jobs w) active managed (l_curious w) (l_waiters w) (l_total_children w) (l_total_anon_children w)
    (l_busy_cnt w) (l_normal_active_cnt w) (l_wsp w) (l_shutdown_monitor w) (l_calls w) (l_turn w).
Definition with_counts (w : launchd) (children anon busy : Z) (normal : gmap nat Z) (wsp : Z) (mon : option nat) : launchd :=
  mkLaunchd (l_jobs w) (l_active w) (l_managed w) (l_curious w) (l_waiters w) children anon busy normal wsp mon (l_calls w) (l_turn w).

(** ** Finding jobs *)

Definition has_pid (w : launchd) (p : Z) (id : nat) : bool :=
  match l_jobs w !! id with Some J => job_pid J =? p | None => false end.

(** [jobmgr_find_by_pid] without the creation of anonymous jobs. *)
Definition jobmgr_find_by_pid (w : launchd) (m : nat) (p : Z) : option nat :=
  List.find (has_pid w p) (bucket w m p).

(** The elements from [id] on. *)
Fixpoint from_elem (id : nat) (l : list nat) : list nat :=
  match l with [] => [] | x :: l' => if decide (x = id) then l else from_elem id l' end.

(** [managed_job]: the walk starts at the head of the bucket of [managed_actives], but it
    follows [pid_hash_sle], the links of the bucket of the head's manager. *)
Definition managed_job (w : launchd) (p : Z) : option nat :=
  match managed_bucket w p with
  | [] => None
  | h :: _ =>
      match l_jobs w !! h with
      | Some J => List.find (has_pid w p) (from_elem h (bucket w (s_mgr (jx J)) p))
      | None => None
      end
  end.

(** ** Watching *)

Definition with_ignored (b : bool) (r : job_run) : job_run :=
  mkRun (fork_fd r) (idle_exit r) (jettisoned r) (trt r) (nruns r) (reaped r) (stopped r) (clean_kill r) (sent_sigkill r)
    (sent_signal_time r) (implicit_reap r) (exit_status_dest r) (exit_status_port r) (spawn_reply_port r) (xpcproxy_did_exec r)
    (uniqueid r) (ready2signal r) (fpfail r) b (holds_ref r) (weird_bootstrap r) (removing r) (suspended_perusers r).

Definition with_run (J : job) (r : job_run) : job := mkJob (jc J) (jx J) (js J) r.
Definition with_state (J : job) (s : job_state) : job := mkJob (jc J) (jx J) s (jr J).

(** [job_ignore] and [job_watch]: the flag; the sockets and services follow it. *)
Definition job_ignore (J : job) : job := with_run J (with_ignored true (jr J)).
Definition job_watch (J : job) : job := with_run J (with_ignored false (jr J)).

(** ** Reaping *)

Definition SIGILL : Z := 4.
Definition SIGTRAP : Z := 5.
Definition SIGABRT : Z := 6.
Definition SIGFPE : Z := 8.
Definition SIGKILL : Z := 9.
Definition SIGBUS : Z := 10.
Definition SIGSEGV : Z := 11.
Definition SIGSYS : Z := 12.
Definition SIGTERM : Z := 15.
Definition ENOENT : Z := 2.
Definition ESRCH : Z := 3.
Definition ENOTDIR : Z := 20.

Definition W_EXITCODE (ret sig : Z) : Z := Z.lor (Z.shiftl ret 8) sig.
Definition WTERMSIG (s : Z) : Z := Z.land s 127.
Definition WIFSIGNALED (s : Z) : bool := negb (WTERMSIG s =? 127) && negb (WTERMSIG s =? 0).

Definition PROC_DIRTY_ALLOWS_IDLE_EXIT : Z := 2.
Definition PROC_DIRTY_IS_DIRTY : Z := 4.

(** What the system answers while a job is reaped: the dirty flags, the time since the start,
    the status ([None]: [wait4] failed), whether there is a support system for events,
    whether the reply to the spawner is taken, and whether the credentials of the last caller
    let [job_mig_swap_integer] end the weird bootstrap. *)
Record reap_env := mkReapEnv {
  re_dirty : Z;
  re_runtime : Z;
  re_wait4 : option Z;
  re_support_system : bool;
  re_reply_ok : bool;
  re_privileged : bool;
}.

(** [idle_exit] and [was_dirty]. *)
Definition reap_dirty (e : reap_env) (J : job) : bool * bool :=
  if is_anonymous J || implicit_reap (jr J) then (idle_exit (jr J), false)
  else (negb (Z.land (re_dirty e) PROC_DIRTY_ALLOWS_IDLE_EXIT =? 0), negb (Z.land (re_dirty e) PROC_DIRTY_IS_DIRTY =? 0)).

(** The status that is recorded; [idle] is [idle_exit]. *)
Definition reap_status (e : reap_env) (J : job) (idle : bool) : Z :=
  if is_anonymous J then 0
  else if implicit_reap (jr J) then last_exit_status (js J)
  else if workaround9359725 (js J) then W_EXITCODE (-1) SIGSEGV
  else
    let status := default (W_EXITCODE (-1) SIGSEGV) (re_wait4 e) in
    if idle && jettisoned (jr J) then W_EXITCODE 0 0 else status.

(** The job could not be executed for a reason an event can tell the end of; the event that is
    set up is the call [ExecEvent]. *)
Definition exec_may_succeed_later (e : reap_env) (J : job) (status : Z) : bool :=
  let code := WEXITSTATUS status in
  WIFEXITED status && negb (code =? 0) && negb (did_exec (js J)) && re_support_system e &&
  ((code =? ENOENT) || (code =? ENOTDIR) || (code =? ESRCH)).

Definition crash_signal (s : Z) : bool :=
  (s =? SIGILL) || (s =? SIGABRT) || (s =? SIGFPE) || (s =? SIGBUS) || (s =? SIGSEGV) || (s =? SIGSYS) || (s =? SIGTRAP).

Definition reap_crashed (J : job) (status : Z) : bool :=
  let s := WTERMSIG status in
  if negb (WIFSIGNALED status) then crashed (js J)
  else if ((s =? SIGKILL) || (s =? SIGTERM)) && negb (stopped (jr J)) then crashed (js J)
  else if negb (stopped (jr J) || clean_kill (jr J) || jettisoned (jr J)) && crash_signal s then true
  else crashed (js J).

(** The two loops over the Mach services. *)
Definition reap_services (id : nat) (J : job) (crashed : bool) : list call :=
  let each f := concat (imap (fun i sm => f i sm.1 sm.2) (zip (s_services (jx J)) (machservices (jc J)))) in
  (if crashed || negb (did_exec (js J) || is_anonymous J)
   then each (fun i sf ms =>
     (if crashed && negb (ms_isActive ms) && (sf_drain_one_on_crash sf || sf_drain_all_on_crash sf) then [DrainPort id i] else []) ++
     (if negb (did_exec (js J)) && sf_reset sf && negb (ms_isActive ms) then [ResetPort id i] else []))
   else []) ++
  (if s_xpc_service (jx J) && negb (xpcproxy_did_exec (jr J))
   then each (fun i sf ms => if sf_upfront sf && negb (ms_isActive ms) then [ResetPort id i] else [])
   else []).

(** The part of [job_reap] up to [j->reaped = true] and the services: the job and what is asked
    of the system. *)
Definition reap_first (e : reap_env) (id : nat) (J : job) : job * list call :=
  let s := js J in
  let r := jr J in
  let '(idle, was_dirty) := reap_dirty e J in
  let jet := jettisoned r in
  let status := reap_status e J idle in
  let crashed' := reap_crashed J status in
  let later := exec_may_succeed_later e J status in
  let s' := mkState (j_pid s) (start_time s) status (j_port s) (peruser_suspend_count s) (awaiting_audit_session s)
              (waiting4ok s || later) (removal_pending s) (shutdown_monitor s) (checkedin s) (did_exec s) crashed'
              (needs_kickoff s) (start_pending s || (idle && was_dirty && jet)) (ondemand s) (priv_port_has_senders s)
              (workaround9359725 s) (unthrottle s || (idle && jet)) in
  let r' := mkRun 0 idle jet (if is_anonymous J then trt r else u64 (trt r + re_runtime e))
              (if is_anonymous J then nruns r else u32 (nruns r + 1)) true (stopped r) (clean_kill r) (sent_sigkill r)
              (sent_signal_time r) (implicit_reap r) (exit_status_dest r) (exit_status_port r) (spawn_reply_port r)
              (xpcproxy_did_exec r) (uniqueid r) (ready2signal r) (fpfail r) (currently_ignored r) (holds_ref r)
              (weird_bootstrap r && negb (re_privileged e)) (removing r) (suspended_perusers r) in
  (mkJob (jc J) (jx J) s' r',
   (if weird_bootstrap r && re_privileged e then [AddMport (s_mgr (jx J))] else []) ++
   (if negb (fork_fd r =? 0) then [CloseFd (fork_fd r)] else []) ++
   (if negb (is_anonymous J) && negb (s_abandon_pg (jx J)) then [KillPg (j_pid s) SIGTERM] else []) ++
   (if negb (is_anonymous J) && negb (implicit_reap r) && negb (workaround9359725 s) then [Wait4 (j_pid s)] else []) ++
   (if negb (s_exit_timeout (jx J) =? 0) then [TimerDelete (ExitTimer id)] else []) ++
   (if later then [ExecEvent id] else []) ++
   reap_services id J crashed').

(** [LIST_REMOVE(j, pid_hash_sle)] and, for a job that is not anonymous, of
    [global_pid_hash_sle]. *)
Definition unlink (id : nat) (J : job) (w : launchd) : launchd :=
  let rm l := filter (fun x => x ≠ id) l in
  with_lists w (<[(s_mgr (jx J), ACTIVE_JOB_HASH (job_pid J)) := rm (bucket w (s_mgr (jx J)) (job_pid J))]> (l_active w))
    (if is_anonymous J then l_managed w
     else <[ACTIVE_JOB_HASH (job_pid J) := rm (managed_bucket w (job_pid J))]> (l_managed w)).

(** The replies and the counters at the end of [job_reap]; the process is gone. *)
Definition reap_replies (e : reap_env) (J : job) : list call :=
  (if negb (exit_status_dest (jr J) =? 0) then [ExitDowncall (exit_status_dest (jr J)) (last_exit_status (js J))] else []) ++
  (if negb (spawn_reply_port (jr J) =? 0)
   then SpawnReply (spawn_reply_port (jr J)) (job_pid J) :: (if re_reply_ok e then [] else [CloseRecv (exit_status_port (jr J))])
   else []).

Definition reap_job (J : job) : job :=
  let s := js J in
  let r := jr J in
  mkJob (jc J) (jx J)
    (mkState 0 (start_time s) (last_exit_status s) (j_port s) (peruser_suspend_count s) (awaiting_audit_session s) (waiting4ok s)
       (removal_pending s) false (checkedin s) (did_exec s) (crashed s) (needs_kickoff s) (start_pending s) (ondemand s)
       (priv_port_has_senders s) (workaround9359725 s) (unthrottle s))
    (mkRun (fork_fd r) (idle_exit r) (jettisoned r) (trt r) (nruns r) (reaped r) (stopped r) false false 0 (implicit_reap r) 0
       (if spawn_reply_port r =? 0 then exit_status_port r else 0) 0 (xpcproxy_did_exec r) 0 false (fpfail r)
       (currently_ignored r) (holds_ref r) (weird_bootstrap r) (removing r) (suspended_perusers r)).

Definition bump (m : nat) (d : Z) (cnt : gmap nat Z) : gmap nat Z := <[m := default 0 (cnt !! m) + d]> cnt.

Definition reap_counts (J : job) (w : launchd) : launchd :=
  let anon := is_anonymous J in
  with_counts w
    (if anon then l_total_children w else l_total_children w - 1)
    (if anon then l_total_anon_children w - 1 else l_total_anon_children w)
    (if anon && negb (holds_ref (jr J)) then l_busy_cnt w else l_busy_cnt w - 1)
    (if anon then l_normal_active_cnt w else bump (s_mgr (jx J)) (-1) (l_normal_active_cnt w))
    (if s_has_console (jx J) then 0 else l_wsp w)
    (if shutdown_monitor (js J) then None else l_shutdown_monitor w).

(** What the system answers to a fork: the child (-1: it failed), the end of the socket pair
    that uncorks it, those of the check-in connection, the clock, the unique id, and whether
    the kernel event could be attached. *)
Record fork_env := mkForkEnv {
  fe_pid : Z;
  fe_execspair : Z * Z;
  fe_spair : Z * Z;
  fe_now : Z;
  fe_uniqueid : option Z;
  fe_attached : bool;
}.

(** The answer to the termination of a job: the signal [proc_terminate] sent, or whether
    [kill2] worked after [proc_terminate] failed; and the clock. *)
Inductive terminate_answer := Terminated (sig : Z) | KilledInstead (ok : bool).

(** All the answers, by turn. *)
Record system := mkSystem {
  y_reap : nat → reap_env;
  y_fork : nat → fork_env;
  y_terminate : nat → terminate_answer * Z;
  y_globals : nat → globals;
  y_mgr : nat → nat → jobmgr;
  (** whether [calloc] and [strdup] succeed in [job_new] *)
  y_alloc : nat → bool;
}.

Definition tick (w : launchd) : launchd :=
  mkLaunchd (l_jobs w) (l_active w) (l_managed w) (l_curious w) (l_waiters w) (l_total_children w) (l_total_anon_children w)
    (l_busy_cnt w) (l_normal_active_cnt w) (l_wsp w) (l_shutdown_monitor w) (l_calls w) (S (l_turn w)).

(** ** Stopping and killing *)

Definition LAUNCHD_SIGKILL_TIMER : Z := 4.

Definition with_signals (stop clean kill : bool) (time : Z) (r : job_run) : job_run :=
  mkRun (fork_fd r) (idle_exit r) (jettisoned r) (trt r) (nruns r) (reaped r) stop clean kill time (implicit_reap r)
    (exit_status_dest r) (exit_status_port r) (spawn_reply_port r) (xpcproxy_did_exec r) (uniqueid r) (ready2signal r) (fpfail r)
    (currently_ignored r) (holds_ref r) (weird_bootstrap r) (removing r) (suspended_perusers r).

Section System.
Context (y : system).

Definition job_stop (id : nat) (w : launchd) : launchd :=
  match l_jobs w !! id with
  | None => w
  | Some J =>
      let r := jr J in
      if (job_pid J =? 0) || stopped r || is_anonymous J then w else
      let '(answer, now) := y_terminate y (l_turn w) in
      let sig := match answer with Terminated sig => Some sig | KilledInstead ok => if ok then Some SIGTERM else None end in
      let killed := bool_decide (sig = Some SIGKILL) in
      let J' := with_run J (with_signals true (clean_kill r || killed) (sent_sigkill r || killed) now r) in
      log (ProcTerminate (job_pid J) :: match answer with KilledInstead _ => [Kill (job_pid J) SIGTERM] | Terminated _ => [] end ++
           (if killed then (if shutting_down (y_mgr y (l_turn w) (s_mgr (jx J))) then [TimerAdd (ExitTimer id) LAUNCHD_SIGKILL_TIMER] else [])
            else if bool_decide (sig = Some SIGTERM) && negb (s_exit_timeout (jx J) =? 0) then [TimerAdd (ExitTimer id) (s_exit_timeout (jx J))]
            else []))
        (tick (set_job id J' w))
  end.

Definition job_kill (id : nat) (w : launchd) : launchd :=
  match l_jobs w !! id with
  | None => w
  | Some J =>
      let r := jr J in
      if (job_pid J =? 0) || is_anonymous J then w else
      log [Kill (job_pid J) SIGKILL; TimerAdd (ExitTimer id) LAUNCHD_SIGKILL_TIMER]
        (set_job id (with_run J (with_signals (stopped r) (clean_kill r) true (sent_signal_time r) r)) w)
  end.

(** ** Dispatching

    [job_dispatch] can start a job, reap it when its event cannot be attached, remove it, and
    removing or reaping dispatches other jobs: [dispatch] is the recursive call. *)

Section Knot.
Context (dispatch : nat → bool → launchd → res Empty_set launchd).

(** The loop that resumes the per-user launchds the job had suspended. *)
Definition with_suspend (d : Z) (s : job_state) : job_state :=
  mkState (j_pid s) (start_time s) (last_exit_status s) (j_port s) (u32 (peruser_suspend_count s + d)) (awaiting_audit_session s)
    (waiting4ok s) (removal_pending s) (shutdown_monitor s) (checkedin s) (did_exec s) (crashed s) (needs_kickoff s)
    (start_pending s) (ondemand s) (priv_port_has_senders s) (workaround9359725 s) (unthrottle s).

Definition with_suspended (l : list nat) (r : job_run) : job_run :=
  mkRun (fork_fd r) (idle_exit r) (jettisoned r) (trt r) (nruns r) (reaped r) (stopped r) (clean_kill r) (sent_sigkill r)
    (sent_signal_time r) (implicit_reap r) (exit_status_dest r) (exit_status_port r) (spawn_reply_port r) (xpcproxy_did_exec r)
    (uniqueid r) (ready2signal r) (fpfail r) (currently_ignored r) (holds_ref r) (weird_bootstrap r) (removing r) l.

Definition update_job (id : nat) (f : job → job) (w : launchd) : res Empty_set launchd :=
  J ← access (l_jobs w !! id); Ok (set_job id (f J) w).

Fixpoint resume_perusers (id : nat) (spis : list nat) (w : launchd) : res Empty_set launchd :=
  match spis with
  | [] => Ok w
  | u :: spis =>
      JU ← access (l_jobs w !! u);
      let JU := with_state JU (with_suspend (-1) (js JU)) in
      let w := set_job u JU w in
      w ← (if peruser_suspend_count (js JU) =? 0 then dispatch u false w else Ok w);
      w ← update_job id (fun J => with_run J (with_suspended spis (jr J))) w;
      resume_perusers id spis w
  end.

Definition job_reap (id : nat) (w : launchd) : res Empty_set launchd :=
  J ← access (l_jobs w !! id);
  let e := y_reap y (l_turn w) in
  let '(J1, cs) := reap_first e id J in
  let w := log cs (unlink id J (tick (set_job id J1 w))) in
  w ← resume_perusers id (suspended_perusers (jr J)) w;
  J2 ← access (l_jobs w !! id);
  Ok (reap_counts J2 (log (reap_replies e J2) (set_job id (reap_job J2) w))).

(** The run state after a fork. *)
Definition forked_run (f : fork_env) (r : job_run) : job_run :=
  mkRun (fe_execspair f).1 (idle_exit r) false (trt r) (nruns r) false false (clean_kill r) (sent_sigkill r) (sent_signal_time r)
    false (exit_status_dest r) (exit_status_port r) (spawn_reply_port r) false (default (uniqueid r) (fe_uniqueid f))
    (ready2signal r) false (currently_ignored r) (holds_ref r) (weird_bootstrap r) (removing r) (suspended_perusers r).

Definition sipc (J : job) : bool :=
  negb (legacy_mach_job (jc J)) &&
  ((s_sockets (jx J) || negb (bool_decide (machservices (jc J) = []))) && negb (s_deny_job_creation (jx J)) || s_embedded_god (jx J)).

(** Linking the running job into the two hash lists and counting it. *)
Definition link_running (id : nat) (J : job) (w : launchd) : launchd :=
  let p := job_pid J in
  with_counts
    (with_lists w (<[(s_mgr (jx J), ACTIVE_JOB_HASH p) := id :: bucket w (s_mgr (jx J)) p]> (l_active w))
                  (<[ACTIVE_JOB_HASH p := id :: managed_bucket w p]> (l_managed w)))
    (l_total_children w + 1) (l_total_anon_children w) (l_busy_cnt w + 1) (bump (s_mgr (jx J)) 1 (l_normal_active_cnt w))
    (if s_has_console (jx J) then p else l_wsp w) (l_shutdown_monitor w).

(** [job_uncork_fork] *)
Definition job_uncork_fork (id : nat) (w : launchd) : res Empty_set launchd :=
  J ← access (l_jobs w !! id);
  let r := jr J in
  Ok (log [WriteFd (fork_fd r); CloseFd (fork_fd r)]
       (set_job id (with_run J (mkRun 0 (idle_exit r) (jettisoned r) (trt r) (nruns r) (reaped r) (stopped r) (clean_kill r)
          (sent_sigkill r) (sent_signal_time r) (implicit_reap r) (exit_status_dest r) (exit_status_port r) (spawn_reply_port r)
          (xpcproxy_did_exec r) (uniqueid r) (ready2signal r) (fpfail r) (currently_ignored r) (holds_ref r) (weird_bootstrap r)
          (removing r) (suspended_perusers r))) w)).

(** The part of [job_start] from [runtime_fork] on, on the parent's side. *)
Definition job_fork (id : nat) (w : launchd) : res Empty_set launchd :=
  J ← access (l_jobs w !! id);
  let f := y_fork y (l_turn w) in
  let w := tick w in
  let pairs := sipc J in
  if fe_pid f =? -1 then
    Ok (log (TimerAdd (StartTimer id) 1 :: CloseFd (fe_execspair f).1 :: CloseFd (fe_execspair f).2 ::
             (if pairs then [CloseFd (fe_spair f).1; CloseFd (fe_spair f).2] else []))
         (set_job id (job_ignore J) w))
  else
    let J := mkJob (jc J) (jx J) (job_forked (jc J) (js J) (fe_pid f) (fe_now f)) (forked_run f (jr J)) in
    let w := link_running id J (set_job id J w) in
    let w := log (CloseFd (fe_execspair f).2 :: (if pairs then [CloseFd (fe_spair f).2; OpenIpc (fe_spair f).1] else []) ++
                  [WatchProc (fe_pid f)]) w in
    w ← (if fe_attached f then update_job id job_ignore w
         else w ← job_reap id w; update_job id job_watch w);
    if s_stall_before_exec (jx J) then Ok w else job_uncork_fork id w.

(** [job_dispatch_curious_jobs]; the next job is remembered before the body runs, and a job
    that the body freed is read again. *)
Definition is_curious_about (label' : list Z) (J : job) : bool :=
  existsb (fun si => match si_why si with
                     | OTHER_JOB_ENABLED | OTHER_JOB_DISABLED => bytes_eqb (si_what si) label'
                     | _ => false
                     end) (semaphores (jc J)).

Fixpoint curious_loop (label' : list Z) (fuel : nat) (ji : option nat) (w : launchd) : res Empty_set launchd :=
  match ji, fuel with
  | None, _ => Ok w
  | Some _, O => NoFuel
  | Some ji, S fuel =>
      let jt := head (tail (from_elem ji (l_curious w))) in
      J ← access (l_jobs w !! ji);
      w ← (if is_curious_about label' J && negb (removing (jr J)) then dispatch ji false w else Ok w);
      curious_loop label' fuel jt w
  end.

Definition with_removing (r : job_run) : job_run :=
  mkRun (fork_fd r) (idle_exit r) (jettisoned r) (trt r) (nruns r) (reaped r) (stopped r) (clean_kill r) (sent_sigkill r)
    (sent_signal_time r) (implicit_reap r) (exit_status_dest r) (exit_status_port r) (spawn_reply_port r) (xpcproxy_did_exec r)
    (uniqueid r) (ready2signal r) (fpfail r) (currently_ignored r) (holds_ref r) (weird_bootstrap r) true (suspended_perusers r).

Definition with_removal_pending (s : job_state) : job_state :=
  mkState (j_pid s) (start_time s) (last_exit_status s) (j_port s) (peruser_suspend_count s) (awaiting_audit_session s)
    (waiting4ok s) true (shutdown_monitor s) (checkedin s) (did_exec s) (crashed s) (needs_kickoff s)
    (start_pending s) (ondemand s) (priv_port_has_senders s) (workaround9359725 s) (unthrottle s).

(** Freeing the job: its descriptors, port and timers are closed and it leaves the lists of
    jobs.  Its sockets, intervals, environment and strings are not part of the state. *)
Definition free_job (id : nat) (J : job) (w : launchd) : launchd :=
  let w := log ((if negb (fork_fd (jr J) =? 0) then [CloseFd (fork_fd (jr J))] else []) ++
                (if negb (s_stdin_fd (jx J) =? 0) then [CloseFd (s_stdin_fd (jx J))] else []) ++
                (if negb (j_port (js J) =? 0) then [CloseRecv (j_port (js J))] else []) ++
                (if negb (s_exit_timeout (jx J) =? 0) then [TimerDelete (ExitTimer id)] else []) ++ [TimerDelete (StartTimer id)]) w in
  mkLaunchd (delete id (l_jobs w)) (l_active w) (l_managed w) (filter (fun x => x ≠ id) (l_curious w)) (l_waiters w)
    (l_total_children w) (l_total_anon_children w) (l_busy_cnt w) (l_normal_active_cnt w) (l_wsp w)
    (if shutdown_monitor (js J) then None else l_shutdown_monitor w) (l_calls w) (l_turn w).

(** The part of [job_remove] for a job that has no process. *)
Definition remove_idle (id : nat) (w : launchd) : res Empty_set launchd :=
  J ← access (l_jobs w !! id);
  w ← (if removing (jr J) then Ok w
       else let w := set_job id (with_run J (with_removing (jr J))) w in
            curious_loop (label (jc J)) (S (length (l_curious w))) (head (l_curious w)) w);
  J ← access (l_jobs w !! id);
  Ok (free_job id J w).

Definition job_remove (id : nat) (w : launchd) : res Empty_set launchd :=
  J ← access (l_jobs w !! id);
  if is_alias (jc J) then Ok (with_jobs w (delete id (l_jobs w))) else
  if negb (job_pid J =? 0) && negb (is_anonymous J) then
    if removal_pending (js J) then Ok w
    else Ok (job_stop id (set_job id (with_state J (with_removal_pending (js J))) w))
  else
    w ← (if negb (job_pid J =? 0) then job_reap id w else Ok w);
    remove_idle id w.

(** [job_dispatch], carried out. *)
Definition dispatch_body (id : nat) (kickstart : bool) (w : launchd) : res Empty_set launchd :=
  J ← access (l_jobs w !! id);
  match job_dispatch (y_globals y (l_turn w)) (y_mgr y (l_turn w) (s_mgr (jx J))) (jc J) (js J) kickstart with
  | NotDispatched | Suspended | StillActive _ => Ok w
  | Removed => job_remove id w
  | Started AlreadyStarted => Ok w
  | Started (Throttled d) => Ok (log [TimerAdd (StartTimer id) d] (set_job id (job_ignore J) w))
  | Started Forks => job_fork id w
  | Watched => Ok (set_job id (job_watch J) w)
  end.
End Knot.

Fixpoint dispatch (fuel : nat) (id : nat) (kickstart : bool) (w : launchd) : res Empty_set launchd :=
  match fuel with
  | O => NoFuel
  | S fuel => dispatch_body (dispatch fuel) id kickstart w
  end.

(** ** Events *)

(** A process event of the kernel: [NOTE_EXEC] (with the new label of an anonymous job, when
    the process can still be read, and whether the reply to its spawner is taken) and
    [NOTE_EXIT] (decryption failure, memory pressure). *)
Record proc_event := mkProcEvent {
  pe_exec : option (option (list Z) * bool);
  pe_exit : option (bool * bool);
}.

Definition with_label (l : list Z) (c : job_conf) : job_conf :=
  mkConf l (legacy_LS_job c) (only_once c) (anonymous c) (legacy_mach_job c) (inetcompat c) (is_alias c) (per_user c)
    (min_run_time c) (machservices c) (events c) (semaphores c).

Definition execed_job (J : job) : job :=
  let s := js J in
  let r := jr J in
  mkJob (jc J) (jx J)
    (mkState (j_pid s) (start_time s) (last_exit_status s) (j_port s) (peruser_suspend_count s) (awaiting_audit_session s)
       (waiting4ok s) (removal_pending s) (shutdown_monitor s) (checkedin s) true (crashed s) (needs_kickoff s) (start_pending s)
       (ondemand s) (priv_port_has_senders s) (workaround9359725 s) (unthrottle s))
    (mkRun (fork_fd r) (idle_exit r) (jettisoned r) (trt r) (nruns r) (reaped r) (stopped r) (clean_kill r) (sent_sigkill r)
       (sent_signal_time r) (implicit_reap r) (exit_status_dest r) (if spawn_reply_port r =? 0 then exit_status_port r else 0) 0
       (xpcproxy_did_exec r || (s_xpc_service (jx J) && did_exec s)) (uniqueid r) (ready2signal r) (fpfail r) (currently_ignored r)
       (holds_ref r) (weird_bootstrap r) (removing r) (suspended_perusers r)).

(** The [NOTE_EXEC] branch of [job_callback_proc]. *)
Definition note_exec (id : nat) (newlabel : option (list Z)) (reply_ok : bool) (w : launchd) : res Empty_set launchd :=
  J ← access (l_jobs w !! id);
  Ok (if is_anonymous J
      then match newlabel with
           | Some l => set_job id (mkJob (with_label l (jc J)) (jx J) (js J) (jr J)) w
           | None => w
           end
      else log (if negb (spawn_reply_port (jr J) =? 0)
                then SpawnReply (spawn_reply_port (jr J)) (job_pid J) :: (if reply_ok then [] else [CloseRecv (exit_status_port (jr J))])
                else []) (set_job id (execed_job J) w)).

Definition with_exit_flags (fp jet : bool) (r : job_run) : job_run :=
  mkRun (fork_fd r) (idle_exit r) jet (trt r) (nruns r) (reaped r) (stopped r) (clean_kill r) (sent_sigkill r)
    (sent_signal_time r) (implicit_reap r) (exit_status_dest r) (exit_status_port r) (spawn_reply_port r) (xpcproxy_did_exec r)
    (uniqueid r) (ready2signal r) fp (currently_ignored r) (holds_ref r) (weird_bootstrap r) (removing r) (suspended_perusers r).

Definition drop_waiters (p : Z) (w : launchd) : launchd :=
  mkLaunchd (l_jobs w) (l_active w) (l_managed w) (l_curious w) (filter (fun q => q ≠ p) (l_waiters w)) (l_total_children w)
    (l_total_anon_children w) (l_busy_cnt w) (l_normal_active_cnt w) (l_wsp w) (l_shutdown_monitor w) (l_calls w) (l_turn w).

(** The [NOTE_EXIT] branch, for the process [ident] of the event. *)
Definition note_exit (fuel : nat) (id : nat) (ident : Z) (decryptfail memory : bool) (w : launchd) : res Empty_set launchd :=
  w ← update_job id (fun J => with_run J (with_exit_flags (fpfail (jr J) || decryptfail)
                                            (jettisoned (jr J) || (negb decryptfail && memory)) (jr J))) w;
  w ← job_reap (dispatch fuel) id w;
  J ← access (l_jobs w !! id);
  if is_anonymous J then job_remove (dispatch fuel) id w
  else dispatch fuel id false (drop_waiters ident w).

Definition job_callback_proc (fuel : nat) (id : nat) (ident : Z) (ev : proc_event) (w : launchd) : res Empty_set launchd :=
  w ← match pe_exec ev with Some (l, ok) => note_exec id l ok w | None => Ok w end;
  match pe_exit ev with Some (d, m) => note_exit fuel id ident d m w | None => Ok w end.

(** [jobmgr_reap_bulk]: the event goes to the job with this process in every manager, the
    managers below first. *)
Fixpoint jobmgr_reap_bulk (fuel : nat) (mgrs : list nat) (ident : Z) (ev : proc_event) (w : launchd) : res Empty_set launchd :=
  match mgrs with
  | [] => Ok w
  | m :: mgrs =>
      w ← match jobmgr_find_by_pid w m ident with
          | Some id => job_callback_proc fuel id ident ev w
          | None => Ok w
          end;
      jobmgr_reap_bulk fuel mgrs ident ev w
  end.

Definition with_start_pending (s : job_state) : job_state :=
  mkState (j_pid s) (start_time s) (last_exit_status s) (j_port s) (peruser_suspend_count s) (awaiting_audit_session s)
    (waiting4ok s) (removal_pending s) (shutdown_monitor s) (checkedin s) (did_exec s) (crashed s) (needs_kickoff s)
    true (ondemand s) (priv_port_has_senders s) (workaround9359725 s) (unthrottle s).

Definition with_workaround (s : job_state) : job_state :=
  mkState (j_pid s) (start_time s) (last_exit_status s) (j_port s) (peruser_suspend_count s) (awaiting_audit_session s)
    (waiting4ok s) (removal_pending s) (shutdown_monitor s) (checkedin s) (did_exec s) (crashed s) (needs_kickoff s)
    (start_pending s) (ondemand s) (priv_port_has_senders s) true (unthrottle s).

(** The timers of a job. *)
Inductive timer_ident := JobTimer | SemaphoresTimer | StartIntervalTimer | ExitTimeoutTimer.

(** [job_callback_timer]; the exit that is simulated for a job that SIGKILL did not end goes
    to the managers [mgrs] from the job's own on down. *)
Definition job_callback_timer (fuel : nat) (id : nat) (ident : timer_ident) (mgrs : list nat) (w : launchd) : res Empty_set launchd :=
  match ident with
  | JobTimer => dispatch fuel id true w
  | SemaphoresTimer => dispatch fuel id false w
  | StartIntervalTimer =>
      w ← update_job id (fun J => with_state J (with_start_pending (js J))) w; dispatch fuel id false w
  | ExitTimeoutTimer =>
      J ← access (l_jobs w !! id);
      if job_pid J =? 0 then Ok w
      else if sent_sigkill (jr J)
      then jobmgr_reap_bulk fuel mgrs (job_pid J) (mkProcEvent None (Some (false, false)))
             (set_job id (with_state J (with_workaround (js J))) w)
      else Ok (job_kill id w)
  end.

(** ** New jobs *)

Definition new_job (m : nat) (lbl : list Z) : job :=
  mkJob (mkConf lbl false false false false false false false 10 [] [] [])
    (mkStatic m [] false 20 (bytes_eqb lbl (cstr "com.apple.WindowServer")) false false false false false 0)
    (mkState 0 0 0 0 0 false false false false true false false false false true false false false)
    (mkRun 0 false false 0 0 false false false false 0 false 0 0 0 false 0 false false true false false false []).

(** The identifier of a new job, which stands for its address, is one that nothing mentions. *)
Definition mentioned (w : launchd) : gset nat :=
  dom (l_jobs w) ∪ list_to_set (l_curious w) ∪
  ⋃ ((fun kv => list_to_set (suspended_perusers (jr kv.2))) <$> map_to_list (l_jobs w)).
Definition new_id (w : launchd) : nat := fresh (mentioned w).

(** [job_new], in a manager whose [shutting_down] is [down]; [prog]: a program or arguments
    were given. *)
Definition job_new (down : bool) (m : nat) (lbl : list Z) (prog : bool) (w : launchd) : option nat * launchd :=
  if down || negb prog then (None, w)
  else if negb (y_alloc y (l_turn w)) then (None, tick w)
  else (Some (new_id w), set_job (new_id w) (new_job m lbl) (tick w)).

(** What [proc_pidinfo] says of a process: the label made of the command, whether the command
    is blank, and the parent. *)
Record proc_info := mkProc {
  pi_label : list Z;
  pi_blank : bool;
  pi_ppid : Z;
}.

(** The job becomes the running process [p] that launchd did not start. *)
Definition anonymous_job (J : job) (p : Z) : job :=
  let c := jc J in
  let s := js J in
  mkJob (mkConf (label c) (legacy_LS_job c) (only_once c) true (legacy_mach_job c) (inetcompat c) (is_alias c) (per_user c)
           (min_run_time c) (machservices c) (events c) (semaphores c))
    (jx J)
    (mkState p (start_time s) (last_exit_status s) (j_port s) (peruser_suspend_count s) (awaiting_audit_session s)
       (waiting4ok s) (removal_pending s) (shutdown_monitor s) (checkedin s) (did_exec s) (crashed s) (needs_kickoff s)
       (start_pending s) (ondemand s) (priv_port_has_senders s) (workaround9359725 s) (unthrottle s))
    (jr J).

Definition link_anonymous (id : nat) (J : job) (w : launchd) : launchd :=
  let p := job_pid J in
  log [WatchProc p]
    (with_counts
       (with_lists (set_job id J w) (<[(s_mgr (jx J), ACTIVE_JOB_HASH p) := id :: bucket w (s_mgr (jx J)) p]> (l_active w)) (l_managed w))
       (l_total_children w) (l_total_anon_children w + 1) (l_busy_cnt w) (l_normal_active_cnt w) (l_wsp w) (l_shutdown_monitor w)).

Section Anonymous.
Context (procs : gmap Z proc_info) (pid1_magic : bool) (m : nat).

Definition add_anonymous (p : Z) (lbl : list Z) (w : launchd) : option nat * launchd :=
  match job_new false m lbl true w with
  | (Some id, w) =>
      match l_jobs w !! id with
      | Some J => (Some id, link_anonymous id (anonymous_job J p) w)
      | None => (None, w)
      end
  | (None, w) => (None, w)
  end.

(** [job_new_anonymous]: the job of the process [p] in the manager [m], then those of its
    ancestors, by [jobmgr_find_by_pid]. *)
Fixpoint job_new_anonymous (fuel : nat) (p : Z) (w : launchd) : res Empty_set (option nat * launchd) :=
  match fuel with
  | O => NoFuel
  | S fuel =>
      if (p =? 0) || (100000 <=? p) then Ok (None, w) else
      match procs !! p with
      | None => Ok (None, w)
      | Some pi =>
          if pi_blank pi || (pi_ppid pi =? p) then Ok (None, w) else
          let '(jr, w) := add_anonymous p (pi_label pi) w in
          w ← (if (pi_ppid pi =? 0) || ((pi_ppid pi =? 1) && negb pid1_magic) then Ok w
               else match jobmgr_find_by_pid w m (pi_ppid pi) with
                    | Some _ => Ok w
                    | None => r ← job_new_anonymous fuel (pi_ppid pi) w; Ok r.2
                    end);
          Ok (jr, w)
      end
  end.

(** [jobmgr_find_by_pid] with [create_anon]. *)
Definition find_or_create (fuel : nat) (p : Z) (w : launchd) : res Empty_set (option nat * launchd) :=
  match jobmgr_find_by_pid w m p with
  | Some id => Ok (Some id, w)
  | None => job_new_anonymous fuel p w
  end.
End Anonymous.

(** [job_import]: the job [J] that [jobmgr_import2] made of the message is enabled. *)
Definition nosy (J : job) : bool :=
  existsb (fun si => match si_why si with OTHER_JOB_ENABLED | OTHER_JOB_DISABLED => true | _ => false end) (semaphores (jc J)).

Definition enable (id : nat) (J : job) (w : launchd) : launchd :=
  mkLaunchd (<[id := J]> (l_jobs w)) (l_active w) (l_managed w) (if nosy J then id :: l_curious w else l_curious w) (l_waiters w)
    (l_total_children w) (l_total_anon_children w) (l_busy_cnt w) (l_normal_active_cnt w) (l_wsp w) (l_shutdown_monitor w)
    (l_calls w) (l_turn w).

Definition job_import (fuel : nat) (J : job) (w : launchd) : res Empty_set launchd :=
  let id := new_id w in
  let w := enable id J w in
  w ← curious_loop (dispatch fuel) (label (jc J)) (S (length (l_curious w))) (head (l_curious w)) w;
  dispatch fuel id false w.

(** ** Per-user launchds

    [VPROC_GSK_PERUSER_SUSPEND] and [VPROC_GSK_PERUSER_RESUME], from the job [id] for the
    per-user launchd [u]; [permitted]: this is process 1 and, for the suspension, the caller is
    root; [mem]: [calloc] succeeds. *)
Definition peruser_suspend (permitted : bool) (id u : nat) (mem : bool) (w : launchd) : res Empty_set launchd :=
  if negb permitted then Ok w else
  J ← access (l_jobs w !! id);
  JU ← access (l_jobs w !! u);
  if bool_decide (u ∈ suspended_perusers (jr J)) || negb mem then Ok w else
  w ← (if peruser_suspend_count (js JU) =? 0 then update_job u job_ignore w else Ok w);
  w ← update_job u (fun JU => with_state JU (with_suspend 1 (js JU))) w;
  w ← update_job id (fun J => with_run J (with_suspended (u :: suspended_perusers (jr J)) (jr J))) w;
  Ok (job_stop u w).

(** The list without its first [u]. *)
Fixpoint remove_first (u : nat) (l : list nat) : list nat :=
  match l with [] => [] | x :: l => if decide (x = u) then l else x :: remove_first u l end.

Definition peruser_resume (fuel : nat) (permitted : bool) (id u : nat) (w : launchd) : res Empty_set launchd :=
  if negb permitted then Ok w else
  J ← access (l_jobs w !! id);
  if negb (bool_decide (u ∈ suspended_perusers (jr J))) then Ok w else
  w ← update_job u (fun JU => with_state JU (with_suspend (-1) (js JU))) w;
  w ← update_job id (fun J => with_run J (with_suspended (remove_first u (suspended_perusers (jr J))) (jr J))) w;
  JU ← access (l_jobs w !! u);
  if peruser_suspend_count (js JU) =? 0 then w ← update_job u job_watch w; dispatch fuel u false w else Ok w.

(** [job_mig_switch_to_session], for a job that wants to move to the manager [target] of that
    name, which is made if there is none; [None]: it could not be made. *)
Definition with_mgr (m : nat) (x : job_static) : job_static :=
  mkStatic m (s_services x) (s_abandon_pg x) (s_exit_timeout x) (s_has_console x) (s_xpc_service x) (s_stall_before_exec x)
    (s_sockets x) (s_deny_job_creation x) (s_embedded_god x) (s_stdin_fd x).

Definition with_holds_ref (r : job_run) : job_run :=
  mkRun (fork_fd r) (idle_exit r) (jettisoned r) (trt r) (nruns r) (reaped r) (stopped r) (clean_kill r) (sent_sigkill r)
    (sent_signal_time r) (implicit_reap r) (exit_status_dest r) (exit_status_port r) (spawn_reply_port r) (xpcproxy_did_exec r)
    (uniqueid r) (ready2signal r) (fpfail r) (currently_ignored r) true (weird_bootstrap r) (removing r) (suspended_perusers r).

Definition switch_to_session (pid1_magic : bool) (id : nat) (target : option nat) (w : launchd) : res Empty_set launchd :=
  J ← access (l_jobs w !! id);
  if shutting_down (y_mgr y (l_turn w) (s_mgr (jx J))) || pid1_magic || negb (is_anonymous J) then Ok w else
  match target with
  | None => Ok w
  | Some m =>
      if (m =? s_mgr (jx J))%nat then Ok w else
      let w := unlink id J w in
      let J' := mkJob (jc J) (with_mgr m (jx J)) (js J) (with_holds_ref (jr J)) in
      let w := set_job id J' w in
      Ok (with_counts (with_lists w (<[(m, ACTIVE_JOB_HASH (job_pid J)) := id :: bucket w m (job_pid J)]> (l_active w)) (l_managed w))
            (l_total_children w) (l_total_anon_children w) (if holds_ref (jr J) then l_busy_cnt w else l_busy_cnt w + 1)
            (l_normal_active_cnt w) (l_wsp w) (l_shutdown_monitor w))
  end.

(** ** The events launchd handles, one after the other *)
Inductive event :=
  | ProcessEvent (ident : Z) (mgrs : list nat) (ev : proc_event)
  | TimerEvent (id : nat) (ident : timer_ident) (mgrs : list nat)
  | DispatchJob (id : nat) (kickstart : bool)
  | StopJob (id : nat)
  | RemoveJob (id : nat)
  | Import (J : job)
  | Caller (procs : gmap Z proc_info) (pid1_magic : bool) (m : nat) (p : Z)
  | SwitchSession (pid1_magic : bool) (id : nat) (target : option nat)
  | Suspend (permitted : bool) (id u : nat) (mem : bool)
  | Resume (permitted : bool) (id u : nat).

Definition handle (fuel : nat) (ev : event) (w : launchd) : res Empty_set launchd :=
  match ev with
  | ProcessEvent ident mgrs ev => jobmgr_reap_bulk fuel mgrs ident ev w
  | TimerEvent id ident mgrs => job_callback_timer fuel id ident mgrs w
  | DispatchJob id kickstart => dispatch fuel id kickstart w
  | StopJob id => Ok (job_stop id w)
  | RemoveJob id => job_remove (dispatch fuel) id w
  | Import J => job_import fuel J w
  | Caller procs pid1_magic m p => r ← find_or_create procs pid1_magic m fuel p w; Ok r.2
  | SwitchSession pid1_magic id target => switch_to_session pid1_magic id target w
  | Suspend permitted id u mem => peruser_suspend permitted id u mem w
  | Resume permitted id u => peruser_resume fuel permitted id u w
  end.

End System.

(** launchd before its first event. *)
Definition launchd_start : launchd := mkLaunchd ∅ ∅ ∅ [] [] 0 0 0 ∅ 0 None [] 0.
