(* ===== verification/JobAccounts.v ===== *)
(** * The accounts of launchd's jobs

    The hash lists of the running jobs and the counters of [JobProcess] agree with the jobs,
    after every event; dispatching ends; and what happens when a process exits. *)

From stdpp Require Import relations.
From S2P Require Import Machine Prelude LaunchData JobPolicy JobProcess.

(** ** Sums over the jobs *)

Definition total (f : job → Z) (m : gmap nat job) : Z := map_fold (fun _ J acc => f J + acc) 0 m.

Lemma total_fresh f m i J : m !! i = None → total f (<[i := J]> m) = f J + total f m.
Proof. intros H. unfold total. apply (map_fold_insert_L (fun _ J acc => f J + acc)); [intros; lia|done]. Qed.

Lemma total_delete f m i J : m !! i = Some J → total f (delete i m) = total f m - f J.
Proof.
  intros H. rewrite <- (insert_delete_id m i J) at 2 by done.
  rewrite total_fresh by apply lookup_delete_eq. lia.
Qed.

Lemma total_update f m i J J' : m !! i = Some J → total f (<[i := J']> m) = total f m - f J + f J'.
Proof.
  intros H. rewrite <- insert_delete_eq, total_fresh by apply lookup_delete_eq.
  rewrite (total_delete f m i J H). lia.
Qed.

(** ** The accounts

    The share of a job in each counter. *)

Definition running (J : job) : bool := negb (job_pid J =? 0).
Definition child_share (J : job) : Z := Z.b2z (running J && negb (is_anonymous J)).
Definition anon_share (J : job) : Z := Z.b2z (running J && is_anonymous J).
Definition busy_share (J : job) : Z := Z.b2z (running J && (negb (is_anonymous J) || holds_ref (jr J))).
Definition normal_share (m : nat) (J : job) : Z :=
  Z.b2z (running J && negb (is_anonymous J) && (s_mgr (jx J) =? m)%nat).

(** What the accounts see of a job. *)
Definition job_key (J : job) : Z * bool * nat * bool * bool :=
  (job_pid J, is_anonymous J, s_mgr (jx J), holds_ref (jr J), is_alias (jc J)).

Lemma key_shares J J' : job_key J = job_key J' →
  running J = running J' ∧ is_anonymous J = is_anonymous J' ∧ child_share J = child_share J' ∧ anon_share J = anon_share J' ∧
  busy_share J = busy_share J' ∧ ∀ m, normal_share m J = normal_share m J'.
Proof.
  intros [= H1 H2 H3 H4 _]. unfold child_share, anon_share, busy_share, normal_share, running. rewrite H1, H2, H3, H4. done.
Qed.

(** The jobs that belong in a list. *)
Definition belongs (w : launchd) (D : gset nat) (m : nat) (b : Z) (id : nat) : Prop :=
  id ∉ D ∧ ∃ J, l_jobs w !! id = Some J ∧ running J = true ∧ s_mgr (jx J) = m ∧ ACTIVE_JOB_HASH (job_pid J) = b.
Definition belongs_managed (w : launchd) (D : gset nat) (b : Z) (id : nat) : Prop :=
  id ∉ D ∧ ∃ J, l_jobs w !! id = Some J ∧ running J = true ∧ is_anonymous J = false ∧ ACTIVE_JOB_HASH (job_pid J) = b.

(** The accounts are in order, but for the jobs in [D], which are being reaped and have left
    the lists. *)
Record accounts (D : gset nat) (w : launchd) : Prop := mkAccounts {
  ac_children : l_total_children w = total child_share (l_jobs w);
  ac_anon : l_total_anon_children w = total anon_share (l_jobs w);
  ac_busy : l_busy_cnt w = total busy_share (l_jobs w);
  ac_normal : ∀ m, default 0 (l_normal_active_cnt w !! m) = total (normal_share m) (l_jobs w);
  ac_active : ∀ m b, NoDup (default [] (l_active w !! (m, b))) ∧
                ∀ id, id ∈ default [] (l_active w !! (m, b)) ↔ belongs w D m b id;
  ac_managed : ∀ b, NoDup (default [] (l_managed w !! b)) ∧
                 ∀ id, id ∈ default [] (l_managed w !! b) ↔ belongs_managed w D b id;
  ac_curious : ∀ u J, u ∈ l_curious w → l_jobs w !! u = Some J → is_anonymous J = false;
  ac_suspended : ∀ id J u JU, l_jobs w !! id = Some J → u ∈ suspended_perusers (jr J) → l_jobs w !! u = Some JU → is_anonymous JU = false;
  ac_reaping : ∀ i, i ∈ D → ∃ J, l_jobs w !! i = Some J ∧ running J = true;
  ac_idle : ∀ id J, l_jobs w !! id = Some J → running J = false → suspended_perusers (jr J) = [];
  ac_alias : ∀ id J, l_jobs w !! id = Some J → is_alias (jc J) = true → running J = false;
  ac_nosy : NoDup (l_curious w);
}.

(** What a dispatch may do to the other jobs: running ones keep their process, and no job
    appears. *)
Definition keeps (w w' : launchd) : Prop :=
  (∀ id J, l_jobs w !! id = Some J → running J = true → ∃ J', l_jobs w' !! id = Some J' ∧ job_key J' = job_key J) ∧
  (∀ id J', l_jobs w' !! id = Some J' → ∃ J, l_jobs w !! id = Some J ∧ is_anonymous J' = is_anonymous J) ∧
  l_curious w' `sublist_of` l_curious w.

Lemma keeps_refl w : keeps w w.
Proof. split_and!; eauto. Qed.

Lemma keeps_trans w w' w'' : keeps w w' → keeps w' w'' → keeps w w''.
Proof.
  intros (H1 & H2 & H3) (H1' & H2' & H3'). split_and!; [| |by etrans].
  - intros id J Hj Hr. destruct (H1 id J Hj Hr) as (J' & Hj' & Hk). destruct (key_shares _ _ Hk) as [Hr' _].
    destruct (H1' id J' Hj') as (J'' & Hj'' & Hk'); [congruence|]. exists J''. split; congruence.
  - intros id J'' Hj. destruct (H2' id J'' Hj) as (J' & Hj' & E). destruct (H2 id J' Hj') as (J & Hj0 & E'). exists J. split; congruence.
Qed.

(** The accounts see only the jobs, the lists and the counters. *)
Definition same_books (w w' : launchd) : Prop :=
  l_jobs w' = l_jobs w ∧ l_active w' = l_active w ∧ l_managed w' = l_managed w ∧ l_curious w' = l_curious w ∧
  l_total_children w' = l_total_children w ∧ l_total_anon_children w' = l_total_anon_children w ∧
  l_busy_cnt w' = l_busy_cnt w ∧ l_normal_active_cnt w' = l_normal_active_cnt w.

Lemma accounts_books D w w' : same_books w w' → accounts D w → accounts D w'.
Proof.
  intros (H1 & H2 & H3 & H4 & H5 & H6 & H7 & H8) [A1 A2 A3 A4 A5 A6 A7 A8 A9 A10 A11 A12].
  split; unfold belongs, belongs_managed in *; rewrite ?H1, ?H2, ?H3, ?H4, ?H5, ?H6, ?H7, ?H8; done.
Qed.

Lemma keeps_books w w' : same_books w w' → keeps w w'.
Proof. intros (H1 & _ & _ & H4 & _). unfold keeps. rewrite H1, H4. apply (keeps_refl w). Qed.

Lemma books_log cs w : same_books w (log cs w).
Proof. done. Qed.
Lemma books_tick w : same_books w (tick w).
Proof. done. Qed.
Lemma books_waiters p w : same_books w (drop_waiters p w).
Proof. done. Qed.
#[export] Hint Resolve books_log books_tick books_waiters : osxie.

(** A change of a job that the accounts do not see. *)
Section SetJob.
Context (D : gset nat) (w : launchd) (id : nat) (J J' : job).
Hypothesis HJ : l_jobs w !! id = Some J.
Hypothesis Hkey : job_key J' = job_key J.

Lemma set_job_lookup i K' : l_jobs (set_job id J' w) !! i = Some K' → ∃ K, l_jobs w !! i = Some K ∧ job_key K' = job_key K.
Proof.
  cbn. destruct (decide (id = i)) as [<-|Hi]; [rewrite lookup_insert_eq; intros [= <-]; by exists J|].
  rewrite lookup_insert_ne by done. intros H. by exists K'.
Qed.

Lemma set_job_keeps : keeps w (set_job id J' w).
Proof.
  split_and!; [| |done].
  - intros i K HK _. cbn. destruct (decide (id = i)) as [<-|Hi]; [rewrite lookup_insert_eq; exists J'; split; congruence|].
    rewrite lookup_insert_ne by done. by exists K.
  - intros i K' HK'. destruct (set_job_lookup i K' HK') as (K & HK & E). exists K. by destruct (key_shares _ _ E) as (_ & ? & _).
Qed.

Lemma set_job_total f : (∀ K K', job_key K = job_key K' → f K = f K') → total f (l_jobs (set_job id J' w)) = total f (l_jobs w).
Proof. intros Hf. cbn. rewrite (total_update f _ id J J' HJ), (Hf J' J Hkey). lia. Qed.

Lemma set_job_belongs (P : job → Prop) : (∀ K K', job_key K = job_key K' → P K → P K') →
  ∀ i, (∃ K, l_jobs (set_job id J' w) !! i = Some K ∧ P K) ↔ (∃ K, l_jobs w !! i = Some K ∧ P K).
Proof.
  intros HP i. cbn. destruct (decide (id = i)) as [<-|Hi]; [|by rewrite lookup_insert_ne by done].
  rewrite lookup_insert_eq, HJ. split; intros (K & [= <-] & HK); eexists; (split; [done|]); by eapply HP.
Qed.

Lemma set_job_accounts :
  (∀ u JU, u ∈ suspended_perusers (jr J') → l_jobs w !! u = Some JU → is_anonymous JU = false) →
  (running J' = false → suspended_perusers (jr J') = []) → accounts D w → accounts D (set_job id J' w).
Proof.
  intros Hsusp Hidle [A1 A2 A3 A4 A5 A6 A7 A8 A9 A10 A11 A12].
  split; try (intros; cbn [set_job with_jobs l_total_children l_total_anon_children l_busy_cnt l_normal_active_cnt];
              rewrite set_job_total by (intros ? ? ?%key_shares; naive_solver); auto).
  - intros m b. split; [apply A5|]. intros i. rewrite (proj2 (A5 m b) i). unfold belongs.
    rewrite (set_job_belongs (fun K => running K = true ∧ s_mgr (jx K) = m ∧ ACTIVE_JOB_HASH (job_pid K) = b)); [done|].
    intros K K' E (? & ? & ?). destruct (key_shares _ _ E) as [? _]. injection E as E1 E2 E3 E4 _. split_and!; congruence.
  - intros b. split; [apply A6|]. intros i. rewrite (proj2 (A6 b) i). unfold belongs_managed.
    rewrite (set_job_belongs (fun K => running K = true ∧ is_anonymous K = false ∧ ACTIVE_JOB_HASH (job_pid K) = b)); [done|].
    intros K K' E (? & ? & ?). destruct (key_shares _ _ E) as [? _]. injection E as E1 E2 E3 E4 _. split_and!; congruence.
  - intros u K' Hu HK'. destruct (set_job_lookup u K' HK') as (K & HK & E). destruct (key_shares _ _ E) as (_ & -> & _). by eapply A7.
  - intros i K' u KU' HK' Hu HKU'. destruct (set_job_lookup u KU' HKU') as (KU & HKU & E). destruct (key_shares _ _ E) as (_ & -> & _).
    cbn in HK'. destruct (decide (id = i)) as [<-|Hi].
    + rewrite lookup_insert_eq in HK'. injection HK' as <-. by apply (Hsusp u KU).
    + rewrite lookup_insert_ne in HK' by done. by apply (A8 i K' u KU).
  - intros i Hi. rewrite (set_job_belongs (fun K => running K = true)); [by apply A9|].
    intros K K' E ?. destruct (key_shares _ _ E) as [? _]. congruence.
  - intros i K HK HrK. cbn in HK. destruct (decide (id = i)) as [<-|Hi].
    + rewrite lookup_insert_eq in HK. injection HK as <-. auto.
    + rewrite lookup_insert_ne in HK by done. by eapply A10.
  - intros i K' HK' Hal. destruct (set_job_lookup i K' HK') as (K & HK & E). destruct (key_shares _ _ E) as [-> _].
    apply (A11 i K HK). injection E as _ _ _ _ <-. done.
  - done.
Qed.

Lemma set_job_accounts_sub :
  suspended_perusers (jr J') ⊆ suspended_perusers (jr J) → accounts D w → accounts D (set_job id J' w).
Proof.
  intros Hs A. apply set_job_accounts; [| |done].
  - intros u JU Hu HJU. by apply (ac_suspended _ _ A id J u JU HJ (Hs u Hu)).
  - intros Hr. destruct (key_shares _ _ Hkey) as [E _]. rewrite (ac_idle _ _ A id J HJ) in Hs by congruence. by apply list_nil_subseteq.
Qed.
End SetJob.

(** Leaving the lists. *)
Lemma unlink_accounts D w id J :
  accounts D w → l_jobs w !! id = Some J → running J = true → id ∉ D → accounts ({[id]} ∪ D) (unlink id J w).
Proof.
  intros [A1 A2 A3 A4 A5 A6 A7 A8 A9 A10 A11 A12] HJ Hr HD. split; try done.
  - intros m b. cbn [unlink with_lists l_active]. unfold belongs, bucket. cbn [unlink with_lists l_jobs].
    destruct (decide ((s_mgr (jx J), ACTIVE_JOB_HASH (job_pid J)) = (m, b))) as [[= <- <-]|Hne].
    + rewrite lookup_insert_eq. cbn [default Datatypes.id]. destruct (A5 (s_mgr (jx J)) (ACTIVE_JOB_HASH (job_pid J))) as [Hn Hi].
      split; [by apply NoDup_filter|]. intros i. rewrite list_elem_of_filter, Hi. unfold belongs. set_solver.
    + rewrite lookup_insert_ne by done. destruct (A5 m b) as [Hn Hi]. split; [done|]. intros i. rewrite Hi. unfold belongs.
      split; [|set_solver]. intros (Hd & K & HK & Hrk & Hm & Hb). split; [|by exists K].
      intros [Hi'|Hi']%elem_of_union; [|done]. apply elem_of_singleton in Hi' as ->. rewrite HJ in HK. injection HK as <-. by subst.
  - intros b. cbn [unlink with_lists l_managed]. unfold belongs_managed, managed_bucket. cbn [unlink with_lists l_jobs].
    destruct (A6 b) as [Hn Hi].
    assert (∀ i, i ∈ default [] (l_managed w !! b) → (is_anonymous J = true ∨ ACTIVE_JOB_HASH (job_pid J) ≠ b) → i ≠ id) as Hout.
    { intros i Hin Hor ->. apply Hi in Hin as (_ & K & HK & _ & Ha & Hb). rewrite HJ in HK. injection HK as <-. destruct Hor; congruence. }
    destruct (is_anonymous J) eqn:Ha; [|destruct (decide (ACTIVE_JOB_HASH (job_pid J) = b)) as [<-|Hne]].
    + split; [done|]. intros i. rewrite Hi. split; [|unfold belongs_managed; set_solver]. intros Hb. apply Hi in Hb as Hb'.
      pose proof (Hout i Hb' (or_introl eq_refl)). unfold belongs_managed in Hb. set_solver.
    + rewrite lookup_insert_eq. cbn [default Datatypes.id]. split; [by apply NoDup_filter|].
      intros i. rewrite list_elem_of_filter, Hi. unfold belongs_managed. set_solver.
    + rewrite lookup_insert_ne by done. split; [done|]. intros i. rewrite Hi. split; [|unfold belongs_managed; set_solver].
      intros Hb. apply Hi in Hb as Hb'. pose proof (Hout i Hb' (or_intror Hne)). unfold belongs_managed in Hb. set_solver.
  - intros i [Hi|Hi]%elem_of_union; [apply elem_of_singleton in Hi as ->; by exists J|by apply A9].
Qed.

(** Both lists of a job that is or becomes idle in its old state do not see the change. *)
Lemma insert_idle_belongs (m : gmap nat job) id J (P : job → Prop) :
  ¬ P J → ∀ i, (∃ K, <[id := J]> m !! i = Some K ∧ P K) ↔ i ≠ id ∧ ∃ K, m !! i = Some K ∧ P K.
Proof.
  intros HP i. destruct (decide (i = id)) as [->|Hi].
  - rewrite lookup_insert_eq. split; [by intros (K & [= <-] & ?)|naive_solver].
  - rewrite lookup_insert_ne by done. naive_solver.
Qed.

Lemma bump_lookup m d cnt k : default 0 (bump m d cnt !! k) = default 0 (cnt !! k) + (if decide (m = k) then d else 0).
Proof.
  unfold bump. case_decide as E; [subst; by rewrite lookup_insert_eq|]. rewrite lookup_insert_ne by done. lia.
Qed.

(** The books of a world whose job [id] changed. *)
Lemma update_curious w id J J' :
  l_jobs w !! id = Some J → is_anonymous J' = is_anonymous J →
  ∀ u K', <[id := J']> (l_jobs w) !! u = Some K' → ∃ K, l_jobs w !! u = Some K ∧ is_anonymous K' = is_anonymous K.
Proof.
  intros HJ Ha u K'. destruct (decide (id = u)) as [<-|Hu]; [rewrite lookup_insert_eq; intros [= <-]; by exists J|].
  rewrite lookup_insert_ne by done. intros H. by exists K'.
Qed.

Lemma update_suspended D w id J J' :
  accounts D w → l_jobs w !! id = Some J → is_anonymous J' = is_anonymous J →
  (∀ u JU, u ∈ suspended_perusers (jr J') → l_jobs w !! u = Some JU → is_anonymous JU = false) →
  ∀ i K u KU, <[id := J']> (l_jobs w) !! i = Some K → u ∈ suspended_perusers (jr K) → <[id := J']> (l_jobs w) !! u = Some KU →
  is_anonymous KU = false.
Proof.
  intros A HJ Ha Hs i K u KU HK Hu HKU. destruct (update_curious w id J J' HJ Ha u KU HKU) as (KU0 & HKU0 & ->).
  destruct (decide (id = i)) as [<-|Hi].
  - rewrite lookup_insert_eq in HK. injection HK as <-. by apply (Hs u KU0).
  - rewrite lookup_insert_ne in HK by done. by eapply (ac_suspended _ _ A i K u KU0).
Qed.

(** The end of a reaping. *)
Lemma reap_end_accounts D w id J :
  accounts ({[id]} ∪ D) w → id ∉ D → l_jobs w !! id = Some J → running J = true → suspended_perusers (jr J) = [] →
  accounts D (reap_counts J (set_job id (reap_job J) w)).
Proof.
  intros A HD HJ Hr Hsp. pose proof A as [A1 A2 A3 A4 A5 A6 A7 A8 A9 A10 A11 A12].
  assert (∀ f, f (reap_job J) = 0 → total f (<[id := reap_job J]> (l_jobs w)) = total f (l_jobs w) - f J) as Htot.
  { intros f Hf. rewrite (total_update f _ id J _ HJ), Hf. lia. }
  split; cbn [reap_counts with_counts set_job with_jobs l_jobs l_total_children l_total_anon_children l_busy_cnt l_normal_active_cnt l_active l_managed l_curious].
  - rewrite Htot, A1 by done. unfold child_share. rewrite Hr. destruct (is_anonymous J); cbn; lia.
  - rewrite Htot, A2 by done. unfold anon_share. rewrite Hr. destruct (is_anonymous J); cbn; lia.
  - rewrite Htot, A3 by done. unfold busy_share. rewrite Hr. destruct (is_anonymous J), (holds_ref (jr J)); cbn; lia.
  - intros m. rewrite Htot, <- (A4 m) by done. unfold normal_share. rewrite Hr. destruct (is_anonymous J); cbn [negb andb]; [cbn; lia|].
    rewrite bump_lookup. destruct (Nat.eqb_spec (s_mgr (jx J)) m); case_decide; try done; cbn; lia.
  - intros m b. destruct (A5 m b) as [Hn Hi]. split; [done|]. intros i. rewrite Hi. unfold belongs. cbn.
    rewrite (insert_idle_belongs (l_jobs w) id (reap_job J) (fun K => running K = true ∧ s_mgr (jx K) = m ∧ ACTIVE_JOB_HASH (job_pid K) = b)); [set_solver|].
    by intros [? _].
  - intros b. destruct (A6 b) as [Hn Hi]. split; [done|]. intros i. rewrite Hi. unfold belongs_managed. cbn.
    rewrite (insert_idle_belongs (l_jobs w) id (reap_job J) (fun K => running K = true ∧ is_anonymous K = false ∧ ACTIVE_JOB_HASH (job_pid K) = b)); [set_solver|].
    by intros [? _].
  - intros u K Hu HK. destruct (update_curious w id J (reap_job J) HJ eq_refl u K HK) as (K0 & HK0 & ->). by eapply A7.
  - apply (update_suspended ({[id]} ∪ D) w id J); [done..|]. cbn [reap_job jr suspended_perusers]. rewrite Hsp. by intros u JU ?%not_elem_of_nil.
  - intros i Hi. rewrite lookup_insert_ne by (intros ->; done). apply A9. set_solver.
  - intros i K. destruct (decide (id = i)) as [<-|Hi]; [rewrite lookup_insert_eq; by intros [= <-]|].
    rewrite lookup_insert_ne by done. apply A10.
  - intros i K. destruct (decide (id = i)) as [<-|Hi]; [rewrite lookup_insert_eq; by intros [= <-]|].
    rewrite lookup_insert_ne by done. apply A11.
  - done.
Qed.

(** A job starts to run. *)
Lemma start_belongs w (D : gset nat) id J0 J (P : job → Prop) :
  l_jobs w !! id = Some J0 → ¬ P J0 → id ∉ D →
  ∀ i, (i ∉ D ∧ ∃ K, <[id := J]> (l_jobs w) !! i = Some K ∧ P K) ↔ (i = id ∧ P J) ∨ (i ∉ D ∧ ∃ K, l_jobs w !! i = Some K ∧ P K).
Proof.
  intros HJ HP HD i. destruct (decide (i = id)) as [->|Hi].
  - rewrite lookup_insert_eq, HJ. naive_solver.
  - rewrite lookup_insert_ne by done. naive_solver.
Qed.

Lemma start_list w (D : gset nat) id J0 J (P : job → Prop) `{!Decision (P J)} (l : list nat) :
  l_jobs w !! id = Some J0 → ¬ P J0 → id ∉ D →
  NoDup l ∧ (∀ i, i ∈ l ↔ i ∉ D ∧ ∃ K, l_jobs w !! i = Some K ∧ P K) →
  let l' := if decide (P J) then id :: l else l in
  NoDup l' ∧ ∀ i, i ∈ l' ↔ i ∉ D ∧ ∃ K, <[id := J]> (l_jobs w) !! i = Some K ∧ P K.
Proof.
  intros HJ HP HD [Hn Hi] l'. subst l'.
  assert (id ∉ l) as Hnot. { rewrite Hi. intros (_ & K & HK & ?). congruence. }
  split; [case_decide; [by apply NoDup_cons|done]|]. intros i. rewrite (start_belongs w D id J0 J P) by done.
  case_decide; rewrite ?elem_of_cons, Hi; naive_solver.
Qed.

Lemma insert_bucket {K : Type} `{Countable K} (m : gmap K (list nat)) (k k' : K) (x : nat) (Q : Prop) `{!Decision Q} :
  (Q ↔ k = k') → default [] (<[k := x :: default [] (m !! k)]> m !! k') =
                 if decide Q then x :: default [] (m !! k') else default [] (m !! k').
Proof.
  intros HQ. case_decide as E; [apply HQ in E as <-; by rewrite lookup_insert_eq|].
  rewrite lookup_insert_ne by (intros Ek; by apply E, HQ). done.
Qed.

(** The books once the job [id], which was idle, runs as [J]: the counters take its share. *)
Lemma start_accounts D w w' id J0 J :
  accounts D w → l_jobs w !! id = Some J0 → running J0 = false → running J = true → is_anonymous J = is_anonymous J0 → is_alias (jc J) = false →
  (∀ u JU, u ∈ suspended_perusers (jr J) → l_jobs w !! u = Some JU → is_anonymous JU = false) →
  l_jobs w' = <[id := J]> (l_jobs w) → l_curious w' = l_curious w →
  l_active w' = <[(s_mgr (jx J), ACTIVE_JOB_HASH (job_pid J)) := id :: bucket w (s_mgr (jx J)) (job_pid J)]> (l_active w) →
  l_managed w' = (if is_anonymous J then l_managed w
                  else <[ACTIVE_JOB_HASH (job_pid J) := id :: managed_bucket w (job_pid J)]> (l_managed w)) →
  l_total_children w' = l_total_children w + child_share J → l_total_anon_children w' = l_total_anon_children w + anon_share J →
  l_busy_cnt w' = l_busy_cnt w + busy_share J →
  (∀ m, default 0 (l_normal_active_cnt w' !! m) = default 0 (l_normal_active_cnt w !! m) + normal_share m J) →
  accounts D w'.
Proof.
  intros A HJ0 H0 H1 Ha Hal Hs Ej Ec Eact Eman C1 C2 C3 C4. pose proof A as [A1 A2 A3 A4 A5 A6 A7 A8 A9 A10 A11 A12].
  assert (id ∉ D) as HD. { intros Hin. destruct (A9 id Hin) as (K & HK & ?). congruence. }
  assert (∀ f, f J0 = 0 → total f (l_jobs w') = total f (l_jobs w) + f J) as Htot.
  { intros f Hf. rewrite Ej, (total_update f _ id J0 J HJ0), Hf. lia. }
  split.
  - by rewrite C1, A1, Htot by (unfold child_share; by rewrite H0).
  - by rewrite C2, A2, Htot by (unfold anon_share; by rewrite H0).
  - by rewrite C3, A3, Htot by (unfold busy_share; by rewrite H0).
  - intros m. by rewrite C4, A4, Htot by (unfold normal_share; by rewrite H0).
  - intros m b. set (P := fun K => running K = true ∧ s_mgr (jx K) = m ∧ ACTIVE_JOB_HASH (job_pid K) = b).
    rewrite Eact. unfold bucket. rewrite (insert_bucket (l_active w) _ _ id (P J)) by (unfold P; split; [by intros (_ & <- & <-)|by intros [= <- <-]]).
    unfold belongs. rewrite Ej. apply (start_list w D id J0 J P); [done|unfold P; intros [? _]; congruence|done|apply A5].
  - intros b. set (P := fun K => running K = true ∧ is_anonymous K = false ∧ ACTIVE_JOB_HASH (job_pid K) = b).
    unfold belongs_managed. rewrite Ej, Eman.
    pose proof (start_list w D id J0 J P (default [] (l_managed w !! b)) HJ0 ltac:(unfold P; intros [? _]; congruence) HD (A6 b)) as HL.
    cbv zeta in HL. assert (is_anonymous J = true ∨ is_anonymous J = false) as [HaJ|HaJ] by (clear; destruct (is_anonymous J); auto); rewrite HaJ.
    + rewrite decide_False in HL by (unfold P; intros (_ & ? & _); congruence). exact HL.
    + unfold managed_bucket. rewrite (insert_bucket (l_managed w) _ _ id (P J)) by (unfold P; clear HL; split; [by intros (_ & _ & <-)|by intros <-]). exact HL.
  - intros u K Hu HK. rewrite Ej in HK. rewrite Ec in Hu. destruct (update_curious w id J0 J HJ0 Ha u K HK) as (K0 & HK0 & ->). by eapply A7.
  - rewrite Ej. by apply (update_suspended D w id J0 J A).
  - intros i Hi. rewrite Ej, lookup_insert_ne by (intros ->; done). by apply A9.
  - intros i K. rewrite Ej. destruct (decide (id = i)) as [<-|Hi]; [rewrite lookup_insert_eq; intros [= <-]; congruence|].
    rewrite lookup_insert_ne by done. apply A10.
  - intros i K. rewrite Ej. destruct (decide (id = i)) as [<-|Hi]; [rewrite lookup_insert_eq; intros [= <-]; congruence|].
    rewrite lookup_insert_ne by done. apply A11.
  - by rewrite Ec.
Qed.

Lemma link_accounts D w id J0 J :
  accounts D w → l_jobs w !! id = Some J0 → running J0 = false → running J = true → is_anonymous J0 = false →
  is_anonymous J = false → is_alias (jc J) = false → suspended_perusers (jr J) ⊆ suspended_perusers (jr J0) →
  accounts D (link_running id J (set_job id J w)).
Proof.
  intros A HJ0 H0 H1 Ha0 Ha Hal Hs. apply (start_accounts D w _ id J0 J); try done.
  - congruence.
  - intros u JU Hu. by apply (ac_suspended _ _ A id J0), Hs.
  - cbn. by rewrite Ha.
  - unfold child_share. by rewrite H1, Ha.
  - unfold anon_share. rewrite H1, Ha. cbn. lia.
  - unfold busy_share. by rewrite H1, Ha.
  - intros m. cbn [link_running with_counts l_normal_active_cnt]. rewrite bump_lookup. unfold normal_share. rewrite H1, Ha. cbn [negb andb].
    destruct (Nat.eqb_spec (s_mgr (jx J)) m); case_decide; done.
Qed.

(** ** Reaping and dispatching keep the accounts *)

Definition dispatchable (w : launchd) (id : nat) : Prop :=
  ∀ J, l_jobs w !! id = Some J → is_anonymous J = false ∨ running J = true.

Lemma idle_keeps w id J J' :
  l_jobs w !! id = Some J → running J = false → is_anonymous J' = is_anonymous J → keeps w (set_job id J' w).
Proof.
  intros HJ Hr Ha. split_and!; [| |done].
  - intros i K HK HrK. cbn. rewrite lookup_insert_ne by congruence. by exists K.
  - cbn. by apply (update_curious w id J J').
Qed.

(** As [keeps], but for one job, which is idle afterwards. *)
Definition keeps_but (id : nat) (w w' : launchd) : Prop :=
  (∀ i J, i ≠ id → l_jobs w !! i = Some J → running J = true → ∃ J', l_jobs w' !! i = Some J' ∧ job_key J' = job_key J) ∧
  (∀ i J', l_jobs w' !! i = Some J' → ∃ J, l_jobs w !! i = Some J ∧ is_anonymous J' = is_anonymous J) ∧
  l_curious w' `sublist_of` l_curious w ∧
  (∃ J', l_jobs w' !! id = Some J' ∧ running J' = false).

(** A job that is being removed and has no process stays that way, unless it is [id]. *)
Definition frozen (id : nat) (w w' : launchd) : Prop :=
  ∀ i J, i ≠ id → l_jobs w !! i = Some J → removing (jr J) = true → running J = false →
    ∃ J', l_jobs w' !! i = Some J' ∧ removing (jr J') = true ∧ running J' = false.

(** Only the job [id] changes. *)
Definition only (id : nat) (w w' : launchd) : Prop := ∀ i, i ≠ id → l_jobs w' !! i = l_jobs w !! i.

Lemma only_frozen id w w' : only id w w' → frozen id w w'.
Proof. intros H i J Hi HJ Hm Hr. exists J. by rewrite H. Qed.

Lemma only_set_job id J w : only id w (set_job id J w).
Proof. intros i Hi. cbn. by rewrite lookup_insert_ne. Qed.

Lemma only_trans id w w' w'' : only id w w' → only id w' w'' → only id w w''.
Proof. intros H H' i Hi. by rewrite H', H. Qed.

(** The first curious job is not anonymous. *)
Lemma curious_head D w i J : accounts D w → head (l_curious w) = Some i → l_jobs w !! i = Some J → is_anonymous J = false.
Proof.
  intros A Hi HJ. eapply (ac_curious _ _ A); [|exact HJ]. destruct (l_curious w); cbn in Hi; [done|]. injection Hi as ->. left.
Qed.

Lemma find_known w m p : (∃ id, jobmgr_find_by_pid w m p = Some id) ↔ ∃ id, id ∈ bucket w m p ∧ has_pid w p id = true.
Proof.
  unfold jobmgr_find_by_pid. split.
  - intros (id & [Hin Hp]%List.find_some). exists id. by rewrite list_elem_of_In.
  - intros (id & Hin & Hp). destruct (List.find (has_pid w p) (bucket w m p)) as [x|] eqn:E; [by exists x|].
    rewrite (List.find_none _ _ E id) in Hp; [done|]. by apply list_elem_of_In.
Qed.

Lemma remove_first_incl u l : remove_first u l ⊆ l.
Proof. induction l as [|x l IH]; cbn; [done|]. case_decide; set_solver. Qed.

Section Preserve.
Context (y : system).
Hypothesis fork_pids : ∀ n, fe_pid (y_fork y n) ≠ 0.

Lemma access_Some {A} (o : option A) (a : A) : access (E := Empty_set) o = Ok a → o = Some a.
Proof. destruct o; cbn; congruence. Qed.

Lemma update_job_only id f w w' : update_job id f w = Ok w' → only id w w'.
Proof. intros H. unfold update_job in H. inv_bind H. injection H as <-. apply only_set_job. Qed.

Lemma update_job_ok D id f w w' :
  accounts D w → (∀ J, job_key (f J) = job_key J ∧ suspended_perusers (jr (f J)) ⊆ suspended_perusers (jr J)) →
  update_job id f w = Ok w' → accounts D w' ∧ keeps w w'.
Proof.
  intros A Hf H. unfold update_job in H. inv_bind H. apply access_Some in Hv. injection H as <-. destruct (Hf v) as [Hk Hs].
  split; [by eapply set_job_accounts_sub|by eapply set_job_keeps].
Qed.

Section Rec.
Context (rec : nat → bool → launchd → res Empty_set launchd).

(** What is known of the recursive call. *)
Definition dispatches (rec : nat → bool → launchd → res Empty_set launchd) : Prop :=
  ∀ D id k w w', accounts D w → dispatchable w id → rec id k w = Ok w' → accounts D w' ∧ keeps w w' ∧ frozen id w w'.
Hypothesis rec_ok : dispatches rec.

Lemma resume_ok D id spis : ∀ w w' J,
  accounts D w → resume_perusers rec id spis w = Ok w' → id ∈ D →
  (∀ u K, u ∈ spis → l_jobs w !! u = Some K → is_anonymous K = false) →
  l_jobs w !! id = Some J → suspended_perusers (jr J) = spis →
  accounts D w' ∧ keeps w w' ∧ ∀ J', l_jobs w' !! id = Some J' → suspended_perusers (jr J') = [].
Proof.
  induction spis as [|u spis IH]; intros w w' J A H HD Hna HJ Hsp.
  { injection H as <-. split_and!; [done|apply keeps_refl|]. intros J'. rewrite HJ. by intros [= <-]. }
  cbn [resume_perusers] in H. inv_bind H. apply access_Some in Hv as HJU. set (JU := with_state v (with_suspend (-1) (js v))) in *.
  assert (accounts D (set_job u JU w)) as A1 by (by eapply set_job_accounts_sub).
  assert (keeps w (set_job u JU w)) as K1 by (by eapply set_job_keeps).
  assert (accounts D v0 ∧ keeps (set_job u JU w) v0) as [A2 K2].
  { case_match; [|injection Hv0 as <-; split; [done|apply keeps_refl]]. edestruct (rec_ok D) as (? & ? & _); [exact A1| |exact Hv0|done].
    intros K HK. left. destruct (proj1 (proj2 K1) _ _ HK) as (K0 & HK0 & ->). apply (Hna u K0); [left|done]. }
  pose proof (keeps_trans _ _ _ K1 K2) as K12.
  unfold update_job in Hv1. inv_bind Hv1. apply access_Some in Hv2 as HJ2. injection Hv1 as <-.
  set (J2 := with_run v2 (with_suspended spis (jr v2))) in *.
  assert (∀ x K, x ∈ spis → l_jobs v0 !! x = Some K → is_anonymous K = false) as Hna2.
  { intros x K Hx HK. destruct (proj1 (proj2 K12) _ _ HK) as (K0 & HK0 & ->). apply (Hna x K0); [by right|done]. }
  edestruct (IH (set_job id J2 v0) w' J2) as (A3 & K3 & H3); [|exact H|done| |cbn; apply lookup_insert_eq|done|].
  - eapply (set_job_accounts D v0 id v2 J2); [done|done|by intros ? ? ?; apply Hna2| |done].
    intros Hr. destruct (ac_reaping _ _ A2 id HD) as (J' & HJ' & Hr'). rewrite HJ2 in HJ'. injection HJ' as <-. change (running v2 = false) in Hr. congruence.
  - intros x K Hx HK. destruct (set_job_lookup v0 id v2 J2 HJ2 eq_refl x K HK) as (K0 & HK0 & E).
    destruct (key_shares _ _ E) as (_ & -> & _). by apply (Hna2 x K0).
  - split_and!; [done| |done]. eapply keeps_trans; [exact K12|]. eapply keeps_trans; [|exact K3]. by eapply set_job_keeps.
Qed.

Lemma reap_first_key e id J :
  let J1 := (reap_first e id J).1 in
  job_key J1 = job_key J ∧ suspended_perusers (jr J1) = suspended_perusers (jr J) ∧ removing (jr J1) = removing (jr J).
Proof. unfold reap_first. by destruct (reap_dirty e J). Qed.

(** launchd after the first part of a reaping. *)
Definition reaping (id : nat) (J : job) (w : launchd) : launchd :=
  let r := reap_first (y_reap y (l_turn w)) id J in log r.2 (unlink id J (tick (set_job id r.1 w))).

Lemma job_reap_eq id w J : l_jobs w !! id = Some J →
  job_reap y rec id w =
    (v ← resume_perusers rec id (suspended_perusers (jr J)) (reaping id J w);
     J2 ← access (l_jobs v !! id);
     Ok (reap_counts J2 (log (reap_replies (y_reap y (l_turn w)) J2) (set_job id (reap_job J2) v)))).
Proof. intros HJ. unfold job_reap, reaping. rewrite HJ. cbn [access]. rewrite bind_Ok. by destruct (reap_first _ _ _). Qed.

Lemma reaping_ok D id w J :
  accounts D w → id ∉ D → l_jobs w !! id = Some J → running J = true →
  accounts ({[id]} ∪ D) (reaping id J w) ∧ keeps w (reaping id J w) ∧
  (∃ J1, l_jobs (reaping id J w) !! id = Some J1 ∧ suspended_perusers (jr J1) = suspended_perusers (jr J)) ∧
  ∀ u K, u ∈ suspended_perusers (jr J) → l_jobs (reaping id J w) !! u = Some K → is_anonymous K = false.
Proof.
  intros A HD HJ Hr. destruct (reap_first_key (y_reap y (l_turn w)) id J) as (Hk & Hs & _). unfold reaping.
  destruct (reap_first (y_reap y (l_turn w)) id J) as [J1 cs]. cbn [fst snd] in *. destruct (key_shares _ _ Hk) as (Hr1 & _).
  assert (keeps w (log cs (unlink id J (tick (set_job id J1 w))))) as K1.
  { destruct (set_job_keeps w id J J1 HJ Hk) as (H1 & H2 & H3). by split_and!. }
  split_and!; [|done|exists J1; split; [cbn; apply lookup_insert_eq|done]|].
  - eapply accounts_books; [apply books_log|].
    assert (unlink id J (tick (set_job id J1 w)) = unlink id J1 (tick (set_job id J1 w))) as ->.
    { unfold unlink. injection Hk as -> -> -> _ _. done. }
    apply unlink_accounts; [|cbn; apply lookup_insert_eq|congruence|done].
    eapply accounts_books; [apply books_tick|]. eapply set_job_accounts_sub; [done|done| |done]. by rewrite Hs.
  - intros u K Hu HK. destruct (proj1 (proj2 K1) _ _ HK) as (K0 & HK0 & ->). by apply (ac_suspended _ _ A id J u K0).
Qed.

Lemma job_reap_ok D id w w' J :
  accounts D w → id ∉ D → l_jobs w !! id = Some J → running J = true → job_reap y rec id w = Ok w' →
  accounts D w' ∧ keeps_but id w w'.
Proof.
  intros A HD HJ Hr H. rewrite (job_reap_eq id w J HJ) in H. apply bind_inv in H as (v & Hv & H).
  apply bind_inv in H as (v0 & HJ2 & H). apply access_Some in HJ2. injection H as <-.
  destruct (reaping_ok D id w J A HD HJ Hr) as (A1 & K1 & (J1 & HJ1 & Hs1) & Hna).
  destruct (resume_ok ({[id]} ∪ D) id (suspended_perusers (jr J)) (reaping id J w) v J1 A1 Hv) as (A2 & K2 & He); [set_solver|done..|].
  pose proof (keeps_trans _ _ _ K1 K2) as (H1 & H2 & H3).
  destruct (H1 id J HJ Hr) as (J2' & HJ2' & Hk2). rewrite HJ2 in HJ2'. injection HJ2' as <-. destruct (key_shares _ _ Hk2) as (Hr2 & Ha2 & _).
  split.
  - apply (accounts_books _ (reap_counts v0 (set_job id (reap_job v0) v))); [done|].
    apply reap_end_accounts; [done|done|done|congruence|by apply He].
  - split_and!; cbn.
    + intros i K Hi HK HrK. rewrite lookup_insert_ne by done. by apply H1.
    + intros i K HK. destruct (update_curious v id v0 (reap_job v0) HJ2 eq_refl i K HK) as (K0 & HK0 & ->). by apply H2.
    + done.
    + rewrite lookup_insert_eq. by eexists.
Qed.

(** A job that suspended nobody is reaped alone. *)
Lemma job_reap_only id w w' J :
  l_jobs w !! id = Some J → suspended_perusers (jr J) = [] → job_reap y rec id w = Ok w' → only id w w'.
Proof.
  intros HJ Hs H. rewrite (job_reap_eq id w J HJ), Hs in H. cbn [resume_perusers] in H. rewrite bind_Ok in H.
  apply bind_inv in H as (J2 & _ & H). injection H as <-. intros i Hi. cbn. by rewrite !lookup_insert_ne.
Qed.

Lemma keeps_but_idle w w1 w2 id J :
  keeps w w1 → l_jobs w !! id = Some J → running J = false → keeps_but id w1 w2 → keeps w w2.
Proof.
  intros (H1 & H2 & H3) HJ Hr (H1' & H2' & H3' & _). split_and!; [| |by etrans].
  - intros i K HK HrK. destruct (H1 i K HK HrK) as (K1 & HK1 & E). destruct (key_shares _ _ E) as [Er _].
    destruct (H1' i K1) as (K2 & HK2 & E'); [congruence|done|congruence|]. exists K2. split; congruence.
  - intros i K2 HK2. destruct (H2' i K2 HK2) as (K1 & HK1 & E). destruct (H2 i K1 HK1) as (K & HK & E'). exists K. split; congruence.
Qed.

(** ** Forking *)
Lemma job_fork_ok D id w w' J :
  accounts D w → l_jobs w !! id = Some J → running J = false → is_anonymous J = false → is_alias (jc J) = false → job_fork y rec id w = Ok w' →
  accounts D w' ∧ keeps w w' ∧ only id w w'.
Proof.
  intros A HJ Hr Ha Hal H. unfold job_fork in H. rewrite HJ in H. cbn [access] in H. rewrite bind_Ok in H.
  set (f := y_fork y (l_turn w)) in H. destruct (fe_pid f =? -1).
  { injection H as <-. split_and!.
    - eapply accounts_books; [apply books_log|]. eapply set_job_accounts_sub; [exact HJ|done|done|]. by eapply accounts_books; [apply books_tick|].
    - by eapply (set_job_keeps w id J (job_ignore J)).
    - intros i Hi. cbn. by rewrite lookup_insert_ne. }
  set (J1 := mkJob _ _ _ _) in H. cbv zeta in H. apply bind_inv in H as (v & Hv & H). set (w1 := log _ _) in Hv.
  assert (running J1 = true) as Hr1. { unfold running, J1, job_pid, f. cbn. by rewrite (proj2 (Z.eqb_neq _ _) (fork_pids _)). }
  assert (accounts D w1) as A1.
  { subst w1. eapply accounts_books; [apply books_log|]. eapply (link_accounts D (tick w) id J J1); try done. by eapply accounts_books; [apply books_tick|]. }
  assert (keeps w w1) as K1. { destruct (idle_keeps w id J J1 HJ Hr eq_refl) as (H1 & H2 & H3). by split_and!. }
  assert (only id w w1) as O1. { intros i Hi. cbn. by rewrite lookup_insert_ne. }
  assert (l_jobs w1 !! id = Some J1) as HJ1 by (cbn; apply lookup_insert_eq).
  assert (accounts D v ∧ keeps w v ∧ only id w v) as (A2 & K2 & O2).
  { destruct (fe_attached f).
    - destruct (update_job_ok D id job_ignore w1 v A1) as [A2 K2]; [done|done|]. split_and!; [done|by eapply keeps_trans|].
      eapply only_trans; [exact O1|by eapply update_job_only].
    - apply bind_inv in Hv as (v0 & Hv0 & Hv). assert (id ∉ D) as HD. { intros Hin. destruct (ac_reaping _ _ A id Hin) as (K & HK & ?). congruence. }
      destruct (job_reap_ok D id w1 v0 J1) as [A2 K2]; [done..|].
      destruct (update_job_ok D id job_watch v0 v A2) as [A3 K3]; [done|done|]. split_and!; [done| |].
      + eapply keeps_trans; [|exact K3]. by eapply keeps_but_idle.
      + eapply only_trans; [exact O1|]. eapply only_trans; [|by eapply update_job_only]. eapply job_reap_only; [exact HJ1| |exact Hv0].
        cbn. by apply (ac_idle _ _ A id J). }
  destruct (s_stall_before_exec (jx J1)); [by injection H as <-|]. unfold job_uncork_fork in H. inv_bind H. apply access_Some in Hv0 as HJ2.
  injection H as <-. split_and!.
  - eapply accounts_books; [apply books_log|]. by eapply set_job_accounts_sub.
  - eapply keeps_trans; [exact K2|]. by eapply (set_job_keeps v id v0).
  - eapply only_trans; [exact O2|]. intros i Hi. cbn. by rewrite lookup_insert_ne.
Qed.

(** ** Removing *)

(** Jobs that are being removed stay idle. *)
Definition all_frozen (w w' : launchd) : Prop :=
  ∀ i J, l_jobs w !! i = Some J → removing (jr J) = true → running J = false →
    ∃ J', l_jobs w' !! i = Some J' ∧ removing (jr J') = true ∧ running J' = false.

Lemma all_frozen_refl w : all_frozen w w.
Proof. intros i J HJ Hm Hr. by exists J. Qed.

Lemma all_frozen_trans w w' w'' : all_frozen w w' → all_frozen w' w'' → all_frozen w w''.
Proof. intros H H' i J HJ Hm Hr. destruct (H i J HJ Hm Hr) as (J' & HJ' & Hm' & Hr'). by eapply H'. Qed.

Lemma from_elem_incl x l : ∀ z, z ∈ from_elem x l → z ∈ l.
Proof. induction l as [|a l IH]; cbn; [done|]. intros z. case_decide; [done|]. intros Hz. right. auto. Qed.

Lemma curious_ok D lbl fuel : ∀ ji w w',
  accounts D w → (∀ i J, ji = Some i → l_jobs w !! i = Some J → is_anonymous J = false) →
  curious_loop rec lbl fuel ji w = Ok w' → accounts D w' ∧ keeps w w' ∧ all_frozen w w'.
Proof.
  induction fuel as [|fuel IH]; (intros [ji|] w w' A Hna H; cbn [curious_loop] in H;
    [|injection H as <-; split_and!; [done|apply keeps_refl|apply all_frozen_refl]]); [done|].
  apply bind_inv in H as (J & HJ & H). apply access_Some in HJ. apply bind_inv in H as (w1 & H1 & H).
  assert (accounts D w1 ∧ keeps w w1 ∧ all_frozen w w1) as (A1 & K1 & F1).
  { destruct (is_curious_about lbl J && negb (removing (jr J))) eqn:E.
    - apply andb_true_iff in E as [_ E%negb_true_iff]. edestruct (rec_ok D) as (A1 & K1 & F1); [exact A| |exact H1|].
      { intros K HK. left. by apply (Hna ji K). }
      split_and!; [done|done|]. intros i K HK Hm Hr. destruct (decide (i = ji)) as [->|Hi]; [congruence|by eapply F1].
    - injection H1 as <-. split_and!; [done|apply keeps_refl|apply all_frozen_refl]. }
  edestruct IH as (A2 & K2 & F2); [exact A1| |exact H|].
  - intros i K Hi HK. destruct (proj1 (proj2 K1) _ _ HK) as (K0 & HK0 & ->). eapply (ac_curious _ _ A); [|exact HK0].
    apply (from_elem_incl ji). destruct (from_elem ji (l_curious w)) as [|a [|b l]]; cbn in Hi; try done. injection Hi as ->. right. left.
  - split_and!; [done|by eapply keeps_trans|by eapply all_frozen_trans].
Qed.

Lemma delete_belongs (m : gmap nat job) id J (P : job → Prop) :
  m !! id = Some J → ¬ P J → ∀ i, (∃ K, delete id m !! i = Some K ∧ P K) ↔ ∃ K, m !! i = Some K ∧ P K.
Proof.
  intros HJ HP i. destruct (decide (i = id)) as [->|Hi].
  - rewrite lookup_delete_eq, HJ. split; [by intros (K & ? & _)|intros (K & [= <-] & ?); done].
  - by rewrite lookup_delete_ne.
Qed.

(** An idle job has no share in the books. *)
Lemma delete_accounts D w w' id J :
  accounts D w → l_jobs w !! id = Some J → running J = false →
  l_jobs w' = delete id (l_jobs w) → l_active w' = l_active w → l_managed w' = l_managed w →
  l_curious w' `sublist_of` l_curious w → l_total_children w' = l_total_children w →
  l_total_anon_children w' = l_total_anon_children w → l_busy_cnt w' = l_busy_cnt w → l_normal_active_cnt w' = l_normal_active_cnt w →
  accounts D w' ∧ keeps w w'.
Proof.
  intros [A1 A2 A3 A4 A5 A6 A7 A8 A9 A10 A11 A12] HJ Hr Ej Ea Em Ec C1 C2 C3 C4.
  assert (∀ f, f J = 0 → total f (l_jobs w') = total f (l_jobs w)) as Htot.
  { intros f Hf. rewrite Ej, (total_delete f _ id J HJ), Hf. lia. }
  assert (∀ i K, l_jobs w' !! i = Some K → l_jobs w !! i = Some K) as Hsub. { intros i K. rewrite Ej. intros [_ ?]%lookup_delete_Some. done. }
  split; [split|split_and!].
  - by rewrite C1, A1, Htot by (unfold child_share; by rewrite Hr).
  - by rewrite C2, A2, Htot by (unfold anon_share; by rewrite Hr).
  - by rewrite C3, A3, Htot by (unfold busy_share; by rewrite Hr).
  - intros m. by rewrite C4, A4, Htot by (unfold normal_share; by rewrite Hr).
  - intros m b. rewrite Ea. destruct (A5 m b) as [Hn Hi]. split; [done|]. intros i. rewrite Hi. unfold belongs. rewrite Ej.
    rewrite (delete_belongs _ id J (fun K => running K = true ∧ s_mgr (jx K) = m ∧ ACTIVE_JOB_HASH (job_pid K) = b)); [done|done|].
    intros [? _]. congruence.
  - intros b. rewrite Em. destruct (A6 b) as [Hn Hi]. split; [done|]. intros i. rewrite Hi. unfold belongs_managed. rewrite Ej.
    rewrite (delete_belongs _ id J (fun K => running K = true ∧ is_anonymous K = false ∧ ACTIVE_JOB_HASH (job_pid K) = b)); [done|done|].
    intros [? _]. congruence.
  - intros u K Hu HK. apply (A7 u K); [by eapply elem_of_sublist|auto].
  - intros i K u KU HK Hu HKU. by apply (A8 i K u KU); auto.
  - intros i Hi. destruct (A9 i Hi) as (K & HK & HrK). exists K. by rewrite Ej, lookup_delete_ne by congruence.
  - intros i K HK. by apply (A10 i K), Hsub.
  - intros i K HK. by apply (A11 i K), Hsub.
  - by eapply sublist_NoDup.
  - intros i K HK HrK. exists K. by rewrite Ej, lookup_delete_ne by congruence.
  - intros i K HK. exists K. split; [by apply Hsub|done].
  - done.
Qed.

Lemma remove_idle_ok D id w w' J :
  accounts D w → l_jobs w !! id = Some J → running J = false → remove_idle rec id w = Ok w' →
  accounts D w' ∧ keeps w w' ∧ frozen id w w' ∧ l_jobs w' !! id = None.
Proof.
  intros A HJ Hr H. unfold remove_idle in H. rewrite HJ in H. cbn [access] in H. rewrite bind_Ok in H.
  apply bind_inv in H as (w1 & H1 & H). apply bind_inv in H as (J2 & HJ2 & H). apply access_Some in HJ2. injection H as <-.
  set (J1 := with_run J (with_removing (jr J))) in H1.
  assert (accounts D w1 ∧ keeps w w1 ∧ frozen id w w1 ∧ running J2 = false) as (A1 & K1 & F1 & Hr2).
  { destruct (removing (jr J)) eqn:Hm.
    - injection H1 as <-. rewrite HJ in HJ2. injection HJ2 as <-. split_and!; [done|apply keeps_refl| |done]. by apply only_frozen.
    - assert (accounts D (set_job id J1 w)) as A0 by (by eapply set_job_accounts_sub).
      apply (curious_ok D) in H1 as (A1 & K1 & F1); [|done|].
      + destruct (F1 id J1) as (J' & HJ' & _ & Hr'); [cbn; apply lookup_insert_eq|done|done|].
        rewrite HJ2 in HJ'. injection HJ' as <-. split_and!; [done| | |done].
        * eapply keeps_trans; [|exact K1]. by eapply set_job_keeps.
        * intros i K Hi HK. apply F1. cbn. by rewrite lookup_insert_ne.
      + intros i K. by apply (curious_head D). }
  destruct (delete_accounts D w1 (free_job id J2 w1) id J2) as [A2 K2]; try done.
  { cbn. apply sublist_filter. }
  split_and!; [done|by eapply keeps_trans| |cbn; apply lookup_delete_eq]. intros i K Hi HK Hm HrK. destruct (F1 i K Hi HK Hm HrK) as (K' & HK' & ?).
  exists K'. cbn. by rewrite lookup_delete_ne.
Qed.

Lemma job_remove_ok D id w w' J :
  accounts D w → l_jobs w !! id = Some J → running J = false → job_remove y rec id w = Ok w' →
  accounts D w' ∧ keeps w w' ∧ frozen id w w' ∧ l_jobs w' !! id = None.
Proof.
  intros A HJ Hr H. unfold job_remove in H. rewrite HJ in H. cbn [access] in H. rewrite bind_Ok in H.
  pose proof Hr as Hp. apply negb_false_iff in Hp. rewrite Hp in H. cbn [negb andb] in H.
  destruct (is_alias (jc J)); [|rewrite bind_Ok in H; by eapply remove_idle_ok].
  injection H as <-. destruct (delete_accounts D w (with_jobs w (delete id (l_jobs w))) id J) as [A1 K1]; try done.
  split_and!; [done..| |cbn; apply lookup_delete_eq]. apply only_frozen. intros i Hi. cbn. by rewrite lookup_delete_ne.
Qed.

(** ** Dispatching *)

Lemma active_running c s : job_active c s = None → (j_pid s =? 0) = true.
Proof. unfold job_active. intros H. repeat (case_match; try done). by apply negb_false_iff. Qed.

Lemma dispatch_inactive g m c s k :
  match job_dispatch g m c s k with
  | Removed | Started Forks | Started (Throttled _) | Watched => job_active c s = None ∧ is_alias c = false
  | _ => True
  end.
Proof. unfold job_dispatch. repeat (case_match; try done). Qed.

Lemma dispatch_body_ok : dispatches (dispatch_body y rec).
Proof.
  intros D id k w w' A Hd H. unfold dispatch_body in H. apply bind_inv in H as (J & HJ & H). apply access_Some in HJ.
  pose proof (dispatch_inactive (y_globals y (l_turn w)) (y_mgr y (l_turn w) (s_mgr (jx J))) (jc J) (js J) k) as Hin.
  assert (∀ J', job_key J' = job_key J → suspended_perusers (jr J') = suspended_perusers (jr J) →
            accounts D (set_job id J' w) ∧ keeps w (set_job id J' w) ∧ frozen id w (set_job id J' w)) as Hset.
  { intros J' Hk Hs. split_and!; [eapply set_job_accounts_sub; try done; by rewrite Hs|by eapply set_job_keeps|apply only_frozen, only_set_job]. }
  assert (accounts D w ∧ keeps w w ∧ frozen id w w) as Hself. { split_and!; [done|apply keeps_refl|by apply only_frozen]. }
  destruct (job_dispatch _ _ _ _ _) as [| | |[|d|]| |]; try (injection H as <-; done);
    try (destruct Hin as [Hin%active_running Hal]; assert (running J = false) as Hr by (unfold running, job_pid; by rewrite Hin)).
  - edestruct job_remove_ok as (? & ? & ? & _); done.
  - injection H as <-. destruct (Hset (job_ignore J) eq_refl eq_refl) as (A1 & K1 & F1). split_and!; [|done|done].
    by eapply accounts_books; [apply books_log|].
  - destruct (job_fork_ok D id w w' J) as (A1 & K1 & O1); [done..| |done|done|].
    + destruct (Hd J HJ); [done|congruence].
    + split_and!; [done|done|by apply only_frozen].
  - injection H as <-. by apply (Hset (job_watch J)).
Qed.
End Rec.

Lemma dispatch_accounts fuel : dispatches (dispatch y fuel).
Proof. induction fuel as [|fuel IH]; [done|]. cbn [dispatch]. by apply dispatch_body_ok. Qed.

(** ** New jobs *)

Lemma unmentioned w id : id ∉ mentioned w →
  l_jobs w !! id = None ∧ id ∉ l_curious w ∧ ∀ i J, l_jobs w !! i = Some J → id ∉ suspended_perusers (jr J).
Proof.
  unfold mentioned. rewrite !not_elem_of_union, not_elem_of_dom, not_elem_of_list_to_set, elem_of_union_list.
  intros ([Hj Hc] & Hs). split_and!; [done..|]. intros i J HJ Hin. apply Hs.
  exists (list_to_set (suspended_perusers (jr J))). split; [|by apply elem_of_list_to_set].
  apply list_elem_of_fmap. exists (i, J). split; [done|]. by apply elem_of_map_to_list.
Qed.

Lemma new_id_fresh w : new_id w ∉ mentioned w.
Proof. unfold new_id. apply (is_fresh (mentioned w)). Qed.

(** An idle job has no share in the books. *)
Lemma add_accounts D w w' id J :
  accounts D w → id ∉ mentioned w → running J = false → suspended_perusers (jr J) = [] →
  l_jobs w' = <[id := J]> (l_jobs w) → l_active w' = l_active w → l_managed w' = l_managed w →
  (∀ u, u ∈ l_curious w' → u ∈ l_curious w ∨ u = id ∧ is_anonymous J = false) → NoDup (l_curious w') → l_total_children w' = l_total_children w →
  l_total_anon_children w' = l_total_anon_children w → l_busy_cnt w' = l_busy_cnt w → l_normal_active_cnt w' = l_normal_active_cnt w →
  accounts D w'.
Proof.
  intros [A1 A2 A3 A4 A5 A6 A7 A8 A9 A10 A11 A12] (Hn & Hc & Hs)%unmentioned Hr Hsp Ej Ea Em Ec Hnosy C1 C2 C3 C4.
  assert (∀ f, f J = 0 → total f (l_jobs w') = total f (l_jobs w)) as Htot. { intros f Hf. rewrite Ej, total_fresh, Hf by done. lia. }
  assert (∀ P : job → Prop, ¬ P J → ∀ i, (∃ K, l_jobs w' !! i = Some K ∧ P K) ↔ ∃ K, l_jobs w !! i = Some K ∧ P K) as Hbel.
  { intros P HP i. rewrite Ej, insert_idle_belongs by done. split; [tauto|]. intros (K & HK & ?). split; [congruence|by exists K]. }
  assert (∀ i K, l_jobs w' !! i = Some K → (i = id ∧ K = J) ∨ l_jobs w !! i = Some K) as Hlook.
  { intros i K. rewrite Ej, lookup_insert_Some. intros [[<- <-]|[_ ?]]; auto. }
  split.
  - by rewrite C1, A1, Htot by (unfold child_share; by rewrite Hr).
  - by rewrite C2, A2, Htot by (unfold anon_share; by rewrite Hr).
  - by rewrite C3, A3, Htot by (unfold busy_share; by rewrite Hr).
  - intros m. by rewrite C4, A4, Htot by (unfold normal_share; by rewrite Hr).
  - intros m b. rewrite Ea. destruct (A5 m b) as [Hnd Hi]. split; [done|]. intros i. rewrite Hi. unfold belongs.
    rewrite (Hbel (fun K => running K = true ∧ s_mgr (jx K) = m ∧ ACTIVE_JOB_HASH (job_pid K) = b)); [done|]. intros [? _]. congruence.
  - intros b. rewrite Em. destruct (A6 b) as [Hnd Hi]. split; [done|]. intros i. rewrite Hi. unfold belongs_managed.
    rewrite (Hbel (fun K => running K = true ∧ is_anonymous K = false ∧ ACTIVE_JOB_HASH (job_pid K) = b)); [done|]. intros [? _]. congruence.
  - intros u K Hu HK. destruct (Ec u Hu) as [Hu'|[-> ?]]; destruct (Hlook _ K HK) as [[Eu ->]|HK']; [by subst|by eapply A7|done|congruence].
  - intros i K u KU HK Hu HKU. destruct (Hlook i K HK) as [[-> ->]|HK']; [rewrite Hsp in Hu; by apply not_elem_of_nil in Hu|].
    destruct (Hlook u KU HKU) as [[-> ->]|HKU']; [exfalso; by apply (Hs i K HK')|by apply (A8 i K u KU)].
  - intros i Hi. destruct (A9 i Hi) as (K & HK & ?). exists K. rewrite Ej, lookup_insert_ne by congruence. done.
  - intros i K HK. destruct (Hlook i K HK) as [[-> ->]|HK']; [done|by eapply A10].
  - intros i K HK. destruct (Hlook i K HK) as [[-> ->]|HK']; [done|by eapply A11].
  - done.
Qed.

(** ** The events *)

(** Between two events every anonymous job has a process; [anonymous_run_but id]: but for
    [id]. *)
Definition anonymous_run (w : launchd) : Prop :=
  ∀ i J, l_jobs w !! i = Some J → is_anonymous J = true → running J = true.
Definition anonymous_run_but (id : nat) (w : launchd) : Prop :=
  ∀ i J, i ≠ id → l_jobs w !! i = Some J → is_anonymous J = true → running J = true.

Definition books (w : launchd) : Prop := accounts ∅ w ∧ anonymous_run w.

Lemma keeps_run_at w w' i : keeps w w' →
  (∀ J, l_jobs w !! i = Some J → is_anonymous J = true → running J = true) →
  ∀ J', l_jobs w' !! i = Some J' → is_anonymous J' = true → running J' = true.
Proof.
  intros (H1 & H2 & _) Hr J' HJ' Ha. destruct (H2 i J' HJ') as (J & HJ & E). rewrite E in Ha.
  destruct (H1 i J HJ (Hr J HJ Ha)) as (J2 & HJ2 & Ek). rewrite HJ' in HJ2. injection HJ2 as <-.
  destruct (key_shares _ _ Ek) as [-> _]. auto.
Qed.

Lemma keeps_anonymous w w' : keeps w w' → anonymous_run w → anonymous_run w'.
Proof. intros K H i. by apply (keeps_run_at w w' i K), H. Qed.

Lemma keeps_anonymous_but id w w' : keeps w w' → anonymous_run_but id w → anonymous_run_but id w'.
Proof. intros K H i J' Hi. apply (keeps_run_at w w' i K). intros J. by apply H. Qed.

Lemma keeps_but_anonymous id w w' : keeps_but id w w' → anonymous_run w → anonymous_run_but id w'.
Proof.
  intros (H1 & H2 & _) Hr i J' Hi HJ' Ha. destruct (H2 i J' HJ') as (J & HJ & E). rewrite E in Ha.
  destruct (H1 i J Hi HJ (Hr i J HJ Ha)) as (J2 & HJ2 & Ek). rewrite HJ' in HJ2. injection HJ2 as <-.
  destruct (key_shares _ _ Ek) as [-> _]. by apply (Hr i J).
Qed.

Lemma anonymous_dispatchable w id : anonymous_run w → dispatchable w id.
Proof. intros H J HJ. destruct (is_anonymous J) eqn:E; [right; by apply (H id J)|by left]. Qed.

Lemma books_dispatch fuel id k w w' : books w → dispatch y fuel id k w = Ok w' → books w' ∧ keeps w w'.
Proof.
  intros [A R] H. destruct (dispatch_accounts fuel ∅ id k w w' A (anonymous_dispatchable w id R) H) as (A' & K & _).
  split; [|done]. split; [done|by eapply keeps_anonymous].
Qed.

Lemma books_update id f w w' :
  books w → (∀ J, job_key (f J) = job_key J ∧ suspended_perusers (jr (f J)) ⊆ suspended_perusers (jr J)) →
  update_job id f w = Ok w' → books w' ∧ keeps w w'.
Proof.
  intros [A R] Hf H. destruct (update_job_ok ∅ id f w w' A Hf H) as [A' K]. split; [|done]. split; [done|by eapply keeps_anonymous].
Qed.

Lemma books_set_job id J J' w :
  books w → l_jobs w !! id = Some J → job_key J' = job_key J → suspended_perusers (jr J') ⊆ suspended_perusers (jr J) →
  books (set_job id J' w).
Proof.
  intros [A R] HJ Hk Hs. split; [by eapply set_job_accounts_sub|]. eapply keeps_anonymous; [by eapply set_job_keeps|done].
Qed.

Lemma books_same w w' : same_books w w' → books w → books w'.
Proof. intros E [A R]. split; [by eapply accounts_books|]. eapply keeps_anonymous; [by apply keeps_books|done]. Qed.

Lemma books_stop id w : books w → books (job_stop y id w).
Proof.
  intros B. unfold job_stop. destruct (l_jobs w !! id) as [J|] eqn:HJ; [|done]. case_match; [done|].
  destruct (y_terminate y (l_turn w)) as [answer now].
  eapply books_same; [apply books_log|]. eapply books_same; [apply books_tick|]. by eapply books_set_job.
Qed.

Lemma books_kill id w : books w → books (job_kill id w).
Proof.
  intros B. unfold job_kill. destruct (l_jobs w !! id) as [J|] eqn:HJ; [|done]. case_match; [done|].
  eapply books_same; [apply books_log|]. by eapply books_set_job.
Qed.

(** Reaping an anonymous job and removing it. *)
Lemma reap_remove_ok id w w1 w2 (K : keeps_but id w w1) :
  (∀ J, l_jobs w1 !! id = Some J → running J = false → accounts ∅ w2 ∧ keeps w1 w2 ∧ frozen id w1 w2 ∧ l_jobs w2 !! id = None) →
  anonymous_run w → books w2.
Proof.
  intros H R. pose proof K as (_ & _ & _ & J & HJ & Hr). destruct (H J HJ Hr) as (A2 & K2 & _ & Hg).
  split; [done|]. intros i K' HK'. destruct (decide (i = id)) as [->|Hi]; [congruence|].
  revert HK'. apply (keeps_anonymous_but id w1 w2 K2 (keeps_but_anonymous id w w1 K R)). done.
Qed.

Lemma books_remove fuel id w w' : books w → job_remove y (dispatch y fuel) id w = Ok w' → books w'.
Proof.
  intros [A R] H. destruct (l_jobs w !! id) as [J|] eqn:HJ; [|unfold job_remove in H; by rewrite HJ in H].
  destruct (running J) eqn:Hr.
  - unfold job_remove in H. rewrite HJ in H. cbn [access] in H. rewrite bind_Ok in H.
    destruct (is_alias (jc J)) eqn:Hal; [by rewrite (ac_alias _ _ A id J HJ Hal) in Hr|].
    pose proof Hr as Hr'. unfold running in Hr'. rewrite Hr' in H. cbn [andb] in H.
    destruct (is_anonymous J) eqn:Ha; cbn [negb] in H.
    + apply bind_inv in H as (w1 & H1 & H). destruct (job_reap_ok (dispatch y fuel) (dispatch_accounts fuel) ∅ id w w1 J) as [A1 K1]; [done..|].
      eapply (reap_remove_ok id w w1); [done| |done]. intros J1 HJ1 Hr1. by eapply (remove_idle_ok (dispatch y fuel) (dispatch_accounts fuel)).
    + destruct (removal_pending (js J)); injection H as <-; [by split|]. apply books_stop. by eapply books_set_job.
  - destruct (job_remove_ok (dispatch y fuel) (dispatch_accounts fuel) ∅ id w w' J A HJ Hr H) as (A2 & K2 & _).
    split; [done|by eapply keeps_anonymous].
Qed.

(** A process that is found by its number belongs to a running job. *)
Lemma found_running w m p id : books w → jobmgr_find_by_pid w m p = Some id → ∃ J, l_jobs w !! id = Some J ∧ running J = true.
Proof.
  intros [A _] [Hin _]%List.find_some. apply list_elem_of_In in Hin.
  apply (ac_active _ _ A) in Hin as (_ & J & HJ & Hr & _). by exists J.
Qed.

Lemma books_note_exec id l ok w w' : books w → note_exec id l ok w = Ok w' → books w' ∧ keeps w w'.
Proof.
  intros B H. unfold note_exec in H. inv_bind H. apply access_Some in Hv. injection H as <-.
  assert (∀ J', job_key J' = job_key v → suspended_perusers (jr J') ⊆ suspended_perusers (jr v) →
            books (set_job id J' w) ∧ keeps w (set_job id J' w)) as Hset.
  { intros J' Hk Hs. split; [by eapply books_set_job|by eapply set_job_keeps]. }
  destruct (is_anonymous v); [destruct l|].
  - by apply Hset.
  - split; [done|apply keeps_refl].
  - destruct (Hset (execed_job v)) as [B' K']; [done..|]. split; [|done]. by eapply books_same; [apply books_log|].
Qed.

Lemma books_note_exit fuel id ident d m w w' J :
  books w → l_jobs w !! id = Some J → running J = true → note_exit y fuel id ident d m w = Ok w' → books w'.
Proof.
  intros B HJ Hr H. unfold note_exit in H. apply bind_inv in H as (w1 & H1 & H).
  eapply books_update in H1 as [[A1 R1] K1]; [|done|done]. destruct (proj1 K1 id J HJ Hr) as (J1 & HJ1 & Ek).
  destruct (key_shares _ _ Ek) as [Er _]. apply bind_inv in H as (w2 & H2 & H).
  destruct (job_reap_ok (dispatch y fuel) (dispatch_accounts fuel) ∅ id w1 w2 J1) as [A2 K2]; [done|done|done|congruence|done|].
  apply bind_inv in H as (J2 & HJ2 & H). apply access_Some in HJ2. pose proof K2 as (_ & _ & _ & J2' & HJ2' & Hr2).
  rewrite HJ2 in HJ2'. injection HJ2' as <-. destruct (is_anonymous J2) eqn:Ha.
  - eapply (reap_remove_ok id w1 w2); [done| |done]. intros K HK HrK. by eapply (job_remove_ok (dispatch y fuel) (dispatch_accounts fuel)).
  - assert (books w2) as B2.
    { split; [done|]. intros i K HK HaK. destruct (decide (i = id)) as [->|Hi]; [congruence|].
      by apply (keeps_but_anonymous id w1 w2 K2 R1 i K Hi HK). }
    eapply books_dispatch; [|exact H]. by eapply books_same; [apply books_waiters|].
Qed.

Lemma books_callback_proc fuel id ident ev w w' J :
  books w → l_jobs w !! id = Some J → running J = true → job_callback_proc y fuel id ident ev w = Ok w' → books w'.
Proof.
  intros B HJ Hr H. unfold job_callback_proc in H. apply bind_inv in H as (w1 & H1 & H).
  assert (books w1 ∧ keeps w w1) as [B1 K1].
  { destruct (pe_exec ev) as [[l ok]|]; [by eapply books_note_exec|]. injection H1 as <-. split; [done|apply keeps_refl]. }
  destruct (pe_exit ev) as [[d m]|]; [|by injection H as <-]. destruct (proj1 K1 id J HJ Hr) as (J1 & HJ1 & Ek).
  destruct (key_shares _ _ Ek) as [Er _]. eapply books_note_exit; [done|done| |done]. congruence.
Qed.

Lemma books_reap_bulk fuel mgrs ident ev : ∀ w w', books w → jobmgr_reap_bulk y fuel mgrs ident ev w = Ok w' → books w'.
Proof.
  induction mgrs as [|m mgrs IH]; intros w w' B H; cbn [jobmgr_reap_bulk] in H; [by injection H as <-|].
  apply bind_inv in H as (w1 & H1 & H). eapply IH; [|exact H]. destruct (jobmgr_find_by_pid w m ident) eqn:E; [|by injection H1 as <-].
  destruct (found_running _ _ _ _ B E) as (J & HJ & Hr). by eapply books_callback_proc.
Qed.

Lemma books_timer fuel id ident mgrs w w' : books w → job_callback_timer y fuel id ident mgrs w = Ok w' → books w'.
Proof.
  intros B H. destruct ident; cbn [job_callback_timer] in H; try by eapply books_dispatch.
  - apply bind_inv in H as (w1 & H1 & H). eapply books_dispatch; [|exact H]. by eapply books_update in H1 as [? _]; [..|done].
  - apply bind_inv in H as (J & HJ & H). apply access_Some in HJ. case_match; [by injection H as <-|].
    case_match; [|injection H as <-; by apply books_kill]. eapply books_reap_bulk; [|exact H]. by eapply books_set_job.
Qed.

Lemma insert_anonymous w w' id J :
  anonymous_run w → l_jobs w' = <[id := J]> (l_jobs w) → (is_anonymous J = true → running J = true) → anonymous_run w'.
Proof. intros R E HJ i K. rewrite E, lookup_insert_Some. intros [[<- <-]|[_ HK]]; [done|by apply (R i)]. Qed.

Lemma books_add_anonymous m p lbl w : books w → p ≠ 0 → books (add_anonymous y m p lbl w).2.
Proof.
  intros [A R] Hp. unfold add_anonymous, job_new. cbn [orb negb]. destruct (y_alloc y (l_turn w)); cbn [negb]; [|by apply (books_same w)].
  set (id := new_id w). cbn [set_job with_jobs l_jobs]. rewrite lookup_insert_eq. cbn [snd].
  set (J := anonymous_job (new_job m lbl) p). set (J0 := anonymous_job (new_job m lbl) 0).
  assert (running J = true) as Hr by (unfold running; cbn; by rewrite (proj2 (Z.eqb_neq _ _) Hp)).
  assert (l_jobs (link_anonymous id J (set_job id (new_job m lbl) (tick w))) = <[id := J]> (l_jobs w)) as Ej.
  { cbn. by rewrite insert_insert_eq. }
  split; [|by eapply insert_anonymous].
  assert (accounts ∅ (set_job id J0 w)) as A0. { apply (add_accounts ∅ w (set_job id J0 w) id J0); try done; [apply new_id_fresh|by left|apply (ac_nosy _ _ A)]. }
  eapply (start_accounts ∅ (set_job id J0 w) _ id J0 J A0); try done.
  - cbn. apply lookup_insert_eq.
  - cbn. by intros u JU ?%not_elem_of_nil.
  - rewrite Ej. cbn. by rewrite insert_insert_eq.
  - unfold child_share. rewrite Hr. cbn. lia.
  - unfold anon_share. by rewrite Hr.
  - unfold busy_share. rewrite Hr. cbn. lia.
  - intros m'. unfold normal_share. rewrite Hr. cbn. lia.
Qed.

Lemma books_new_anonymous procs magic m fuel : ∀ p w r, books w → job_new_anonymous y procs magic m fuel p w = Ok r → books r.2.
Proof.
  induction fuel as [|fuel IH]; intros p w r B H; cbn [job_new_anonymous] in H; [done|].
  destruct ((p =? 0) || (100000 <=? p)) eqn:Ep; [by injection H as <-|]. apply orb_false_iff in Ep as [Ep%Z.eqb_neq _].
  destruct (procs !! p) as [pi|]; [|by injection H as <-]. destruct (pi_blank pi || (pi_ppid pi =? p)); [by injection H as <-|].
  pose proof (books_add_anonymous m p (pi_label pi) w B Ep) as B1. destruct (add_anonymous y m p (pi_label pi) w) as [jr w1]. cbn [snd] in B1.
  apply bind_inv in H as (w2 & H2 & H). injection H as <-. cbn [snd].
  destruct ((pi_ppid pi =? 0) || ((pi_ppid pi =? 1) && negb magic)); [by injection H2 as <-|].
  destruct (jobmgr_find_by_pid w1 m (pi_ppid pi)); [by injection H2 as <-|].
  apply bind_inv in H2 as (r & Hr & H2). injection H2 as <-. by eapply IH.
Qed.

(** What [jobmgr_import2] makes of a message. *)
Definition importable (J : job) : Prop := running J = false ∧ is_anonymous J = false ∧ suspended_perusers (jr J) = [].

Lemma enable_books w J : books w → importable J → books (enable (new_id w) J w).
Proof.
  intros [A R] (Hr & Ha & Hs). set (id := new_id w). pose proof (unmentioned w id (new_id_fresh w)) as (_ & Hc & _). pose proof (ac_nosy _ _ A).
  split; [|eapply insert_anonymous; [done|done|congruence]].
  eapply (add_accounts ∅ w (enable id J w) id J); try done; [apply new_id_fresh|intros u|]; cbn; destruct (nosy J); [|by left|by constructor|done].
  rewrite elem_of_cons. intros [->|?]; auto.
Qed.

Lemma books_import fuel J w w' : books w → importable J → job_import y fuel J w = Ok w' → books w'.
Proof.
  intros B HJ H. unfold job_import in H. set (id := new_id w) in H. set (w1 := enable id J w) in H.
  destruct (enable_books w J B HJ) as [A1 R1]. fold id w1 in A1, R1.
  apply bind_inv in H as (w2 & H2 & H). apply (curious_ok (dispatch y fuel) (dispatch_accounts fuel) ∅) in H2 as (A2 & K2 & _); [|done|].
  - eapply books_dispatch; [|exact H]. split; [done|by eapply keeps_anonymous].
  - intros i K. by apply (curious_head ∅).
Qed.

Lemma books_switch magic id target w w' : books w → switch_to_session y magic id target w = Ok w' → books w'.
Proof.
  intros [A R] H. unfold switch_to_session in H. apply bind_inv in H as (J & HJ & H). apply access_Some in HJ.
  destruct (shutting_down _ || magic || negb (is_anonymous J)) eqn:E; [by injection H as <-|].
  apply orb_false_iff in E as [_ Ha%negb_false_iff]. destruct target as [m|]; [|by injection H as <-]. case_match; [by injection H as <-|].
  pose proof (R id J HJ Ha) as Hr. injection H as <-.
  set (J' := mkJob (jc J) (with_mgr m (jx J)) (js J) (with_holds_ref (jr J))).
  set (J0 := with_run J (with_suspended [] (jr J))).
  assert (accounts ∅ (set_job id J0 w)) as A0. { eapply set_job_accounts_sub; [done|done|set_solver|done]. }
  assert (accounts ∅ (reap_counts J0 (set_job id (reap_job J0) (unlink id J0 (set_job id J0 w))))) as A1.
  { apply reap_end_accounts; [|set_solver|cbn; apply lookup_insert_eq|done|done]. apply unlink_accounts; [done|cbn; apply lookup_insert_eq|done|set_solver]. }
  split; [|eapply (insert_anonymous w _ id J'); [done|done|done]].
  eapply (start_accounts ∅ _ _ id (reap_job J0) J' A1); try done.
  - cbn. apply lookup_insert_eq.
  - destruct (is_alias (jc J)) eqn:Hal; [|done]. by rewrite (ac_alias _ _ A id J HJ Hal) in Hr.
  - intros u JU Hu HJU. cbn in HJU. rewrite insert_insert_eq in HJU.
    destruct (update_curious w id J (reap_job J0) HJ eq_refl u JU HJU) as (K & HK & ->). by eapply (ac_suspended _ _ A id J u K).
  - cbn. by rewrite !insert_insert_eq.
  - cbn. unfold is_anonymous in *. cbn. by rewrite Ha.
  - cbn. unfold child_share, is_anonymous in *. cbn. rewrite Ha, andb_false_r. cbn. lia.
  - cbn. unfold anon_share, is_anonymous in *. cbn. rewrite Ha, andb_true_r. change (running J') with (running J). rewrite Hr. cbn. lia.
  - cbn. unfold busy_share, is_anonymous in *. cbn. rewrite Ha. change (running J') with (running J). rewrite Hr. cbn. destruct (holds_ref (jr J)); cbn; lia.
  - intros m'. cbn. unfold normal_share, is_anonymous in *. cbn. rewrite Ha, andb_false_r. cbn. lia.
Qed.

Lemma books_suspend ok id u mem w w' J :
  books w → l_jobs w !! id = Some J → running J = true → (∀ JU, l_jobs w !! u = Some JU → is_anonymous JU = false) →
  peruser_suspend y ok id u mem w = Ok w' → books w'.
Proof.
  intros B HJ Hr Hu H. unfold peruser_suspend in H. destruct ok; cbn [negb] in H; [|by injection H as <-]. rewrite HJ in H. cbn [access] in H. rewrite bind_Ok in H.
  apply bind_inv in H as (JU & HJU & H). apply access_Some in HJU. case_match; [by injection H as <-|].
  apply bind_inv in H as (w1 & H1 & H). apply bind_inv in H as (w2 & H2 & H).
  assert (books w1 ∧ keeps w w1) as [B1 K1].
  { case_match; [by eapply books_update in H1; [..|done]|]. injection H1 as <-. split; [done|apply keeps_refl]. }
  eapply books_update in H2 as [[A2 R2] K2]; [|done|done]. pose proof (keeps_trans _ _ _ K1 K2) as (H1' & H2' & _).
  destruct (H1' id J HJ Hr) as (J2 & HJ2 & Ek). destruct (key_shares _ _ Ek) as [Er _].
  apply bind_inv in H as (w3 & H3 & H). injection H as <-. apply books_stop.
  unfold update_job in H3. rewrite HJ2 in H3. cbn [access] in H3. rewrite bind_Ok in H3. injection H3 as <-.
  split; [|eapply keeps_anonymous; [by eapply (set_job_keeps w2 id J2)|done]].
  eapply set_job_accounts; [done|done| | |done]; cbn [with_run jr with_suspended suspended_perusers].
  - intros x K [->|Hx]%elem_of_cons HK; [|by eapply (ac_suspended _ _ A2 id J2)].
    destruct (H2' u K HK) as (K0 & HK0 & ->). auto.
  - intros Hi. change (running J2 = false) in Hi. congruence.
Qed.

Lemma books_resume fuel ok id u w w' : books w → peruser_resume y fuel ok id u w = Ok w' → books w'.
Proof.
  intros B H. unfold peruser_resume in H. destruct ok; cbn [negb] in H; [|by injection H as <-]. apply bind_inv in H as (J & HJ & H). case_match; [by injection H as <-|].
  apply bind_inv in H as (w1 & H1 & H). eapply books_update in H1 as [B1 _]; [|done|done].
  apply bind_inv in H as (w2 & H2 & H). eapply books_update in H2 as [B2 _]; [|done|intros K; split; [done|apply remove_first_incl]].
  apply bind_inv in H as (JU & HJU & H). case_match; [|by injection H as <-].
  apply bind_inv in H as (w3 & H3 & H). eapply books_update in H3 as [B3 _]; [|done|done]. by eapply books_dispatch.
Qed.

(** What may happen next: an imported job is new, the caller that suspends a per-user launchd
    has a process, and that launchd is not an anonymous job. *)
Definition may_happen (w : launchd) (ev : event) : Prop :=
  match ev with
  | Import J => importable J
  | Suspend _ id u _ => (∃ J, l_jobs w !! id = Some J ∧ running J = true) ∧ ∀ JU, l_jobs w !! u = Some JU → is_anonymous JU = false
  | _ => True
  end.

Inductive event_step : launchd → launchd → Prop :=
  | Handles fuel ev w w' : may_happen w ev → handle y fuel ev w = Ok w' → event_step w w'.

Lemma event_books w w' : event_step w w' → books w → books w'.
Proof.
  destruct 1 as [fuel ev w w' Hev H]. intros B. destruct ev; cbn [handle may_happen] in *.
  - by eapply books_reap_bulk.
  - by eapply books_timer.
  - by eapply books_dispatch.
  - injection H as <-. by apply books_stop.
  - by eapply books_remove.
  - by eapply books_import.
  - apply bind_inv in H as (r & Hr & H). injection H as <-. unfold find_or_create in Hr.
    case_match; [by injection Hr as <-|by eapply books_new_anonymous].
  - by eapply books_switch.
  - destruct Hev as [(J & HJ & Hr) Hu]. by eapply books_suspend.
  - by eapply books_resume.
Qed.

Lemma books_start : books launchd_start.
Proof.
  split; [|done]. split; try done; [intros m b|intros b|constructor]; cbn; rewrite lookup_empty; (split; [constructor|]); intros i;
    (split; [by intros ?%not_elem_of_nil|by intros (_ & K & ? & _)]).
Qed.

Lemma reachable_books w : rtc event_step launchd_start w → books w.
Proof.
  assert (∀ w0, rtc event_step w0 w → books w0 → books w) as H; [|intros ?; by eapply H, books_start].
  induction 1 as [|w0 w1 w2 Hs _ IH]; [done|]. intros B. by eapply IH, event_books.
Qed.
End Preserve.

(** ** The accounts of a running launchd *)

Lemma in_bucket w m p id J :
  accounts ∅ w → l_jobs w !! id = Some J → job_pid J = p → p ≠ 0 → s_mgr (jx J) = m → id ∈ bucket w m p ∧ has_pid w p id = true.
Proof.
  intros A HJ Hp H0 Hm. split.
  - apply (ac_active _ _ A). split; [set_solver|]. exists J. split_and!; [done| |done|congruence]. unfold running. rewrite Hp. by apply negb_true_iff, Z.eqb_neq.
  - unfold has_pid. rewrite HJ, Hp. apply Z.eqb_refl.
Qed.

