(* ===== verification/JobEnds.v ===== *)
(** * Handling an event of launchd ends

    [job_dispatch] calls itself through the removal of jobs and the resumption of per-user
    launchds.  Each level marks a job as being removed, so that the number of jobs bounds the
    depth, and the walk over the curious jobs is bounded by their list. *)

From stdpp Require Import relations.
From S2P Require Import Machine Prelude LaunchData JobPolicy JobProcess JobAccounts.

(** The jobs that are not being removed. *)
Definition live (w : launchd) : gset nat := dom (filter (fun kv => removing (jr kv.2) = false) (l_jobs w)).

Lemma elem_of_live w i : i ∈ live w ↔ ∃ J, l_jobs w !! i = Some J ∧ removing (jr J) = false.
Proof.
  unfold live. rewrite elem_of_dom. split.
  - intros [J HJ]. apply map_lookup_filter_Some in HJ. by exists J.
  - intros (J & HJ & Hm). exists J. by apply map_lookup_filter_Some.
Qed.

Lemma live_size w : (size (live w) ≤ size (l_jobs w))%nat.
Proof.
  rewrite <- (size_dom (D := gset nat)). apply subseteq_size. intros i (J & HJ & _)%elem_of_live. by eapply elem_of_dom_2.
Qed.

(** Nothing is unmarked and no job becomes curious. *)
Definition shrinks (w w' : launchd) : Prop := live w' ⊆ live w ∧ l_curious w' `sublist_of` l_curious w.

#[export] Instance shrinks_preorder : PreOrder shrinks.
Proof.
  split; [done|]. intros w1 w2 w3 [L1 C1] [L2 C2]. split; [set_solver|by etrans].
Qed.

Lemma shrinks_size w w' : shrinks w w' → (size (live w') ≤ size (live w))%nat.
Proof. intros [L _]. by apply subseteq_size. Qed.

Lemma shrinks_books w w' : same_books w w' → shrinks w w'.
Proof. intros (H1 & _ & _ & H4 & _). unfold shrinks, live. by rewrite H1, H4. Qed.

Lemma shrinks_jobs w w' id J J' :
  l_jobs w !! id = Some J → l_jobs w' = <[id := J']> (l_jobs w) → l_curious w' = l_curious w →
  (removing (jr J') = false → removing (jr J) = false) → shrinks w w'.
Proof.
  intros HJ Ej Ec Hm. split; [|by rewrite Ec]. intros i (K & HK & HmK)%elem_of_live. apply elem_of_live.
  rewrite Ej, lookup_insert_Some in HK. destruct HK as [[<- <-]|[_ HK]]; [exists J; auto|by exists K].
Qed.

Lemma shrinks_set w id J J' :
  l_jobs w !! id = Some J → (removing (jr J') = false → removing (jr J) = false) → shrinks w (set_job id J' w).
Proof. intros HJ Hm. by eapply shrinks_jobs. Qed.

(** A result that is not for want of fuel, and shrinks. *)
Definition ends (w : launchd) (r : res Empty_set launchd) : Prop :=
  match r with Ok w' => shrinks w w' | NoFuel => False | Err _ | UB => True end.

Lemma ends_bind w (r : res Empty_set launchd) f :
  ends w r → (∀ w', r = Ok w' → shrinks w w' → ends w (f w')) → ends w (mbind f r).
Proof. destruct r; cbn; auto. Qed.

Lemma ends_access {A} w (o : option A) f : (∀ a, o = Some a → ends w (f a)) → ends w (mbind f (access o)).
Proof. destruct o; cbn; auto. Qed.

Lemma ends_weaken w w1 r : shrinks w w1 → ends w1 r → ends w r.
Proof. destruct r; cbn; [intros; by etrans|done..]. Qed.

Lemma ends_update w id f : (∀ J, removing (jr (f J)) = removing (jr J)) → ends w (update_job id f w).
Proof. intros Hf. apply ends_access. intros J HJ. cbn. eapply shrinks_set; [exact HJ|]. by rewrite Hf. Qed.

(** The walk over a list from one of its elements. *)
Lemma from_elem_length x l : (length (from_elem x l) ≤ length l)%nat.
Proof. induction l as [|a l IH]; cbn; [done|]. case_decide; cbn; lia. Qed.

Lemma from_elem_sublist x l l' : l' `sublist_of` l → (length (from_elem x l') ≤ length (from_elem x l))%nat.
Proof.
  induction 1 as [|a l' l Hs IH|a l' l Hs IH]; cbn; [done|case_decide; cbn; [apply sublist_length in Hs; lia|done]|].
  case_decide; [|done]. pose proof (from_elem_length x l'). apply sublist_length in Hs. cbn. lia.
Qed.

Lemma from_elem_next x j l :
  NoDup l → head (tail (from_elem x l)) = Some j → (length (from_elem j l) < length (from_elem x l))%nat.
Proof.
  induction 1 as [|a l Ha Hn IH]; cbn; [done|]. destruct (decide (a = x)) as [->|Hx]; cbn [tail].
  - intros Hj. assert (x ≠ j). { destruct l; cbn in Hj; [done|]. injection Hj as ->. intros ->. apply Ha. left. }
    rewrite decide_False by done. pose proof (from_elem_length j l). cbn. lia.
  - intros Hj. destruct (decide (a = j)) as [->|?]; [|by apply IH]. exfalso. apply Ha. apply (from_elem_incl x).
    destruct (from_elem x l) as [|b [|c r]]; cbn in Hj; try done. injection Hj as ->. right. left.
Qed.

Section Ends.
Context (y : system).
Hypothesis fork_pids : ∀ n, fe_pid (y_fork y n) ≠ 0.

Section Rec.
Context (rec : nat → bool → launchd → res Empty_set launchd) (n : nat).
Hypothesis rec_ok : dispatches rec.
Hypothesis rec_ends : ∀ D id k w,
  accounts D w → dispatchable w id → NoDup (l_curious w) → (size (live w) < n)%nat → ends w (rec id k w).

Lemma resume_ends D id spis : ∀ w J,
  accounts D w → NoDup (l_curious w) → (size (live w) < n)%nat → id ∈ D →
  (∀ u K, u ∈ spis → l_jobs w !! u = Some K → is_anonymous K = false) →
  l_jobs w !! id = Some J → suspended_perusers (jr J) = spis → ends w (resume_perusers rec id spis w).
Proof.
  induction spis as [|u spis IH]; intros w J A Hc Hn HD Hna HJ Hsp; cbn [resume_perusers]; [done|].
  apply ends_access. intros JU HJU. set (JU' := with_state JU _). cbv zeta.
  assert (accounts D (set_job u JU' w)) as A1 by (by eapply set_job_accounts_sub).
  assert (keeps w (set_job u JU' w)) as K1 by (by eapply set_job_keeps).
  assert (shrinks w (set_job u JU' w)) as S1 by (by eapply shrinks_set).
  assert (dispatchable (set_job u JU' w) u) as Hd.
  { intros K HK. left. destruct (proj1 (proj2 K1) _ _ HK) as (K0 & HK0 & ->). apply (Hna u K0); [left|done]. }
  apply ends_bind.
  { eapply ends_weaken; [exact S1|]. case_match; [|done]. apply (rec_ends D); [done..|]. pose proof (shrinks_size _ _ S1). lia. }
  intros w2 H2 S2.
  assert (accounts D w2 ∧ keeps (set_job u JU' w) w2) as [A2 K2].
  { case_match; [|injection H2 as <-; split; [done|apply keeps_refl]]. by edestruct (rec_ok D) as (? & ? & _). }
  pose proof (keeps_trans _ _ _ K1 K2) as K12. eapply ends_weaken; [exact S2|].
  apply ends_bind; [by apply ends_update|]. intros w3 H3 S3. eapply ends_weaken; [exact S3|].
  unfold update_job in H3. apply bind_inv in H3 as (J2 & HJ2 & H3). apply access_Some in HJ2. injection H3 as <-.
  set (J3 := with_run J2 (with_suspended spis (jr J2))) in *.
  assert (∀ x K, x ∈ spis → l_jobs w2 !! x = Some K → is_anonymous K = false) as Hna2.
  { intros x K Hx HK. destruct (proj1 (proj2 K12) _ _ HK) as (K0 & HK0 & ->). apply (Hna x K0); [by right|done]. }
  pose proof (shrinks_size _ _ S2). pose proof (shrinks_size _ _ S3). eapply (IH _ J3); [| |lia|done| |cbn; apply lookup_insert_eq|done].
  - eapply (set_job_accounts D w2 id J2 J3); [done|done|by intros ? ? ?; apply Hna2| |done].
    intros Hr. destruct (ac_reaping _ _ A2 id HD) as (J' & HJ' & Hr'). rewrite HJ2 in HJ'. injection HJ' as <-. change (running J2 = false) in Hr. congruence.
  - destruct S2 as [_ S2]. by eapply sublist_NoDup.
  - intros x K Hx HK. destruct (set_job_lookup w2 id J2 J3 HJ2 eq_refl x K HK) as (K0 & HK0 & E).
    destruct (key_shares _ _ E) as (_ & -> & _). by apply (Hna2 x K0).
Qed.

Lemma reaping_shrinks id w J : l_jobs w !! id = Some J → shrinks w (reaping y id J w).
Proof.
  intros HJ. destruct (reap_first_key (y_reap y (l_turn w)) id J) as (_ & _ & Hm). eapply (shrinks_jobs w _ id J); [done|done|done|].
  by rewrite Hm.
Qed.

Lemma reap_tail_ends id e w : ends w (J2 ← access (l_jobs w !! id); Ok (reap_counts J2 (log (reap_replies e J2) (set_job id (reap_job J2) w)))).
Proof. apply ends_access. intros J HJ. by eapply (shrinks_jobs w _ id J (reap_job J)). Qed.

Lemma job_reap_ends D id w J :
  accounts D w → id ∉ D → l_jobs w !! id = Some J → running J = true → NoDup (l_curious w) → (size (live w) < n)%nat →
  ends w (job_reap y rec id w).
Proof.
  intros A HD HJ Hr Hc Hn. rewrite (job_reap_eq y rec id w J HJ). pose proof (reaping_shrinks id w J HJ) as S1.
  destruct (reaping_ok y D id w J A HD HJ Hr) as (A1 & K1 & (J1 & HJ1 & Hs1) & Hna).
  apply ends_bind; [|intros v _ S2; eapply ends_weaken; [exact S2|apply reap_tail_ends]].
  eapply ends_weaken; [exact S1|]. pose proof (shrinks_size _ _ S1). eapply (resume_ends ({[id]} ∪ D)); [done| |lia|set_solver|done..].
  destruct S1 as [_ S1]. by eapply sublist_NoDup.
Qed.

(** A job that suspended nobody is reaped without a dispatch. *)
Lemma job_reap_alone_ends id w J : l_jobs w !! id = Some J → suspended_perusers (jr J) = [] → ends w (job_reap y rec id w).
Proof.
  intros HJ Hs. rewrite (job_reap_eq y rec id w J HJ), Hs. cbn [resume_perusers]. rewrite bind_Ok.
  eapply ends_weaken; [by eapply reaping_shrinks|apply reap_tail_ends].
Qed.

Lemma job_fork_ends D id w J :
  accounts D w → l_jobs w !! id = Some J → running J = false → ends w (job_fork y rec id w).
Proof.
  intros A HJ Hr. unfold job_fork. rewrite HJ. cbn [access]. rewrite bind_Ok. set (f := y_fork y (l_turn w)).
  destruct (fe_pid f =? -1); [by eapply (shrinks_jobs w _ id J (job_ignore J))|]. set (J1 := mkJob _ _ _ _). cbv zeta. set (w1 := log _ _).
  assert (shrinks w w1) as S1 by (by eapply (shrinks_jobs w w1 id J J1)).
  assert (l_jobs w1 !! id = Some J1) as HJ1 by (cbn; apply lookup_insert_eq).
  apply ends_bind.
  - eapply ends_weaken; [exact S1|]. destruct (fe_attached f); [by apply ends_update|]. apply ends_bind.
    + eapply job_reap_alone_ends; [exact HJ1|]. cbn. by apply (ac_idle _ _ A id J).
    + intros w2 _ S2. eapply ends_weaken; [exact S2|by apply ends_update].
  - intros w2 _ S2. eapply ends_weaken; [exact S2|]. case_match; [done|]. apply ends_access. intros J2 HJ2.
    by eapply (shrinks_jobs w2 _ id J2).
Qed.

Lemma curious_ends D lbl fuel : ∀ ji w,
  accounts D w → NoDup (l_curious w) → (size (live w) < n)%nat →
  (∀ i, ji = Some i → (length (from_elem i (l_curious w)) < fuel)%nat ∧ ∀ J, l_jobs w !! i = Some J → is_anonymous J = false) →
  ends w (curious_loop rec lbl fuel ji w).
Proof.
  induction fuel as [|fuel IH]; intros [ji|] w A Hc Hn Hji; cbn [curious_loop]; try done; [destruct (Hji ji eq_refl); lia|].
  destruct (Hji ji eq_refl) as [Hl Hna]. apply ends_access. intros J HJ.
  assert (dispatchable w ji) as Hd. { intros K HK. left. auto. }
  apply ends_bind; [case_match; [by apply (rec_ends D)|done]|]. intros w1 H1 S1. eapply ends_weaken; [exact S1|].
  assert (accounts D w1 ∧ keeps w w1) as [A1 K1].
  { case_match; [|injection H1 as <-; split; [done|apply keeps_refl]]. by edestruct (rec_ok D) as (? & ? & _). }
  pose proof (shrinks_size _ _ S1). destruct S1 as [_ S1]. apply IH; [done|by eapply sublist_NoDup|lia|].
  intros j Hj. split.
  - pose proof (from_elem_next _ _ _ Hc Hj). pose proof (from_elem_sublist j _ _ S1). lia.
  - intros K HK. destruct (proj1 (proj2 K1) _ _ HK) as (K0 & HK0 & ->). eapply (ac_curious _ _ A); [|exact HK0].
    apply (from_elem_incl ji). destruct (from_elem ji (l_curious w)) as [|a [|b l]]; cbn in Hj; try done. injection Hj as ->. right. left.
Qed.

Lemma mark_live w id J :
  l_jobs w !! id = Some J → removing (jr J) = false →
  (size (live (set_job id (with_run J (with_removing (jr J))) w)) < size (live w))%nat.
Proof.
  intros HJ Hm. apply subset_size. split.
  - intros i (K & HK & HmK)%elem_of_live. apply elem_of_live. cbn in HK. rewrite lookup_insert_Some in HK.
    destruct HK as [[<- <-]|[_ HK]]; [done|by exists K].
  - intros Hsub. assert (id ∈ live w) as Hin by (apply elem_of_live; by exists J). apply Hsub, elem_of_live in Hin as (K & HK & HmK).
    cbn in HK. rewrite lookup_insert_eq in HK. injection HK as <-. done.
Qed.

Lemma free_shrinks id J w : shrinks w (free_job id J w).
Proof.
  split; [|cbn; apply sublist_filter]. intros i (K & HK & HmK)%elem_of_live. apply elem_of_live. exists K.
  cbn in HK. by apply lookup_delete_Some in HK as [_ HK].
Qed.

Lemma remove_idle_ends D id w :
  accounts D w → NoDup (l_curious w) → (size (live w) < S n)%nat → ends w (remove_idle rec id w).
Proof.
  intros A Hc Hn. unfold remove_idle. apply ends_access. intros J HJ. apply ends_bind.
  - destruct (removing (jr J)) eqn:Hm; [done|]. pose proof (mark_live w id J HJ Hm).
    eapply ends_weaken; [by eapply (shrinks_set w id J)|].
    assert (accounts D (set_job id (with_run J (with_removing (jr J))) w)) as A1 by (by eapply set_job_accounts_sub).
    apply (curious_ends D); [done|done|lia|]. intros i Hi. split; [pose proof (from_elem_length i (l_curious w)); cbn; lia|].
    intros K. by apply (curious_head D _ i K A1).
  - intros w1 _ S1. eapply ends_weaken; [exact S1|]. apply ends_access. intros J1 _. apply free_shrinks.
Qed.

Lemma stop_shrinks id w : shrinks w (job_stop y id w).
Proof.
  unfold job_stop. destruct (l_jobs w !! id) as [J|] eqn:HJ; [|done]. case_match; [done|]. destruct (y_terminate y (l_turn w)) as [a now].
  by eapply (shrinks_jobs w _ id J).
Qed.

Lemma alias_shrinks id w : shrinks w (with_jobs w (delete id (l_jobs w))).
Proof.
  split; [|done]. intros i (K & HK & HmK)%elem_of_live. apply elem_of_live. exists K. cbn in HK. by apply lookup_delete_Some in HK as [_ HK].
Qed.

Lemma remove_idle_job_ends D id w J :
  accounts D w → l_jobs w !! id = Some J → running J = false → NoDup (l_curious w) → (size (live w) < S n)%nat →
  ends w (job_remove y rec id w).
Proof.
  intros A HJ Hr Hc Hn. unfold job_remove. rewrite HJ. cbn [access]. rewrite bind_Ok. apply negb_false_iff in Hr. rewrite Hr. cbn [negb andb].
  destruct (is_alias (jc J)); [apply alias_shrinks|]. rewrite bind_Ok. by eapply remove_idle_ends.
Qed.

Lemma dispatch_body_ends D id k w :
  accounts D w → dispatchable w id → NoDup (l_curious w) → (size (live w) < S n)%nat → ends w (dispatch_body y rec id k w).
Proof.
  intros A Hd Hc Hn. unfold dispatch_body. apply ends_access. intros J HJ.
  pose proof (dispatch_inactive (y_globals y (l_turn w)) (y_mgr y (l_turn w) (s_mgr (jx J))) (jc J) (js J) k) as Hin.
  destruct (job_dispatch _ _ _ _ _) as [| | |[|d|]| |]; try done;
    try (destruct Hin as [Hin%active_running _]; assert (running J = false) as Hr by (unfold running, job_pid; by rewrite Hin)).
  - by eapply remove_idle_job_ends.
  - by eapply (shrinks_jobs w _ id J (job_ignore J)).
  - by eapply job_fork_ends.
  - by eapply (shrinks_set w id J).
Qed.
End Rec.

Lemma dispatch_ends fuel : ∀ D id k w,
  accounts D w → dispatchable w id → NoDup (l_curious w) → (size (live w) < fuel)%nat → ends w (dispatch y fuel id k w).
Proof.
  induction fuel as [|fuel IH]; intros D id k w A Hd Hc Hn; [lia|]. cbn [dispatch].
  by apply (dispatch_body_ends (dispatch y fuel) fuel (dispatch_accounts y fork_pids fuel) IH D).
Qed.

(** ** The events *)

Section Fuel.
Context (fuel : nat).
Local Notation rec := (dispatch y fuel).
Local Notation fits w := (size (live w) < fuel)%nat.

Lemma shrinks_fits w w' : shrinks w w' → fits w → fits w'.
Proof. intros S. pose proof (shrinks_size _ _ S). lia. Qed.

Lemma books_dispatch_ends id k w : books w → fits w → ends w (rec id k w).
Proof.
  intros [A R] Hn. apply (dispatch_ends fuel ∅); [done|by apply anonymous_dispatchable|apply (ac_nosy _ _ A)|done].
Qed.

Lemma books_reap_ends id w J :
  books w → fits w → l_jobs w !! id = Some J → running J = true → ends w (job_reap y rec id w).
Proof.
  intros [A R] Hn HJ Hr. eapply (job_reap_ends rec fuel (dispatch_accounts y fork_pids fuel) (dispatch_ends fuel) ∅); try done. apply (ac_nosy _ _ A).
Qed.

Lemma accounts_remove_ends id w : accounts ∅ w → fits w → ends w (remove_idle rec id w).
Proof.
  intros A Hn. eapply (remove_idle_ends rec fuel (dispatch_accounts y fork_pids fuel) (dispatch_ends fuel) ∅); [done|apply (ac_nosy _ _ A)|lia].
Qed.

Lemma job_remove_ends id w : books w → fits w → ends w (job_remove y rec id w).
Proof.
  intros [A R] Hn. unfold job_remove. apply ends_access. intros J HJ. destruct (is_alias (jc J)); [apply alias_shrinks|].
  destruct (negb (job_pid J =? 0)) eqn:Hr; cbn [andb]; [|rewrite bind_Ok; by apply accounts_remove_ends].
  destruct (is_anonymous J) eqn:Ha; cbn [negb].
  - apply ends_bind; [by eapply books_reap_ends|]. intros w1 H1 S1. eapply ends_weaken; [exact S1|].
    apply accounts_remove_ends; [|by eapply shrinks_fits]. by edestruct (job_reap_ok y fork_pids rec (dispatch_accounts y fork_pids fuel) ∅ id w w1 J) as [? _].
  - case_match; [done|]. cbn [ends]. etrans; [|apply stop_shrinks]. by eapply (shrinks_set w id J).
Qed.

Lemma note_exit_ends id ident d m w J :
  books w → fits w → l_jobs w !! id = Some J → running J = true → ends w (note_exit y fuel id ident d m w).
Proof.
  intros B Hn HJ Hr. unfold note_exit. apply ends_bind; [by apply ends_update|]. intros w1 H1 S1. eapply ends_weaken; [exact S1|].
  eapply books_update in H1 as [B1 K1]; [|done|done]. destruct (proj1 K1 id J HJ Hr) as (J1 & HJ1 & Ek). destruct (key_shares _ _ Ek) as [Er _].
  pose proof (shrinks_fits _ _ S1 Hn) as Hn1. apply ends_bind; [eapply books_reap_ends; [done|done|done|congruence]|].
  intros w2 H2 S2. eapply ends_weaken; [exact S2|]. pose proof (shrinks_fits _ _ S2 Hn1) as Hn2. pose proof B1 as [A1 R1].
  destruct (job_reap_ok y fork_pids rec (dispatch_accounts y fork_pids fuel) ∅ id w1 w2 J1) as [A2 K2]; [done|done|done|congruence|done|].
  apply ends_access. intros J2 HJ2. pose proof K2 as (_ & _ & _ & J2' & HJ2' & Hr2). rewrite HJ2 in HJ2'. injection HJ2' as <-.
  destruct (is_anonymous J2) eqn:Ha.
  - eapply (remove_idle_job_ends rec fuel (dispatch_accounts y fork_pids fuel) (dispatch_ends fuel) ∅); [done|done|done|apply (ac_nosy _ _ A2)|lia].
  - eapply ends_weaken; [apply shrinks_books, books_waiters|]. apply books_dispatch_ends; [|done].
    eapply books_same; [apply books_waiters|]. split; [done|]. intros i K HK HaK. destruct (decide (i = id)) as [->|Hi]; [congruence|].
    by apply (keeps_but_anonymous id w1 w2 K2 R1 i K Hi HK).
Qed.

Lemma callback_proc_ends id ident ev w J :
  books w → fits w → l_jobs w !! id = Some J → running J = true → ends w (job_callback_proc y fuel id ident ev w).
Proof.
  intros B Hn HJ Hr. unfold job_callback_proc. apply ends_bind.
  - destruct (pe_exec ev) as [[l ok]|]; [|done]. apply ends_access. intros K HK. cbn. destruct (is_anonymous K); [destruct l; [|done]|];
      by eapply (shrinks_jobs w _ id K).
  - intros w1 H1 S1. eapply ends_weaken; [exact S1|].
    assert (books w1 ∧ keeps w w1) as [B1 K1].
    { destruct (pe_exec ev) as [[l ok]|]; [by eapply books_note_exec|]. injection H1 as <-. split; [done|apply keeps_refl]. }
    destruct (pe_exit ev) as [[d m]|]; [|done]. destruct (proj1 K1 id J HJ Hr) as (J1 & HJ1 & Ek). destruct (key_shares _ _ Ek) as [Er _].
    eapply note_exit_ends; [done|by eapply shrinks_fits|done|congruence].
Qed.

Lemma reap_bulk_ends mgrs ident ev : ∀ w, books w → fits w → ends w (jobmgr_reap_bulk y fuel mgrs ident ev w).
Proof.
  induction mgrs as [|m mgrs IH]; intros w B Hn; cbn [jobmgr_reap_bulk]; [done|].
  apply ends_bind.
  - destruct (jobmgr_find_by_pid w m ident) eqn:E; [|done]. destruct (found_running _ _ _ _ B E) as (J & HJ & Hr). by eapply callback_proc_ends.
  - intros w1 H1 S1. eapply ends_weaken; [exact S1|]. apply IH; [|by eapply shrinks_fits].
    destruct (jobmgr_find_by_pid w m ident) eqn:E; [|by injection H1 as <-]. destruct (found_running _ _ _ _ B E) as (J & HJ & Hr).
    by eapply (books_callback_proc y fork_pids).
Qed.

Lemma timer_ends id ident mgrs w : books w → fits w → ends w (job_callback_timer y fuel id ident mgrs w).
Proof.
  intros B Hn. destruct ident; cbn [job_callback_timer]; [by apply books_dispatch_ends..| |].
  - apply ends_bind; [by apply ends_update|]. intros w1 H1 S1. eapply ends_weaken; [exact S1|].
    apply books_dispatch_ends; [|by eapply shrinks_fits]. by eapply books_update in H1 as [? _]; [..|done].
  - apply ends_access. intros J HJ. case_match; [done|]. case_match.
    + set (w1 := set_job id (with_state J (with_workaround (js J))) w). assert (shrinks w w1) as S1 by (by eapply shrinks_set).
      eapply ends_weaken; [exact S1|]. apply reap_bulk_ends; [by eapply books_set_job|by eapply shrinks_fits].
    + cbn. unfold job_kill. rewrite HJ. case_match; [done|]. by eapply (shrinks_jobs w _ id J).
Qed.

Lemma resume_event_ends ok id u w : books w → fits w → ends w (peruser_resume y fuel ok id u w).
Proof.
  intros B Hn. unfold peruser_resume. case_match; [done|]. apply ends_access. intros J HJ. case_match; [done|].
  apply ends_bind; [by apply ends_update|]. intros w1 H1 S1. eapply ends_weaken; [exact S1|]. eapply books_update in H1 as [B1 _]; [|done|done].
  apply ends_bind; [by apply ends_update|]. intros w2 H2 S2. eapply ends_weaken; [exact S2|].
  eapply books_update in H2 as [B2 _]; [|done|intros K; split; [done|apply remove_first_incl]].
  apply ends_access. intros JU HJU. case_match; [|done].
  apply ends_bind; [by apply ends_update|]. intros w3 H3 S3. eapply ends_weaken; [exact S3|]. eapply books_update in H3 as [B3 _]; [|done|done].
  apply books_dispatch_ends; [done|]. by do 3 (eapply shrinks_fits; [eassumption|]).
Qed.
End Fuel.

(** *** Anonymous jobs *)

Section Anonymous.
Context (procs : gmap Z proc_info) (magic : bool) (m : nat).

(** No process is its own ancestor, through parents and tracers. *)
Definition acyclic : Prop :=
  ∃ depth : Z → nat, ∀ p pi, procs !! p = Some pi → pi_ppid pi ≠ p →
    (depth (pi_ppid pi) < depth p ≤ size procs)%nat.

Lemma new_anonymous_acyclic depth :
  (∀ p pi, procs !! p = Some pi → pi_ppid pi ≠ p → (depth (pi_ppid pi) < depth p ≤ size procs)%nat) →
  ∀ fuel p w, (∀ pi, procs !! p = Some pi → pi_ppid pi ≠ p → (depth p < fuel)%nat) → (0 < fuel)%nat →
    terminates (job_new_anonymous y procs magic m fuel p w).
Proof.
  intros Hd. induction fuel as [|fuel IH]; intros p w Hf H0; [lia|]. cbn [job_new_anonymous]. case_match; [done|].
  destruct (procs !! p) as [pi|] eqn:Hpi; [|done].
  destruct (pi_blank pi || (pi_ppid pi =? p)) eqn:Hb; [done|]. apply orb_false_iff in Hb as [_ Hne%Z.eqb_neq].
  specialize (Hf pi eq_refl Hne). destruct (Hd p pi Hpi Hne) as [Hlt _]. destruct (add_anonymous y m p (pi_label pi) w) as [jr w1].
  apply bind_terminates; [|done]. case_match; [done|]. case_match; [done|].
  apply bind_terminates; [|done]. apply IH; [intros ? _ _|]; lia.
Qed.

Section Memory.
Hypothesis alloc : ∀ n, y_alloc y n = true.

(** The processes that have no job in the manager yet. *)
Definition unknown (w : launchd) : gset Z := filter (fun p => jobmgr_find_by_pid w m p = None) (dom procs).

Lemma add_anonymous_known p lbl w :
  let w' := (add_anonymous y m p lbl w).2 in
  (∃ id, jobmgr_find_by_pid w' m p = Some id) ∧
  ∀ q, (∃ id, jobmgr_find_by_pid w m q = Some id) → ∃ id, jobmgr_find_by_pid w' m q = Some id.
Proof.
  unfold add_anonymous, job_new. cbn [orb negb]. rewrite alloc. cbn [negb set_job with_jobs l_jobs]. rewrite lookup_insert_eq. cbn [snd].
  set (J := anonymous_job (new_job m lbl) p). set (w' := link_anonymous _ _ _).
  destruct (unmentioned w (new_id w) (new_id_fresh w)) as (Hn & _).
  assert (∀ q x, x ∈ bucket w m q → x ∈ bucket w' m q) as Hb.
  { intros q x Hx. unfold bucket, w'. cbn [link_anonymous log with_counts with_lists l_active]. change (s_mgr (jx J)) with m.
    destruct (decide (ACTIVE_JOB_HASH (job_pid J) = ACTIVE_JOB_HASH q)) as [E|E].
    - rewrite E, lookup_insert_eq. cbn [default Datatypes.id]. right. unfold bucket in Hx |- *. by rewrite E.
    - rewrite lookup_insert_ne by congruence. done. }
  split.
  - apply find_known. exists (new_id w). unfold bucket, has_pid, w'. cbn [link_anonymous log with_counts with_lists l_active l_jobs set_job with_jobs].
    change (s_mgr (jx J)) with m. change (job_pid J) with p. rewrite !lookup_insert_eq. cbn [default Datatypes.id]. split; [left|]. apply Z.eqb_refl.
  - intros q (id & Hin & Hp)%find_known. apply find_known. exists id. split; [by apply Hb|]. unfold has_pid in *.
    destruct (l_jobs w !! id) as [K|] eqn:HK; [|done]. unfold w'. cbn. rewrite !lookup_insert_ne by congruence. by rewrite HK.
Qed.

Lemma new_anonymous_terminates fuel : ∀ p w,
  jobmgr_find_by_pid w m p = None → (size (unknown w) < fuel)%nat → terminates (job_new_anonymous y procs magic m fuel p w).
Proof.
  induction fuel as [|fuel IH]; intros p w Hp Hf; [lia|]. cbn [job_new_anonymous]. case_match; [done|].
  destruct (procs !! p) as [pi|] eqn:Hpi; [|done]. case_match; [done|].
  pose proof (add_anonymous_known p (pi_label pi) w) as [Hk Hm]. destruct (add_anonymous y m p (pi_label pi) w) as [jr w1]. cbn [snd] in *.
  apply bind_terminates; [|done]. case_match; [done|]. destruct (jobmgr_find_by_pid w1 m (pi_ppid pi)) eqn:E; [done|].
  apply bind_terminates; [|done]. apply IH; [done|].
  assert (size (unknown w1) < size (unknown w))%nat; [|lia]. apply subset_size. split.
  - intros q [Hq Hin]%elem_of_filter. apply elem_of_filter. split; [|done]. destruct (jobmgr_find_by_pid w m q) as [x|] eqn:Eq; [|done].
    destruct (Hm q) as [id Hid]; [by exists x|congruence].
  - intros Hsub. assert (p ∈ unknown w) as Hin. { apply elem_of_filter. split; [done|by eapply elem_of_dom_2]. }
    apply Hsub, elem_of_filter in Hin as [Hin _]. destruct Hk. congruence.
Qed.
End Memory.
End Anonymous.

(** *** All events *)

(** The depth of calls that is enough. *)
Definition enough_fuel (w : launchd) (ev : event) : nat :=
  match ev with
  | Import _ => S (S (size (l_jobs w)))
  | Caller procs _ _ _ => S (size procs)
  | _ => S (size (l_jobs w))
  end.

Lemma ends_terminates w r : ends w r → terminates r.
Proof. by destruct r. Qed.

Lemma import_terminates fuel J w :
  books w → importable J → (S (size (l_jobs w)) < fuel)%nat → terminates (job_import y fuel J w).
Proof.
  intros [A R] HJ Hf. unfold job_import. set (id := new_id w). set (w1 := enable id J w).
  destruct (enable_books w J (conj A R) HJ) as [A1 R1]. fold id w1 in A1, R1.
  assert (size (live w1) < fuel)%nat as Hn.
  { pose proof (live_size w1) as Hl. cbn in Hl. rewrite map_size_insert in Hl. case_match; cbn in Hl; lia. }
  assert (ends w1 (curious_loop (dispatch y fuel) (label (jc J)) (S (length (l_curious w1))) (head (l_curious w1)) w1)) as Hc.
  { eapply (curious_ends (dispatch y fuel) fuel (dispatch_accounts y fork_pids fuel) (dispatch_ends fuel) ∅); [done|apply (ac_nosy _ _ A1)|done|].
    intros i Hi. split; [pose proof (from_elem_length i (l_curious w1)); lia|]. intros K. by apply (curious_head ∅ w1). }
  apply bind_terminates; [by eapply ends_terminates|]. intros w2 H2. rewrite H2 in Hc. eapply ends_terminates, books_dispatch_ends.
  - apply (curious_ok (dispatch y fuel) (dispatch_accounts y fork_pids fuel) ∅) in H2 as (A2 & K2 & _); [|done|].
    + split; [done|by eapply keeps_anonymous].
    + intros i K. by apply (curious_head ∅ w1).
  - by eapply shrinks_fits.
Qed.

Lemma update_terminates id f w : terminates (update_job id f w).
Proof. apply bind_terminates; [apply access_terminates|done]. Qed.

Lemma suspend_terminates ok id u mem w : terminates (peruser_suspend y ok id u mem w).
Proof.
  unfold peruser_suspend. case_match; [done|]. apply bind_terminates; [apply access_terminates|intros J _]. apply bind_terminates; [apply access_terminates|intros JU _].
  case_match; [done|]. apply bind_terminates; [case_match; [apply update_terminates|done]|intros w1 _].
  do 2 (apply bind_terminates; [apply update_terminates|intros ? _]). done.
Qed.

Lemma handle_ends fuel ev w :
  (∀ procs magic m p, ev = Caller procs magic m p → (∀ n, y_alloc y n = true) ∨ acyclic procs) →
  books w → may_happen w ev → (enough_fuel w ev ≤ fuel)%nat → terminates (handle y fuel ev w).
Proof.
  intros Ha B Hev Hf. pose proof (live_size w) as Hl. destruct ev; cbn [handle enough_fuel may_happen] in *.
  - eapply ends_terminates, reap_bulk_ends; [done|lia].
  - eapply ends_terminates, timer_ends; [done|lia].
  - eapply ends_terminates, books_dispatch_ends; [done|lia].
  - done.
  - eapply ends_terminates, job_remove_ends; [done|lia].
  - by apply import_terminates.
  - apply bind_terminates; [|done]. unfold find_or_create. case_match; [done|].
    destruct (Ha _ _ _ _ eq_refl) as [Hal|[depth Hd]].
    2: { apply (new_anonymous_acyclic procs pid1_magic m depth Hd); [|lia].
         intros pi Hpi E. destruct (Hd p pi Hpi E). lia. }
    apply new_anonymous_terminates; [done..|].
    unfold unknown. pose proof (size_dom (D := gset Z) procs). assert (size (filter (fun p => jobmgr_find_by_pid w m p = None) (dom procs)) ≤ size (dom procs))%nat; [|lia].
    apply subseteq_size. set_solver.
  - unfold switch_to_session. destruct (l_jobs w !! id); cbn; [|done]. by repeat case_match.
  - apply suspend_terminates.
  - eapply ends_terminates, resume_event_ends; [done|lia].
Qed.
End Ends.

(** ** What an exit leads to *)

Section Restart.
Context (y : system).

Lemma job_reap_alone rec id w J :
  l_jobs w !! id = Some J → suspended_perusers (jr J) = [] → is_anonymous J = false →
  ∃ w', job_reap y rec id w = Ok w' ∧ l_jobs w' !! id = Some (reap_job (reap_first (y_reap y (l_turn w)) id J).1) ∧
        l_turn w' = S (l_turn w) ∧ l_total_children w' = l_total_children w - 1.
Proof.
  intros HJ Hs Ha. rewrite (job_reap_eq y rec id w J HJ), Hs. cbn [resume_perusers]. rewrite bind_Ok.
  destruct (reap_first_key (y_reap y (l_turn w)) id J) as (Hk & _ & _). destruct (key_shares _ _ Hk) as (_ & Hak & _).
  assert (l_jobs (reaping y id J w) !! id = Some (reap_first (y_reap y (l_turn w)) id J).1) as HJ1 by (cbn; apply lookup_insert_eq).
  rewrite HJ1. cbn [access]. rewrite bind_Ok. eexists. split; [reflexivity|]. split_and!; [cbn; apply lookup_insert_eq|done|].
  cbn [reap_counts with_counts l_total_children]. by rewrite Hak, Ha.
Qed.

Lemma job_fork_attached rec id w J :
  l_jobs w !! id = Some J → fe_pid (y_fork y (l_turn w)) ≠ -1 → fe_attached (y_fork y (l_turn w)) = true →
  ∃ w' J', job_fork y rec id w = Ok w' ∧ l_jobs w' !! id = Some J' ∧ job_pid J' = fe_pid (y_fork y (l_turn w)) ∧
           nruns (jr J') = nruns (jr J) ∧ last_exit_status (js J') = last_exit_status (js J) ∧ l_total_children w' = l_total_children w + 1.
Proof.
  intros HJ Hp Hat. unfold job_fork. rewrite HJ. cbn [access]. rewrite bind_Ok, (proj2 (Z.eqb_neq _ _) Hp), Hat. cbv zeta.
  unfold update_job. cbn [log link_running with_counts with_lists set_job with_jobs l_jobs]. rewrite lookup_insert_eq. cbn [access]. rewrite !bind_Ok.
  destruct (s_stall_before_exec (jx J)) eqn:E; cbn [jx]; rewrite ?E.
  - eexists _, _. split; [reflexivity|]. split; [cbn; apply lookup_insert_eq|done].
  - unfold job_uncork_fork. cbn [set_job with_jobs l_jobs]. rewrite lookup_insert_eq. cbn [access]. rewrite bind_Ok.
    eexists _, _. split; [reflexivity|]. split; [cbn; apply lookup_insert_eq|done].
Qed.

(** A job that launchd keeps alive: it needs no demand, nothing holds it back or still talks to
    its services, and its process had executed the program. *)
Record kept_alive (J : job) : Prop := mkKept {
  ka_managed : is_anonymous J = false;
  ka_conf : is_alias (jc J) = false ∧ legacy_LS_job (jc J) = false ∧ only_once (jc J) = false ∧ legacy_mach_job (jc J) = false ∧
            per_user (jc J) = false;
  ka_services : existsb (fun ms => ms_recv ms && ms_isActive ms) (machservices (jc J)) = false;
  ka_state : awaiting_audit_session (js J) = false ∧ waiting4ok (js J) = false ∧ removal_pending (js J) = false ∧
             priv_port_has_senders (js J) = false ∧ needs_kickoff (js J) = false ∧ did_exec (js J) = true;
  ka_always : ondemand (js J) = false;
  ka_alone : suspended_perusers (jr J) = [];
}.

(** The job has run long enough. *)
Definition ran_long_enough (g : globals) (J : job) : Prop :=
  start_time (js J) = 0 ∨ min_run_time (jc J) ≤ u64 (time_of_event g - start_time (js J)) / NSEC_PER_SEC.

Lemma kept_alive_dispatch g m e id J J1 :
  kept_alive J → J1 = reap_job (reap_first e id J).1 → ran_long_enough g J → shutting_down m = false → global_on_demand_cnt m = 0 →
  job_dispatch g m (jc J1) (js J1) false = Started Forks.
Proof.
  intros [Hm (C1 & C2 & C3 & C4 & C5) Hs (S1 & S2 & S3 & S4 & S5 & S6) Ho _] -> Ht Hd Hg.
  unfold reap_first. destruct (reap_dirty e J) as [idle dirty]. cbn [fst reap_job jc js].
  unfold job_dispatch, exec_may_succeed_later. cbn [awaiting_audit_session waiting4ok]. rewrite S1, C1, S2, S6. cbn [negb andb orb].
  rewrite !andb_false_r. cbn [andb].
  set (s := mkState _ _ _ _ _ _ _ _ _ _ _ _ _ _ _ _ _ _).
  assert (job_active (jc J) s = None) as Ha.
  { unfold job_active, s. cbn [j_pid shutdown_monitor priv_port_has_senders workaround9359725]. cbn [Z.eqb negb andb]. rewrite S4.
    assert (∀ b l, existsb (fun ms => ms_recv ms && ms_isActive ms) l = false → existsb (fun ms => negb b && ms_recv ms && ms_isActive ms) l = false) as Hex.
    { intros b l. induction l as [|ms l IH]; cbn; [done|]. intros [H1 H2]%orb_false_iff. rewrite (IH H2), orb_false_r.
      destruct b; cbn; [done|exact H1]. }
    by rewrite Hex. }
  assert (start_time s = start_time (js J) ∧ ondemand s = false ∧ needs_kickoff s = false ∧ removal_pending s = false ∧
          shutdown_monitor s = false ∧ did_exec s = true) as (E1 & E2 & E3 & E4 & E5 & E6) by done.
  clearbody s. rewrite Ha. unfold job_useless. rewrite C2, C3, C4, E4, E5, E6, Hd, C5. cbn [orb andb negb].
  unfold job_keepalive. rewrite Hd, Hg, E2, E3. cbn [Z.ltb Z.compare andb negb]. unfold job_start. rewrite Ha, E1, C4.
  assert (negb (start_time (js J) =? 0) && (u64 (time_of_event g - start_time (js J)) / NSEC_PER_SEC <? min_run_time (jc J)) = false) as ->.
  { destruct Ht as [->|Ht]; [done|]. rewrite (proj2 (Z.ltb_ge _ _) Ht). apply andb_false_r. }
  cbn [andb]. by destruct (start_pending s).
Qed.

(** What a reaping records. *)
Lemma reap_first_records e id J :
  is_anonymous J = false →
  nruns (jr (reap_first e id J).1) = u32 (nruns (jr J) + 1) ∧
  (implicit_reap (jr J) = false → workaround9359725 (js J) = false → jettisoned (jr J) = false →
   ∀ st, re_wait4 e = Some st → last_exit_status (js (reap_first e id J).1) = st).
Proof.
  intros Ha. unfold reap_first. destruct (reap_dirty e J) as [idle dirty]. cbn [fst jr js nruns last_exit_status]. rewrite Ha. split; [done|].
  intros Hi Hw Hj st Hst. unfold reap_status. by rewrite Ha, Hi, Hw, Hst, Hj, andb_false_r.
Qed.

(** C11: when the kernel reports the exit of the process of a job that is kept alive, after its
    minimum run time, launchd reaps it and starts it again in the same call: the job has the
    new process, one more run, and as its status what [wait4] said, and the number of children
    is as before. *)
Theorem keepalive_restarts fuel w m p id J decryptfail :
  jobmgr_find_by_pid w m p = Some id → l_jobs w !! id = Some J → kept_alive J →
  ran_long_enough (y_globals y (S (l_turn w))) J →
  shutting_down (y_mgr y (S (l_turn w)) (s_mgr (jx J))) = false → global_on_demand_cnt (y_mgr y (S (l_turn w)) (s_mgr (jx J))) = 0 →
  fe_pid (y_fork y (S (l_turn w))) ≠ -1 → fe_attached (y_fork y (S (l_turn w))) = true →
  ∃ w' J', handle y (S fuel) (ProcessEvent p [m] (mkProcEvent None (Some (decryptfail, false)))) w = Ok w' ∧ l_jobs w' !! id = Some J' ∧
    job_pid J' = fe_pid (y_fork y (S (l_turn w))) ∧ nruns (jr J') = u32 (nruns (jr J) + 1) ∧
    (implicit_reap (jr J) = false → workaround9359725 (js J) = false → jettisoned (jr J) = false →
     ∀ st, re_wait4 (y_reap y (l_turn w)) = Some st → last_exit_status (js J') = st) ∧
    l_total_children w' = l_total_children w.
Proof.
  intros Hfind HJ HK Ht Hd Hg Hpid Hat. set (JX := with_run J (with_exit_flags (fpfail (jr J) || decryptfail) (jettisoned (jr J) || (negb decryptfail && false)) (jr J))).
  assert (kept_alive JX) as HKX by (destruct HK; by split). assert (is_anonymous JX = false) as HaX by apply HKX.
  set (w1 := set_job id JX w). assert (l_jobs w1 !! id = Some JX) as HJ1 by (cbn; apply lookup_insert_eq).
  destruct (job_reap_alone (dispatch y (S fuel)) id w1 JX HJ1 (ka_alone _ HKX) HaX) as (w2 & H2 & HJ2 & Ht2 & Hc2).
  set (J2 := reap_job _) in HJ2. assert (is_anonymous J2 = false) as Ha2.
  { unfold J2. destruct (reap_first_key (y_reap y (l_turn w1)) id JX) as (Hk & _). destruct (key_shares _ _ Hk) as (_ & E & _).
    change (is_anonymous (reap_first (y_reap y (l_turn w1)) id JX).1 = false). congruence. }
  assert (s_mgr (jx J2) = s_mgr (jx J)) as Em. { unfold J2, reap_first. by destruct (reap_dirty _ _). }
  set (w3 := drop_waiters p w2). assert (l_jobs w3 !! id = Some J2) as HJ3 by done.
  assert (l_turn w3 = S (l_turn w)) as Ht3 by done.
  destruct (job_fork_attached (dispatch y fuel) id w3 J2 HJ3) as (w' & J' & H' & HJ' & Hp' & Hn' & Hs' & Hc'); [by rewrite Ht3..|].
  destruct (reap_first_records (y_reap y (l_turn w1)) id JX HaX) as [Hn Hst].
  exists w', J'. split_and!; [|done|by rewrite Hp', Ht3|by rewrite Hn'| |rewrite Hc'; change (l_total_children w3) with (l_total_children w2); rewrite Hc2; cbn; lia].
  - cbn [handle jobmgr_reap_bulk]. rewrite Hfind. unfold job_callback_proc. cbn [pe_exec pe_exit]. rewrite bind_Ok.
    unfold note_exit, update_job. rewrite HJ. cbn [access]. rewrite !bind_Ok. fold JX w1. rewrite H2, bind_Ok, HJ2. cbn [access]. rewrite bind_Ok, Ha2.
    fold w3. cbn [dispatch]. unfold dispatch_body. rewrite HJ3. cbn [access]. rewrite bind_Ok, Ht3, Em.
    rewrite (kept_alive_dispatch _ _ (y_reap y (l_turn w1)) id JX J2 HKX eq_refl Ht Hd Hg), H'. done.
  - intros Hi Hw Hj st Hw4. rewrite Hs'. apply Hst; [done|done| |done]. cbn. by rewrite Hj, andb_false_r.
Qed.
End Restart.


(** ** Examples *)

(** A system: the forks give processes of one bucket; [down]: the turn the managers begin to
    shut down at. *)
Definition sample_system (attached alloc : bool) (down : nat) : system :=
  mkSystem (fun _ => mkReapEnv 0 0 (Some 256) false true false)
    (fun n => mkForkEnv (33 + 32 * Z.of_nat n) (5, 6) (7, 8) 20000000000 None attached)
    (fun _ => (Terminated SIGTERM, 0))
    (fun _ => mkGlobals true false (fun _ => None) 100000000000)
    (fun n _ => mkMgr (down <=? n)%nat false 0)
    (fun _ => alloc).

Lemma sample_pids a b d n : fe_pid (y_fork (sample_system a b d) n) ≠ 0.
Proof. cbn. lia. Qed.

(** A job of the manager [m], kept alive or on demand, interested in other jobs. *)
Definition sample_job (m : nat) (lbl : list Z) (demand : bool) (others : list (list Z)) : job :=
  mkJob (mkConf lbl false false false false false false false 10 [] [] (mkSemaphore OTHER_JOB_ENABLED <$> others))
    (mkStatic m [] false 20 false false false false false false 0)
    (mkState 0 0 0 0 0 false false false false true false false false false demand false false false)
    (mkRun 0 false false 0 0 false false false false 0 false 0 0 0 false 0 false false true false false false []).

(** A list of events, handled one after the other. *)
Fixpoint handle_all (y : system) (fuel : nat) (evs : list event) (w : launchd) : res Empty_set launchd :=
  match evs with
  | [] => Ok w
  | ev :: evs => w' ← handle y fuel ev w; handle_all y fuel evs w'
  end.

(** The events that may always happen. *)
Definition plain_event (ev : event) : Prop :=
  match ev with Import J => importable J | Suspend _ _ _ _ => False | _ => True end.

Lemma handle_all_reach y fuel evs : ∀ w w',
  Forall plain_event evs → handle_all y fuel evs w = Ok w' → rtc (event_step y) w w'.
Proof.
  induction evs as [|ev evs IH]; intros w w' Hp H; cbn in H; [injection H as <-; apply rtc_refl|].
  apply Forall_cons in Hp as [He Hp]. apply bind_inv in H as (w1 & H1 & H). eapply rtc_l; [|by eapply IH].
  eapply Handles; [|exact H1]. by destruct ev.
Qed.

Definition result (r : res Empty_set launchd) : launchd := match r with Ok w => w | _ => launchd_start end.

(** A kept-alive job runs, an unknown process calls and moves to another session. *)
Definition busy_events : list event :=
  [Import (sample_job 0 (cstr "a") false []); ProcessEvent 33 [0%nat] (mkProcEvent (Some (None, true)) None);
   Import (sample_job 0 (cstr "b") true [cstr "a"]); Caller {[ 50 := mkProc (cstr "sh") false 51; 51 := mkProc (cstr "gdb") false 50 ]} false 0 50;
   SwitchSession false 2 (Some 1%nat)].
Definition busy : launchd := result (handle_all (sample_system true true 9) 5 busy_events launchd_start).

Lemma busy_reached : rtc (event_step (sample_system true true 9)) launchd_start busy.
Proof. apply (handle_all_reach _ 5 busy_events); [repeat constructor|vm_compute; reflexivity]. Qed.



Lemma keepalive_restarts_witness :
  ∃ w' J', handle (sample_system true true 9) 5 (ProcessEvent 33 [0%nat] (mkProcEvent None (Some (false, false)))) busy = Ok w' ∧
    l_jobs w' !! 0%nat = Some J' ∧ job_pid J' = fe_pid (y_fork (sample_system true true 9) (S (l_turn busy))) ∧ nruns (jr J') = 1 ∧ l_total_children w' = 1.
Proof.
  edestruct (keepalive_restarts (sample_system true true 9) 4 busy 0 33 0) as (w' & J' & H1 & H2 & H3 & H4 & _ & H6).
  - vm_compute; reflexivity.
  - vm_compute; reflexivity.
  - split; vm_compute; repeat split; reflexivity.
  - right. vm_compute. discriminate.
  - vm_compute; reflexivity.
  - vm_compute; reflexivity.
  - vm_compute; discriminate.
  - reflexivity.
  - exists w', J'. split_and!; [exact H1|exact H2|exact H3| |]; [rewrite H4|rewrite H6]; vm_compute; reflexivity.
Defined.

(** ** What goes wrong *)

(** [SLIST_FOREACH_SAFE] remembers the next curious job, but the dispatch of one curious job can
    remove and free that one: while the managers shut down, removing "a" removes "b", which is
    interested in it, which removes "c", the next of the list. *)
Theorem curious_use_after_free :
  ∃ w, rtc (event_step (sample_system true true 1)) launchd_start w ∧
       handle (sample_system true true 1) 9 (RemoveJob 0) w = UB.
Proof.
  set (evs := [Import (sample_job 0 (cstr "a") true []); Import (sample_job 0 (cstr "c") true [cstr "b"]);
               Import (sample_job 0 (cstr "b") true [cstr "a"]); Caller {[ 50 := mkProc (cstr "sh") false 0 ]} false 0 50]).
  exists (result (handle_all (sample_system true true 1) 9 evs launchd_start)). split; [|vm_compute; reflexivity].
  apply (handle_all_reach _ 9 evs); [repeat constructor|vm_compute; reflexivity].
Qed.

(** [managed_job] does not find a running job whose bucket has a job of another manager first. *)
Theorem managed_job_misses :
  ∃ w id J, rtc (event_step (sample_system true true 9)) launchd_start w ∧ l_jobs w !! id = Some J ∧
            is_anonymous J = false ∧ job_pid J = 33 ∧ managed_job w 33 = None.
Proof.
  set (evs := [Import (sample_job 0 (cstr "a") false []); Import (sample_job 1 (cstr "b") false [])]).
  exists (result (handle_all (sample_system true true 9) 9 evs launchd_start)), 0%nat. eexists.
  split_and!; [|vm_compute; reflexivity|reflexivity|reflexivity|vm_compute; reflexivity].
  apply (handle_all_reach _ 9 evs); [repeat constructor|vm_compute; reflexivity].
Qed.

(** When the kernel event of a new process cannot be attached, the job is reaped, which closes
    the descriptor that uncorks the child; then descriptor 0 is written to and closed. *)
Theorem uncork_after_reap :
  ∃ w, rtc (event_step (sample_system false true 9)) launchd_start w ∧
       WriteFd 0 ∈ l_calls w ∧ last (l_calls w) = Some (CloseFd 0) ∧ CloseFd 5 ∈ l_calls w.
Proof.
  set (evs := [Import (sample_job 0 (cstr "a") false [])]).
  exists (result (handle_all (sample_system false true 9) 9 evs launchd_start)).
  split_and!; [apply (handle_all_reach _ 9 evs); [repeat constructor|vm_compute; reflexivity]| |vm_compute; reflexivity|].
  - apply (bool_decide_eq_true_1 _). vm_compute. reflexivity.
  - apply (bool_decide_eq_true_1 _). vm_compute. reflexivity.
Qed.

(** Without memory, two processes that trace each other are looked up for ever. *)
Theorem ptrace_cycle_diverges fuel w :
  bucket w 0 50 = [] → bucket w 0 51 = [] →
  let procs := {[ 50 := mkProc (cstr "sh") false 51; 51 := mkProc (cstr "gdb") false 50 ]} in
  job_new_anonymous (sample_system true false 9) procs false 0 fuel 50 w = NoFuel ∧
  job_new_anonymous (sample_system true false 9) procs false 0 fuel 51 w = NoFuel.
Proof.
  revert w. induction fuel as [|fuel IH]; intros w H50 H51 procs; [done|]. cbn [job_new_anonymous].
  destruct (IH (tick w) H50 H51) as [E50 E51]. fold procs in E50, E51.
  assert (∀ p, bucket w 0 p = [] → jobmgr_find_by_pid (tick w) 0 p = None) as Hfind.
  { intros p Hp. unfold jobmgr_find_by_pid. change (bucket (tick w) 0 p) with (bucket w 0 p). by rewrite Hp. }
  change (procs !! 50) with (Some (mkProc (cstr "sh") false 51)). change (procs !! 51) with (Some (mkProc (cstr "gdb") false 50)).
  cbn -[jobmgr_find_by_pid job_new_anonymous tick cstr]. rewrite (Hfind 50 H50), (Hfind 51 H51), E50, E51. done.
Qed.
