(* ===== verification/CalendarRun.v ===== *)
(** * Running calendar jobs ([src/src/launchd/src/core.c])

    [calendarinterval_callback], when the timer of the queue fires: the intervals that are due
    get their next time and their jobs are dispatched.  It joins the queue of [CalendarJobs],
    the search of [Calendar] and the jobs of [JobProcess]; a job that a dispatch removes takes
    its intervals with it. *)

From stdpp Require Import sorting.
From S2P Require Import Machine Prelude LaunchData Calendar CalendarJobs JobPolicy JobProcess JobAccounts JobEnds.

Definition job_alive (w : launchd) (j : Z) : bool := bool_decide (is_Some (l_jobs w !! Z.to_nat j)).

(** [job_remove] deletes the intervals of the job. *)
Definition drop_intervals (w : launchd) (st : cal_state) : cal_state :=
  let l := filter (fun ci => job_alive w (ci_job ci) = true) (cal_events st) in
  mkCal l (filter (fun kv => job_alive w kv.1 = true) (cal_intervals st))
    (cal_standby st - (Z.of_nat (length (cal_events st)) - Z.of_nat (length l))) (cal_timer st).

(** The interval at an address, and the address of the one behind it. *)
Definition find_interval (a : Z) (l : list calendarinterval) : option calendarinterval :=
  List.find (fun ci => ci_addr ci =? a) l.
Fixpoint interval_after (a : Z) (l : list calendarinterval) : option Z :=
  match l with
  | [] => None
  | ci :: l => if ci_addr ci =? a then ci_addr <$> head l else interval_after a l
  end.

Section Callback.
Context (y : system) (fuel : nat) (now : Z) (ck : nat → clock) (kevent_ok : nat → bool).

(** The job of an interval that is due is dispatched, as one whose start is pending. *)
Definition start_job (j : Z) (w : launchd) : res Empty_set launchd :=
  w ← update_job (Z.to_nat j) (fun J => with_state J (with_start_pending (js J))) w;
  dispatch y fuel (Z.to_nat j) false w.

(** The loop: [cur] is the interval at hand; the next one is remembered before the body.  The
    last component lists the jobs that are dispatched. *)
Fixpoint callback_loop (turns k : nat) (cur : option Z) (st : cal_state) (w : launchd) :
    res Empty_set (cal_state * launchd * list Z) :=
  match cur, turns with
  | None, _ => Ok (st, w, [])
  | Some _, O => NoFuel
  | Some a, S turns =>
      let next := interval_after a (cal_events st) in
      ci ← access (find_interval a (cal_events st));
      if now <? ci_next ci then Ok (st, w, []) else
      let st := mkCal (filter (fun x => ci_addr x ≠ a) (cal_events st)) (cal_intervals st) (cal_standby st) (cal_timer st) in
      st ← calendarinterval_setalarm (ck k) (kevent_ok k) st ci;
      w ← start_job (ci_job ci) w;
      '(st, w, fired) ← callback_loop turns (S k) next (drop_intervals w st) w;
      Ok (st, w, ci_job ci :: fired)
  end.

Definition calendarinterval_callback (st : cal_state) (w : launchd) : res Empty_set (cal_state * launchd * list Z) :=
  callback_loop (S (length (cal_events st))) 0 (ci_addr <$> head (cal_events st)) st w.
End Callback.

(** ** The order of times *)

Lemma days_before_month_mono y m m' : (m ≤ m')%nat → days_before_month y m + 28 * (Z.of_nat m' - Z.of_nat m) ≤ days_before_month y m'.
Proof.
  induction 1 as [|m' Hm IH]; [lia|]. cbn [days_before_month]. pose proof (days_in_month_range y (Z.of_nat m')). lia.
Qed.

Lemma days_before_year_mono y y' : y ≤ y' → days_before_year y + 365 * (y' - y) ≤ days_before_year y'.
Proof.
  intros H. replace y' with (y + Z.of_nat (Z.to_nat (y' - y))) by lia. generalize (Z.to_nat (y' - y)) as n. clear H y'.
  induction n as [|n IH]; [rewrite Z.add_0_r; lia|]. replace (y + Z.of_nat (S n)) with (y + Z.of_nat n + 1) by lia.
  rewrite days_before_year_S. case_match; lia.
Qed.

(** The days of a year before and in a month. *)
Lemma month_in_year t : date_ok t →
  0 ≤ days_before_month (tm_year t) (Z.to_nat (tm_mon t)) + tm_mday t - 1 < (if leap (tm_year t) then 366 else 365) ∧
  ∀ m', tm_mon t < m' ≤ 12 → days_before_month (tm_year t) (Z.to_nat (tm_mon t)) + tm_mday t ≤ days_before_month (tm_year t) (Z.to_nat m').
Proof.
  intros [Hm Hd]. pose proof (days_before_month_mono (tm_year t) 0 (Z.to_nat (tm_mon t)) ltac:(lia)) as H0. cbn [days_before_month] in H0.
  assert (∀ m', tm_mon t < m' ≤ 12 → days_before_month (tm_year t) (Z.to_nat (tm_mon t)) + tm_mday t ≤ days_before_month (tm_year t) (Z.to_nat m')) as Hlt.
  { intros m' Hm'. pose proof (days_before_month_mono (tm_year t) (S (Z.to_nat (tm_mon t))) (Z.to_nat m') ltac:(lia)) as H1.
    cbn [days_before_month] in H1. rewrite Z2Nat.id in H1 by lia. lia. }
  split; [|done]. pose proof (Hlt 12 ltac:(lia)) as H12.
  change (Z.to_nat 12) with 12%nat in H12. rewrite days_of_year in H12. lia.
Qed.

Lemma day_number_lt t x : date_ok t → date_ok x →
  tm_year t < tm_year x ∨ tm_year t = tm_year x ∧ (tm_mon t < tm_mon x ∨ tm_mon t = tm_mon x ∧ tm_mday t < tm_mday x) →
  day_number (tm_year t) (tm_mon t) (tm_mday t) < day_number (tm_year x) (tm_mon x) (tm_mday x).
Proof.
  intros Ht Hx Hlt. destruct (month_in_year t Ht) as [Ht1 Ht2]. destruct (month_in_year x Hx) as [Hx1 _]. destruct Hx as [Hxm Hxd].
  unfold day_number. destruct Hlt as [Hy|[Ey [Hm|[Em Hd]]]].
  - pose proof (days_before_year_mono (tm_year t + 1) (tm_year x) ltac:(lia)) as Hm. rewrite days_before_year_S in Hm. case_match; lia.
  - rewrite <- Ey. specialize (Ht2 (tm_mon x) ltac:(lia)). rewrite Ey in *. lia.
  - rewrite <- Ey, <- Em. lia.
Qed.

(** A later minute is at least 60 seconds later. *)
Lemma time_of_later off t x : tm_ok t → tm_ok x → tm_key t < tm_key x → time_of off t + 60 ≤ time_of off x.
Proof.
  intros (Ht & Hth & Htm) (Hx & Hxh & Hxm) Hk. pose proof (days_in_month_range (tm_year t) (tm_mon t)). pose proof (days_in_month_range (tm_year x) (tm_mon x)).
  pose proof Ht as [? ?]. pose proof Hx as [? ?]. unfold tm_key in Hk. unfold time_of.
  destruct (decide (tm_year t = tm_year x ∧ tm_mon t = tm_mon x ∧ tm_mday t = tm_mday x)) as [(Ey & Em & Ed)|Hne].
  - rewrite Ey, Em, Ed in *. lia.
  - pose proof (day_number_lt t x Ht Hx ltac:(lia)). lia.
Qed.

(** The next time of every request a job can have is in the future. *)
Lemma next_run_later ck w now :
  when_ok w → tm_ok (local_now ck) → now < time_of (gmt_off ck) (local_now ck) + 60 → ∃ t, next_run ck w = Ok t ∧ now < t.
Proof.
  intros [_ Hmon Hmday Hhour Hmin Hwday] Hnow Ht. unfold next_run.
  destruct (cronemu_total (w_mon w) (w_mday w) (w_hour w) (w_min w) Hmon Hmday Hhour Hmin (local_now ck)) as [t E].
  rewrite E, bind_Ok. apply cronemu_later in E as [Hok Hk]; [|done..]. pose proof (time_of_later (gmt_off ck) _ _ Hnow Hok Hk).
  destruct (Z.eqb_spec (w_wday w) (-1)); [eexists; split; [done|lia]|].
  destruct (cronemu_wday_total (local_now ck) (w_wday w) (w_hour w) (w_min w)) as [x Ex]; [lia..|done|].
  rewrite Ex, bind_Ok. apply cronemu_wday_later in Ex as [Hokx Hkx]; [|done..]. pose proof (time_of_later (gmt_off ck) _ _ Hnow Hokx Hkx).
  case_match; (eexists; split; [done|]); [lia|case_match; lia].
Qed.

(** What a request asks for: the month, day, hour and minute, or, with a weekday, that weekday
    at the hour and minute; with a weekday and a day, either of the two. *)
Definition asks_for (w : when) (x : tm) : Prop :=
  (w_wday w ≠ -1 ∧ wday_fires (w_wday w mod 7) (w_hour w) (w_min w) x) ∨
  ((w_wday w = -1 ∨ w_mday w ≠ -1) ∧ fires_at (w_mon w) (w_mday w) (w_hour w) (w_min w) x).

(** Where the search is exact: every month has the day, and any minute is not asked for in
    minute 59. *)
Definition exact (ck : clock) (w : when) : Prop :=
  w_mday w ≤ 28 ∧ (w_min w = -1 → tm_min (local_now ck) < 59).

(** The first time after the current minute that the request asks for. *)
Definition first_asked (ck : clock) (w : when) (t : Z) : Prop :=
  ∃ x, t = time_of (gmt_off ck) x ∧ asks_for w x ∧ tm_key (local_now ck) < tm_key x ∧
    ∀ z, asks_for w z → tm_key (local_now ck) < tm_key z → t ≤ time_of (gmt_off ck) z.

Lemma time_of_mono off t x : tm_ok t → tm_ok x → tm_key t ≤ tm_key x → time_of off t ≤ time_of off x.
Proof.
  intros Ht Hx Hk. destruct (decide (tm_key t = tm_key x)) as [E|Hne]; [|pose proof (time_of_later off t x Ht Hx ltac:(lia)); lia].
  destruct Ht as ((Hm & Hd) & Hh & Hmi), Hx as ((Hm' & Hd') & Hh' & Hmi').
  pose proof (days_in_month_range (tm_year t) (tm_mon t)). pose proof (days_in_month_range (tm_year x) (tm_mon x)).
  destruct t as [y m d h mi], x as [y' m' d' h' mi']. unfold tm_key in E. cbn [tm_year tm_mon tm_mday tm_hour tm_min] in *.
  assert (y = y') as -> by lia. assert (m = m') as -> by lia. assert (d = d') as -> by lia.
  assert (h = h') as -> by lia. assert (mi = mi') as -> by lia. done.
Qed.

Lemma next_run_first ck w t :
  when_ok w → tm_ok (local_now ck) → exact ck w → next_run ck w = Ok t → first_asked ck w t.
Proof.
  intros [_ Hmon Hmday Hhour Hmin Hwday] Hnow [Hd Hm]. unfold next_run, first_asked, asks_for.
  destruct (cronemu_least (local_now ck) (w_mon w) (w_mday w) (w_hour w) (w_min w)) as (x & -> & Hf & Hk & Hl); [split; lia|done|done|].
  rewrite bind_Ok. destruct (Z.eqb_spec (w_wday w) (-1)) as [Ew|Ew].
  { intros [= <-]. exists x. split_and!; [done|right; auto|done|]. intros z [[? _]|[_ Hz]] Hkz; [done|].
    apply time_of_mono; [apply Hf|apply Hz|by apply Hl]. }
  destruct (cronemu_wday_first_match (local_now ck) (w_wday w) (w_hour w) (w_min w)) as (y & -> & Hg & Hky & Hly); [split; lia|lia|done|done|].
  rewrite bind_Ok. assert (∀ z, wday_fires (w_wday w mod 7) (w_hour w) (w_min w) z → tm_key (local_now ck) < tm_key z → time_of (gmt_off ck) y ≤ time_of (gmt_off ck) z) as Hy.
  { intros z Hz Hkz. apply time_of_mono; [apply Hg|apply Hz|by apply Hly]. }
  assert (∀ z, fires_at (w_mon w) (w_mday w) (w_hour w) (w_min w) z → tm_key (local_now ck) < tm_key z → time_of (gmt_off ck) x ≤ time_of (gmt_off ck) z) as Hx.
  { intros z Hz Hkz. apply time_of_mono; [apply Hf|apply Hz|by apply Hl]. }
  destruct (Z.eqb_spec (w_mday w) (-1)) as [Ed|Ed]; intros [= <-].
  { exists y. split_and!; [done|left; auto|done|]. intros z [[_ Hz]|[[?|?] _]] Hkz; [by apply Hy|done|done]. }
  destruct (Z.ltb_spec (time_of (gmt_off ck) x) (time_of (gmt_off ck) y)) as [Hlt|Hge].
  - exists x. split_and!; [done|right; auto|done|]. intros z [[_ Hz]|[_ Hz]] Hkz; [specialize (Hy z Hz Hkz); lia|by apply Hx].
  - exists y. split_and!; [done|left; auto|done|]. intros z [[_ Hz]|[_ Hz]] Hkz; [by apply Hy|specialize (Hx z Hz Hkz); lia].
Qed.

(** ** The queue *)

Definition tag_of (ci : calendarinterval) : Z * Z := (ci_addr ci, ci_job ci).

(** The invariant of the queue sees the times only through their order. *)
Lemma cal_inv_tags base st st' :
  cal_inv base st → StronglySorted Z.le (map ci_next (cal_events st')) → map tag_of (cal_events st') ≡ₚ map tag_of (cal_events st) →
  cal_intervals st' = cal_intervals st → cal_standby st' = cal_standby st → cal_inv base st'.
Proof.
  intros [Hs Hn Hj Hjn Hb] Hs' Hp Ei Es.
  assert (∀ l, map ci_addr l = map fst (map tag_of l)) as Haddr by (intros l; by rewrite map_map).
  assert (∀ l j a, (∃ ci, ci ∈ l ∧ ci_addr ci = a ∧ ci_job ci = j) ↔ (a, j) ∈ map tag_of l) as Hpair.
  { intros l j a. rewrite list_elem_of_In, in_map_iff. unfold tag_of. split.
    - intros (ci & Hin & <- & <-). exists ci. by rewrite <- list_elem_of_In.
    - intros (ci & [= <- <-] & Hin). exists ci. by rewrite list_elem_of_In. }
  split.
  - done.
  - rewrite Haddr, Hp, <- Haddr. done.
  - intros j a. unfold job_intervals. rewrite Ei. change (default [] (cal_intervals st !! j)) with (job_intervals st j).
    by rewrite Hj, !Hpair, Hp.
  - intros j. unfold job_intervals. rewrite Ei. apply Hjn.
  - rewrite Es, Hb. apply Permutation_length in Hp. rewrite !length_map in Hp. lia.
Qed.

Lemma insert_event_perm ci l : insert_event ci l ≡ₚ ci :: l.
Proof.
  induction l as [|x l IH]; cbn; [done|]. case_match; [done|]. rewrite IH. apply Permutation_swap.
Qed.

(** The head of the queue gets a new time. *)
Lemma reset_head base st ci l ck kev t :
  cal_inv base st → cal_events st = ci :: l → next_run ck (ci_when ci) = Ok t →
  let st1 := mkCal (filter (fun x => ci_addr x ≠ ci_addr ci) (cal_events st)) (cal_intervals st) (cal_standby st) (cal_timer st) in
  ∃ st2, calendarinterval_setalarm ck kev st1 ci = Ok st2 ∧ cal_inv base st2 ∧
    cal_events st2 = insert_event (mkCi (ci_addr ci) (ci_job ci) (ci_when ci) t) l.
Proof.
  intros I El Ht st1. pose proof I as [Hs Hn _ _ _]. rewrite El in Hs, Hn. cbn [map] in Hs, Hn. apply NoDup_cons in Hn as [Ha Hn].
  apply StronglySorted_cons in Hs as [_ Hs].
  assert (cal_events st1 = l) as E1. { cbn. rewrite El, filter_cons_False by auto. by apply filter_addr_absent. }
  unfold calendarinterval_setalarm. rewrite Ht, bind_Ok. eexists. split; [reflexivity|]. rewrite E1. split; [|done].
  eapply (cal_inv_tags base st); [done| | |done|done]; cbn [cal_events].
  - destruct (insert_event_split (mkCi (ci_addr ci) (ci_job ci) (ci_when ci) t) l Hs) as (l1 & l2 & El' & -> & H1 & H2).
    apply split_sorted; [by rewrite <- El'|done..].
  - rewrite (Permutation_map tag_of (insert_event_perm _ l)), El. done.
Qed.

Lemma drop_job_intervals w st j :
  job_intervals (drop_intervals w st) j = if job_alive w j then job_intervals st j else [].
Proof.
  unfold job_intervals, drop_intervals. cbn [cal_intervals]. destruct (job_alive w j) eqn:E.
  - f_equal. destruct (cal_intervals st !! j) as [l|] eqn:El.
    + apply map_lookup_filter_Some. done.
    + apply map_lookup_filter_None. by left.
  - destruct (filter _ _ !! j) as [l|] eqn:El; [|done]. apply map_lookup_filter_Some in El as [_ El]. cbn in El. congruence.
Qed.

Lemma drop_inv base w st : cal_inv base st → cal_inv base (drop_intervals w st).
Proof.
  intros [Hs Hn Hj Hjn Hb]. split.
  - by apply filter_sorted.
  - cbn. clear -Hn. induction (cal_events st) as [|x l IH]; [done|]. cbn [map] in Hn. apply NoDup_cons in Hn as [Hx Hn].
    destruct (decide (job_alive w (ci_job x) = true)); [rewrite filter_cons_True by done; cbn; constructor; [|auto]|rewrite filter_cons_False by done; auto].
    intros Hin. apply Hx. rewrite list_elem_of_In, in_map_iff in *. destruct Hin as (z & Hz & Hin). exists z. split; [done|].
    apply list_elem_of_In, list_elem_of_filter in Hin. apply list_elem_of_In, Hin.
  - intros j a. rewrite drop_job_intervals. cbn [drop_intervals cal_events]. setoid_rewrite list_elem_of_filter. destruct (job_alive w j) eqn:E.
    + rewrite Hj. split; [intros (ci & ? & ? & ?); exists ci; by subst|intros (ci & [_ ?] & ? & ?); by exists ci].
    + split; [by intros ?%not_elem_of_nil|]. intros (ci & [Hc _] & _ & <-). congruence.
  - intros j. rewrite drop_job_intervals. case_match; [apply Hjn|constructor].
  - cbn [drop_intervals cal_standby cal_events]. lia.
Qed.

Lemma elem_of_drop w st ci : ci ∈ cal_events st → job_alive w (ci_job ci) = true → ci ∈ cal_events (drop_intervals w st).
Proof. intros Hin Ha. cbn. by apply list_elem_of_filter. Qed.

(** A job that is there was there before. *)
Lemma alive_keeps w w' j : keeps w w' → job_alive w' j = true → job_alive w j = true.
Proof.
  intros (_ & H2 & _). unfold job_alive. rewrite !bool_decide_eq_true. intros [J' HJ']. destruct (H2 _ _ HJ') as (J & HJ & _). by exists J.
Qed.

(** ** The callback *)

Definition due (now : Z) (ci : calendarinterval) : Prop := ci_next ci ≤ now.
#[local] Instance due_dec now ci : Decision (due now ci).
Proof. unfold due. apply _. Defined.

(** Where the loop stands: at the head of the queue, or nothing is due any more, or the
    interval it remembered is gone. *)
Definition stands (now : Z) (cur : option Z) (l : list calendarinterval) : Prop :=
  Forall (fun ci => now < ci_next ci) l ∨
  ∃ a, cur = Some a ∧ ((∃ ci l', l = ci :: l' ∧ ci_addr ci = a) ∨ find_interval a l = None).

Lemma find_interval_elem a l ci : find_interval a l = Some ci → ci ∈ l ∧ ci_addr ci = a.
Proof. intros [Hin E%Z.eqb_eq]%List.find_some. by rewrite list_elem_of_In. Qed.

Lemma find_interval_none a l : (∀ ci, ci ∈ l → ci_addr ci ≠ a) → find_interval a l = None.
Proof.
  intros H. destruct (find_interval a l) as [ci|] eqn:E; [|done]. apply find_interval_elem in E as [Hin E]. by destruct (H ci Hin).
Qed.

Section Filters.
Context (P Q : calendarinterval → Prop) `{!∀ x, Decision (P x)} `{!∀ x, Decision (Q x)}.

Lemma Forall_kept l : Forall P l → Forall P (filter Q l).
Proof. rewrite !Forall_forall. intros Hl x [_ Hx]%list_elem_of_filter. auto. Qed.

Lemma filter_kept_length l : (length (filter P (filter Q l)) ≤ length (filter P l))%nat.
Proof.
  induction l as [|x l IH]; [done|]. destruct (decide (Q x)); [rewrite (filter_cons_True Q) by done|rewrite (filter_cons_False Q) by done];
    (destruct (decide (P x)); [rewrite !(filter_cons_True P) by done|rewrite !(filter_cons_False P) by done]); cbn; lia.
Qed.
End Filters.

(** After a turn. *)
Lemma stands_next now w ci l t st2 :
  let ci' := mkCi (ci_addr ci) (ci_job ci) (ci_when ci) t in
  StronglySorted Z.le (map ci_next (ci :: l)) → NoDup (map ci_addr (ci :: l)) → now < t →
  cal_events st2 = insert_event ci' l →
  stands now (ci_addr <$> head l) (cal_events (drop_intervals w st2)) ∧
  (length (filter (due now) (cal_events (drop_intervals w st2))) ≤ length (filter (due now) l))%nat.
Proof.
  intros ci' Hs Hn Ht El. cbn [map] in Hs, Hn. apply StronglySorted_cons in Hs as [_ Hs]. apply NoDup_cons in Hn as [Ha Hn].
  cbn [drop_intervals cal_events]. rewrite El. split.
  - destruct l as [|x l]; [left; apply Forall_kept; by repeat constructor|]. cbn [map] in Hs, Hn, Ha. apply NoDup_cons in Hn as [Hx _].
    apply StronglySorted_cons in Hs as [Hxs _]. rewrite Forall_map in Hxs. destruct (decide (now < ci_next x)) as [Hlt|Hge].
    + left. apply Forall_kept. rewrite insert_event_perm. constructor; [done|]. constructor; [done|]. eapply Forall_impl; [exact Hxs|]. cbn. lia.
    + right. exists (ci_addr x). split; [done|]. cbn [insert_event ci_next]. destruct (Z.ltb_spec (ci_next ci') (ci_next x)); [cbn in *; lia|].
      destruct (decide (job_alive w (ci_job x) = true)) as [Hal|Hal]; [rewrite filter_cons_True by done; left; eauto|].
      rewrite filter_cons_False by done. right. apply find_interval_none. intros z [_ Hz]%list_elem_of_filter.
      rewrite insert_event_perm in Hz. apply elem_of_cons in Hz as [->|Hz].
      * cbn. apply not_elem_of_cons in Ha as [? _]. done.
      * intros E. apply Hx. rewrite <- E. apply list_elem_of_In, in_map, list_elem_of_In, Hz.
  - etrans; [apply filter_kept_length|]. rewrite (filter_Permutation _ _ _ (insert_event_perm ci' l)).
    rewrite filter_cons_False by (unfold due; cbn; lia). done.
Qed.

Section Loop.
Context (y : system) (fuel : nat) (now : Z) (ck : nat → clock) (kevent_ok : nat → bool) (base : Z).
Hypothesis fork_pids : ∀ n, fe_pid (y_fork y n) ≠ 0.
(** The clock is that of the callback or later. *)
Hypothesis clocks : ∀ k, tm_ok (local_now (ck k)) ∧ now < time_of (gmt_off (ck k)) (local_now (ck k)) + 60.

(** What became of an interval. *)
Definition handled (ci : calendarinterval) (st' : cal_state) (fired : list Z) : Prop :=
  if now <? ci_next ci then ci ∈ cal_events st'
  else ci_job ci ∈ fired ∧ ∃ k t, next_run (ck k) (ci_when ci) = Ok t ∧ now < t ∧
         (exact (ck k) (ci_when ci) → first_asked (ck k) (ci_when ci) t) ∧
         mkCi (ci_addr ci) (ci_job ci) (ci_when ci) t ∈ cal_events st'.

Definition callback_post (st : cal_state) (w : launchd) (r : res Empty_set (cal_state * launchd * list Z)) : Prop :=
  match r with
  | Ok (st', w', fired) =>
      cal_inv base st' ∧ Forall (fun ci => now < ci_next ci) (cal_events st') ∧ books w' ∧ keeps w w' ∧
      ∀ ci, ci ∈ cal_events st → job_alive w' (ci_job ci) = true → handled ci st' fired
  | NoFuel => False
  | Err _ | UB => True
  end.

Lemma nothing_due st w : 
  cal_inv base st → books w → Forall (fun ci => now < ci_next ci) (cal_events st) → callback_post st w (Ok (st, w, [])).
Proof.
  intros I B Hl. split_and!; [done|done|done|apply keeps_refl|]. intros ci Hin _. unfold handled.
  rewrite Forall_forall in Hl. by rewrite (proj2 (Z.ltb_lt _ _) (Hl ci Hin)).
Qed.

(** The dispatch of a job that is due. *)
Lemma start_due j w :
  books w → (size (live w) < fuel)%nat →
  match start_job y fuel j w with
  | Ok w' => books w' ∧ keeps w w' ∧ (size (live w') < fuel)%nat
  | NoFuel => False
  | Err _ | UB => True
  end.
Proof.
  intros B Hn. unfold start_job. destruct (update_job _ _ w) as [w1| | |] eqn:E1; cbn; [|done..|].
  2:{ unfold update_job in E1. by destruct (l_jobs w !! Z.to_nat j). }
  assert (shrinks w w1) as S1. { pose proof (ends_update w (Z.to_nat j) (fun J => with_state J (with_start_pending (js J))) ltac:(done)) as H. by rewrite E1 in H. }
  eapply books_update in E1 as [B1 K1]; [|done|done]. pose proof (shrinks_fits fuel _ _ S1 Hn) as Hn1.
  pose proof (books_dispatch_ends y fork_pids fuel (Z.to_nat j) false w1 B1 Hn1) as He. destruct (dispatch y fuel (Z.to_nat j) false w1) as [w2| | |] eqn:E2; [|done..].
  destruct (books_dispatch y fork_pids fuel (Z.to_nat j) false w1 w2 B1 E2) as [B2 K2]. split_and!; [done|by eapply keeps_trans|by eapply shrinks_fits].
Qed.

Lemma callback_loop_spec turns : ∀ k cur st w,
  cal_inv base st → books w → (size (live w) < fuel)%nat → Forall (fun ci => when_ok (ci_when ci)) (cal_events st) →
  stands now cur (cal_events st) → (length (filter (due now) (cal_events st)) < turns)%nat →
  callback_post st w (callback_loop y fuel now ck kevent_ok turns k cur st w).
Proof.
  induction turns as [|turns IH]; intros k cur st w I B Hn Hreq Hst Hl; [lia|]. destruct cur as [a|]; cbn [callback_loop].
  2:{ apply nothing_due; [done|done|]. destruct Hst as [?|(? & ? & _)]; done. }
  destruct (find_interval a (cal_events st)) as [ci|] eqn:Efind; [|done]. cbn [access]. rewrite bind_Ok.
  apply find_interval_elem in Efind as Hfind. destruct Hfind as [Hin Ea]. pose proof I as [Hs Hnd _ _ _].
  destruct (Z.ltb_spec now (ci_next ci)) as [Hlt|Hge].
  { apply nothing_due; [done|done|]. destruct Hst as [?|(a' & [= <-] & [(x & l & El & Ex)|?])]; [done| |congruence].
    assert (x = ci) as ->. { apply (same_addr _ x ci Hnd); [rewrite El; left|done|congruence]. }
    rewrite El in Hs |- *. cbn [map] in Hs. apply StronglySorted_cons in Hs as [Hs _]. rewrite Forall_map in Hs.
    constructor; [done|]. eapply Forall_impl; [exact Hs|]. cbn. lia. }
  assert (∃ l, cal_events st = ci :: l) as [l El].
  { destruct Hst as [Hall|(a' & [= <-] & [(x & l & El & Ex)|?])]; [rewrite Forall_forall in Hall; specialize (Hall ci Hin); lia| |congruence].
    exists l. rewrite El. f_equal. apply (same_addr _ x ci Hnd); [rewrite El; left|done|congruence]. }
  assert (when_ok (ci_when ci)) as Hw. { rewrite Forall_forall in Hreq. by apply Hreq. }
  destruct (clocks k) as [Hck Hnow]. destruct (next_run_later (ck k) (ci_when ci) now Hw Hck Hnow) as (t & Ht & Hlt).
  subst a. destruct (reset_head base st ci l (ck k) (kevent_ok k) t I El Ht) as (st2 & -> & I2 & El2). rewrite bind_Ok.
  pose proof (start_due (ci_job ci) w B Hn) as Hd.
  destruct (start_job y fuel (ci_job ci) w) as [w2| | |]; [|done..]. rewrite bind_Ok. destruct Hd as (B2 & K2 & Hn2).
  assert (interval_after (ci_addr ci) (cal_events st) = ci_addr <$> head l) as Enext. { rewrite El. cbn. by rewrite Z.eqb_refl. }
  rewrite Enext. rewrite El in Hs, Hnd, Hl. destruct (stands_next now w2 ci l t st2 Hs Hnd Hlt El2) as [Hst3 Hl3].
  rewrite filter_cons_True in Hl by done. cbn [length] in Hl.
  set (ci' := mkCi (ci_addr ci) (ci_job ci) (ci_when ci) t) in *.
  assert (Forall (fun ci => when_ok (ci_when ci)) (cal_events (drop_intervals w2 st2))) as Hreq3.
  { apply Forall_kept. rewrite El2, insert_event_perm. rewrite El in Hreq. apply Forall_cons in Hreq as [? ?]. by constructor. }
  specialize (IH (S k) (ci_addr <$> head l) (drop_intervals w2 st2) w2 (drop_inv base w2 st2 I2) B2 Hn2 Hreq3 Hst3 ltac:(lia)).
  destruct (callback_loop y fuel now ck kevent_ok turns (S k) (ci_addr <$> head l) (drop_intervals w2 st2) w2) as [[[st' w'] fired]| | |]; [|done..].
  destruct IH as (I' & Hf' & B' & K' & Hh'). cbn [mbind res_bind callback_post]. split_and!; [done|done|done|by eapply keeps_trans|].
  assert (∀ x, x ∈ cal_events st2 → job_alive w' (ci_job x) = true → handled x st' fired) as Hold.
  { intros x Hx Hax. apply Hh'; [|done]. apply elem_of_drop; [done|by eapply alive_keeps]. }
  intros x Hx Hax. rewrite El in Hx. apply elem_of_cons in Hx as [->|Hx].
  - unfold handled. rewrite (proj2 (Z.ltb_ge _ _) Hge). split; [left|]. exists k, t. split_and!; [done|done|intros Hex; by apply next_run_first|].
    specialize (Hold ci'). unfold handled in Hold. cbn [ci_next ci'] in Hold. rewrite (proj2 (Z.ltb_lt _ _) Hlt) in Hold.
    apply Hold; [|done]. rewrite El2, insert_event_perm. left.
  - assert (x ∈ cal_events st2) as Hx2 by (rewrite El2, insert_event_perm; by right). specialize (Hold x Hx2 Hax). revert Hold.
    unfold handled. case_match; [done|]. intros [Hfx Hrx]. split; [by right|done].
Qed.
End Loop.

(** ** Jobs that stay *)

(** A job that nothing but a request removes, in a system where the managers do not shut down
    and no program has the wrong architecture. *)
Definition lasting_job (J : job) : Prop :=
  legacy_LS_job (jc J) = false ∧ only_once (jc J) = false ∧ legacy_mach_job (jc J) = false ∧ removal_pending (js J) = false ∧
  WEXITSTATUS (last_exit_status (js J)) ≠ EBADARCH.
Definition lasting_system (y : system) : Prop :=
  (∀ n m, shutting_down (y_mgr y n m) = false) ∧ ∀ n st, re_wait4 (y_reap y n) = Some st → WEXITSTATUS st ≠ EBADARCH.
Definition lasting (w : launchd) : Prop := ∀ id J, l_jobs w !! id = Some J → lasting_job J.

(** The jobs after an operation on the job [id]: it has changed into a lasting job. *)
Definition stays (id : nat) (w w' : launchd) : Prop :=
  only id w w' ∧ ∃ J', l_jobs w' !! id = Some J' ∧ lasting_job J'.

Lemma stays_lasting id w w' : stays id w w' → lasting w → lasting w'.
Proof.
  intros (O & J' & HJ' & HL) H i K HK. destruct (decide (i = id)) as [->|Hi]; [congruence|]. rewrite O in HK by done. by eapply H.
Qed.

Lemma stays_alive id w w' j : stays id w w' → job_alive w j = true → job_alive w' j = true.
Proof.
  intros (O & J' & HJ' & _). unfold job_alive. rewrite !bool_decide_eq_true. destruct (decide (Z.to_nat j = id)) as [E|Hi]; [rewrite E; by eexists|by rewrite O].
Qed.

Lemma lasting_useful m J : shutting_down m = false → lasting_job J → job_useless m (jc J) (js J) = false.
Proof.
  intros Hd (H1 & H2 & H3 & H4 & H5). unfold job_useless. rewrite H1, H2, H4, Hd, H3. cbn [orb andb]. case_match; [done|].
  by rewrite (proj2 (Z.eqb_neq _ _) H5), andb_false_r.
Qed.

Lemma reap_lasting y id n J : lasting_system y → lasting_job J → lasting_job (reap_job (reap_first (y_reap y n) id J).1).
Proof.
  intros [_ Hst] (H1 & H2 & H3 & H4 & H5). unfold reap_first. destruct (reap_dirty _ J) as [idle dirty]. cbn [fst reap_job].
  unfold lasting_job. cbn [jc js removal_pending last_exit_status]. split_and!; [done..|]. unfold reap_status.
  repeat case_match; try done. destruct (re_wait4 (y_reap y n)) as [st|] eqn:E; [by apply (Hst n)|done].
Qed.

Lemma fork_lasting y rec id w J :
  lasting_system y → l_jobs w !! id = Some J → lasting_job J → suspended_perusers (jr J) = [] → is_anonymous J = false →
  ∃ w', job_fork y rec id w = Ok w' ∧ stays id w w'.
Proof.
  intros Hy HJ HL Hs Ha. unfold job_fork. rewrite HJ. cbn [access]. rewrite bind_Ok. set (f := y_fork y (l_turn w)).
  destruct (fe_pid f =? -1).
  { eexists. split; [reflexivity|]. split; [intros i Hi; cbn; by rewrite lookup_insert_ne|]. cbn. rewrite lookup_insert_eq. by eexists. }
  set (J1 := mkJob _ _ _ _). cbv zeta. set (w1 := log _ _).
  assert (lasting_job J1) as HL1. { destruct HL as (? & ? & ? & ? & ?). by split_and!. }
  assert (l_jobs w1 !! id = Some J1) as HJ1 by (cbn; apply lookup_insert_eq).
  assert (only id w w1) as O1 by (intros i Hi; cbn; by rewrite lookup_insert_ne).
  assert (∃ w2 J2, (if fe_attached f then update_job id job_ignore w1 else w0 ← job_reap y rec id w1; update_job id job_watch w0) = Ok w2 ∧
            l_jobs w2 !! id = Some J2 ∧ lasting_job J2 ∧ only id w w2) as (w2 & J2 & -> & HJ2 & HL2 & O2).
  { destruct (fe_attached f).
    - unfold update_job. rewrite HJ1. cbn [access]. rewrite bind_Ok. eexists _, _. split; [reflexivity|].
      split_and!; [cbn; apply lookup_insert_eq|done|]. eapply only_trans; [exact O1|apply only_set_job].
    - destruct (job_reap_alone y rec id w1 J1 HJ1 Hs Ha) as (w0 & H0 & HJ0 & _). rewrite H0, bind_Ok. unfold update_job. rewrite HJ0. cbn [access].
      rewrite bind_Ok. eexists _, _. split; [reflexivity|]. split_and!; [cbn; apply lookup_insert_eq|by apply (reap_lasting y id)|].
      eapply only_trans; [exact O1|]. eapply only_trans; [by eapply job_reap_only|apply only_set_job]. }
  rewrite bind_Ok. destruct (s_stall_before_exec (jx J1)); [exists w2; split; [done|]; split; [done|eauto]|].
  unfold job_uncork_fork. rewrite HJ2. cbn [access]. rewrite bind_Ok. eexists. split; [reflexivity|]. split.
  - intros i Hi. cbn. by rewrite lookup_insert_ne, O2.
  - cbn. rewrite lookup_insert_eq. by eexists.
Qed.

Lemma dispatch_lasting y fuel id k w :
  lasting_system y → lasting w → books w → is_Some (l_jobs w !! id) → (0 < fuel)%nat →
  ∃ w', dispatch y fuel id k w = Ok w' ∧ stays id w w'.
Proof.
  intros Hy HL [A R] [J HJ] Hf. destruct fuel as [|fuel]; [lia|]. cbn [dispatch]. unfold dispatch_body. rewrite HJ. cbn [access]. rewrite bind_Ok.
  pose proof (HL id J HJ) as HLJ.
  pose proof (dispatch_inactive (y_globals y (l_turn w)) (y_mgr y (l_turn w) (s_mgr (jx J))) (jc J) (js J) k) as Hin.
  pose proof (lasting_useful (y_mgr y (l_turn w) (s_mgr (jx J))) J (proj1 Hy _ _) HLJ) as Hu.
  assert (stays id w w) as Hself by (split; [done|eauto]).
  assert (∀ J' : job, lasting_job J' → stays id w (set_job id J' w)) as Hset.
  { intros J' HJ'. split; [apply only_set_job|]. cbn. rewrite lookup_insert_eq. eauto. }
  destruct (job_dispatch _ _ _ _ _) as [| | |[|d|]| |] eqn:E; try by eauto.
  - exfalso. unfold job_dispatch in E. rewrite Hu in E. repeat case_match; done.
  - eexists. split; [reflexivity|]. by apply (Hset (job_ignore J)).
  - destruct Hin as [Hin%active_running _]. assert (running J = false) as Hr by (unfold running, job_pid; by rewrite Hin).
    eapply fork_lasting; [done|done|done|by apply (ac_idle _ _ A id J)|]. destruct (is_anonymous J) eqn:Ea; [|done].
    by rewrite (R id J HJ Ea) in Hr.
Qed.

Lemma find_interval_is l x : x ∈ l → is_Some (find_interval (ci_addr x) l).
Proof.
  intros Hx. destruct (find_interval (ci_addr x) l) eqn:E; [by eexists|]. unfold find_interval in E.
  pose proof (List.find_none _ _ E x (proj1 (list_elem_of_In _ _) Hx)) as Hn. cbn in Hn. by rewrite Z.eqb_refl in Hn.
Qed.

Lemma interval_after_elem a b l : NoDup (map ci_addr l) → interval_after a l = Some b → ∃ x, x ∈ l ∧ ci_addr x = b ∧ b ≠ a.
Proof.
  induction l as [|ci l IH]; cbn [map interval_after]; [done|]. intros [Hc Hn]%NoDup_cons. destruct (Z.eqb_spec (ci_addr ci) a) as [<-|Hne].
  - destruct l as [|x l]; cbn; [done|]. intros [= <-]. exists x. split_and!; [right; left|done|]. intros E. apply Hc. rewrite <- E. left.
  - intros H. destruct (IH Hn H) as (x & Hx & ? & ?). exists x. split; [by right|done].
Qed.

(** In such a system no interval is lost. *)
Lemma alive_drop w st : Forall (fun ci => job_alive w (ci_job ci) = true) (cal_events st) → cal_events (drop_intervals w st) = cal_events st.
Proof.
  cbn. induction 1 as [|ci l Hc _ IH]; [done|]. rewrite filter_cons_True by done. by rewrite IH.
Qed.

(** ** Jobs that go away *)

(** Jobs are dispatched one after the other. *)
Definition runs (y : system) (fuel : nat) (w w' : launchd) : Prop :=
  ∃ j, job_alive w j = true ∧ start_job y fuel j w = Ok w'.

(** After some dispatches, the dispatch of the job of an interval in [l] is undefined or
    removes the job of one. *)
Definition loses_job (y : system) (fuel : nat) (w : launchd) (l : list calendarinterval) : Prop :=
  ∃ w' ci, rtc (runs y fuel) w w' ∧ ci ∈ l ∧ job_alive w' (ci_job ci) = true ∧
    (start_job y fuel (ci_job ci) w' = UB ∨
     ∃ w'' x, start_job y fuel (ci_job ci) w' = Ok w'' ∧ x ∈ l ∧
       job_alive w' (ci_job x) = true ∧ job_alive w'' (ci_job x) = false).

Section Total.
Context (y : system) (fuel : nat).
Hypothesis fork_pids : ∀ n, fe_pid (y_fork y n) ≠ 0.
Hypothesis lasts : lasting_system y.
Hypothesis enough : (0 < fuel)%nat.

Lemma start_lasting j w :
  lasting w → books w → job_alive w j = true →
  ∃ w1 w2, update_job (Z.to_nat j) (fun J => with_state J (with_start_pending (js J))) w = Ok w1 ∧
    dispatch y fuel (Z.to_nat j) false w1 = Ok w2 ∧ lasting w2 ∧ books w2 ∧ ∀ i, job_alive w i = true → job_alive w2 i = true.
Proof.
  intros HL B Ha. pose proof Ha as Ha'. apply bool_decide_eq_true in Ha' as [J HJ]. set (J1 := with_state J (with_start_pending (js J))).
  assert (update_job (Z.to_nat j) (fun J => with_state J (with_start_pending (js J))) w = Ok (set_job (Z.to_nat j) J1 w)) as E1.
  { unfold update_job. by rewrite HJ. }
  assert (stays (Z.to_nat j) w (set_job (Z.to_nat j) J1 w)) as S1.
  { split; [apply only_set_job|]. exists J1. split; [cbn; apply lookup_insert_eq|]. exact (HL _ _ HJ). }
  pose proof E1 as E1'. eapply books_update in E1' as [B1 _]; [|done|done].
  destruct (dispatch_lasting y fuel (Z.to_nat j) false (set_job (Z.to_nat j) J1 w)) as (w2 & E2 & S2);
    [done|by eapply stays_lasting|done|cbn; rewrite lookup_insert_eq; by eexists|done|].
  exists (set_job (Z.to_nat j) J1 w), w2. split_and!; [done|done| | |].
  - eapply stays_lasting; [exact S2|by eapply stays_lasting].
  - by eapply books_dispatch in E2 as [? _].
  - intros i Hi. eapply stays_alive; [exact S2|by eapply stays_alive].
Qed.

(** So no dispatch of such a system goes wrong. *)
Lemma lasting_runs w w' : lasting w → books w → rtc (runs y fuel) w w' → lasting w' ∧ books w'.
Proof.
  intros HL B Hr. induction Hr as [w|w w1 w2 (j & Ha & E) _ IH]; [done|].
  destruct (start_lasting j w HL B Ha) as (v1 & v2 & E1 & E2 & HL2 & B2 & _). unfold start_job in E.
  rewrite E1, bind_Ok, E2 in E. injection E as <-. by apply IH.
Qed.

Lemma lasting_no_loss w l : lasting w → books w → ¬ loses_job y fuel w l.
Proof.
  intros HL B (w' & ci & Hr & Hin & Ha & Hbad). destruct (lasting_runs w w' HL B Hr) as [HL' B'].
  destruct (start_lasting (ci_job ci) w' HL' B' Ha) as (w1 & w2 & E1 & E2 & _ & _ & Hal).
  unfold start_job in Hbad. rewrite E1, bind_Ok, E2 in Hbad. destruct Hbad as [|(w'' & x & [= <-] & Hx & H1 & H2)]; [done|].
  by rewrite (Hal _ H1) in H2.
Qed.
End Total.

Section Freed.
Context (y : system) (fuel : nat) (now : Z) (ck : nat → clock) (kevent_ok : nat → bool).
Hypothesis clocks : ∀ k, tm_ok (local_now (ck k)).

Lemma loses_job_later w w1 l l1 :
  runs y fuel w w1 → (∀ x, x ∈ l1 → ∃ x', x' ∈ l ∧ ci_job x' = ci_job x) → loses_job y fuel w1 l1 → loses_job y fuel w l.
Proof.
  intros Hr Hsub (w' & ci & Hr' & Hin & Ha & Hbad). destruct (Hsub ci Hin) as (ci' & Hin' & Ej).
  exists w', ci'. rewrite Ej. split_and!; [by eapply rtc_l|done|done|]. destruct Hbad as [Hub|(w'' & x & E & Hx & H1 & H2)]; [by left|].
  right. destruct (Hsub x Hx) as (x' & Hx' & Ex). exists w'', x'. by rewrite Ex.
Qed.

(** The loop is undefined only when a dispatch takes intervals of the queue away. *)
Lemma callback_freed turns : ∀ k cur st w,
  Forall (fun ci => when_ok (ci_when ci)) (cal_events st) → NoDup (map ci_addr (cal_events st)) →
  Forall (fun ci => job_alive w (ci_job ci) = true) (cal_events st) → (∀ a, cur = Some a → is_Some (find_interval a (cal_events st))) →
  callback_loop y fuel now ck kevent_ok turns k cur st w = UB → loses_job y fuel w (cal_events st).
Proof.
  induction turns as [|turns IH]; intros k [a|] st w Hw Hnd Hal Hcur; cbn [callback_loop]; try done.
  destruct (Hcur a eq_refl) as [ci Hci]. rewrite Hci. cbn [access]. rewrite bind_Ok. case_match; [done|].
  apply find_interval_elem in Hci as [Hin <-]. pose proof (proj1 (Forall_forall _ _) Hw ci Hin) as Hwc. pose proof (proj1 (Forall_forall _ _) Hal ci Hin) as Hac.
  destruct (next_run_total (ck k) (ci_when ci) Hwc (clocks k)) as [t Ht]. unfold calendarinterval_setalarm. rewrite Ht, bind_Ok. cbn [cal_events cal_intervals cal_standby cal_timer].
  set (ci' := mkCi (ci_addr ci) (ci_job ci) (ci_when ci) t). set (l := filter (fun x => ci_addr x ≠ ci_addr ci) (cal_events st)). set (st2 := mkCal _ _ _ _).
  rewrite bind_Ok. destruct (start_job y fuel (ci_job ci) w) as [w2|[]| |] eqn:E; [| |done].
  2:{ intros _. exists w, ci. split_and!; [apply rtc_refl|done|done|by left]. }
  rewrite bind_Ok. assert (cal_events st2 ≡ₚ ci' :: l) as Hp by apply insert_event_perm.
  assert (∀ x, x ∈ cal_events st2 → ∃ x', x' ∈ cal_events st ∧ ci_job x' = ci_job x) as Hsub.
  { intros x Hx. rewrite Hp in Hx. apply elem_of_cons in Hx as [->|[_ Hx]%list_elem_of_filter]; eauto. }
  destruct (decide (Forall (fun ci => job_alive w2 (ci_job ci) = true) (cal_events st2))) as [Hal2|Hdead].
  2:{ intros _. apply not_Forall_Exists, Exists_exists in Hdead as (x & Hx & Hd); [|intros ?; apply _]. destruct (Hsub x Hx) as (x' & Hx' & Ex).
      exists w, ci. split_and!; [apply rtc_refl|done|done|]. right. exists w2, x'. rewrite Ex. split_and!; [done|done| |by apply not_true_is_false].
      rewrite <- Ex. by apply (proj1 (Forall_forall _ _) Hal). }
  pose proof (alive_drop w2 st2 Hal2) as Edrop. intros Hub. apply (loses_job_later w w2 _ (cal_events st2)); [by exists (ci_job ci)|done|].
  rewrite <- Edrop. apply (IH (S k) (interval_after (ci_addr ci) (cal_events st))); rewrite ?Edrop; [| |done| |].
  - rewrite Hp. constructor; [done|by apply Forall_kept].
  - rewrite (Permutation_map ci_addr Hp). cbn. constructor; [|by apply filter_addr_nodup].
    intros Hin'. apply list_elem_of_In, in_map_iff in Hin' as (x & Ex & Hx). apply list_elem_of_In, list_elem_of_filter in Hx as [Hx _]. done.
  - intros b Hb. destruct (interval_after_elem _ _ _ Hnd Hb) as (x & Hx & <- & Hne). apply find_interval_is. rewrite Hp. right.
    by apply list_elem_of_filter.
  - destruct (callback_loop _ _ _ _ _ turns _ _ _ _) as [[[? ?] ?]| | |]; done.
Qed.
End Freed.


(** ** Examples *)

Definition calendar_job_events : list event := [Import (sample_job 0 (cstr "a") true [])].
Definition calendar_job : launchd := result (handle_all (sample_system true true 9) 5 calendar_job_events launchd_start).
Definition three_o_clock : when := mkWhen 0 0 15 (-1) (-1) (-1).
Definition one_interval : cal_state := mkCal [mkCi 1 0 three_o_clock 1709132400] {[0 := [1]]} 1 (Some 1709132400).

Lemma one_interval_inv : cal_inv 0 one_interval.
Proof.
  split; [repeat constructor|apply NoDup_singleton| | |done].
  - intros j a. unfold job_intervals, one_interval. cbn [cal_intervals cal_events]. setoid_rewrite list_elem_of_singleton.
    destruct (decide (j = 0)) as [->|Hne].
    + rewrite lookup_singleton_eq. cbn. rewrite list_elem_of_singleton. split; [intros ->; by eexists|by intros (ci & -> & <- & _)].
    + rewrite lookup_singleton_ne by done. cbn. split; [by intros ?%elem_of_nil|]. intros (ci & -> & _ & E). done.
  - intros j. unfold job_intervals, one_interval. cbn [cal_intervals].
    destruct (decide (j = 0)) as [->|Hne]; [rewrite lookup_singleton_eq; apply NoDup_singleton|].
    rewrite lookup_singleton_ne by done. apply NoDup_nil_2.
Qed.


(** The next interval is remembered while the job is dispatched, and the dispatch frees it when
    it removes the job: two intervals of one job, due while the managers shut down. *)
Theorem calendar_use_after_free :
  let y := sample_system true true 1 in
  ∃ w, rtc (event_step y) launchd_start w ∧
    calendarinterval_callback y 9 1709132400 (fun _ => mkClock (mkTm 2024 1 28 15 0) 0) (fun _ => true)
      (mkCal [mkCi 1 0 three_o_clock 1709132400; mkCi 2 0 three_o_clock 1709132400] {[0 := [2; 1]]} 2 (Some 1709132400)) w = UB.
Proof.
  intros y. set (evs := [Import (sample_job 0 (cstr "a") true []); Caller {[ 50 := mkProc (cstr "sh") false 0 ]} false 0 50]).
  exists (result (handle_all y 9 evs launchd_start)). split; [|vm_compute; reflexivity].
  apply (handle_all_reach _ 9 evs); [repeat constructor|vm_compute; reflexivity].
Qed.
