(* ===== verification/Shellspawn.v ===== *)
(** * shellspawn ([src/src/shellspawn/shellspawn.c], [duct_signals.c])

    The daemon in the container that starts shells and programs for the [osxie] command.  A
    connection sends commands (arguments, variables, directory, identity, the three
    descriptors), the daemon's child forks and executes, passes signals on, and reports how
    the program ended.  A run is a function from the bytes of the client, the events and the
    answers of the system to the list of calls it makes. *)

From S2P Require Import Prelude.

(** ** The socket *)

(** Control data: whether it is [SOL_SOCKET]/[SCM_RIGHTS], and its descriptors. *)
Record cmsg := mkCmsg { cm_rights : bool; cm_fds : list Z }.

(** How a byte of the client arrives: with the one before it, later than it, or with control
    data. *)
Inductive arrival := Along | Late | WithControl (c : cmsg).

(** What the client has sent. *)
Notation sbyte := (Z * arrival)%type.

Definition plain (bs : list Z) : list sbyte := (fun b => (b, Along)) <$> bs.

(** Up to [n] more bytes that have arrived, not past control data. *)
Fixpoint grab (n : nat) (sock : list sbyte) : list Z * list sbyte :=
  match n, sock with
  | S n, (b, Along) :: rest => let '(bs, rest) := grab n rest in (b :: bs, rest)
  | _, _ => ([], sock)
  end.

(** [recvmsg] of [n] bytes waits for the first one and gives those that have arrived with it. *)
Definition recvmsg (n : nat) (sock : list sbyte) : list Z * option cmsg * list sbyte :=
  match n, sock with
  | S n, (b, c) :: rest =>
      let '(bs, rest) := grab n rest in
      (b :: bs, match c with WithControl c => Some c | _ => None end, rest)
  | _, _ => ([], None, sock)
  end.
Definition read (n : nat) (sock : list sbyte) : list Z * list sbyte :=
  let '(bs, _, rest) := recvmsg n sock in (bs, rest).

(** ** Commands *)

Definition SHELLSPAWN_ADDARG : Z := 1.
Definition SHELLSPAWN_SETENV : Z := 2.
Definition SHELLSPAWN_CHDIR : Z := 3.
Definition SHELLSPAWN_GO : Z := 4.
Definition SHELLSPAWN_SIGNAL : Z := 5.
Definition SHELLSPAWN_SETUIDGID : Z := 6.
Definition SHELLSPAWN_SETEXEC : Z := 7.

Definition sizeof_cmd : nat := 4.

(** The calls of a run.  [Exec] and what precedes it in the child are the child's. *)
Inductive call :=
  | Putenv (s : list Z) | Chdir (s : list Z) | Setuid (uid : Z) | Setgid (gid : Z)
  | Setsid | Setpgrp | Dup2 (fd to : Z) | Ctty
  | Fork (pid : Z) | Exec (path : list Z) (argv : list (list Z))
  | Kill (pid sig : Z) | Close (fd : Z) | Waitpid (pid : Z)
  | Reply (status : Z) | CloseClient.

(** [argv], [alloc_exec] and the calls made so far. *)
Record cmds := mkCmds { c_argv : list (list Z); alloc_exec : option (list Z); c_calls : list call }.

Definition bash : list Z := cstr "/bin/bash".
Definition cmds_init : cmds := mkCmds [bash; cstr "--login"] None [].

(** Where the function goes to its label [err]. *)
Inductive err_site := BadRecv | BadParam | BadControl | BadPipe | BadExec | BadQueue | BadEvent (errno : Z) | BadSignal.

(** What a command does to the loop. *)
Inductive reaction := Next (c : cmds) | Go (c : cmds) (fds : list Z) | Bad (e : err_site).

(** The [switch] of the command loop; [param] is null for an empty command. *)
Definition command (c : cmds) (cmd data_length : Z) (param : option (list Z)) (ctl : option cmsg) : reaction :=
  let call f := mkCmds (c_argv c) (alloc_exec c) (c_calls c ++ f) in
  if cmd =? SHELLSPAWN_ADDARG then
    match param with
    | Some p => Next (mkCmds (c_argv c ++ [until_nul p]) (alloc_exec c) (c_calls c))
    | None => Next c
    end
  else if cmd =? SHELLSPAWN_SETENV then
    match param with Some p => Next (call [Putenv (until_nul p)]) | None => Next c end
  else if cmd =? SHELLSPAWN_CHDIR then
    match param with Some p => Next (call [Chdir (until_nul p)]) | None => Next c end
  else if cmd =? SHELLSPAWN_GO then
    match ctl with
    | None => Bad BadControl
    | Some m =>
        if negb (cm_rights m) then Bad BadControl
        else if negb (length (cm_fds m) =? 3)%nat then Bad BadControl
        else Go c (cm_fds m)
    end
  else if cmd =? SHELLSPAWN_SETUIDGID then
    if data_length <? 8 then Next c else
    match param with
    | Some p => Next (call [Setuid (i32 (le_val (take 4 p))); Setgid (i32 (le_val (take 4 (drop 4 p))))])
    | None => Next c
    end
  else if cmd =? SHELLSPAWN_SETEXEC then Next (mkCmds [] (until_nul <$> param) (c_calls c))
  else Next c.

(** The command loop.  A terminating NUL is stored after the parameter. *)
Fixpoint read_commands (fuel : nat) (c : cmds) (sock : list sbyte) : res Empty_set ((err_site * cmds + cmds * list Z) * list sbyte) :=
  match fuel with
  | O => NoFuel
  | S fuel =>
      let '(hdr, ctl, sock) := recvmsg sizeof_cmd sock in
      if negb (length hdr =? sizeof_cmd)%nat then Ok (inl (BadRecv, c), sock) else
      let cmd := le_val (take 2 hdr) in
      let data_length := le_val (drop 2 hdr) in
      let go param sock :=
        match command c cmd data_length param ctl with
        | Next c => read_commands fuel c sock
        | Go c fds => Ok (inr (c, fds), sock)
        | Bad e => Ok (inl (e, c), sock)
        end in
      if data_length =? 0 then go None sock else
      let '(bs, sock) := read (Z.to_nat data_length) sock in
      if negb (Z.of_nat (length bs) =? data_length) then Ok (inl (BadParam, c), sock)
      else go (Some (bs ++ [0])) sock
  end.

(** ** Signals *)

(** The cases of [signum_linux_to_bsd]: Linux numbers ([duct_signals.h]) and Darwin's. *)
Definition signal_cases : list (Z * Z) :=
  [(1, 1); (2, 2); (3, 3); (4, 4); (5, 5); (6, 6); (8, 8); (9, 9); (7, 10); (11, 11); (31, 12); (13, 13); (14, 14);
   (15, 15); (23, 16); (19, 17); (20, 18); (18, 19); (17, 20); (21, 21); (22, 22); (29, 23); (24, 24); (25, 25);
   (26, 26); (27, 27); (28, 28); (10, 30); (12, 31)].

Fixpoint switch (l : list (Z * Z)) (n : Z) : Z :=
  match l with
  | [] => 0
  | (a, b) :: l => if n =? a then b else switch l n
  end.

Definition signum_linux_to_bsd (signum : Z) : Z := switch signal_cases signum.

Definition SIGKILL : Z := 9.

(** ** Wait statuses *)

Definition WSTATUS (x : Z) : Z := Z.land x 127.
Definition WIFSIGNALED (x : Z) : bool := negb (WSTATUS x =? 127) && negb (WSTATUS x =? 0).
Definition WEXITSTATUS (x : Z) : Z := Z.land (Z.shiftr x 8) 255.

Definition exit_status (wstatus : Z) : Z :=
  if WIFSIGNALED wstatus then 128 + WSTATUS wstatus else WEXITSTATUS wstatus.

(** ** A connection *)

(** An answer of [kevent]: an error, the exit of the shell, a readable client (with the
    answer of [tcgetpgrp] if it is asked), something else. *)
Inductive kev := KFail (errno : Z) | KExit | KRead (fg : option Z) | KOther.

Definition EINTR : Z := 4.
Definition EIO : Z := 5.

(** The answers of the system: [errno] where the function fails, [pipe], [fork], the error of
    [execv], the registration of the two events, the status [waitpid] stores. *)
Record shell_env := mkShellEnv {
  e_errno : err_site → Z;
  e_pipe : bool;
  e_fork : option Z;
  e_exec : option Z;
  e_kqueue : bool;
  e_wait : option Z;
}.

(** The label [err]. *)
Definition spawn_error (e : shell_env) (site : err_site) (shell_pid : Z) (shellfd : list Z) : list call :=
  let errno := match site with BadExec => default 0 (e_exec e) | BadEvent n => n | _ => e_errno e site end in
  [Reply (if errno =? 0 then - EIO else - errno)] ++ (Close <$> shellfd) ++
  (if shell_pid =? -1 then [] else [Kill shell_pid SIGKILL]) ++ [CloseClient].

(** The end of a shell that ran; the status is read also when [waitpid] did not store it. *)
Definition spawn_done (e : shell_env) (shell_pid : Z) (shellfd : list Z) : res Empty_set (list call) :=
  w ← access (e_wait e);
  Ok ([Kill shell_pid SIGKILL] ++ (Close <$> shellfd) ++ [Waitpid shell_pid; Reply (exit_status w); CloseClient]).

(** The loop that passes signals; [NoFuel] when it waits for more events. *)
Fixpoint signal_loop (e : shell_env) (shell_pid : Z) (shellfd : list Z) (evs : list kev) (sock : list sbyte) : res Empty_set (list call) :=
  match evs with
  | [] => NoFuel
  | KFail errno :: evs =>
      if errno =? EINTR then signal_loop e shell_pid shellfd evs sock
      else Ok (spawn_error e (BadEvent errno) shell_pid shellfd)
  | KExit :: _ => spawn_done e shell_pid shellfd
  | KOther :: evs => signal_loop e shell_pid shellfd evs sock
  | KRead fg :: evs =>
      let '(hdr, sock) := read sizeof_cmd sock in
      if negb (length hdr =? sizeof_cmd)%nat then spawn_done e shell_pid shellfd else
      if negb (le_val (take 2 hdr) =? SHELLSPAWN_SIGNAL) then Ok (spawn_error e BadSignal shell_pid shellfd) else
      if negb (le_val (drop 2 hdr) =? 4) then Ok (spawn_error e BadSignal shell_pid shellfd) else
      let '(bs, sock) := read 4 sock in
      if negb (length bs =? 4)%nat then Ok (spawn_error e BadSignal shell_pid shellfd) else
      let darwin_signal := signum_linux_to_bsd (i32 (le_val bs)) in
      tr ← signal_loop e shell_pid shellfd evs sock;
      Ok ((if darwin_signal =? 0 then []
           else match fg with
                | Some fg_pid => [Kill fg_pid darwin_signal]
                | None => [Kill (- shell_pid) darwin_signal]
                end) ++ tr)
  end.

(** The descriptors of the shell and its session. *)
Definition prepare (shellfd : list Z) : list call :=
  [Setsid; Setpgrp; Close 0; Close 1; Close 2] ++ zip_with Dup2 shellfd [0; 1; 2] ++ [Ctty].

(** [spawnShell] *)
Definition spawnShell (e : shell_env) (evs : list kev) (sock : list sbyte) : res Empty_set (list call) :=
  '(r, sock) ← read_commands (S (length sock)) cmds_init sock;
  match r with
  | inl (site, c) => Ok (c_calls c ++ spawn_error e site (-1) [])
  | inr (c, shellfd) =>
      if negb (e_pipe e) then Ok (c_calls c ++ spawn_error e BadPipe (-1) shellfd) else
      let shell_pid := default (-1) (e_fork e) in
      let started := match e_fork e with
                     | Some pid => [Fork pid; Exec (default bash (alloc_exec c)) (c_argv c)]
                     | None => []
                     end in
      tr ← (if bool_decide (is_Some (e_fork e)) && bool_decide (is_Some (e_exec e))
            then Ok (spawn_error e BadExec shell_pid shellfd)
            else if negb (e_kqueue e) then Ok (spawn_error e BadQueue shell_pid shellfd)
            else signal_loop e shell_pid shellfd evs sock);
      Ok (c_calls c ++ prepare shellfd ++ started ++ tr)
  end.

(** ** Reading frames *)

(** A command as the client writes it. *)
Definition cmd_bytes (type : Z) (data : list Z) : list Z :=
  le_bytes 2 type ++ le_bytes 2 (Z.of_nat (length data)) ++ data.

Lemma plain_app a b : plain (a ++ b) = plain a ++ plain b.
Proof. apply fmap_app. Qed.
Lemma length_plain bs : length (plain bs) = length bs.
Proof. apply length_fmap. Qed.

Lemma grab_plain bs rest : grab (length bs) (plain bs ++ rest) = (bs, rest).
Proof.
  induction bs as [|b bs IH]; [done|]. change (plain (b :: bs)) with ((b, Along) :: plain bs : list sbyte).
  cbn [length app grab]. by rewrite IH.
Qed.

Lemma recvmsg_plain bs rest : bs ≠ [] → recvmsg (length bs) (plain bs ++ rest) = (bs, None, rest).
Proof.
  destruct bs as [|b bs]; [done|]. intros _. change (plain (b :: bs)) with ((b, Along) :: plain bs : list sbyte).
  cbn [length app recvmsg]. by rewrite grab_plain.
Qed.

Lemma read_plain bs rest : bs ≠ [] → read (length bs) (plain bs ++ rest) = (bs, rest).
Proof. intros H. unfold read. by rewrite recvmsg_plain. Qed.

Lemma grab_length n sock : length sock = (length (grab n sock).1 + length (grab n sock).2)%nat.
Proof.
  revert sock. induction n as [|n IH]; intros [|[b [| |c]] sock]; try done. cbn. specialize (IH sock).
  destruct (grab n sock) as [bs rest]. cbn in *. lia.
Qed.

Lemma recvmsg_length n sock bs c rest : recvmsg n sock = (bs, c, rest) → length sock = (length bs + length rest)%nat.
Proof.
  unfold recvmsg. destruct n as [|n], sock as [|[b c'] sock]; try (by intros [= <- <- <-]).
  pose proof (grab_length n sock). destruct (grab n sock) as [bs' rest']. intros [= <- <- <-]. cbn in *. lia.
Qed.

Lemma read_length n sock bs rest : read n sock = (bs, rest) → length sock = (length bs + length rest)%nat.
Proof. unfold read. destruct (recvmsg n sock) as [[bs' c] rest'] eqn:E. intros [= <- <-]. by eapply recvmsg_length. Qed.

(** One more than the number of bytes is enough for the command loop. *)
Lemma read_commands_total fuel c sock : (length sock < fuel)%nat → ∃ r, read_commands fuel c sock = Ok r.
Proof.
  revert c sock. induction fuel as [|fuel IH]; intros c sock Hf; [lia|]. cbn [read_commands].
  destruct (recvmsg sizeof_cmd sock) as [[hdr ctl] sock1] eqn:E1. apply recvmsg_length in E1.
  destruct (length hdr =? sizeof_cmd)%nat eqn:Eh; [|eauto]. apply Nat.eqb_eq in Eh. unfold sizeof_cmd in Eh. cbn [negb].
  destruct (le_val (drop 2 hdr) =? 0).
  - destruct command; [apply IH; lia|eauto|eauto].
  - destruct (read _ sock1) as [bs sock2] eqn:E2. apply read_length in E2.
    destruct (negb _); [eauto|]. destruct command; [apply IH; lia|eauto|eauto].
Qed.

(** More fuel changes nothing. *)
Lemma read_commands_mono fuel fuel' c sock r :
  (fuel ≤ fuel')%nat → read_commands fuel c sock = Ok r → read_commands fuel' c sock = Ok r.
Proof.
  revert fuel' c sock. induction fuel as [|fuel IH]; intros [|fuel'] c sock Hf; try done; [lia|]. cbn [read_commands].
  destruct (recvmsg sizeof_cmd sock) as [[hdr ctl] sock1]. destruct (negb _); [done|].
  destruct (le_val (drop 2 hdr) =? 0).
  - destruct command; [apply IH; lia|done|done].
  - destruct (read _ sock1) as [bs sock2]. destruct (negb _); [done|]. destruct command; [apply IH; lia|done|done].
Qed.

Lemma header_fields type len :
  0 ≤ type < 65536 → 0 ≤ len < 65536 →
  le_val (take 2 (le_bytes 2 type ++ le_bytes 2 len)) = type ∧ le_val (drop 2 (le_bytes 2 type ++ le_bytes 2 len)) = len.
Proof.
  intros H1 H2. rewrite (take_app_length' (le_bytes 2 type)), (drop_app_length' (le_bytes 2 type)) by done.
  by rewrite !le_val_bytes_small by (cbn; lia).
Qed.

(** A command that is completely there. *)
Lemma read_command fuel c type data rest :
  0 ≤ type < 65536 → Z.of_nat (length data) < 65536 →
  read_commands (S fuel) c (plain (cmd_bytes type data) ++ rest) =
    match command c type (Z.of_nat (length data)) (if bool_decide (data = []) then None else Some (data ++ [0])) None with
    | Next c => read_commands fuel c rest
    | Go c fds => Ok (inr (c, fds), rest)
    | Bad e => Ok (inl (e, c), rest)
    end.
Proof.
  intros Ht Hd. unfold cmd_bytes. rewrite app_assoc, plain_app, <- app_assoc. cbn [read_commands].
  set (hdr := le_bytes 2 type ++ le_bytes 2 (Z.of_nat (length data))).
  destruct (header_fields type (Z.of_nat (length data))) as [E1 E2]; [done|lia|]. fold hdr in E1, E2.
  assert (length hdr = 4%nat) as Hl by reflexivity.
  change (recvmsg sizeof_cmd) with (recvmsg (length hdr)). rewrite recvmsg_plain by (by intros Hn; rewrite Hn in Hl).
  rewrite Hl, E1, E2. cbn [Nat.eqb sizeof_cmd negb]. destruct data as [|b data]; [done|].
  rewrite (proj2 (Z.eqb_neq _ _)) by (cbn; lia). rewrite Nat2Z.id, read_plain by done. rewrite Z.eqb_refl. cbn [negb].
  by rewrite bool_decide_false.
Qed.

(** ** How a connection ends *)

Definition reply_of (c : call) : option Z := match c with Reply s => Some s | _ => None end.
Definition closed (c : call) : option Z := match c with Close fd => Some fd | _ => None end.

(** The calls of the command loop. *)
Definition setup_call (c : call) : bool :=
  match c with Putenv _ | Chdir _ | Setuid _ | Setgid _ => true | _ => false end.
Notation setup_calls l := (Forall (fun c => setup_call c = true) l).

Lemma command_setup c cmd len param ctl :
  setup_calls (c_calls c) →
  match command c cmd len param ctl with
  | Next c' => setup_calls (c_calls c')
  | Go c' fds => c' = c ∧ length fds = 3%nat
  | Bad _ => True
  end.
Proof.
  intros H. assert (∀ l, setup_calls l → setup_calls (c_calls c ++ l)) as Happ by (intros l Hl; by apply Forall_app).
  unfold command.
  destruct (cmd =? SHELLSPAWN_ADDARG); [by destruct param|].
  destruct (cmd =? SHELLSPAWN_SETENV); [destruct param; [apply Happ; by repeat constructor|done]|].
  destruct (cmd =? SHELLSPAWN_CHDIR); [destruct param; [apply Happ; by repeat constructor|done]|].
  destruct (cmd =? SHELLSPAWN_GO).
  { destruct ctl as [m|]; [|done]. destruct (negb (cm_rights m)); [done|].
    destruct (Nat.eqb_spec (length (cm_fds m)) 3); done. }
  destruct (cmd =? SHELLSPAWN_SETUIDGID).
  { destruct (len <? 8); [done|]. destruct param; [apply Happ; by repeat constructor|done]. }
  by destruct (cmd =? SHELLSPAWN_SETEXEC).
Qed.

Lemma read_commands_setup fuel c sock r rest :
  setup_calls (c_calls c) → read_commands fuel c sock = Ok (r, rest) →
  match r with inl (_, c') => setup_calls (c_calls c') | inr (c', fds) => setup_calls (c_calls c') ∧ length fds = 3%nat end.
Proof.
  revert c sock. induction fuel as [|fuel IH]; intros c sock Hc; [done|]. cbn [read_commands].
  destruct (recvmsg sizeof_cmd sock) as [[hdr ctl] sock1]. destruct (negb _); [by intros [= <- _]|].
  destruct (le_val (drop 2 hdr) =? 0).
  - pose proof (command_setup c (le_val (take 2 hdr)) (le_val (drop 2 hdr)) None ctl Hc) as Hs.
    destruct command as [c'|c' fds|]; [by apply IH|intros [= <- _]|intros [= <- _]; done]. destruct Hs as [-> ?]. done.
  - destruct (read _ sock1) as [bs sock2]. destruct (negb _); [by intros [= <- _]|].
    pose proof (command_setup c (le_val (take 2 hdr)) (le_val (drop 2 hdr)) (Some (bs ++ [0])) ctl Hc) as Hs.
    destruct command as [c'|c' fds|]; [by apply IH|intros [= <- _]|intros [= <- _]; done]. destruct Hs as [-> ?]. done.
Qed.

(** What the calls after the fork do: one reply, the descriptors closed, the shell killed,
    and no signal to every process. *)
Record ends (pid : Z) (fds : list Z) (tr : list call) : Prop := mkEnds {
  en_reply : ∃ s, omap reply_of tr = [s];
  en_closed : omap closed tr = fds;
  en_last : last tr = Some CloseClient;
  en_killed : pid ≠ -1 → Kill pid SIGKILL ∈ tr;
  en_safe : ∀ p s, Kill p s ∈ tr → p ≠ -1;
  en_nofork : ∀ q, Fork q ∉ tr;
  en_noexec : ∀ path argv, Exec path argv ∉ tr;
}.

Lemma closed_Close (fds : list Z) : omap closed (Close <$> fds) = fds.
Proof. induction fds as [|f fds IH]; [done|]. cbn. by f_equal. Qed.
Lemma reply_Close (fds : list Z) : omap reply_of (Close <$> fds) = [].
Proof. induction fds as [|f fds IH]; [done|]. done. Qed.

Lemma elem_Close c (fds : list Z) : c ∈ Close <$> fds → ∃ f, c = Close f.
Proof. intros (f & -> & _)%list_elem_of_fmap. by exists f. Qed.

(** Membership in a list of calls, by cases. *)
Ltac in_calls H :=
  repeat (rewrite ?elem_of_app, ?elem_of_cons, ?elem_of_nil in H);
  repeat match type of H with
  | _ ∨ _ => destruct H as [H|H]
  | _ ∈ Close <$> _ => apply elem_Close in H as [? H]
  end; try discriminate H; try contradiction H.

Lemma error_ends e site pid fds : ends pid fds (spawn_error e site pid fds).
Proof.
  unfold spawn_error. split.
  - eexists. rewrite !omap_app, reply_Close. by destruct (pid =? -1).
  - rewrite !omap_app, closed_Close. destruct (pid =? -1); cbn; by rewrite ?app_nil_r.
  - rewrite !app_assoc. apply last_snoc.
  - intros Hp. rewrite (proj2 (Z.eqb_neq _ _) Hp). set_solver.
  - intros p s H. destruct (Z.eqb_spec pid (-1)); in_calls H. congruence.
  - intros q H. destruct (pid =? -1); in_calls H.
  - intros q a H. destruct (pid =? -1); in_calls H.
Qed.

Lemma done_ends e pid fds tr : pid ≠ -1 → spawn_done e pid fds = Ok tr → ends pid fds tr.
Proof.
  intros Hp. unfold spawn_done. destruct (e_wait e) as [w|]; [|done]. cbn [access]. rewrite bind_Ok. intros [= <-]. split.
  - eexists. cbn. rewrite omap_app, reply_Close. done.
  - cbn. rewrite omap_app, closed_Close. cbn. apply app_nil_r.
  - by rewrite app_comm_cons, last_app.
  - left.
  - intros p s H. in_calls H. congruence.
  - intros q H. in_calls H.
  - intros q a H. in_calls H.
Qed.

Lemma ends_kill pid fds tr p s : p ≠ -1 → ends pid fds tr → ends pid fds (Kill p s :: tr).
Proof.
  intros Hp [H1 H2 H3 H4 H5 H6 H7]. split; try done.
  - rewrite last_cons, H3. done.
  - intros Hq. right. auto.
  - intros q a [[= -> ->]|H]%elem_of_cons; [done|by eapply H5].
  - intros q [[=]|H]%elem_of_cons. by eapply H6.
  - intros q a [[=]|H]%elem_of_cons. by eapply H7.
Qed.

(** The events that end the loop. *)
Definition decides (ev : kev) : Prop := ev = KExit ∨ ∃ n, ev = KFail n ∧ n ≠ EINTR.

(** A computation that ends as it should, or reads the status that [waitpid] did not store. *)
Definition ends_or_unset (e : shell_env) (pid : Z) (fds : list Z) (m : res Empty_set (list call)) : Prop :=
  (∃ tr, m = Ok tr ∧ ends pid fds tr) ∨ (m = UB ∧ e_wait e = None).

Lemma signal_loop_ends e pid fds evs sock :
  1 < pid → Forall (fun ev => ∀ fg, ev = KRead (Some fg) → 0 < fg) evs → Exists decides evs →
  ends_or_unset e pid fds (signal_loop e pid fds evs sock).
Proof.
  intros Hp Hfg. revert sock.
  assert (ends_or_unset e pid fds (spawn_done e pid fds)) as Hdone.
  { destruct (e_wait e) as [w|] eqn:Hw; [|right; unfold spawn_done; by rewrite Hw].
    left. eexists. split; [unfold spawn_done; rewrite Hw; reflexivity|]. apply (done_ends e); [lia|]. unfold spawn_done. by rewrite Hw. }
  assert (∀ site, ends_or_unset e pid fds (Ok (spawn_error e site pid fds))) as Herr.
  { intros site. left. eexists. split; [reflexivity|]. apply error_ends. }
  induction evs as [|ev evs IH]; intros sock He; [by apply Exists_nil in He|].
  apply Forall_cons in Hfg as [Hfg1 Hfg]. apply Exists_cons in He.
  assert (ev = KExit ∨ (∃ n, ev = KFail n ∧ n ≠ EINTR) ∨ Exists decides evs) as He' by (unfold decides in He; tauto). clear He.
  destruct ev as [n| |fg|]; cbn [signal_loop].
  - destruct (Z.eqb_spec n EINTR); [|apply Herr]. apply IH; [done|]. naive_solver.
  - done.
  - destruct (read sizeof_cmd sock) as [hdr sock1]. destruct (negb (length hdr =? _)%nat); [done|].
    destruct (negb (le_val (take 2 hdr) =? _)); [apply Herr|]. destruct (negb (le_val (drop 2 hdr) =? _)); [apply Herr|].
    destruct (read 4 sock1) as [bs sock2]. destruct (negb (length bs =? 4)%nat); [apply Herr|].
    destruct (IH Hfg sock2) as [(tr & -> & Htr)|[-> Hn]]; [naive_solver| |by right].
    rewrite bind_Ok. left. eexists. split; [reflexivity|].
    destruct (_ =? 0); [done|]. destruct fg as [fg|]; apply ends_kill; try done; [specialize (Hfg1 fg eq_refl)|]; lia.
  - apply IH; [done|]. naive_solver.
Qed.

Lemma setup_quiet l : setup_calls l → omap reply_of l = [] ∧ omap closed l = [] ∧
  (∀ p s, Kill p s ∉ l) ∧ (∀ q, Fork q ∉ l) ∧ (∀ path argv, Exec path argv ∉ l).
Proof.
  intros H. induction H as [|c l Hc _ (IH1 & IH2 & IH3 & IH4 & IH5)]; [split_and!; try done; intros; apply not_elem_of_nil|].
  split_and!; [by destruct c|by destruct c| | |]; intros; apply not_elem_of_cons; (split; [by destruct c|done]).
Qed.

(** A run with what precedes the end. *)
Lemma ends_after pid fds pre tr :
  ends pid fds tr → omap reply_of pre = [] → (∀ p s, Kill p s ∉ pre) →
  (∃ s, omap reply_of (pre ++ tr) = [s]) ∧ last (pre ++ tr) = Some CloseClient ∧
  (∀ p s, Kill p s ∈ pre ++ tr → p ≠ -1) ∧ omap closed (pre ++ tr) = omap closed pre ++ fds.
Proof.
  intros H Hr Hk. split_and!.
  - destruct (en_reply _ _ _ H) as [s Hs]. exists s. by rewrite omap_app, Hr.
  - by rewrite last_app, (en_last _ _ _ H).
  - intros p s [Hp|Hp]%elem_of_app; [by apply Hk in Hp|by eapply (en_safe _ _ _ H)].
  - by rewrite omap_app, (en_closed _ _ _ H).
Qed.

(** After the pipe was made: the calls until the end, in every case. *)
Lemma run_ends e fds evs sock :
  (∀ pid, e_fork e = Some pid → 1 < pid) → (e_fork e = None → e_kqueue e = false) →
  Forall (fun ev => ∀ fg, ev = KRead (Some fg) → 0 < fg) evs → Exists decides evs →
  ends_or_unset e (default (-1) (e_fork e)) fds
        (if bool_decide (is_Some (e_fork e)) && bool_decide (is_Some (e_exec e))
         then Ok (spawn_error e BadExec (default (-1) (e_fork e)) fds)
         else if negb (e_kqueue e) then Ok (spawn_error e BadQueue (default (-1) (e_fork e)) fds)
         else signal_loop e (default (-1) (e_fork e)) fds evs sock).
Proof.
  intros Hpid Hkq Hfg Hev. destruct (_ && _); [left; eexists; split; [reflexivity|apply error_ends]|].
  destruct (e_kqueue e) eqn:Ek; [|left; eexists; split; [reflexivity|apply error_ends]]. cbn [negb].
  destruct (e_fork e) as [pid|]; [|by discriminate Hkq]. apply signal_loop_ends; auto.
Qed.

Definition started (e : shell_env) (c : cmds) : list call :=
  match e_fork e with
  | Some pid => [Fork pid; Exec (default bash (alloc_exec c)) (c_argv c)]
  | None => []
  end.

Lemma prepare_quiet fds : length fds = 3%nat →
  omap reply_of (prepare fds) = [] ∧ omap closed (prepare fds) = [0; 1; 2] ∧ (∀ p s, Kill p s ∉ prepare fds) ∧
  (∀ q, Fork q ∉ prepare fds) ∧ (∀ path argv, Exec path argv ∉ prepare fds).
Proof.
  destruct fds as [|a [|b [|c [|]]]]; try done. intros _. split_and!; try reflexivity; intros;
    repeat (apply not_elem_of_cons; split; [done|]); apply not_elem_of_nil.
Qed.

(** C6: every connection ends properly.  Whatever bytes the client sends, in whatever pieces
    they arrive (a command that arrives in pieces is an error), and whichever call fails, once the shell exits or waiting for events fails the client gets exactly one status and
    its socket is closed last; a shell that was forked is killed, and no signal goes to all
    processes; the descriptors of a complete [GO] command, three of them, are closed, while those
    of one with another number stay open until the process exits; and a program is
    executed only after a complete command with three descriptors, with the arguments the
    commands gave.  The exception is a [waitpid] that fails after the shell has ended: then the
    status is read uninitialised.  The kernel is taken to return process numbers above 1 and
    positive process groups, and to refuse the registration of process -1 when the fork failed. *)
Theorem spawnShell_ends e evs sock :
  (∀ pid, e_fork e = Some pid → 1 < pid) → (e_fork e = None → e_kqueue e = false) →
  Forall (fun ev => ∀ fg, ev = KRead (Some fg) → 0 < fg) evs → Exists decides evs →
  (∃ tr, spawnShell e evs sock = Ok tr ∧ (∃ s, omap reply_of tr = [s]) ∧ last tr = Some CloseClient ∧
    (∀ p s, Kill p s ∈ tr → p ≠ -1) ∧ (∀ pid, Fork pid ∈ tr → Kill pid SIGKILL ∈ tr) ∧
    ∃ r rest, read_commands (S (length sock)) cmds_init sock = Ok (r, rest) ∧
      match r with
      | inl _ => omap closed tr = [] ∧ ∀ path argv, Exec path argv ∉ tr
      | inr (c, fds) => length fds = 3%nat ∧ fds `suffix_of` omap closed tr ∧
          ∀ path argv, Exec path argv ∈ tr → path = default bash (alloc_exec c) ∧ argv = c_argv c
      end) ∨
  (spawnShell e evs sock = UB ∧ e_wait e = None ∧ is_Some (e_fork e)).
Proof.
  intros Hpid Hkq Hfg Hev. unfold spawnShell.
  destruct (read_commands_total (S (length sock)) cmds_init sock) as [[r rest] Hr]; [lia|].
  pose proof (read_commands_setup _ cmds_init _ _ _ (Forall_nil_2 _) Hr) as Hs. rewrite Hr, bind_Ok.
  destruct r as [[site c]|[c fds]].
  - left. destruct (setup_quiet _ Hs) as (Q1 & Q2 & Q3 & Q4 & Q5). pose proof (error_ends e site (-1) []) as He.
    destruct (ends_after _ _ _ _ He Q1 Q3) as (A1 & A2 & A3 & A4). eexists. split; [reflexivity|]. split_and!; try done.
    + intros pid [Hp|Hp]%elem_of_app; [by apply Q4 in Hp|by apply (en_nofork _ _ _ He) in Hp].
    + exists (inl (site, c)), rest. split; [done|]. split; [by rewrite A4, Q2|].
      intros p a [Hp|Hp]%elem_of_app; [by apply Q5 in Hp|by apply (en_noexec _ _ _ He) in Hp].
  - destruct Hs as [Hs Hl]. destruct (setup_quiet _ Hs) as (Q1 & Q2 & Q3 & Q4 & Q5). destruct (e_pipe e); cbn [negb].
    + destruct (run_ends e fds evs rest) as [(tr & -> & He)|[Hu Hn]]; [done..| |].
      2: { right. rewrite Hu. split_and!; [done..|]. destruct (e_fork e); [done|]. cbn in Hu. by rewrite Hkq in Hu. }
      left. rewrite bind_Ok. fold (started e c).
      destruct (prepare_quiet fds Hl) as (P1 & P2 & P3 & P4 & P5).
      assert (∀ p s, Kill p s ∉ started e c) as S3 by (unfold started; destruct (e_fork e); set_solver).
      destruct (ends_after _ _ (c_calls c ++ prepare fds ++ started e c) _ He) as (A1 & A2 & A3 & A4).
      { rewrite !omap_app, Q1, P1. unfold started. by destruct (e_fork e). }
      { intros p s. rewrite !elem_of_app. naive_solver. }
      rewrite <- !app_assoc in A1, A2, A3, A4. eexists. split; [reflexivity|]. split_and!; try done.
      * intros pid Hf. assert (e_fork e = Some pid) as Hf'.
        { apply elem_of_app in Hf as [Hf|Hf]; [by apply Q4 in Hf|]. apply elem_of_app in Hf as [Hf|Hf]; [by apply P4 in Hf|].
          apply elem_of_app in Hf as [Hf|Hf]; [|by apply (en_nofork _ _ _ He) in Hf].
          unfold started in Hf. destruct (e_fork e); set_solver. }
        rewrite Hf' in He. specialize (Hpid pid Hf'). apply elem_of_app. right. apply elem_of_app. right. apply elem_of_app. right.
        apply (en_killed _ _ _ He). cbn. lia.
      * exists (inr (c, fds)), rest. split; [done|]. split; [done|]. split; [rewrite A4; by eexists|].
        intros p a [Hp|Hp]%elem_of_app; [by apply Q5 in Hp|]. apply elem_of_app in Hp as [Hp|Hp]; [by apply P5 in Hp|].
        apply elem_of_app in Hp as [Hp|Hp]; [|by apply (en_noexec _ _ _ He) in Hp].
        unfold started in Hp. destruct (e_fork e); set_solver.
    + left. pose proof (error_ends e BadPipe (-1) fds) as He.
      destruct (ends_after _ _ _ _ He Q1 Q3) as (A1 & A2 & A3 & A4). eexists. split; [reflexivity|]. split_and!; try done.
      * intros pid [Hp|Hp]%elem_of_app; [by apply Q4 in Hp|by apply (en_nofork _ _ _ He) in Hp].
      * exists (inr (c, fds)), rest. split; [done|]. split; [done|]. split; [by rewrite A4, Q2|].
        intros p a [Hp|Hp]%elem_of_app; [by apply Q5 in Hp|by apply (en_noexec _ _ _ He) in Hp].
Qed.

(** ** Witnesses *)

(** A client that asks for nothing special, sends three descriptors and hangs up; the shell
    is killed. *)
Lemma spawnShell_ends_witness :
  ∃ tr, spawnShell (mkShellEnv (fun _ => 0) true (Some 42) None true (Some 9)) [KOther; KExit]
          ((4, WithControl (mkCmsg true [7; 8; 9])) :: plain [0; 0; 0]) = Ok tr ∧ omap reply_of tr = [137].
Proof.
  destruct (spawnShell_ends (mkShellEnv (fun _ => 0) true (Some 42) None true (Some 9)) [KOther; KExit]
              ((4, WithControl (mkCmsg true [7; 8; 9])) :: plain [0; 0; 0])) as [(tr & H & _)|(_ & Hn & _)].
  - intros pid [= <-]. lia.
  - done.
  - repeat constructor; discriminate.
  - right. left. by left.
  - exists tr. split; [exact H|]. vm_compute in H. injection H as <-. reflexivity.
  - done.
Defined.
