(* ===== verification/OsxieClient.v ===== *)
(** * The osxie command ([src/src/startup/osxie.c])

    The program users start: it finds the prefix and the init process of the container, builds
    the command line, and tells shellspawn what to run, in which environment and with which
    descriptors; then it passes signals on and exits as the program did.  A function that may
    call [exit] returns [Err] with the exit code. *)

From S2P Require Import Prelude Shellspawn.

(** C strings have no NUL. *)
Notation no_nul := (Forall (fun c : Z => c ≠ 0)).

Definition SYSTEM_ROOT : list Z := cstr "/Volumes/SystemRoot".
Definition SHELLSPAWN_SOCKPATH : list Z := cstr "/var/run/shellspawn.sock".

(** [snprintf] of a string into [n] bytes. *)
Definition snprintf (n : nat) (s : list Z) : list Z := take (n - 1) s.

(** ** Sending commands *)

(** What was written to the socket, and how many writes that took. *)
Record cstate := mkCstate { out : list sbyte; writes : nat }.
Definition C (A : Type) : Type := cstate → res Z (A * cstate).
Instance C_ret : MRet C := fun A a s => Ok (a, s).
Instance C_bind : MBind C := fun A B f m s => '(a, s) ← m s; f a s.
Definition exit {A : Type} (code : Z) : C A := fun _ => Err code.
Definition lift {A : Type} (m : res Z A) : C A := fun s => a ← m; Ok (a, s).

(** [write_ok n]: the [n]-th write takes all bytes. *)
Section push.
Context (write_ok : nat → bool).

Definition send (bs : list sbyte) : C unit := fun s =>
  if write_ok (writes s) then Ok (tt, mkCstate (out s ++ bs) (S (writes s))) else Err 1.

(** The length is stored in an [unsigned short]. *)
Definition pushShellspawnCommandData (type : Z) (data : list Z) : C unit := send (plain (cmd_bytes type data)).

Definition pushShellspawnCommand (type : Z) (value : option (list Z)) : C unit :=
  match value with
  | None => pushShellspawnCommandData type []
  | Some v => pushShellspawnCommandData type (v ++ [0])
  end.

(** The command with its control data. *)
Definition go_frame (type : Z) (fds : list Z) : list sbyte :=
  match cmd_bytes type [] with
  | b :: bs => (b, WithControl (mkCmsg true fds)) :: plain bs
  | [] => []
  end.
Definition pushShellspawnCommandFDs (type : Z) (fds : list Z) : C unit := send (go_frame type fds).

(** ** The environment *)

Inductive stat_answer := IsDir | NotDir | NoStat (errno : Z).
Definition ENOENT : Z := 2.

Definition createDir (stat : list Z → stat_answer) (mkdir : list Z → bool) (path : list Z) : res Z unit :=
  match stat path with
  | IsDir => Ok tt
  | NotDir => Err 1
  | NoStat errno => if errno =? ENOENT then if mkdir path then Ok tt else Err 1 else Err 1
  end.

Definition skip_vars : list (list Z) := [cstr "PATH"; cstr "TMPDIR"; cstr "HOME"].

(** The name of a variable: the part before the first [=], or all of it. *)
Fixpoint var_name (v : list Z) : list Z :=
  match v with
  | [] => []
  | c :: v => if c =? 61 then [] else c :: var_name v
  end.

Definition skip_it (var : list Z) : bool :=
  let name_len := length (var_name var) in
  existsb (fun s => (length s =? name_len)%nat && bytes_eqb (take name_len var) (take name_len s)) skip_vars.

Fixpoint push_environ (environ : list (list Z)) : C unit :=
  match environ with
  | [] => mret tt
  | var :: environ =>
      _ ← (if skip_it var then mret tt else pushShellspawnCommand SHELLSPAWN_SETENV (Some var));
      push_environ environ
  end.

(** What the command knows about its user and the system. *)
Record user_env := mkUserEnv {
  u_pw_name : option (list Z); u_getlogin : option (list Z);
  u_prefix : list Z; u_cwd : list Z; u_uid : Z; u_gid : Z;
  u_environ : list (list Z);
  u_stat : list Z → stat_answer; u_mkdir : list Z → bool;
}.

Definition path_var : list Z := cstr "PATH=/usr/bin:/bin:/usr/sbin:/sbin:/usr/local/bin".

Definition setupShellspawnEnv (u : user_env) : C unit :=
  let setenv v := pushShellspawnCommand SHELLSPAWN_SETENV (Some v) in
  _ ← setenv path_var;
  _ ← setenv (cstr "TMPDIR=/private/tmp");
  _ ← setenv (cstr "LP_NUM_THREADS=1");
  _ ← setenv (cstr "GALLIUM_NTHREADS=1");
  match (match u_pw_name u with Some l => Some l | None => u_getlogin u end) with
  | None => exit 1
  | Some login =>
      _ ← lift (createDir (u_stat u) (u_mkdir u) (snprintf 4096 (u_prefix u ++ cstr "/Users/" ++ login)));
      _ ← setenv (snprintf 4096 (cstr "HOME=/Users/" ++ login));
      push_environ (u_environ u)
  end.

Definition setupWorkingDir (u : user_env) : C unit :=
  pushShellspawnCommand SHELLSPAWN_CHDIR (Some (snprintf 4096 (SYSTEM_ROOT ++ u_cwd u))).

Definition setupIDs (u : user_env) : C unit :=
  pushShellspawnCommandData SHELLSPAWN_SETUIDGID (le_bytes 4 (u_uid u) ++ le_bytes 4 (u_gid u)).

(** ** Descriptors *)

(** The terminals of the three descriptors, [dup(0)], and the pseudo-terminal [setupPtys]
    opens and puts into raw mode (master and slave), [None] when that fails. *)
Record tty_env := mkTtyEnv { t_in : bool; t_out : bool; t_err : bool; t_dup : Z; t_pty : option (Z * Z) }.

Definition setupFDs (t : tty_env) : res Z (list Z * Z) :=
  '(fd0, fd1, fd2, master) ←
    (if t_in t then match t_pty t with Some (m, s) => Ok (s, s, s, m) | None => Err 1 end
     else Ok (t_dup t, -1, -1, -1));
  let fd1 := if (master =? -1) || negb (t_out t) then 1 else fd1 in
  let fd2 := if (master =? -1) || negb (t_err t) then 2 else fd2 in
  Ok ([fd0; fd1; fd2], master).

(** ** The command line *)

(** [escapeQuotes(NULL, src)] *)
Fixpoint escaped_length (src : list Z) : nat :=
  match src with
  | [] => 0
  | c :: src => (if c =? 39 then 4 else 1) + escaped_length src
  end.

(** [escapeQuotes(dest, src)] with [dest] at offset [to] of the buffer. *)
Fixpoint escapeQuotes (mem : list Z) (to len : nat) (src : list Z) : res Z (list Z * nat) :=
  match src with
  | [] => mem ← poke mem (Z.of_nat (to + len)) [0]; Ok (mem, len)
  | c :: src =>
      if c =? 39
      then mem ← poke mem (Z.of_nat (to + len)) [39; 92; 39; 39]; escapeQuotes mem to (len + 4) src
      else mem ← poke mem (Z.of_nat (to + len)) [c]; escapeQuotes mem to (len + 1) src
  end.

(** [stpcpy(to, s)] *)
Definition stpcpy (mem : list Z) (to : nat) (s : list Z) : res Z (list Z * nat) :=
  mem ← poke mem (Z.of_nat to) (s ++ [0]); Ok (mem, (to + length s)%nat).

Fixpoint fill (mem : list Z) (to : nat) (argv : list (list Z)) : res Z (list Z) :=
  match argv with
  | [] => Ok mem
  | a :: argv =>
      '(mem, to) ← (if (to =? 0)%nat then Ok (mem, to) else stpcpy mem to [32]);
      '(mem, to) ← stpcpy mem to [39];
      '(mem, len) ← escapeQuotes mem to 0 a;
      '(mem, to) ← stpcpy mem (to + len) [39];
      fill mem to argv
  end.

(** The size [spawnShell] allocates. *)
Definition line_size (argv : list (list Z)) : nat :=
  (sum_list (escaped_length <$> argv) + length argv * 3)%nat.

(** The string in the buffer; [fresh] is what [malloc] returned. *)
Definition command_line (fresh : list Z) (argv : list (list Z)) : res Z (list Z) :=
  mem ← fill fresh 0 argv;
  if bool_decide (0 ∈ mem) then Ok (until_nul mem) else UB.

(** ** Connecting *)

(** One round of the loop: whether the new socket could be made, whether init is alive, and
    the error of [connect]. *)
Record attempt := mkAttempt { a_socket : bool; a_alive : bool; a_connect : option Z }.
Definition ECONNREFUSED : Z := 111.
Definition EAGAIN : Z := 11.

Fixpoint connect_loop (first : bool) (n : nat) (ats : list attempt) : res Z unit :=
  match n, ats with
  | S n, a :: ats =>
      if negb first && negb (a_socket a) then Err 1 else
      if negb (a_alive a) then Err 1 else
      match a_connect a with
      | None => Ok tt
      | Some errno =>
          if negb (errno =? ECONNREFUSED) && negb (errno =? ENOENT) && negb (errno =? EAGAIN) then Err 1
          else connect_loop false n ats
      end
  | _, _ => Err 1
  end.

Definition connectToShellspawn (sock : bool) (ats : list attempt) : res Z unit :=
  if negb sock then Err 1 else connect_loop true 5 ats.

(** The address: [sun_path] has 108 bytes. *)
Definition sun_path (pid prefix : list Z) : list Z :=
  snprintf 108 (cstr "/proc/" ++ pid ++ cstr "/root" ++ prefix ++ SHELLSPAWN_SOCKPATH).

(** ** Starting a shell or a program, until [shellLoop] *)

Definition spawnShell (sock : bool) (ats : list attempt) (u : user_env) (t : tty_env) (fresh : list Z)
    (argv : option (list (list Z))) : C Z :=
  buffer ← lift (match argv with Some argv => l ← command_line fresh argv; Ok (Some l) | None => Ok None end);
  _ ← lift (connectToShellspawn sock ats);
  _ ← setupShellspawnEnv u;
  _ ← match buffer with
      | Some line =>
          _ ← pushShellspawnCommand SHELLSPAWN_ADDARG (Some (cstr "-c"));
          pushShellspawnCommand SHELLSPAWN_ADDARG (Some line)
      | None => mret tt
      end;
  _ ← setupWorkingDir u;
  _ ← setupIDs u;
  '(fds, master) ← lift (setupFDs t);
  _ ← pushShellspawnCommandFDs SHELLSPAWN_GO fds;
  mret master.

Fixpoint push_args (argv : list (list Z)) : C unit :=
  match argv with
  | [] => mret tt
  | a :: argv => _ ← pushShellspawnCommand SHELLSPAWN_ADDARG (Some a); push_args argv
  end.

Definition spawnBinary (sock : bool) (ats : list attempt) (u : user_env) (t : tty_env) (binary : list Z)
    (argv : list (list Z)) : C Z :=
  _ ← lift (connectToShellspawn sock ats);
  _ ← setupShellspawnEnv u;
  _ ← pushShellspawnCommand SHELLSPAWN_SETEXEC (Some binary);
  _ ← push_args argv;
  _ ← setupWorkingDir u;
  _ ← setupIDs u;
  '(fds, master) ← lift (setupFDs t);
  _ ← pushShellspawnCommandFDs SHELLSPAWN_GO fds;
  mret master.

(** ** Signals and the end *)

Definition SIGINT : Z := 2.
Definition SIGTERM : Z := 15.

(** [signalHandler]: the command that is sent, and whether the container is killed. *)
Definition signalHandler (pty_master signo : Z) : C bool :=
  let '(signo, kill) :=
    if (pty_master =? -1) && (signo =? SIGINT) then (SIGTERM, true)
    else if signo =? SIGTERM then (signo, true) else (signo, false) in
  _ ← pushShellspawnCommandData SHELLSPAWN_SIGNAL (le_bytes 4 signo);
  mret kill.
End push.

(** One turn of [shellLoop]: the error of [poll] (an interrupted one is looked at like the
    others), and what can be read from the terminal (the
    reads of its loop), from standard input (each round: [FIONREAD] and [read]), and from
    the socket. *)
Record poll_answer := mkPoll {
  p_error : option Z;
  p_master : option (list (list Z));
  p_stdin : option (list (option Z * list Z));
  p_sock : option (list Z);
}.

Definition BUFSIZE : nat := 4096.

(** The writes of the terminal's data. *)
Fixpoint pump_master (reads : list (list Z)) : list (list Z) :=
  match reads with
  | [] => []
  | r :: reads => (if (length r =? 0)%nat then [] else [r]) ++ (if (length r =? BUFSIZE)%nat then pump_master reads else [])
  end.

(** The writes of the input's data, and the exit code after an error or an empty read. *)
Fixpoint pump_stdin (rounds : list (option Z * list Z)) : list (list Z) * option Z :=
  match rounds with
  | [] => ([], None)
  | (None, _) :: _ => ([], Some 1)
  | (Some avail, data) :: rounds =>
      let rd := if (avail <? 0) || (Z.of_nat BUFSIZE <? avail) then BUFSIZE else Z.to_nat avail in
      let r := take rd data in
      if (length r =? 0)%nat then ([], Some 1) else
      if (length r =? BUFSIZE)%nat then let '(rest, code) := pump_stdin rounds in (r :: rest, code) else ([r], None)
  end.

(** The exit code for a reply. *)
Definition reply_exit (reply : list Z) : Z :=
  if negb (length reply =? 4)%nat then 1 else
  let exitStatus := i32 (le_val reply) in
  if exitStatus <? 0 then (if - exitStatus =? ENOENT then 127 else 126)
  else Z.land exitStatus 255.

(** [shellLoop]: the data written to standard output and to the terminal, and the exit code;
    [NoFuel] when it waits. *)
Fixpoint shellLoop (polls : list poll_answer) : res Empty_set (list (list Z) * list (list Z) * Z) :=
  match polls with
  | [] => NoFuel
  | p :: polls =>
      if match p_error p with Some errno => negb (errno =? EINTR) | None => false end then Ok ([], [], 0) else
      let o := match p_master p with Some reads => pump_master reads | None => [] end in
      let '(i, code) := match p_stdin p with Some rounds => pump_stdin rounds | None => ([], None) end in
      match code, p_sock p with
      | Some code, _ => Ok (o, i, code)
      | None, Some reply => Ok (o, i, reply_exit reply)
      | None, None => '(o', i', code) ← shellLoop polls; Ok (o ++ o', i ++ i', code)
      end
  end.

(** ** The command line is the arguments

    The part of the shell's reading of words (POSIX, 2.2 Quoting and 2.3 Token Recognition)
    that such a line needs: blanks separate words, a single quote starts and ends a part taken
    literally, a backslash takes the next character literally.  Other characters outside
    quotes are not covered. *)

Inductive sh_mode := Unquoted | Quoted | Backslash.

Fixpoint sh_words (m : sh_mode) (word : option (list Z)) (l : list Z) : option (list (list Z)) :=
  match l, m with
  | [], Unquoted => Some (option_list word)
  | [], _ => None
  | c :: l, Unquoted =>
      if c =? 32 then app (option_list word) <$> sh_words Unquoted None l
      else if c =? 39 then sh_words Quoted (Some (default [] word)) l
      else if c =? 92 then sh_words Backslash (Some (default [] word)) l
      else None
  | c :: l, Quoted => if c =? 39 then sh_words Unquoted word l else sh_words Quoted (Some (default [] word ++ [c])) l
  | c :: l, Backslash => if c =? 10 then None else sh_words Unquoted (Some (default [] word ++ [c])) l
  end.

Fixpoint escaped (src : list Z) : list Z :=
  match src with
  | [] => []
  | c :: src => (if c =? 39 then [39; 92; 39; 39] else [c]) ++ escaped src
  end.
Definition quoted (a : list Z) : list Z := [39] ++ escaped a ++ [39].

(** The arguments after the first. *)
Definition more_words (argv : list (list Z)) : list Z := concat ((fun a => 32 :: quoted a) <$> argv).
Definition line_of (argv : list (list Z)) : list Z :=
  match argv with [] => [] | a :: argv => quoted a ++ more_words argv end.

Lemma length_escaped src : length (escaped src) = escaped_length src.
Proof. induction src as [|c src IH]; [done|]. cbn. rewrite length_app, IH. by destruct (c =? 39). Qed.

Lemma length_quoted a : length (quoted a) = (2 + escaped_length a)%nat.
Proof. unfold quoted. rewrite !length_app, length_escaped. cbn. lia. Qed.

Lemma length_more_words argv : length (more_words argv) = (sum_list (escaped_length <$> argv) + length argv * 3)%nat.
Proof.
  induction argv as [|a argv IH]; [done|]. change (more_words (a :: argv)) with (32 :: quoted a ++ more_words argv).
  change (sum_list (escaped_length <$> a :: argv)) with (escaped_length a + sum_list (escaped_length <$> argv))%nat.
  cbn [length]. rewrite length_app, IH, length_quoted. lia.
Qed.

Lemma sh_escaped w a rest : sh_words Quoted (Some w) (escaped a ++ 39 :: rest) = sh_words Unquoted (Some (w ++ a)) rest.
Proof.
  revert w. induction a as [|c a IH]; intros w; [cbn; by rewrite app_nil_r|]. cbn [escaped].
  destruct (Z.eqb_spec c 39) as [->|Hc].
  - cbn. rewrite IH. by rewrite <- app_assoc.
  - cbn. rewrite (proj2 (Z.eqb_neq _ _) Hc), IH. by rewrite <- app_assoc.
Qed.

Lemma sh_quoted a rest : sh_words Unquoted None (quoted a ++ rest) = sh_words Unquoted (Some a) rest.
Proof. unfold quoted. rewrite <- !app_assoc. cbn [app sh_words Z.eqb]. cbn. by rewrite sh_escaped. Qed.

Lemma sh_more_words w argv : sh_words Unquoted (Some w) (more_words argv) = Some (w :: argv).
Proof.
  revert w. induction argv as [|a argv IH]; intros w; [done|].
  change (more_words (a :: argv)) with (32 :: quoted a ++ more_words argv).
  cbn [sh_words Z.eqb Pos.eqb]. rewrite sh_quoted, IH. done.
Qed.

Lemma sh_line argv : sh_words Unquoted None (line_of argv) = Some argv.
Proof. destruct argv as [|a argv]; [done|]. cbn [line_of]. by rewrite sh_quoted, sh_more_words. Qed.

(** *** The buffer *)

Lemma escapeQuotes_app pre b to len src :
  (to + len = length pre)%nat → (length (escaped src) < length b)%nat →
  escapeQuotes (pre ++ b) to len src =
    Ok ((pre ++ escaped src) ++ 0 :: drop (S (length (escaped src))) b, (len + length (escaped src))%nat).
Proof.
  revert pre b len. induction src as [|c src IH]; intros pre b len Hp Hb.
  - cbn in *. rewrite Hp, poke_app by (cbn; lia). rewrite bind_Ok, app_nil_r, Nat.add_0_r. done.
  - assert (∀ e, (length e + length (escaped src) < length b)%nat →
      (mem ← poke (pre ++ b) (Z.of_nat (to + len)) e; escapeQuotes mem to (len + length e) src) =
        Ok ((pre ++ e ++ escaped src) ++ 0 :: drop (S (length (e ++ escaped src))) b,
            (len + length (e ++ escaped src))%nat)) as Hstep.
    { intros e He. rewrite Hp, poke_app, bind_Ok, app_assoc by lia.
      rewrite IH by (rewrite ?length_app, ?length_drop; lia). rewrite !length_app, drop_drop, <- !app_assoc.
      replace (S (length e + length (escaped src))) with (length e + S (length (escaped src)))%nat by lia.
      by rewrite Nat.add_assoc. }
    cbn [escapeQuotes escaped] in *. rewrite length_app in Hb. destruct (c =? 39); by apply (Hstep _ Hb).
Qed.

Lemma stpcpy_app pre b s :
  (length s < length b)%nat →
  stpcpy (pre ++ b) (length pre) s = Ok ((pre ++ s) ++ 0 :: drop (S (length s)) b, length (pre ++ s)).
Proof.
  intros H. unfold stpcpy. rewrite poke_app by (rewrite length_app; cbn; lia). rewrite bind_Ok, !length_app.
  rewrite <- !app_assoc. cbn [length app]. by rewrite Nat.add_1_r.
Qed.

(** One argument, after the separator. *)
Lemma fill_word pre b a argv :
  (length (quoted a) < length b)%nat →
  ('(mem, to) ← stpcpy (pre ++ b) (length pre) [39];
   '(mem, len) ← escapeQuotes mem to 0 a;
   '(mem, to) ← stpcpy mem (to + len) [39];
   fill mem to argv) =
  fill ((pre ++ quoted a) ++ 0 :: drop (S (length (quoted a))) b) (length (pre ++ quoted a)) argv.
Proof.
  intros H. rewrite length_quoted, <- length_escaped in H. rewrite stpcpy_app by (cbn; lia). rewrite bind_Ok.
  rewrite (escapeQuotes_app (pre ++ [39])) by (rewrite ?Nat.add_0_r; cbn [length]; rewrite ?length_drop; cbn [length]; lia).
  rewrite bind_Ok, Nat.add_0_l, <- length_app.
  rewrite stpcpy_app by (cbn [length]; rewrite length_drop; cbn [length]; rewrite length_drop; lia).
  rewrite bind_Ok. unfold quoted. rewrite <- !app_assoc. f_equal. do 3 f_equal.
  cbn [length drop]. rewrite !drop_drop, length_app, length_app. cbn. done.
Qed.

Lemma fill_more pre b argv :
  pre ≠ [] → (length (more_words argv) ≤ length b)%nat →
  ∃ tail, fill (pre ++ 0 :: b) (length pre) argv = Ok ((pre ++ more_words argv) ++ 0 :: tail).
Proof.
  revert pre b. induction argv as [|a argv IH]; intros pre b Hp Hb.
  - exists b. cbn. by rewrite app_nil_r.
  - change (more_words (a :: argv)) with ([32] ++ quoted a ++ more_words argv) in *. rewrite !length_app in Hb. cbn [length] in Hb.
    cbn [fill]. rewrite (proj2 (Nat.eqb_neq _ _)) by (by destruct pre). rewrite stpcpy_app by (cbn; lia). rewrite bind_Ok.
    rewrite fill_word by (cbn [length]; rewrite length_drop; cbn [length]; lia).
    cbn [drop length].
    destruct (IH ((pre ++ [32]) ++ quoted a) (drop (length (quoted a)) (drop 1 b))) as [tail E].
    + by destruct pre.
    + rewrite !length_drop. lia.
    + exists tail. etransitivity; [exact E|]. by rewrite <- !app_assoc.
Qed.

Lemma until_nul_prefix s rest : no_nul s → until_nul (s ++ 0 :: rest) = s.
Proof. induction 1 as [|c s Hc _ IH]; cbn; [done|]. rewrite (proj2 (Z.eqb_neq _ _) Hc). by rewrite IH. Qed.

Lemma no_nul_escaped a : no_nul a → no_nul (escaped a).
Proof. induction 1 as [|c a Hc _ IH]; cbn; [constructor|]. apply Forall_app. split; [|done]. case_goal; by repeat constructor. Qed.

Lemma no_nul_line argv : Forall no_nul argv → no_nul (line_of argv).
Proof.
  assert (∀ a, no_nul a → no_nul (quoted a)) as Hq.
  { intros a Ha. repeat (apply Forall_app; split); [by repeat constructor|by apply no_nul_escaped|by repeat constructor]. }
  intros H. destruct H as [|a argv Ha H]; [constructor|]. cbn [line_of]. apply Forall_app. split; [by apply Hq|].
  induction H as [|b argv Hb _ IH]; [constructor|]. apply Forall_app. split; [|done]. constructor; [done|by apply Hq].
Qed.

Lemma length_line_of a argv : (length (line_of (a :: argv)) + 1)%nat = line_size (a :: argv).
Proof.
  cbn [line_of]. rewrite length_app, length_quoted, length_more_words. unfold line_size.
  change (sum_list (escaped_length <$> a :: argv)) with (escaped_length a + sum_list (escaped_length <$> argv))%nat.
  cbn [length]. lia.
Qed.

Lemma command_line_ok fresh a argv :
  length fresh = line_size (a :: argv) → Forall no_nul (a :: argv) →
  command_line fresh (a :: argv) = Ok (line_of (a :: argv)).
Proof.
  intros Hl Hn. unfold command_line. cbn [fill Nat.eqb]. rewrite bind_Ok.
  assert (length (quoted a) + length (more_words argv) < length fresh)%nat as Hb.
  { rewrite Hl, <- length_line_of. cbn [line_of]. rewrite length_app. lia. }
  pose proof (fill_word [] fresh a argv) as Hw. cbn [app length] in Hw. rewrite Hw by lia.
  destruct (fill_more (quoted a) (drop (S (length (quoted a))) fresh) argv) as [tail ->]; [done|rewrite length_drop; lia|].
  rewrite bind_Ok, bool_decide_true by (apply elem_of_app; right; left). f_equal.
  apply until_nul_prefix. by apply (no_nul_line (a :: argv)).
Qed.

(** C5: the command line of [osxie <program> args] and [osxie shell args] is safe.  For any
    arguments (at least one, as the callers ensure), whatever quotes, blanks or other
    characters they have, the buffer of [spawnShell] is never overrun and exactly full, and
    a shell that reads the line gets exactly the arguments, none split, joined or
    interpreted. *)
Theorem command_line_roundtrip fresh argv :
  argv ≠ [] → Forall no_nul argv → length fresh = line_size argv →
  ∃ line, command_line fresh argv = Ok line ∧ (length line + 1)%nat = line_size argv ∧
    sh_words Unquoted None line = Some argv.
Proof.
  intros Hne Hn Hl. destruct argv as [|a argv]; [done|]. exists (line_of (a :: argv)).
  split; [by apply command_line_ok|]. split; [apply length_line_of|apply sh_line].
Qed.

(** The address of the socket is complete exactly for short prefixes, although [main]
    accepts 255 bytes: with a longer one the command connects to a wrong path. *)
Theorem sun_path_fits pid prefix :
  sun_path pid prefix = cstr "/proc/" ++ pid ++ cstr "/root" ++ prefix ++ SHELLSPAWN_SOCKPATH ↔
  (length pid + length prefix ≤ 72)%nat.
Proof.
  unfold sun_path, snprintf. set (full := cstr "/proc/" ++ pid ++ cstr "/root" ++ prefix ++ SHELLSPAWN_SOCKPATH).
  assert (length full = 35 + length pid + length prefix)%nat as Hl.
  { unfold full. rewrite !length_app. change (length (cstr "/proc/")) with 6%nat. change (length (cstr "/root")) with 5%nat.
    change (length SHELLSPAWN_SOCKPATH) with 24%nat. lia. }
  split; [|intros H; apply take_ge; lia]. intros H. apply (f_equal length) in H. rewrite length_take in H. lia.
Qed.

(** [osxie shell echo "it's"]. *)
Lemma command_line_roundtrip_witness :
  ∃ line, command_line (replicate 17 7) [cstr "echo"; cstr "it's"] = Ok line ∧
    line = cstr "'echo' 'it'\''s'" ∧ sh_words Unquoted None line = Some [cstr "echo"; cstr "it's"].
Proof.
  destruct (command_line_roundtrip (replicate 17 7) [cstr "echo"; cstr "it's"]) as (line & H1 & _ & H2).
  - done.
  - repeat constructor; done.
  - reflexivity.
  - exists line. split; [exact H1|]. split; [|exact H2]. vm_compute in H1. injection H1 as <-. reflexivity.
Defined.
