(* ===== verification/OsxieSession.v ===== *)
(** * A session: from the osxie command to the program and back

    The bytes [OsxieClient] writes are the input of [Shellspawn]; the status that comes back
    is what the command exits with. *)

From S2P Require Import Prelude Shellspawn OsxieClient.

(** ** What the client writes *)

Notation frame := (Z * list Z)%type.
Definition frames (l : list frame) : list sbyte := concat ((fun f => plain (cmd_bytes f.1 f.2)) <$> l).

Lemma frames_app a b : frames (a ++ b) = frames a ++ frames b.
Proof. unfold frames. by rewrite fmap_app, concat_app. Qed.

Definition str_frame (type : Z) (v : list Z) : frame := (type, v ++ [0]).

(** The variables that reach the program, in order. *)
Definition container_env (u : user_env) (login : list Z) : list (list Z) :=
  [path_var; cstr "TMPDIR=/private/tmp"; cstr "LP_NUM_THREADS=1"; cstr "GALLIUM_NTHREADS=1";
   snprintf 4096 (cstr "HOME=/Users/" ++ login)] ++ filter (fun v => skip_it v = false) (u_environ u).

Definition container_dir (u : user_env) : list Z := snprintf 4096 (SYSTEM_ROOT ++ u_cwd u).

Definition id_frame (u : user_env) : frame := (SHELLSPAWN_SETUIDGID, le_bytes 4 (u_uid u) ++ le_bytes 4 (u_gid u)).

Lemma C_bind_Ok {A B} (m : C A) (f : A → C B) s a s' : m s = Ok (a, s') → (mbind f m) s = f a s'.
Proof. intros H. unfold mbind, C_bind. by rewrite H. Qed.

Section sends.
Context (write_ok : nat → bool) (Hok : ∀ n, write_ok n = true).

(** [m] writes the commands [l] and returns. *)
Definition sends (l : list frame) (m : C unit) : Prop :=
  ∀ s, m s = Ok (tt, mkCstate (out s ++ frames l) (writes s + length l)).

Lemma sends_ret : sends [] (mret tt).
Proof. intros [o w]. cbn. by rewrite app_nil_r, Nat.add_0_r. Qed.

Lemma sends_bind l1 l2 m1 m2 : sends l1 m1 → sends l2 m2 → sends (l1 ++ l2) (_ ← m1; m2).
Proof.
  intros H1 H2 s. change ((_ ← m1; m2) s) with ('(a, s') ← m1 s; m2 s'). rewrite H1, bind_Ok, H2. cbn.
  by rewrite frames_app, length_app, app_assoc, Nat.add_assoc.
Qed.

Lemma sends_data t d : sends [(t, d)] (pushShellspawnCommandData write_ok t d).
Proof.
  intros s. unfold pushShellspawnCommandData, send. rewrite Hok. unfold frames. cbn. by rewrite app_nil_r, Nat.add_1_r.
Qed.
Lemma sends_str t v : sends [str_frame t v] (pushShellspawnCommand write_ok t (Some v)).
Proof. apply sends_data. Qed.

Lemma sends_environ vs :
  sends (str_frame SHELLSPAWN_SETENV <$> filter (fun v => skip_it v = false) vs) (push_environ write_ok vs).
Proof.
  induction vs as [|v vs IH]; [apply sends_ret|]. cbn [push_environ]. destruct (skip_it v) eqn:E.
  - rewrite filter_cons_False by congruence. by apply (sends_bind []); [apply sends_ret|].
  - rewrite filter_cons_True by done. rewrite fmap_cons. by apply (sends_bind [_]); [apply sends_str|].
Qed.

Lemma sends_args argv : sends (str_frame SHELLSPAWN_ADDARG <$> argv) (push_args write_ok argv).
Proof.
  induction argv as [|a argv IH]; [apply sends_ret|]. cbn [push_args]. rewrite fmap_cons.
  by apply (sends_bind [_]); [apply sends_str|].
Qed.

(** The name of the user, and the directory that is made for it. *)
Definition login_of (u : user_env) : option (list Z) :=
  match u_pw_name u with Some l => Some l | None => u_getlogin u end.
Definition home_ok (u : user_env) (login : list Z) : Prop :=
  createDir (u_stat u) (u_mkdir u) (snprintf 4096 (u_prefix u ++ cstr "/Users/" ++ login)) = Ok tt.

Lemma sends_env u login :
  login_of u = Some login → home_ok u login →
  sends (str_frame SHELLSPAWN_SETENV <$> container_env u login) (setupShellspawnEnv write_ok u).
Proof.
  intros Hl Hh. unfold setupShellspawnEnv. unfold container_env. rewrite fmap_app.
  change (str_frame SHELLSPAWN_SETENV <$> [?a; ?b; ?c; ?d; ?e]) with
    ([str_frame SHELLSPAWN_SETENV a] ++ [str_frame SHELLSPAWN_SETENV b] ++ [str_frame SHELLSPAWN_SETENV c] ++
     [str_frame SHELLSPAWN_SETENV d] ++ [str_frame SHELLSPAWN_SETENV e]). rewrite <- !app_assoc.
  repeat (apply sends_bind; [apply sends_str|]). fold (login_of u). rewrite Hl.
  apply (sends_bind []); [|apply (sends_bind [_]); [apply sends_str|apply sends_environ]].
  intros [o w]. unfold lift. rewrite Hh, bind_Ok. cbn. by rewrite app_nil_r, Nat.add_0_r.
Qed.

(** The end of both functions. *)
Lemma sends_go l m u t fds master s :
  sends l m → setupFDs t = Ok (fds, master) →
  (_ ← m; _ ← setupWorkingDir write_ok u; _ ← setupIDs write_ok u;
   '(fds, master) ← lift (setupFDs t); _ ← pushShellspawnCommandFDs write_ok SHELLSPAWN_GO fds; mret master) s =
  Ok (master, mkCstate (out s ++ frames (l ++ [str_frame SHELLSPAWN_CHDIR (container_dir u); id_frame u]) ++ go_frame SHELLSPAWN_GO fds)
        (S (writes s + length l + 2))).
Proof.
  intros Hm Ht. pose proof (sends_str SHELLSPAWN_CHDIR (container_dir u)) as Hw.
  pose proof (sends_data SHELLSPAWN_SETUIDGID (le_bytes 4 (u_uid u) ++ le_bytes 4 (u_gid u))) as Hi.
  rewrite (C_bind_Ok _ _ _ _ _ (Hm s)), (C_bind_Ok _ _ _ _ _ (Hw _)), (C_bind_Ok _ _ _ _ _ (Hi _)).
  rewrite (C_bind_Ok (lift (setupFDs t)) _ _ (fds, master) _) by (unfold lift; by rewrite Ht).
  rewrite (C_bind_Ok (pushShellspawnCommandFDs write_ok SHELLSPAWN_GO fds) _ _ tt _)
    by (unfold pushShellspawnCommandFDs, send; rewrite Hok; reflexivity).
  cbn [out writes]. unfold mret, C_ret. rewrite frames_app, <- !app_assoc. do 2 f_equal. f_equal; [|cbn; lia].
  do 2 f_equal. change [str_frame SHELLSPAWN_CHDIR (container_dir u); id_frame u]
    with ([str_frame SHELLSPAWN_CHDIR (container_dir u)] ++ [id_frame u]). by rewrite frames_app, <- app_assoc.
Qed.
End sends.

(** ** What the server makes of it *)

Definition after (c : cmds) (f : frame) : cmds :=
  match command c f.1 (Z.of_nat (length f.2)) (if bool_decide (f.2 = []) then None else Some (f.2 ++ [0])) None with
  | Next c' => c'
  | _ => c
  end.

Definition frame_ok (f : frame) : Prop := 0 ≤ f.1 < 65536 ∧ f.1 ≠ SHELLSPAWN_GO ∧ Z.of_nat (length f.2) < 65536.

Lemma command_next c t len p ctl : t ≠ SHELLSPAWN_GO → ∃ c', command c t len p ctl = Next c'.
Proof.
  intros Ht. unfold command. rewrite (proj2 (Z.eqb_neq _ _) Ht).
  repeat match goal with |- context [if ?b then _ else _] => destruct b end; destruct p; eauto.
Qed.

Lemma read_frames l fuel c rest :
  Forall frame_ok l → read_commands (length l + fuel) c (frames l ++ rest) = read_commands fuel (foldl after c l) rest.
Proof.
  intros H. revert c. induction H as [|[t d] l (H1 & H2 & H3) _ IH]; intros c; [done|].
  change (frames ((t, d) :: l)) with (plain (cmd_bytes t d) ++ frames l). rewrite <- app_assoc. cbn [length Nat.add foldl].
  rewrite read_command by done. cbn [fst snd] in *. unfold after at 2. cbn [fst snd].
  destruct (command_next c t (Z.of_nat (length d)) (if bool_decide (d = []) then None else Some (d ++ [0])) None H2) as [c' ->].
  apply IH.
Qed.

Lemma read_go fuel c fds rest :
  length fds = 3%nat → read_commands (S fuel) c (go_frame SHELLSPAWN_GO fds ++ rest) = Ok (inr (c, fds), rest).
Proof. intros H. cbn. unfold command. cbn. by rewrite H. Qed.

Lemma length_frames l : (length l ≤ length (frames l))%nat.
Proof.
  induction l as [|f l IH]; [done|]. change (frames (f :: l)) with (plain (cmd_bytes f.1 f.2) ++ frames l).
  rewrite length_app, length_plain. unfold cmd_bytes. rewrite !length_app, !length_le_bytes. cbn [length]. lia.
Qed.

Lemma session_commands l fds :
  Forall frame_ok l → length fds = 3%nat →
  let sock := frames l ++ go_frame SHELLSPAWN_GO fds in
  read_commands (S (length sock)) cmds_init sock = Ok (inr (foldl after cmds_init l, fds), []).
Proof.
  intros Hl Hf sock. apply (read_commands_mono (length l + 1)).
  - unfold sock. rewrite length_app. pose proof (length_frames l). lia.
  - unfold sock. rewrite <- (app_nil_r (go_frame _ _)). rewrite read_frames by done. by apply read_go.
Qed.

(** What the commands of the client do. *)
Lemma until_nul_sent v : no_nul v → until_nul ((v ++ [0]) ++ [0]) = v.
Proof. rewrite <- app_assoc. apply until_nul_prefix. Qed.

Lemma sent_nonempty v : bool_decide (v ++ [0] = []) = false.
Proof. apply bool_decide_false. by destruct v. Qed.

Lemma after_setenv c v :
  no_nul v → after c (str_frame SHELLSPAWN_SETENV v) = mkCmds (c_argv c) (alloc_exec c) (c_calls c ++ [Putenv v]).
Proof. intros H. unfold after, str_frame. cbn [fst snd]. rewrite sent_nonempty. cbn. by rewrite until_nul_sent. Qed.
Lemma after_chdir c v :
  no_nul v → after c (str_frame SHELLSPAWN_CHDIR v) = mkCmds (c_argv c) (alloc_exec c) (c_calls c ++ [Chdir v]).
Proof. intros H. unfold after, str_frame. cbn [fst snd]. rewrite sent_nonempty. cbn. by rewrite until_nul_sent. Qed.
Lemma after_addarg c v :
  no_nul v → after c (str_frame SHELLSPAWN_ADDARG v) = mkCmds (c_argv c ++ [v]) (alloc_exec c) (c_calls c).
Proof. intros H. unfold after, str_frame. cbn [fst snd]. rewrite sent_nonempty. cbn. by rewrite until_nul_sent. Qed.
Lemma after_setexec c v : no_nul v → after c (str_frame SHELLSPAWN_SETEXEC v) = mkCmds [] (Some v) (c_calls c).
Proof. intros H. unfold after, str_frame. cbn [fst snd]. rewrite sent_nonempty. cbn. by rewrite until_nul_sent. Qed.

Lemma i32_mod x : i32 (x mod 2 ^ 32) = i32 x.
Proof. unfold i32, sext. by rewrite Z.mod_mod by lia. Qed.

Lemma after_ids c u :
  after c (id_frame u) = mkCmds (c_argv c) (alloc_exec c) (c_calls c ++ [Setuid (i32 (u_uid u)); Setgid (i32 (u_gid u))]).
Proof.
  unfold after, id_frame. cbn [fst snd]. rewrite length_app, !length_le_bytes, bool_decide_false by done.
  unfold command. cbn -[le_bytes le_val take drop]. do 2 f_equal. rewrite <- app_assoc.
  rewrite (take_app_length' (le_bytes 4 (u_uid u))), (drop_app_length' (le_bytes 4 (u_uid u))) by done.
  rewrite (take_app_length' (le_bytes 4 (u_gid u))) by done. by rewrite !le_val_bytes, !i32_mod.
Qed.

Lemma after_env c vs :
  Forall no_nul vs →
  foldl after c (str_frame SHELLSPAWN_SETENV <$> vs) = mkCmds (c_argv c) (alloc_exec c) (c_calls c ++ (Putenv <$> vs)).
Proof.
  intros H. revert c. induction H as [|v vs Hv _ IH]; intros c; [destruct c; cbn; by rewrite app_nil_r|].
  rewrite !fmap_cons. cbn [foldl]. rewrite after_setenv, IH by done. cbn. by rewrite <- app_assoc.
Qed.

Lemma after_args c vs :
  Forall no_nul vs →
  foldl after c (str_frame SHELLSPAWN_ADDARG <$> vs) = mkCmds (c_argv c ++ vs) (alloc_exec c) (c_calls c).
Proof.
  intros H. revert c. induction H as [|v vs Hv _ IH]; intros c; [destruct c; cbn; by rewrite app_nil_r|].
  rewrite fmap_cons. cbn [foldl]. rewrite after_addarg, IH by done. cbn. by rewrite <- app_assoc.
Qed.

(** ** How the program ends and what the command exits with *)

(** The end of a process, the status [waitpid] gives for it, and the code a shell reports. *)
Inductive outcome := Exited (code : Z) | Killed (sig : Z) (core : bool).
Definition outcome_ok (o : outcome) : Prop :=
  match o with Exited code => 0 ≤ code < 256 | Killed sig _ => 1 ≤ sig < 127 end.
Definition wait_status (o : outcome) : Z :=
  match o with Exited code => code * 256 | Killed sig core => sig + (if core then 128 else 0) end.
Definition shell_code (o : outcome) : Z :=
  match o with Exited code => code | Killed sig _ => 128 + sig end.

(** The exit code of the command after a run of the server. *)
Definition osxie_exit (tr : list call) : Z :=
  match omap reply_of tr with [s] => reply_exit (le_bytes 4 s) | _ => 1 end.

Lemma land_127 x : Z.land x 127 = x mod 128.
Proof. apply (Z.land_ones x 7). lia. Qed.
Lemma land_255 x : Z.land x 255 = x mod 256.
Proof. apply (Z.land_ones x 8). lia. Qed.

Lemma exit_status_outcome o : outcome_ok o → exit_status (wait_status o) = shell_code o ∧ 0 ≤ shell_code o < 256.
Proof.
  intros Ho. unfold exit_status, WIFSIGNALED, WSTATUS, WEXITSTATUS. rewrite !land_127, land_255, Z.shiftr_div_pow2 by lia.
  change (2 ^ 8) with 256. destruct o as [code|sig core]; cbn [wait_status shell_code outcome_ok] in *.
  - replace ((code * 256) mod 128) with 0 by lia. cbn [Z.eqb negb andb]. split; [|lia]. rewrite Z.div_mul by lia. by apply Z.mod_small.
  - replace ((sig + (if core then 128 else 0)) mod 128) with sig by (destruct core; lia).
    rewrite (proj2 (Z.eqb_neq sig 127)), (proj2 (Z.eqb_neq sig 0)) by lia. cbn [negb andb]. lia.
Qed.

Lemma reply_exit_code s : 0 ≤ s < 256 → reply_exit (le_bytes 4 s) = s.
Proof.
  intros H. unfold reply_exit. rewrite length_le_bytes, le_val_bytes_small, i32_small by (cbn; lia). cbn [Nat.eqb negb].
  rewrite (proj2 (Z.ltb_ge _ _)) by lia. rewrite land_255. apply Z.mod_small. lia.
Qed.

Lemma reply_exit_error n : 0 < n < 2 ^ 31 → reply_exit (le_bytes 4 (- n)) = if n =? ENOENT then 127 else 126.
Proof.
  intros H. unfold reply_exit. rewrite length_le_bytes, le_val_bytes. change (256 ^ Z.of_nat 4) with (2 ^ 32).
  rewrite i32_mod, i32_small by lia. cbn [Nat.eqb negb]. rewrite (proj2 (Z.ltb_lt _ _)) by lia. by rewrite Z.opp_involutive.
Qed.

Definition idle (ev : kev) : Prop := ev = KOther ∨ ev = KFail EINTR.

Lemma signal_loop_idle e pid fds evs sock :
  Forall idle evs → signal_loop e pid fds (evs ++ [KExit]) sock = spawn_done e pid fds.
Proof. induction 1 as [|ev evs [-> | ->] _ IH]; [done|done|]. cbn [app signal_loop]. exact IH. Qed.

(** The server runs the program and tells the client how it went. *)
Definition runs (e : shell_env) (setup : list call) (sock : list sbyte) : Prop :=
  (∀ n evs, e_exec e = Some n → 0 < n < 2 ^ 31 →
     ∃ tr, Shellspawn.spawnShell e evs sock = Ok (setup ++ tr) ∧
       osxie_exit (setup ++ tr) = (if n =? ENOENT then 127 else 126)) ∧
  (∀ o evs, e_exec e = None → e_kqueue e = true → outcome_ok o → e_wait e = Some (wait_status o) → Forall idle evs →
     ∃ tr, Shellspawn.spawnShell e (evs ++ [KExit]) sock = Ok (setup ++ tr) ∧ osxie_exit (setup ++ tr) = shell_code o).

Lemma session_runs e pid sock c fds :
  read_commands (S (length sock)) cmds_init sock = Ok (inr (c, fds), []) → e_pipe e = true → e_fork e = Some pid →
  runs e (c_calls c ++ prepare fds ++ [Fork pid; Exec (default bash (alloc_exec c)) (c_argv c)]) sock.
Proof.
  intros Hr Hp Hf. pose proof (read_commands_setup _ cmds_init _ _ _ (Forall_nil_2 _) Hr) as [Hs Hl].
  destruct (setup_quiet _ Hs) as (Q1 & _). destruct (prepare_quiet fds Hl) as (P1 & _).
  assert (∀ tr, osxie_exit ((c_calls c ++ prepare fds ++ [Fork pid; Exec (default bash (alloc_exec c)) (c_argv c)]) ++ tr) =
                osxie_exit tr) as Hx.
  { intros tr. unfold osxie_exit. by rewrite !omap_app, Q1, P1. }
  split.
  - intros n evs He Hn. exists (spawn_error e BadExec pid fds). rewrite Hx. split.
    + unfold Shellspawn.spawnShell. rewrite Hr, bind_Ok, Hp, Hf, He. cbn [negb default]. rewrite !bool_decide_true by done.
      cbn [andb]. rewrite bind_Ok. by rewrite <- !app_assoc.
    + unfold osxie_exit, spawn_error. rewrite He. change (default 0 (Some n)) with n. rewrite (proj2 (Z.eqb_neq n 0)) by lia.
      rewrite !omap_app, reply_Close. cbn. destruct (pid =? -1); cbn; by apply reply_exit_error.
  - intros o evs He Hk Ho Hw Hi. exists ([Kill pid SIGKILL] ++ (Close <$> fds) ++ [Waitpid pid; Reply (exit_status (wait_status o)); CloseClient]).
    rewrite Hx. split.
    + unfold Shellspawn.spawnShell. rewrite Hr, bind_Ok, Hp, Hf, He, Hk. cbn [negb default].
      rewrite (bool_decide_false (is_Some None)) by (by intros [? ?]). rewrite andb_false_r, signal_loop_idle by done.
      unfold spawn_done. rewrite Hw. cbn [access]. rewrite !bind_Ok. by rewrite <- !app_assoc.
    + unfold osxie_exit. rewrite !omap_app, reply_Close. cbn. destruct (exit_status_outcome o Ho) as [-> Hb].
      by apply reply_exit_code.
Qed.

(** ** The two kinds of session *)

Definition sendable (v : list Z) : Prop := no_nul v ∧ Z.of_nat (length v) < 65535.

(** A user whose name is known, whose home can be made, and whose variables fit. *)
Record user_ok (u : user_env) (login : list Z) : Prop := mkUserOk {
  uo_login : login_of u = Some login;
  uo_home : home_ok u login;
  uo_name : no_nul login;
  uo_cwd : no_nul (u_cwd u);
  uo_environ : Forall sendable (u_environ u);
}.

Lemma no_nul_take n v : no_nul v → no_nul (take n v).
Proof. apply Forall_take. Qed.

Lemma sendable_snprintf v : no_nul v → sendable (snprintf 4096 v).
Proof. intros H. split; [by apply no_nul_take|]. unfold snprintf. rewrite length_take. lia. Qed.

Definition no_nulb (v : list Z) : bool := forallb (fun c => negb (c =? 0)) v.

Lemma no_nulb_spec v : no_nulb v = true → no_nul v.
Proof.
  intros H. apply Forall_forall. intros c Hc%list_elem_of_In. unfold no_nulb in H. rewrite forallb_forall in H.
  specialize (H c Hc). by apply negb_true_iff, Z.eqb_neq in H.
Qed.

Lemma no_nul_app_const a v : no_nulb a = true → no_nul v → no_nul (a ++ v).
Proof. intros Ha Hv. apply Forall_app. split; [by apply no_nulb_spec|done]. Qed.

Lemma sendable_const v : no_nulb v && (Z.of_nat (length v) <? 65535) = true → sendable v.
Proof. intros [H1 H2%Z.ltb_lt]%andb_true_iff. split; [by apply no_nulb_spec|done]. Qed.

Lemma container_env_sendable u login : user_ok u login → Forall sendable (container_env u login).
Proof.
  intros [_ _ Hn _ He]. unfold container_env. repeat apply Forall_cons_2.
  1-4: by apply sendable_const.
  - apply sendable_snprintf, no_nul_app_const; done.
  - apply Forall_forall. intros v [_ Hv]%list_elem_of_filter. by apply (proj1 (Forall_forall _ _) He).
Qed.

Lemma container_dir_sendable u login : user_ok u login → sendable (container_dir u).
Proof. intros H. apply sendable_snprintf, no_nul_app_const; [done|apply H]. Qed.

Lemma str_frame_ok t v : 0 ≤ t < 65536 → t ≠ SHELLSPAWN_GO → sendable v → frame_ok (str_frame t v).
Proof. intros Ht Hg [_ Hl]. split_and!; [apply Ht|apply Ht|done|]. cbn. rewrite length_app. cbn. lia. Qed.

Lemma str_frames_ok t vs : 0 ≤ t < 65536 → t ≠ SHELLSPAWN_GO → Forall sendable vs → Forall frame_ok (str_frame t <$> vs).
Proof. intros Ht Hg H. apply Forall_fmap. eapply Forall_impl; [exact H|]. intros v Hv. by apply str_frame_ok. Qed.

Lemma sendables_no_nul vs : Forall sendable vs → Forall no_nul vs.
Proof. intros H. eapply Forall_impl; [exact H|]. by intros v [Hv _]. Qed.

Lemma C_bind_assoc3 {A} (a b c : C unit) (f : C A) s :
  (_ ← (_ ← a; _ ← b; c); f) s = (_ ← a; _ ← b; _ ← c; f) s.
Proof.
  unfold mbind, C_bind. destruct (a s) as [[[] s1]| | |]; [|done..]. cbn. by destruct (b s1) as [[[] s2]| | |].
Qed.

Lemma setupFDs_length t fds master : setupFDs t = Ok (fds, master) → length fds = 3%nat.
Proof. unfold setupFDs. destruct (t_in t); [destruct (t_pty t) as [[]|]; [|done]|]; by intros [= <- _]. Qed.

(** Any commands, followed by what both functions send at the end. *)
Lemma finish_session write_ok u login t fds master l m :
  (∀ n, write_ok n = true) → user_ok u login → setupFDs t = Ok (fds, master) → sends l m → Forall frame_ok l →
  ∃ s, (_ ← m; _ ← setupWorkingDir write_ok u; _ ← setupIDs write_ok u;
        '(fds, master) ← lift (setupFDs t); _ ← pushShellspawnCommandFDs write_ok SHELLSPAWN_GO fds; mret master) (mkCstate [] 0) =
       Ok (master, s) ∧
    ∀ e pid, e_pipe e = true → e_fork e = Some pid →
      let c := foldl after cmds_init l in
      runs e ((c_calls c ++ [Chdir (container_dir u); Setuid (i32 (u_uid u)); Setgid (i32 (u_gid u))]) ++
              prepare fds ++ [Fork pid; Exec (default bash (alloc_exec c)) (c_argv c)]) (out s).
Proof.
  intros Hok Hu Ht Hm Hl. pose proof (container_dir_sendable u login Hu) as Hd. eexists.
  split; [by apply (sends_go write_ok Hok l m u t fds master)|]. intros e pid Hp Hf c. cbn [out app].
  set (l' := l ++ [str_frame SHELLSPAWN_CHDIR (container_dir u); id_frame u]).
  assert (Forall frame_ok l') as Hl'.
  { apply Forall_app. split; [done|]. repeat apply Forall_cons_2; [by apply str_frame_ok| |by apply Forall_nil_2].
    by split_and!. }
  pose proof (session_runs e pid _ _ fds (session_commands l' fds Hl' (setupFDs_length _ _ _ Ht)) Hp Hf) as Hr.
  assert (foldl after cmds_init l' = mkCmds (c_argv c) (alloc_exec c)
    (c_calls c ++ [Chdir (container_dir u); Setuid (i32 (u_uid u)); Setgid (i32 (u_gid u))])) as E.
  { unfold l'. rewrite foldl_app. fold c. cbn [foldl]. rewrite after_chdir, after_ids by apply Hd. cbn. by rewrite <- app_assoc. }
  rewrite E in Hr. exact Hr.
Qed.

(** The variables a program finds: the last one of a name. *)
Definition getenv (env : list (list Z)) (name : list Z) : option (list Z) :=
  last (filter (fun v => var_name v = name) env).


Lemma C_bind_assoc2 {A} (a b : C unit) (f : C A) s : (_ ← (_ ← a; b); f) s = (_ ← a; _ ← b; f) s.
Proof. unfold mbind, C_bind. by destruct (a s) as [[[] s1]| | |]. Qed.

(** [osxie shell] and [osxie <program>].  shellspawn executes a login shell; with
    arguments it gets [-c] and a line that the shell reads as exactly those arguments.  The
    environment, directory, identity, descriptors and the exit code are as for
    [osxie exec]. *)
Theorem osxie_shell_session write_ok sock ats u login t fds master fresh argv :
  (∀ n, write_ok n = true) → connectToShellspawn sock ats = Ok tt → user_ok u login → setupFDs t = Ok (fds, master) →
  match argv with
  | Some args => args ≠ [] ∧ Forall no_nul args ∧ length fresh = line_size args ∧ Z.of_nat (line_size args) < 65536
  | None => True
  end →
  ∃ s words, spawnShell write_ok sock ats u t fresh argv (mkCstate [] 0) = Ok (master, s) ∧
    match argv with
    | Some args => ∃ line, words = [cstr "-c"; line] ∧ sh_words Unquoted None line = Some args
    | None => words = []
    end ∧
    ∀ e pid, e_pipe e = true → e_fork e = Some pid →
      runs e (((Putenv <$> container_env u login) ++ [Chdir (container_dir u); Setuid (i32 (u_uid u)); Setgid (i32 (u_gid u))]) ++
              prepare fds ++ [Fork pid; Exec bash ([bash; cstr "--login"] ++ words)]) (out s).
Proof.
  intros Hok Hc Hu Ht Ha. pose proof (container_env_sendable u login Hu) as He.
  assert (∃ buffer words, match argv with Some argv => l ← command_line fresh argv; Ok (Some l) | None => Ok None end = Ok buffer ∧
    words = match buffer with Some line => [cstr "-c"; line] | None => [] end ∧ Forall sendable words ∧
    match argv with
    | Some args => ∃ line, words = [cstr "-c"; line] ∧ sh_words Unquoted None line = Some args
    | None => words = []
    end) as (buffer & words & Hb & Hw & Hsw & Hargs).
  { destruct argv as [args|]; [|exists None, []; by split_and!]. destruct Ha as (Hne & Hn & Hf & Hl).
    destruct args as [|a args]; [done|]. exists (Some (line_of (a :: args))), [cstr "-c"; line_of (a :: args)].
    split_and!; [by rewrite command_line_ok|done| |by exists (line_of (a :: args)); split; [|apply sh_line]].
    repeat apply Forall_cons_2; [by apply sendable_const| |by apply Forall_nil_2]. split; [by apply no_nul_line|].
    pose proof (length_line_of a args). lia. }
  set (l := (str_frame SHELLSPAWN_SETENV <$> container_env u login) ++ (str_frame SHELLSPAWN_ADDARG <$> words)).
  destruct (finish_session write_ok u login t fds master l
    (_ ← setupShellspawnEnv write_ok u;
     match buffer with
     | Some line => _ ← pushShellspawnCommand write_ok SHELLSPAWN_ADDARG (Some (cstr "-c"));
                    pushShellspawnCommand write_ok SHELLSPAWN_ADDARG (Some line)
     | None => mret tt
     end)) as (s & Hs & Hr); [done..| | |].
  - apply sends_bind; [by apply sends_env; [|apply Hu..]|]. rewrite Hw. destruct buffer as [line|]; [|apply sends_ret].
    apply (sends_bind [_] [_]); by apply sends_str.
  - unfold l. rewrite Forall_app. split; by apply str_frames_ok.
  - exists s, words. split; [|split; [done|]].
    + rewrite C_bind_assoc2 in Hs. unfold spawnShell. rewrite (C_bind_Ok _ _ _ buffer (mkCstate [] 0)) by (unfold lift; by rewrite Hb).
      rewrite (C_bind_Ok _ _ _ tt (mkCstate [] 0)) by (unfold lift; by rewrite Hc). exact Hs.
    + intros e pid Hp Hf. specialize (Hr e pid Hp Hf). cbn zeta in Hr. unfold l in Hr. rewrite foldl_app in Hr.
      rewrite after_env, after_args in Hr; [exact Hr|by apply sendables_no_nul..].
Qed.

(** ** Signals *)

Lemma signum_cases a :
  1 ≤ a < 32 → (signum_linux_to_bsd a = 0 ↔ a = 16 ∨ a = 30) ∧ 0 ≤ signum_linux_to_bsd a < 32 ∧
  ∀ b, 1 ≤ b < 32 → signum_linux_to_bsd a = signum_linux_to_bsd b → signum_linux_to_bsd a ≠ 0 → a = b.
Proof.
  assert (forallb (fun a => let s := signum_linux_to_bsd a in
    Bool.eqb (s =? 0) ((a =? 16) || (a =? 30)) && (0 <=? s) && (s <? 32) &&
    forallb (fun b => (s =? 0) || negb (s =? signum_linux_to_bsd b) || (a =? b)) (seqZ 1 31)) (seqZ 1 31) = true) as H by done.
  rewrite forallb_forall in H. intros Ha. specialize (H a). rewrite <- list_elem_of_In, elem_of_seqZ in H. specialize (H ltac:(lia)).
  cbn zeta in H. apply andb_true_iff in H as [H Hb]. apply andb_true_iff in H as [H H3]. apply andb_true_iff in H as [H1 H2].
  apply Bool.eqb_prop in H1. split_and!; [|lia..|].
  - destruct (Z.eqb_spec (signum_linux_to_bsd a) 0), (Z.eqb_spec a 16), (Z.eqb_spec a 30); cbn in H1; try done; lia.
  - intros b Hb' E Hn. rewrite forallb_forall in Hb. specialize (Hb b). rewrite <- list_elem_of_In, elem_of_seqZ in Hb.
    specialize (Hb ltac:(lia)). rewrite <- E, (proj2 (Z.eqb_neq _ _) Hn), Z.eqb_refl in Hb. by apply Z.eqb_eq in Hb.
Qed.

(** The signal the command passes on. *)
Definition sent_signal (master signo : Z) : Z :=
  if (master =? -1) && (signo =? SIGINT) then SIGTERM else signo.

(** Signals reach the program.  Each of the signals 1 to 31 the command gets (its own
    [SIGINT] as [SIGTERM] when there is no terminal) is delivered by shellspawn to the
    foreground group's process, or the shell's group, as the Darwin signal of that number,
    and different signals stay different; only SIGSTKFLT and SIGPWR, which Darwin lacks, are
    dropped.  The container is killed exactly when SIGTERM was sent. *)
Theorem signal_forwarded write_ok master signo e pid fds fg evs rest :
  (∀ n, write_ok n = true) → 1 ≤ signo < 32 →
  let sent := sent_signal master signo in
  ∃ kill s, signalHandler write_ok master signo (mkCstate [] 0) = Ok (kill, s) ∧ (kill = true ↔ sent = SIGTERM) ∧
    signal_loop e pid fds (KRead fg :: evs) (out s ++ rest) =
      (tr ← signal_loop e pid fds evs rest;
       Ok ((if signum_linux_to_bsd sent =? 0 then [] else [Kill (default (- pid) fg) (signum_linux_to_bsd sent)]) ++ tr)) ∧
    (signum_linux_to_bsd sent = 0 ↔ sent = 16 ∨ sent = 30) ∧
    ∀ b, 1 ≤ b < 32 → signum_linux_to_bsd sent = signum_linux_to_bsd b → signum_linux_to_bsd sent ≠ 0 → sent = b.
Proof.
  intros Hok Hs sent. unfold sent_signal in sent.
  assert (1 ≤ sent < 32) as Hs' by (unfold sent, SIGTERM; destruct (_ && _); lia).
  assert (∀ n (b : bool), (_ ← pushShellspawnCommandData write_ok SHELLSPAWN_SIGNAL (le_bytes 4 n); mret b) (mkCstate [] 0) =
    Ok (b, mkCstate (frames [(SHELLSPAWN_SIGNAL, le_bytes 4 n)]) 1)) as Hpush.
  { intros n b. by rewrite (C_bind_Ok _ _ _ _ _ (sends_data write_ok Hok _ _ _)). }
  exists (sent =? SIGTERM), (mkCstate (frames [(SHELLSPAWN_SIGNAL, le_bytes 4 sent)]) 1). split_and!.
  - unfold signalHandler, sent. destruct ((master =? -1) && (signo =? SIGINT)) eqn:E.
    + apply Hpush.
    + destruct (Z.eqb_spec signo SIGTERM); apply Hpush.
  - apply Z.eqb_eq.
  - cbn [out]. unfold frames. cbn [fmap list_fmap concat fst snd]. rewrite app_nil_r. unfold cmd_bytes. rewrite app_assoc, plain_app, <- app_assoc.
    set (hdr := le_bytes 2 SHELLSPAWN_SIGNAL ++ le_bytes 2 (Z.of_nat (length (le_bytes 4 sent)))). cbn [signal_loop].
    change (read sizeof_cmd) with (read (length hdr)). rewrite (read_plain hdr) by done.
    change (negb (length hdr =? sizeof_cmd)%nat) with false. change (negb (le_val (take 2 hdr) =? SHELLSPAWN_SIGNAL)) with false.
    change (negb (le_val (drop 2 hdr) =? 4)) with false. cbn [negb].
    change (read 4) with (read (length (le_bytes 4 sent))). rewrite read_plain by done. rewrite length_le_bytes. cbn [Nat.eqb negb].
    rewrite le_val_bytes_small, i32_small by (cbn; lia). by destruct fg.
  - apply signum_cases; lia.
  - apply signum_cases; lia.
Qed.

(** ** The environment *)

Lemma take_var_name v : take (length (var_name v)) v = var_name v.
Proof. induction v as [|c v IH]; [done|]. cbn. destruct (c =? 61); [done|]. cbn. by rewrite IH. Qed.

Lemma skip_it_spec v : skip_it v = true ↔ var_name v ∈ skip_vars.
Proof.
  unfold skip_it. rewrite existsb_exists, take_var_name. split.
  - intros (s & Hs & [H1%Nat.eqb_eq H2%bytes_eqb_spec]%andb_true_iff). rewrite take_ge in H2 by lia. rewrite H2. by apply list_elem_of_In.
  - intros H. exists (var_name v). rewrite Nat.eqb_refl, take_ge by done. split; [by apply list_elem_of_In|]. by apply bytes_eqb_spec.
Qed.

Lemma filter_environ name vs :
  filter (fun v => var_name v = name) (filter (fun v => skip_it v = false) vs) =
    if bool_decide (name ∈ skip_vars) then [] else filter (fun v => var_name v = name) vs.
Proof.
  induction vs as [|v vs IH]; [by case_bool_decide|]. destruct (skip_it v) eqn:E.
  - rewrite (filter_cons_False _ v vs) by congruence. rewrite IH. apply skip_it_spec in E. case_bool_decide as H; [done|].
    rewrite filter_cons_False; [done|]. congruence.
  - rewrite filter_cons_True by done. assert (var_name v ∉ skip_vars) as Hv by (intros Hv%skip_it_spec; congruence).
    destruct (decide (var_name v = name)) as [<-|Hn].
    + rewrite bool_decide_false in * by done. by rewrite !filter_cons_True, IH.
    + rewrite !filter_cons_False by done. exact IH.
Qed.

Lemma home_var login : var_name (snprintf 4096 (cstr "HOME=/Users/" ++ login)) = cstr "HOME".
Proof. unfold snprintf. rewrite take_app_ge by (cbn; lia). reflexivity. Qed.

Lemma getenv_app a b n : getenv (a ++ b) n = match getenv b n with Some v => Some v | None => getenv a n end.
Proof. unfold getenv. by rewrite filter_app, last_app. Qed.

Lemma getenv_one v n : getenv [v] n = if bool_decide (var_name v = n) then Some v else None.
Proof. unfold getenv. rewrite filter_cons, filter_nil. by case_decide; case_bool_decide. Qed.

Definition fixed_env : list (list Z) := [path_var; cstr "TMPDIR=/private/tmp"; cstr "LP_NUM_THREADS=1"; cstr "GALLIUM_NTHREADS=1"].

Lemma getenv_container u login n :
  getenv (container_env u login) n =
    match (if bool_decide (n ∈ skip_vars) then None else getenv (u_environ u) n) with
    | Some v => Some v
    | None => if bool_decide (cstr "HOME" = n) then Some (snprintf 4096 (cstr "HOME=/Users/" ++ login)) else getenv fixed_env n
    end.
Proof.
  unfold container_env. rewrite getenv_app.
  change ([?a; ?b; ?c; ?d; ?e]) with (fixed_env ++ [e]). rewrite getenv_app, getenv_one, home_var.
  assert (getenv (filter (fun v => skip_it v = false) (u_environ u)) n =
    if bool_decide (n ∈ skip_vars) then None else getenv (u_environ u) n) as ->.
  { unfold getenv. rewrite filter_environ. by destruct (bool_decide _). }
  destruct (if bool_decide (n ∈ skip_vars) then _ else _); [done|]. by destruct (bool_decide _).
Qed.

(** The environment of the program.  [PATH], [TMPDIR] and [HOME] are the container's,
    whatever the user's are; [LP_NUM_THREADS] and [GALLIUM_NTHREADS] are 1 unless the user
    set them; every other variable is the user's. *)
Theorem container_environment u login name :
  let env := getenv (container_env u login) in
  env (cstr "PATH") = Some path_var ∧ env (cstr "TMPDIR") = Some (cstr "TMPDIR=/private/tmp") ∧
  env (cstr "HOME") = Some (snprintf 4096 (cstr "HOME=/Users/" ++ login)) ∧
  env (cstr "LP_NUM_THREADS") = Some (default (cstr "LP_NUM_THREADS=1") (getenv (u_environ u) (cstr "LP_NUM_THREADS"))) ∧
  env (cstr "GALLIUM_NTHREADS") = Some (default (cstr "GALLIUM_NTHREADS=1") (getenv (u_environ u) (cstr "GALLIUM_NTHREADS"))) ∧
  (name ∉ [cstr "PATH"; cstr "TMPDIR"; cstr "HOME"; cstr "LP_NUM_THREADS"; cstr "GALLIUM_NTHREADS"] →
   env name = getenv (u_environ u) name).
Proof.
  cbn zeta. rewrite !getenv_container. split_and!; [reflexivity..| | |].
  - change (bool_decide (cstr "LP_NUM_THREADS" ∈ skip_vars)) with false. by destruct (getenv (u_environ u) _).
  - change (bool_decide (cstr "GALLIUM_NTHREADS" ∈ skip_vars)) with false. by destruct (getenv (u_environ u) _).
  - intros Hn. rewrite !not_elem_of_cons in Hn. destruct Hn as (N1 & N2 & N3 & N4 & N5 & _).
    rewrite bool_decide_false by (unfold skip_vars; rewrite !elem_of_cons, elem_of_nil; naive_solver).
    destruct (getenv (u_environ u) name); [done|]. rewrite bool_decide_false by congruence.
    unfold getenv, fixed_env. by rewrite !filter_cons_False by (intros H; symmetry in H; contradiction).
Qed.

(** ** Values that do not fit *)

Lemma le_bytes_low x : le_bytes 2 x = le_bytes 2 (x mod 65536).
Proof. cbn [le_bytes]. f_equal; [lia|]. f_equal. lia. Qed.

(** Values of 65535 bytes and more break the protocol.  The length of a command is stored
    in 16 bits while the whole value is written: shellspawn sets the variable to the first
    [n] bytes, where [n] is the length modulo 65536 (to nothing if that is 0), and reads the
    rest of the value as commands. *)
Theorem long_value_desync fuel c v rest :
  no_nul v → 65536 ≤ Z.of_nat (length v) + 1 →
  let n := Z.to_nat ((Z.of_nat (length v) + 1) mod 65536) in
  read_commands (S fuel) c (plain (cmd_bytes SHELLSPAWN_SETENV (v ++ [0])) ++ rest) =
  read_commands fuel (if (n =? 0)%nat then c else mkCmds (c_argv c) (alloc_exec c) (c_calls c ++ [Putenv (take n v)]))
    (plain (drop n (v ++ [0])) ++ rest).
Proof.
  intros Hn Hl n. pose proof (Z.mod_pos_bound (Z.of_nat (length v) + 1) 65536 ltac:(lia)) as Hb.
  assert (Z.of_nat n = (Z.of_nat (length v) + 1) mod 65536) as En by (unfold n; by rewrite Z2Nat.id by lia).
  rewrite <- En in Hb. assert (n ≤ length v)%nat as Hb' by lia. clearbody n.
  assert (cmd_bytes SHELLSPAWN_SETENV (v ++ [0]) = cmd_bytes SHELLSPAWN_SETENV (take n (v ++ [0])) ++ drop n (v ++ [0])) as ->.
  { unfold cmd_bytes. rewrite <- !app_assoc, take_drop, length_take, length_app. cbn [length].
    rewrite (le_bytes_low (Z.of_nat (length v + 1))), Nat2Z.inj_add. change (Z.of_nat 1) with 1. rewrite <- En. do 3 f_equal. lia. }
  rewrite plain_app, <- app_assoc, take_app_le by lia. rewrite read_command; [|done|rewrite length_take; lia].
  destruct (Nat.eqb_spec n 0) as [->|Hz]; [done|].
  rewrite bool_decide_false by (intros E; apply (f_equal length) in E; rewrite length_take in E; cbn in E; lia).
  unfold command. cbn. rewrite until_nul_prefix by (by apply no_nul_take). done.
Qed.

(** ** Witnesses *)

Definition example_user : user_env :=
  mkUserEnv (Some (cstr "joe")) None (cstr "/home/joe/.osxie") (cstr "/home/joe") 1000 1000 [cstr "PATH=/opt/bin"; cstr "LANG=C"]
    (fun _ => IsDir) (fun _ => true).

Lemma example_user_ok : user_ok example_user (cstr "joe").
Proof.
  split; [done|done|by apply no_nulb_spec|by apply no_nulb_spec|]. repeat apply Forall_cons_2; [by apply sendable_const..|by apply Forall_nil_2].
Qed.

Definition example_tty : tty_env := mkTtyEnv false false false 7 None.
Definition example_shell (w : Z) : shell_env := mkShellEnv (fun _ => 0) true (Some 42) None true (Some w).


(** [osxie shell echo "it's"], which exits with 3. *)
Lemma osxie_shell_session_witness :
  ∃ s tr, spawnShell (fun _ => true) true [mkAttempt true true None] example_user example_tty (replicate 17 7)
            (Some [cstr "echo"; cstr "it's"]) (mkCstate [] 0) = Ok (-1, s) ∧
    Shellspawn.spawnShell (example_shell 768) [KFail EINTR; KExit] (out s) = Ok tr ∧ osxie_exit tr = 3.
Proof.
  destruct (osxie_shell_session (fun _ => true) true [mkAttempt true true None] example_user (cstr "joe") example_tty [7; 1; 2] (-1)
              (replicate 17 7) (Some [cstr "echo"; cstr "it's"])) as (s & words & Hs & _ & Hr).
  - done.
  - done.
  - exact example_user_ok.
  - done.
  - split_and!; [done|repeat constructor; done|reflexivity|done].
  - destruct (Hr (example_shell 768) 42) as [_ H]; [done|done|].
    destruct (H (Exited 3) [KFail EINTR]) as (tr & H1 & H2); [done|done|cbn; lia|done|repeat constructor; by right|].
    eexists s, _. split; [exact Hs|]. split; [exact H1|exact H2].
Defined.

(** SIGWINCH from a terminal. *)
Lemma signal_forwarded_witness :
  ∃ s, signalHandler (fun _ => true) 5 28 (mkCstate [] 0) = Ok (false, s) ∧
    ∃ tr, signal_loop (example_shell 0) 42 [7; 1; 2] [KRead (Some 43); KExit] (out s) = Ok (Kill 43 28 :: tr).
Proof.
  destruct (signal_forwarded (fun _ => true) 5 28 (example_shell 0) 42 [7; 1; 2] (Some 43) [KExit] []) as (k & s & H1 & _ & H2 & _).
  - done.
  - lia.
  - exists s. assert (k = false) as -> by (vm_compute in H1; congruence). split; [exact H1|]. rewrite app_nil_r in H2.
    eexists. rewrite H2. reflexivity.
Defined.

Lemma container_environment_witness :
  getenv (container_env example_user (cstr "joe")) (cstr "LANG") = Some (cstr "LANG=C").
Proof.
  destruct (container_environment example_user (cstr "joe") (cstr "LANG")) as (_ & _ & _ & _ & _ & H).
  rewrite H; [reflexivity|]. apply (bool_decide_unpack _). vm_compute. exact I.
Defined.

Lemma long_value_desync_witness :
  let v := replicate 70000 65 in
  read_commands 9 cmds_init (plain (cmd_bytes SHELLSPAWN_SETENV (v ++ [0])) ++ []) =
  read_commands 8 (mkCmds [bash; cstr "--login"] None [Putenv (take 4465 v)]) (plain (drop 4465 (v ++ [0])) ++ []).
Proof.
  intros v. apply (long_value_desync 8 cmds_init v []).
  - by apply Forall_replicate.
  - unfold v. rewrite length_replicate. apply Z.leb_le. vm_compute. reflexivity.
Defined.
