(* ===== verification/OsxieMain.v ===== *)
(** * Finding the container and choosing what to run ([src/src/startup/osxie.c])

    [main] of the osxie command up to the calls of [spawnShell] and [spawnBinary]: the prefix
    and its owner, the init process recorded in the prefix, starting the container, and the
    subcommands.  [Err] is an exit code. *)

From stdpp Require Import pretty.
From S2P Require Import Prelude Shellspawn OsxieClient.

(** ** The prefix *)

Definition defaultPrefixPath (home : option (list Z)) : option (list Z) :=
  h ← home; Some (h ++ cstr "/.osxie").

(** [while (workdir[len-1] == '/') len--]: the index may leave the array. *)
Fixpoint strip_slashes (len : nat) (workdir : list Z) : res Z nat :=
  match len with
  | O => UB
  | S n => c ← access (workdir !! n); if c =? 47 then strip_slashes n workdir else Ok (S n)
  end.

(** The directory of [setupWorkdir]. *)
Definition workdir_path (prefix : list Z) : res Z (list Z) :=
  len ← strip_slashes (length prefix) prefix; Ok (take len prefix ++ cstr ".workdir").

Definition setupWorkdir (stat : list Z → stat_answer) (mkdir : list Z → bool) (prefix : list Z) : res Z unit :=
  path ← workdir_path prefix; createDir stat mkdir path.

(** Whether the prefix is set up. *)
Definition checkPrefixDir (stat : list Z → stat_answer) (prefix : list Z) : res Z bool :=
  match stat prefix with
  | NotDir => Err 1
  | IsDir => match stat (snprintf 4096 (prefix ++ cstr "/Volumes")) with IsDir => Ok true | _ => Ok false end
  | NoStat errno => if errno =? ENOENT then Ok false else Err 1
  end.

(** [setupPrefix]: the directories, the three files of [/private/etc], the user's home.
    [fopen] is whether a file can be opened for writing, [pw] the user's password entry. *)
Definition prefix_dirs : list (list Z) :=
  cstr <$> ["/Volumes"; "/Applications"; "/Users"; "/usr"; "/usr/local"; "/usr/local/share"; "/private"; "/private/var";
    "/private/var/log"; "/private/var/db"; "/private/etc"; "/var"; "/var/run"; "/var/tmp"; "/var/log"]%string.

Record passwd := mkPasswd { pw_name : list Z; pw_uid : Z; pw_gid : Z }.

(** [%d] of an identity. *)
Definition print_id (x : Z) : list Z := cstr (pretty (i32 x)).
Definition newline : list Z := [10].

Definition etc_files (pw : passwd) : list (list Z * list Z) :=
  let n := pw_name pw in
  let ids := print_id (pw_uid pw) ++ cstr ":" ++ print_id (pw_gid pw) in
  [(cstr "/private/etc/passwd",
    cstr "root:*:0:0:System Administrator:/var/root:/bin/sh" ++ newline ++
    n ++ cstr ":*:" ++ ids ++ cstr ":Osxie User:/Users/" ++ n ++ cstr ":/bin/bash" ++ newline);
   (cstr "/private/etc/master.passwd",
    cstr "root:*:0:0::0:0:System Administrator:/var/root:/bin/sh" ++ newline ++
    n ++ cstr ":*:" ++ ids ++ cstr "::0:0:Osxie User:/Users/" ++ n ++ cstr ":/bin/bash" ++ newline);
   (cstr "/private/etc/group",
    cstr "wheel:*:0:root," ++ n ++ newline ++ n ++ cstr ":*:" ++ print_id (pw_gid pw) ++ cstr ":" ++ n ++ newline)].

Fixpoint create_dirs (stat : list Z → stat_answer) (mkdir : list Z → bool) (path : list Z) (dirs : list (list Z)) : res Z unit :=
  match dirs with
  | [] => Ok tt
  | d :: dirs => _ ← createDir stat mkdir (path ++ d); create_dirs stat mkdir path dirs
  end.

Fixpoint write_files (fopen : list Z → bool) (path : list Z) (files : list (list Z * list Z)) : res Z (list (list Z * list Z)) :=
  match files with
  | [] => Ok []
  | (name, text) :: files =>
      if fopen (path ++ name) then rest ← write_files fopen path files; Ok ((path ++ name, text) :: rest) else Err 1
  end.

(** It gives the files it wrote.  [strcat] of a user name that does not fit [path] overruns
    it. *)
Definition setupPrefix (stat : list Z → stat_answer) (mkdir fopen : list Z → bool) (pw : option passwd) (prefix : list Z) :
    res Z (list (list Z * list Z)) :=
  _ ← createDir stat mkdir prefix;
  let path := prefix ++ [47] in
  _ ← create_dirs stat mkdir path prefix_dirs;
  match pw with
  | None => Err 1
  | Some pw =>
      files ← write_files fopen path (etc_files pw);
      let home := path ++ cstr "/Users/" ++ pw_name pw in
      if (4096 <=? length home)%nat then UB else
      _ ← createDir stat mkdir home;
      Ok files
  end.

Definition EACCES : Z := 13.

(** [owner] is the owner of the prefix, or the error of [stat]. *)
Definition checkPrefixOwner (uid : Z) (owner : Z + Z) : res Z unit :=
  match owner with
  | inr st_uid => if negb (uid =? 0) && negb (st_uid =? uid) then Err 1 else Ok tt
  | inl errno => if errno =? EACCES then Err 1 else Ok tt
  end.

(** ** The init process *)

(** A line of [/proc/<pid>/status] as the two [sscanf] calls read it. *)
Inductive status_line := UidLine (r e s f : Z) | GidLine (r e s f : Z) | OtherLine.

(** The file [.init.pid] ([Some None] when it holds no number), whether the process exists,
    its name, and its status file. *)
Record init_env := mkInitEnv {
  i_file : option (option Z);
  i_alive : bool;
  i_comm : option (list Z);
  i_status : option (list status_line);
}.

Definition same_ids (id r e s f : Z) : bool := (r =? id) && (e =? id) && (s =? id) && (f =? id).

(** [uidMatch] and [gidMatch] after the lines. *)
Definition match_line (uid gid : Z) (m : bool * bool) (l : status_line) : bool * bool :=
  match l with
  | UidLine r e s f => (same_ids uid r e s f, m.2)
  | GidLine r e s f => (m.1, same_ids gid r e s f)
  | OtherLine => m
  end.

(** [getInitProcess]: the process, 0 if there is none, and whether the file was removed. *)
Definition getInitProcess (uid gid : Z) (i : init_env) : Z * bool :=
  match i_file i with
  | None => (0, false)
  | Some None => (0, true)
  | Some (Some pid) =>
      if negb (i_alive i) then (0, true) else
      match i_comm i with
      | None => (0, true)
      | Some comm =>
          if negb (bytes_eqb comm (cstr "osxieserver")) then (0, true) else
          if uid =? 0 then (pid, false) else
          match i_status i with
          | None => (0, true)
          | Some lines =>
              let '(u, g) := foldl (match_line uid gid) (false, false) lines in
              if negb u || negb g then (0, true) else (pid, false)
          end
      end
  end.

(** ** Starting the container *)

(** The loop of [main], [n] rounds from round [i] on: in each whether the socket is there and
    whether init lives; [final] is the last look at the socket. *)
Fixpoint wait_socket (n i : nat) (rounds : nat → bool * bool) (final : bool) : res Z unit :=
  let last := if final then Ok tt else Err 1 in
  match n with
  | O => last
  | S n =>
      let '(there, alive) := rounds i in
      if there then last else if negb alive then Err 1 else wait_socket n (S i) rounds final
  end.

(** ** [main] *)

Inductive options := NoOption | HelpOption | VersionOption.

Record main_env := mkMainEnv {
  m_argv : list (list Z);
  m_euid : Z; m_uid : Z; m_gid : Z;
  m_dprefix : option (list Z); m_home : option (list Z);
  m_stat : list Z → stat_answer; m_mkdir : list Z → bool;
  m_fopen : list Z → bool; m_passwd : option passwd;
  m_owner : Z + Z;
  m_options : options;
  m_init : init_env;
  m_spawn : option Z;
  m_rounds : nat → bool * bool; m_final : bool;
  m_realpath : list Z → option (list Z);
  m_search : list (list Z);
}.

Inductive action := Shutdown (pid : Z) | RunShell (pid : Z) (argv : option (list (list Z)))
  | RunBinary (pid : Z) (binary : list Z) (argv : list (list Z)).

(** The directories that are searched for a bare name. *)
Fixpoint search_dirs (realpath : list Z → option (list Z)) (name : list Z) (dirs : list (list Z)) : option (list Z) :=
  match dirs with
  | [] => None
  | d :: dirs =>
      match realpath (snprintf 4096 (d ++ [47] ++ name)) with
      | Some p => Some p
      | None => search_dirs realpath name dirs
      end
  end.

Definition resolve (e : main_env) (name : list Z) : option (list Z) :=
  match m_realpath e name with
  | Some p => Some p
  | None => if bool_decide (47 ∈ name) then None else search_dirs (m_realpath e) name (m_search e)
  end.

(** The init process of the container, started if there is none (after the old socket file was
    removed, which this does not show). *)
Definition boot (e : main_env) (prefix : list Z) (pid : Z) : res Z Z :=
  if negb (pid =? 0) then Ok pid else
  _ ← setupWorkdir (m_stat e) (m_mkdir e) prefix;
  match m_spawn e with
  | None => Err 1
  | Some pid => _ ← wait_socket 30 0 (m_rounds e) (m_final e); Ok pid
  end.

(** The subcommands other than [shutdown]. *)
Definition dispatch (e : main_env) (pid : Z) (arg1 : list Z) : res Z action :=
  if bytes_eqb arg1 (cstr "shell") then
    Ok (RunShell pid (if (2 <? length (m_argv e))%nat then Some (drop 2 (m_argv e)) else None))
  else
    let doExec := bytes_eqb arg1 (cstr "exec") in
    let argvIndex := if doExec then 2%nat else 1%nat in
    if doExec && (length (m_argv e) <=? 2)%nat then Err 1 else
    name ← access (m_argv e !! argvIndex);
    match resolve e name with
    | None => Err 1
    | Some path =>
        let fullPath := SYSTEM_ROOT ++ path in
        let argv := fullPath :: drop (S argvIndex) (m_argv e) in
        Ok (if doExec then RunBinary pid fullPath argv else RunShell pid (Some argv))
    end.

Definition main (e : main_env) : res Z action :=
  if (length (m_argv e) <=? 1)%nat then Err 1 else
  if negb (m_euid e =? 0) then Err 1 else
  match (match m_dprefix e with Some p => Some p | None => defaultPrefixPath (m_home e) end) with
  | None => Err 1
  | Some prefix =>
      if (255 <? length prefix)%nat then Err 1 else
      ready ← checkPrefixDir (m_stat e) prefix;
      _ ← (if (ready : bool) then Ok [] else setupPrefix (m_stat e) (m_mkdir e) (m_fopen e) (m_passwd e) prefix);
      _ ← checkPrefixOwner (m_uid e) (m_owner e);
      match m_options e with
      | HelpOption | VersionOption => Err 0
      | NoOption =>
          let '(pid, _) := getInitProcess (m_uid e) (m_gid e) (m_init e) in
          arg1 ← access (m_argv e !! 1%nat);
          if bytes_eqb arg1 (cstr "shutdown") then if pid =? 0 then Err 1 else Ok (Shutdown pid)
          else pid ← boot e prefix pid; dispatch e pid arg1
      end
  end.

(** ** The init process belongs to the user *)

Definition uid_of (l : status_line) : option (Z * Z * Z * Z) := match l with UidLine r e s f => Some (r, e, s, f) | _ => None end.
Definition gid_of (l : status_line) : option (Z * Z * Z * Z) := match l with GidLine r e s f => Some (r, e, s, f) | _ => None end.

Lemma match_lines uid gid lines u g :
  foldl (match_line uid gid) (false, false) lines = (u, g) →
  (u = true → last (omap uid_of lines) = Some (uid, uid, uid, uid)) ∧
  (g = true → last (omap gid_of lines) = Some (gid, gid, gid, gid)).
Proof.
  assert (∀ id r e s f, same_ids id r e s f = true → r = id ∧ e = id ∧ s = id ∧ f = id) as Hs by (unfold same_ids; intros; lia).
  revert u g. induction lines as [|l lines IH] using rev_ind; intros u g; [by intros [= <- <-]|].
  rewrite foldl_app, !omap_app. destruct (foldl _ _ lines) as [u' g'] eqn:E. destruct (IH u' g' eq_refl) as [IH1 IH2].
  destruct l as [r e s f|r e s f|]; cbn; intros [= <- <-]; rewrite ?last_snoc, ?app_nil_r; split; try done;
    intros (-> & -> & -> & ->)%Hs; done.
Qed.

(** The process the command takes for the container's init is one.  It is the process
    recorded in the prefix, it exists and is an osxieserver, and unless root asks, its real,
    effective, saved and file system identities are those of the user, for user and group;
    a record that fails any of these tests is removed. *)
Theorem init_process_checked uid gid i pid removed :
  getInitProcess uid gid i = (pid, removed) →
  (pid ≠ 0 → i_file i = Some (Some pid) ∧ i_alive i = true ∧ i_comm i = Some (cstr "osxieserver") ∧ removed = false ∧
     (uid ≠ 0 → ∃ lines, i_status i = Some lines ∧ last (omap uid_of lines) = Some (uid, uid, uid, uid) ∧
                last (omap gid_of lines) = Some (gid, gid, gid, gid))) ∧
  (removed = true → is_Some (i_file i)) ∧
  (pid = 0 → i_file i ≠ None → i_file i ≠ Some (Some 0) → removed = true).
Proof.
  unfold getInitProcess. destruct (i_file i) as [[p|]|]; [|by intros [= <- <-]..].
  destruct (i_alive i); [|by intros [= <- <-]]. destruct (i_comm i) as [comm|]; [|by intros [= <- <-]].
  destruct (bytes_eqb comm (cstr "osxieserver")) eqn:Ec; [|by intros [= <- <-]]. apply bytes_eqb_spec in Ec as ->. cbn [negb].
  destruct (Z.eqb_spec uid 0) as [->|Hu]; [intros [= <- <-]; split_and!; try done; intros ->; done|].
  destruct (i_status i) as [lines|]; [|by intros [= <- <-]].
  destruct (foldl _ _ lines) as [u g] eqn:E. apply match_lines in E as [H1 H2].
  destruct u, g; cbn; intros [= <- <-]; split_and!; try done; try (intros ->; done).
  intros _. split_and!; try done. intros _. exists lines. auto.
Qed.

(** ** What is run *)

(** The file of a name: the name itself or, for one without a slash, the first directory of
    the search list that has it. *)
Definition candidate_path (d name : list Z) : list Z := take 4095 (d ++ 47 :: name).
Definition located (e : main_env) (name path : list Z) : Prop :=
  m_realpath e name = Some path ∨
  m_realpath e name = None ∧ 47 ∉ name ∧
    ∃ i d, m_search e !! i = Some d ∧ m_realpath e (candidate_path d name) = Some path ∧
      ∀ j d', (j < i)%nat → m_search e !! j = Some d' → m_realpath e (candidate_path d' name) = None.

Lemma search_dirs_spec realpath name dirs path :
  search_dirs realpath name dirs = Some path →
  ∃ i d, dirs !! i = Some d ∧ realpath (candidate_path d name) = Some path ∧
    ∀ j d', (j < i)%nat → dirs !! j = Some d' → realpath (candidate_path d' name) = None.
Proof.
  induction dirs as [|d dirs IH]; [done|]. cbn [search_dirs]. change (snprintf 4096 (d ++ [47] ++ name)) with (candidate_path d name).
  destruct (realpath (candidate_path d name)) as [p|] eqn:E.
  - intros [= ->]. exists 0%nat, d. split_and!; [done|done|]. intros j d' Hj. lia.
  - intros (i & d1 & H1 & H2 & H3)%IH. exists (S i), d1. split_and!; [done|done|]. intros [|j] d' Hj Hd; [by injection Hd as <-|].
    apply (H3 j d'); [lia|done].
Qed.

Lemma resolve_located e name path : resolve e name = Some path → located e name path.
Proof.
  unfold resolve, located. destruct (m_realpath e name) as [p|]; [by left|]. case_bool_decide; [done|]. intros H2%search_dirs_spec. by right.
Qed.

(** What an action says about the arguments. *)
Definition action_ok (e : main_env) (a : action) : Prop :=
  match a with
  | Shutdown _ => m_argv e !! 1%nat = Some (cstr "shutdown")
  | RunBinary _ binary argv =>
      m_argv e !! 1%nat = Some (cstr "exec") ∧ ∃ name path, m_argv e !! 2%nat = Some name ∧ located e name path ∧
        binary = SYSTEM_ROOT ++ path ∧ argv = binary :: drop 3 (m_argv e)
  | RunShell _ None => m_argv e !! 1%nat = Some (cstr "shell") ∧ length (m_argv e) = 2%nat
  | RunShell _ (Some argv) => argv ≠ [] ∧
      (m_argv e !! 1%nat = Some (cstr "shell") ∧ argv = drop 2 (m_argv e) ∨
       ∃ name path, m_argv e !! 1%nat = Some name ∧ located e name path ∧ argv = (SYSTEM_ROOT ++ path) :: drop 2 (m_argv e))
  end.

Definition action_pid (a : action) : Z := match a with Shutdown p | RunShell p _ | RunBinary p _ _ => p end.

(** The init process that is recorded in the prefix, lives and is the user's. *)
Definition recorded_init (e : main_env) (pid : Z) : Prop :=
  pid ≠ 0 ∧ i_file (m_init e) = Some (Some pid) ∧ i_alive (m_init e) = true ∧ i_comm (m_init e) = Some (cstr "osxieserver") ∧
  (m_uid e ≠ 0 → ∃ lines, i_status (m_init e) = Some lines ∧
     last (omap uid_of lines) = Some (m_uid e, m_uid e, m_uid e, m_uid e) ∧
     last (omap gid_of lines) = Some (m_gid e, m_gid e, m_gid e, m_gid e)).

(** The one that was started: init lived while its socket was not there, for at most 30
    rounds, and then the socket was there. *)
Definition started_init (e : main_env) (pid : Z) : Prop :=
  m_spawn e = Some pid ∧ m_final e = true ∧
  ∃ k, (k ≤ 30)%nat ∧ (∀ i, (i < k)%nat → m_rounds e i = (false, true)) ∧ (k = 30%nat ∨ (m_rounds e k).1 = true).

Lemma wait_socket_spec n i rounds final :
  wait_socket n i rounds final = Ok tt →
  final = true ∧ ∃ k, (i ≤ k ≤ i + n)%nat ∧ (∀ j, (i ≤ j < k)%nat → rounds j = (false, true)) ∧ (k = (i + n)%nat ∨ (rounds k).1 = true).
Proof.
  revert i. induction n as [|n IH]; intros i; cbn [wait_socket].
  { destruct final; [|done]. intros _. split; [done|]. exists i. split_and!; [lia|lia|lia|left; lia]. }
  destruct (rounds i) as [there alive] eqn:E. destruct there.
  - destruct final; [|done]. intros _. split; [done|]. exists i. split_and!; [lia|lia|lia|right; by rewrite E].
  - destruct alive; [|done]. intros (Hf & k & Hk & Hb & Hw)%IH. split; [done|]. exists k. split_and!; [lia|lia| |destruct Hw; [left; lia|by right]].
    intros j Hj. destruct (decide (j = i)) as [->|]; [done|]. apply Hb. lia.
Qed.

Lemma init_recorded e : (getInitProcess (m_uid e) (m_gid e) (m_init e)).1 ≠ 0 →
  recorded_init e (getInitProcess (m_uid e) (m_gid e) (m_init e)).1.
Proof.
  destruct (getInitProcess _ _ _) as [pid rm] eqn:E. apply init_process_checked in E as [H _]. cbn. intros Hp.
  destruct (H Hp) as (H1 & H2 & H3 & _ & H4). by split_and!.
Qed.

Lemma boot_spec e prefix pid pid' : boot e prefix pid = Ok pid' → pid ≠ 0 ∧ pid' = pid ∨ pid = 0 ∧ started_init e pid'.
Proof.
  unfold boot. destruct (Z.eqb_spec pid 0) as [->|]; cbn [negb]; [|intros [= <-]; by left]. intros H. inv_bind H.
  destruct (m_spawn e) as [p|] eqn:Es; [|done]. destruct (wait_socket _ _ _ _) as [[]| | |] eqn:Ew; try done. injection H as <-.
  apply wait_socket_spec in Ew as (Hf & k & Hk & Hb & Hw). right. split; [done|]. split_and!; [done|done|]. exists k.
  split_and!; [lia|intros i Hi; apply Hb; lia|exact Hw].
Qed.

(** A directory that exists or was made. *)
Definition dir_made (e : main_env) (p : list Z) : Prop :=
  m_stat e p = IsDir ∨ m_stat e p = NoStat ENOENT ∧ m_mkdir e p = true.

(** The prefix was set up before, or it is now: the directories are there, the files were
    written, the user has a home. *)
Definition prefix_ready (e : main_env) (prefix : list Z) : Prop :=
  m_stat e prefix = IsDir ∧ m_stat e (take 4095 (prefix ++ cstr "/Volumes")) = IsDir ∨
  dir_made e prefix ∧ (∀ d, d ∈ prefix_dirs → dir_made e (prefix ++ 47 :: d)) ∧
    ∃ pw, m_passwd e = Some pw ∧ dir_made e (prefix ++ 47 :: cstr "/Users/" ++ pw_name pw) ∧
      ∀ f, f ∈ etc_files pw → m_fopen e (prefix ++ 47 :: f.1) = true.

Lemma createDir_made e p : createDir (m_stat e) (m_mkdir e) p = Ok tt → dir_made e p.
Proof.
  unfold createDir, dir_made. destruct (m_stat e p) as [| |n]; [by left|done|]. destruct (Z.eqb_spec n ENOENT) as [->|]; [|done].
  destruct (m_mkdir e p); [by right|done].
Qed.

Lemma create_dirs_made e path dirs : create_dirs (m_stat e) (m_mkdir e) path dirs = Ok tt → ∀ d, d ∈ dirs → dir_made e (path ++ d).
Proof.
  induction dirs as [|x dirs IH]; [intros _ d ?%elem_of_nil; done|]. cbn. intros H. inv_bind H. destruct v.
  intros d [->|Hd]%elem_of_cons; [by apply createDir_made|by apply IH].
Qed.

Lemma write_files_opened fopen path files l : write_files fopen path files = Ok l → ∀ f, f ∈ files → fopen (path ++ f.1) = true.
Proof.
  revert l. induction files as [|[name text] files IH]; intros l; [intros _ f ?%elem_of_nil; done|]. cbn.
  destruct (fopen (path ++ name)) eqn:E; [|done]. intros H. inv_bind H. intros f [->|Hf]%elem_of_cons; [done|by eapply IH].
Qed.

Lemma setupPrefix_ready e prefix files :
  setupPrefix (m_stat e) (m_mkdir e) (m_fopen e) (m_passwd e) prefix = Ok files → prefix_ready e prefix.
Proof.
  unfold setupPrefix. intros H. inv_bind H. inv_bind H. destruct (m_passwd e) as [pw|] eqn:Ep; [|done]. inv_bind H.
  case_match; [done|]. inv_bind H. repeat match goal with v : () |- _ => destruct v end.
  repeat match goal with Hc : createDir _ _ _ = Ok _ |- _ => apply createDir_made in Hc end.
  match goal with Hc : create_dirs _ _ _ _ = Ok _ |- _ => pose proof (create_dirs_made _ _ _ Hc) as Hd end.
  match goal with Hc : write_files _ _ _ = Ok _ |- _ => pose proof (write_files_opened _ _ _ _ Hc) as Hw end.
  assert (∀ x : list Z, (prefix ++ [47]) ++ x = prefix ++ 47 :: x) as Ha by (intros x; by rewrite <- app_assoc).
  right. split_and!; [done|intros d Hin; rewrite <- Ha; by apply Hd|]. exists pw. split_and!; [done|by rewrite <- Ha|].
  intros f Hf. rewrite <- Ha. by apply Hw.
Qed.

Lemma checkPrefixDir_ready e prefix : checkPrefixDir (m_stat e) prefix = Ok true → prefix_ready e prefix.
Proof. unfold checkPrefixDir, prefix_ready. repeat case_match; try done. intros _. by left. Qed.

Lemma dispatch_ok e pid arg1 :
  m_argv e !! 1%nat = Some arg1 → ensures (dispatch e pid arg1) (fun a => action_ok e a ∧ action_pid a = pid ∧ ∀ p, a ≠ Shutdown p).
Proof.
  intros H1. pose proof (lookup_lt_Some _ _ _ H1) as Hl. unfold dispatch.
  destruct (bytes_eqb arg1 (cstr "shell")) eqn:Es.
  - apply bytes_eqb_spec in Es as ->. destruct (Nat.ltb_spec 2 (length (m_argv e))); cbn; [|split; [by split; [|lia]|done]].
    split; [|done]. split; [|by left]. intros Hn. apply (f_equal length) in Hn. rewrite length_drop in Hn. cbn in Hn. lia.
  - destruct (bytes_eqb arg1 (cstr "exec")) eqn:Ee; cbn [andb].
    + apply bytes_eqb_spec in Ee as ->. destruct (Nat.leb_spec (length (m_argv e)) 2); [done|].
      destruct (lookup_lt_is_Some_2 (m_argv e) 2) as [name Hn]; [lia|]. rewrite Hn. cbn [access]. rewrite bind_Ok.
      destruct (resolve e name) as [path|] eqn:Er; [|done]. apply resolve_located in Er. cbn. split; [|done]. split; [done|]. by exists name, path.
    + rewrite H1. cbn [access]. rewrite bind_Ok. destruct (resolve e arg1) as [path|] eqn:Er; [|done]. apply resolve_located in Er. cbn.
      split; [|done]. split; [done|]. right. by exists arg1, path.
Qed.

Lemma strip_slashes_UB n w : (n ≤ length w)%nat → strip_slashes n w = UB → Forall (fun c => c = 47) (take n w).
Proof.
  induction n as [|n IH]; intros Hn; [intros _; constructor|]. cbn [strip_slashes].
  destruct (lookup_lt_is_Some_2 w n) as [c Hc]; [lia|]. rewrite Hc. cbn [access]. rewrite bind_Ok.
  destruct (Z.eqb_spec c 47) as [->|]; [|done]. intros H. rewrite (take_S_r _ _ _ Hc). apply Forall_app. split; [apply IH; [lia|done]|by constructor].
Qed.

(** What is defined. *)
Definition not_UB {A : Type} (m : res Z A) : Prop := m ≠ UB.

Lemma createDir_defined stat mkdir path : not_UB (createDir stat mkdir path).
Proof. unfold createDir, not_UB. destruct (stat path) as [| |n]; [done|done|]. destruct (n =? ENOENT); [|done]. by destruct (mkdir path). Qed.

Lemma wait_socket_defined n i rounds final : not_UB (wait_socket n i rounds final).
Proof.
  revert i. induction n as [|n IH]; intros i; cbn; [by destruct final|]. destruct (rounds i) as [[] []]; [by destruct final..|apply IH|done].
Qed.

(** The name of the user, if it is too long for the path. *)
Definition long_user (e : main_env) (prefix : list Z) : Prop :=
  ∃ pw, m_passwd e = Some pw ∧ 4096 ≤ Z.of_nat (length (prefix ++ 47 :: cstr "/Users/" ++ pw_name pw)).

Lemma create_dirs_defined stat mkdir path dirs : not_UB (create_dirs stat mkdir path dirs).
Proof.
  induction dirs as [|d dirs IH]; [done|]. cbn. pose proof (createDir_defined stat mkdir (path ++ d)).
  destruct (createDir _ _ _); done.
Qed.

Lemma write_files_defined fopen path files : not_UB (write_files fopen path files).
Proof. induction files as [|[n t] files IH]; [done|]. cbn. destruct (fopen _); [|done]. by destruct (write_files _ _ files). Qed.

Lemma setupPrefix_UB e prefix :
  setupPrefix (m_stat e) (m_mkdir e) (m_fopen e) (m_passwd e) prefix = UB → long_user e prefix.
Proof.
  unfold setupPrefix. pose proof (createDir_defined (m_stat e) (m_mkdir e)) as Hd.
  pose proof (Hd prefix) as Hd1. destruct (createDir _ _ prefix); try done. rewrite bind_Ok.
  pose proof (create_dirs_defined (m_stat e) (m_mkdir e) (prefix ++ [47]) prefix_dirs) as Hd2.
  destruct (create_dirs _ _ _ _); try done. rewrite bind_Ok. destruct (m_passwd e) as [pw|] eqn:Ep; [|done].
  pose proof (write_files_defined (m_fopen e) (prefix ++ [47]) (etc_files pw)) as Hw. destruct (write_files _ _ _); try done.
  rewrite bind_Ok, <- app_assoc. destruct (Nat.leb_spec 4096 (length (prefix ++ [47] ++ cstr "/Users/" ++ pw_name pw))) as [Hl|]; [exists pw; split; [done|cbn [app] in Hl; lia]|].
  match goal with |- context [createDir _ _ ?p] => pose proof (Hd p) as Hd3; by destruct (createDir _ _ p) end.
Qed.

Lemma boot_UB e prefix pid : boot e prefix pid = UB → Forall (fun c => c = 47) prefix.
Proof.
  unfold boot, setupWorkdir, workdir_path. destruct (negb (pid =? 0)); [done|].
  destruct (strip_slashes (length prefix) prefix) as [len| | |] eqn:E; try done.
  - rewrite !bind_Ok. pose proof (createDir_defined (m_stat e) (m_mkdir e) (take len prefix ++ cstr ".workdir")) as Hd.
    destruct (createDir _ _ _); try done. rewrite bind_Ok. destruct (m_spawn e); [|done].
    pose proof (wait_socket_defined 30 0 (m_rounds e) (m_final e)) as Hw. by destruct (wait_socket _ _ _ _).
  - intros _. apply strip_slashes_UB in E; [|done]. by rewrite take_ge in E.
Qed.

Notation prefix_of e p := (m_dprefix e = Some p ∨ m_dprefix e = None ∧ defaultPrefixPath (m_home e) = Some p).


(** ** Witnesses *)

Definition example_init : init_env :=
  mkInitEnv (Some (Some 77)) true (Some (cstr "osxieserver"))
    (Some [OtherLine; UidLine 1000 1000 1000 1000; GidLine 100 100 100 100; OtherLine]).

Lemma init_process_checked_witness :
  getInitProcess 1000 100 example_init = (77, false) ∧
  ∃ lines, i_status example_init = Some lines ∧ last (omap uid_of lines) = Some (1000, 1000, 1000, 1000).
Proof.
  split; [reflexivity|]. destruct (init_process_checked 1000 100 example_init 77 false) as [H _]; [reflexivity|].
  destruct (H ltac:(lia)) as (_ & _ & _ & _ & H'). destruct (H' ltac:(lia)) as (lines & H1 & H2 & _).
  exists lines. split; [exact H1|exact H2].
Defined.

(** [osxie exec prog x] in the user's own prefix, with the container running. *)
Definition example_main : main_env :=
  mkMainEnv [cstr "osxie"; cstr "exec"; cstr "prog"; cstr "x"] 0 1000 100 None (Some (cstr "/home/joe")) (fun _ => IsDir) (fun _ => true)
    (fun _ => true) None (inr 1000) NoOption example_init None (fun _ => (true, true)) true (fun p => Some (cstr "/work/" ++ p)) [].

